(** * distributed-scraper: explorer / extractor workers and the start handshake

    A shallow embedding of [explorer.py], [extractor.py], [scraper.py] and
    [app.py].  Python code that may raise is written in an error monad,
    code that talks to Redis or to the network is written as a command
    tree whose commands are executed one at a time against a shared
    broker, so that any number of worker processes can be interleaved. *)

From Stdlib Require Import ZArith Ascii String List Bool Lia.
From stdpp Require Import base tactics option list sets gmap strings pretty.

Import ListNotations.
Local Open Scope string_scope.
Local Open Scope list_scope.
Local Open Scope Z_scope.

Set Warnings "-register-all".

(** ** Python exceptions *)

Module Py.

(** The subclasses of [Exception] the four files can meet. *)
Inductive exception : Type :=
| JSONDecodeError                (* json.loads on text that is not JSON *)
| KeyError (key : string)        (* item['url'] on a dict without the key *)
| TypeError                      (* subscripting a non-dict, len(None), ... *)
| ValueError                     (* urlparse on a malformed authority *)
| DataError                      (* redis-py refusing to encode a value *)
| ConnectionError                (* redis.ConnectionError *)
| RequestException               (* requests.RequestException and subclasses *)
| OtherException.                (* any other subclass of Exception *)

(** What can be raised: an [Exception], or [SystemExit] from
    [sys.exit(code)], which is not one. *)
Inductive exn : Type :=
| Exc (e : exception)
| SystemExit (code : Z).
Coercion Exc : exception >-> exn.

(** The classes named in the [except] clauses of the sources. *)
Inductive exn_class : Type :=
| BaseException_                 (* bare [except:] *)
| Exception_                     (* [except Exception] *)
| redis_ConnectionError          (* [except redis.ConnectionError] *)
| json_JSONDecodeError           (* [except json.JSONDecodeError] *)
| requests_RequestException.     (* [except requests.RequestException] *)

Definition isinstance (e : exn) (c : exn_class) : bool :=
  match c with
  | BaseException_ => true
  | Exception_ => match e with Exc _ => true | SystemExit _ => false end
  | redis_ConnectionError => match e with Exc ConnectionError => true | _ => false end
  | json_JSONDecodeError => match e with Exc JSONDecodeError => true | _ => false end
  | requests_RequestException => match e with Exc RequestException => true | _ => false end
  end.

(** A Python expression either yields a value or raises. *)
Inductive result (A : Type) : Type :=
| Ok (a : A)
| Raise (e : exn).
Arguments Ok {A} a.
Arguments Raise {A} e.

Definition bind {A B} (r : result A) (k : A -> result B) : result B :=
  match r with
  | Ok a => k a
  | Raise e => Raise e
  end.

(** A call into a library: it returns, or it raises an [Exception]. *)
Inductive lib (A : Type) : Type :=
| Returns (a : A)
| Fails (e : exception).
Arguments Returns {A} a.
Arguments Fails {A} e.

Definition of_lib {A} (r : lib A) : result A :=
  match r with
  | Returns a => Ok a
  | Fails e => Raise e
  end.

(** [try: body except C1: h1 except C2: h2 ...]: the first clause whose
    class matches handles the exception, otherwise it propagates. *)
Fixpoint handle {A} (clauses : list (exn_class * (exn -> result A))) (e : exn)
  : result A :=
  match clauses with
  | [] => Raise e
  | (c, h) :: rest => if isinstance e c then h e else handle rest e
  end.

Definition try_except {A} (body : result A)
    (clauses : list (exn_class * (exn -> result A))) : result A :=
  match body with
  | Ok a => Ok a
  | Raise e => handle clauses e
  end.

End Py.
Import Py.

Declare Scope py_scope.
Delimit Scope py_scope with py.
Notation "x <- e ;; k" := (Py.bind e (fun x => k))
  (at level 100, e at next level, right associativity) : py_scope.

(** ** Python strings *)

Module Str.

(** Strings are sequences of bytes; only the ASCII letters have case. *)
Definition lower_char (c : ascii) : ascii :=
  let n := nat_of_ascii c in
  if (Nat.leb 65 n && Nat.leb n 90)%bool then ascii_of_nat (n + 32) else c.

Fixpoint lower (s : string) : string :=
  match s with
  | EmptyString => EmptyString
  | String c r => String (lower_char c) (lower r)
  end.

(** [s.endswith(suffix)] *)
Definition endswith (s suffix : string) : bool :=
  let n := String.length s in
  let m := String.length suffix in
  (Nat.leb m n && String.eqb (substring (n - m) m s) suffix)%bool.

(** [c in s] *)
Fixpoint contains (c : ascii) (s : string) : bool :=
  match s with
  | EmptyString => false
  | String a r => (Ascii.eqb a c || contains c r)%bool
  end.

(** [s.partition(c)] for a one-character separator: the text before the
    first [c] and the text after it, or [None] when [c] does not occur. *)
Fixpoint partition (c : ascii) (s : string) : option (string * string) :=
  match s with
  | EmptyString => None
  | String a r =>
      if Ascii.eqb a c then Some (EmptyString, r)
      else match partition c r with
           | Some (h, t) => Some (String a h, t)
           | None => None
           end
  end.

(** [s.replace(c, '')] *)
Fixpoint remove_char (c : ascii) (s : string) : string :=
  match s with
  | EmptyString => EmptyString
  | String a r => if Ascii.eqb a c then remove_char c r else String a (remove_char c r)
  end.

(** The characters [str.strip()] removes, among the bytes below 128. *)
Definition isspace (c : ascii) : bool :=
  let n := nat_of_ascii c in
  ((Nat.leb 9 n && Nat.leb n 13) || (Nat.leb 28 n && Nat.leb n 32))%bool.

Fixpoint lstrip_by (f : ascii -> bool) (s : string) : string :=
  match s with
  | EmptyString => EmptyString
  | String a r => if f a then lstrip_by f r else s
  end.

Fixpoint rev_onto (s acc : string) : string :=
  match s with
  | EmptyString => acc
  | String a r => rev_onto r (String a acc)
  end.

Definition rev (s : string) : string := rev_onto s EmptyString.

Definition rstrip_by (f : ascii -> bool) (s : string) : string :=
  rev (lstrip_by f (rev s)).

(** [s.strip()] *)
Definition strip (s : string) : string := rstrip_by isspace (lstrip_by isspace s).

(** Python truthiness of a string: non-empty. *)
Definition truthy (s : string) : bool :=
  match s with EmptyString => false | _ => true end.

End Str.

(** ** urllib.parse

    [urlparse] belongs to the Python standard library, not to the
    repository.  The worker code is written against an arbitrary
    [urlparse]; the model below follows CPython's [urlsplit] / [urlparse]
    on URLs whose authority is ASCII and has no bracketed host, and is
    used to evaluate the filter on concrete URLs. *)

Module Urllib.

Record ParseResult : Type := {
  scheme : string;
  netloc : string;
  path : string;
  params : string;
  query : string;
  fragment : string
}.

Definition is_alpha (c : ascii) : bool :=
  let n := nat_of_ascii c in
  ((Nat.leb 65 n && Nat.leb n 90) || (Nat.leb 97 n && Nat.leb n 122))%bool.

Definition is_digit (c : ascii) : bool :=
  let n := nat_of_ascii c in (Nat.leb 48 n && Nat.leb n 57)%bool.

(** [scheme_chars]: letters, digits and [+-.] *)
Definition scheme_char (c : ascii) : bool :=
  (is_alpha c || is_digit c || Ascii.eqb c "+" || Ascii.eqb c "-" || Ascii.eqb c ".")%bool.

(** [_WHATWG_C0_CONTROL_OR_SPACE] *)
Definition c0_control_or_space (c : ascii) : bool := Nat.leb (nat_of_ascii c) 32.

Fixpoint all_chars (f : ascii -> bool) (s : string) : bool :=
  match s with
  | EmptyString => true
  | String a r => (f a && all_chars f r)%bool
  end.

(** [i = url.find(':'); if i > 0 and url[0].isalpha() and all of url[:i] in
    scheme_chars: scheme, url = url[:i].lower(), url[i+1:]] *)
Definition split_scheme (url : string) : string * string :=
  match Str.partition ":" url with
  | Some (String c _ as pre, rest) =>
      if (is_alpha c && all_chars scheme_char pre)%bool
      then (Str.lower pre, rest) else (EmptyString, url)
  | _ => (EmptyString, url)
  end.

Definition is_delim (c : ascii) : bool :=
  (Ascii.eqb c "/" || Ascii.eqb c "?" || Ascii.eqb c "#")%bool.

(** [_splitnetloc(url, 2)] on the text after the leading [//]: the
    authority runs up to the first of [/], [?], [#]. *)
Fixpoint splitnetloc (s : string) : string * string :=
  match s with
  | EmptyString => (EmptyString, EmptyString)
  | String c r =>
      if is_delim c then (EmptyString, s)
      else let '(n, rest) := splitnetloc r in (String c n, rest)
  end.

Definition split_at (c : ascii) (s : string) : string * string :=
  match Str.partition c s with
  | Some (a, b) => (a, b)
  | None => (s, EmptyString)
  end.

Definition remove_unsafe (s : string) : string :=
  Str.remove_char "010" (Str.remove_char "013" (Str.remove_char "009" s)).

Definition urlsplit (url0 : string) : lib (string * string * string * string * string) :=
  let url := remove_unsafe (Str.lstrip_by c0_control_or_space url0) in
  let '(sch, url) := split_scheme url in
  let authority :=
    match url with
    | String "/" (String "/" after) =>
        let '(nl, rest) := splitnetloc after in
        let lb := Str.contains "[" nl in
        let rb := Str.contains "]" nl in
        if ((lb && negb rb) || (rb && negb lb))%bool
        then Fails ValueError          (* "Invalid IPv6 URL" *)
        else Returns (nl, rest)
    | _ => Returns (EmptyString, url)
    end in
  match authority with
  | Returns (nl, url) =>
      let '(url, frag) := split_at "#" url in
      let '(url, qry) := split_at "?" url in
      Returns (sch, nl, url, qry, frag)
  | Fails e => Fails e
  end.

Definition uses_params : list string :=
  [EmptyString; "ftp"; "hdl"; "prospero"; "http"; "imap"; "https"; "shttp"; "rtsp";
   "rtspu"; "sip"; "sips"; "mms"; "sftp"; "tel"].

(** [_splitparams]: the parameters start at the first [;] of the last path
    segment. *)
Definition splitparams (url : string) : string * string :=
  match Str.partition "/" (Str.rev url) with
  | Some (rlast, rpre) =>
      match Str.partition ";" (Str.rev rlast) with
      | Some (a, b) => ((Str.rev rpre ++ "/" ++ a)%string, b)
      | None => (url, EmptyString)
      end
  | None => split_at ";" url
  end.

Definition urlparse (url : string) : lib ParseResult :=
  match urlsplit url with
  | Returns (sch, nl, p, qry, frag) =>
      let '(p, prm) :=
        if (existsb (String.eqb sch) uses_params && Str.contains ";" p)%bool
        then splitparams p else (p, EmptyString) in
      Returns {| scheme := sch; netloc := nl; path := p; params := prm;
                 query := qry; fragment := frag |}
  | Fails e => Fails e
  end.

End Urllib.

(** ** json

    A queue payload is a piece of text.  [json.loads] either raises
    [JSONDecodeError] on it or returns the value it denotes, so a payload
    is represented by that outcome. *)

Module Json.

(** What [json.loads] returns: [None], a bool, a number (kept as the text
    Python's [repr] gives it), a str, a list or a dict. *)
Inductive value : Type :=
| Null
| Bool (b : bool)
| Num (repr : string)
| Str (s : string)
| Arr (items : list value)
| Obj (fields : list (string * value)).

Inductive text : Type :=
| Dumps (v : value)        (* the text json.dumps(v) *)
| Garbage (raw : string).  (* text that is not JSON *)

Definition loads (t : text) : result value :=
  match t with
  | Dumps v => Ok v
  | Garbage _ => Raise JSONDecodeError
  end.

Definition dumps (v : value) : text := Dumps v.

(** A dict built from JSON keeps the last value given for a key. *)
Definition dict_get (fields : list (string * value)) (key : string) : option value :=
  fold_left (fun acc kv => if String.eqb (fst kv) key then Some (snd kv) else acc)
            fields None.

(** [item[key]] with a str key *)
Definition getitem (item : value) (key : string) : result value :=
  match item with
  | Obj fields =>
      match dict_get fields key with
      | Some v => Ok v
      | None => Raise (KeyError key)
      end
  | _ => Raise TypeError
  end.

End Json.

(** ** BeautifulSoup

    The parse tree as the two files use it: [find], [find_all], [.string],
    [get_text()] and attribute access.  The parser itself is a parameter
    of the worker code. *)

Module Bs4.

Inductive node : Type :=
| Text (s : string)                                        (* NavigableString *)
| Tag (name : string) (attrs : list (string * string)) (contents : list node).

Definition soup : Type := list node.

Definition first_some {A B} (f : A -> option B) : list A -> option B :=
  fix go (l : list A) : option B :=
    match l with
    | [] => None
    | x :: r => match f x with Some y => Some y | None => go r end
    end.

(** First tag with the given name, in document order. *)
Fixpoint find_in (name : string) (n : node) : option node :=
  match n with
  | Text _ => None
  | Tag nm _ cs =>
      if String.eqb nm name then Some n else first_some (find_in name) cs
  end.

(** [soup.find(name)] *)
Definition find (s : soup) (name : string) : option node :=
  first_some (find_in name) s.

Definition concat_map {A B} (f : A -> list B) : list A -> list B :=
  fix go (l : list A) : list B :=
    match l with
    | [] => []
    | x :: r => f x ++ go r
    end.

Definition has_attr (key : string) (n : node) : bool :=
  match n with
  | Text _ => false
  | Tag _ attrs _ => existsb (fun kv => String.eqb (fst kv) key) attrs
  end.

Fixpoint find_all_in (name key : string) (n : node) : list node :=
  match n with
  | Text _ => []
  | Tag nm _ cs =>
      (if (String.eqb nm name && has_attr key n)%bool then [n] else [])
      ++ concat_map (find_all_in name key) cs
  end.

(** [soup.find_all(name, key=True)]: every tag with that name carrying the
    attribute, in document order. *)
Definition find_all (s : soup) (name key : string) : list node :=
  concat_map (find_all_in name key) s.

(** [tag[key]] *)
Definition attr (n : node) (key : string) : result string :=
  match n with
  | Text _ => Raise TypeError
  | Tag _ attrs _ =>
      match List.find (fun kv => String.eqb (fst kv) key) attrs with
      | Some kv => Ok (snd kv)
      | None => Raise (KeyError key)
      end
  end.

(** [tag.string]: the single string child, looking through single tag
    children; [None] when a tag has no child or more than one. *)
Fixpoint string_ (n : node) : option string :=
  match n with
  | Text s => Some s
  | Tag _ _ [c] => string_ c
  | Tag _ _ _ => None
  end.

(** [tag.get_text()]: all the text below the tag, concatenated. *)
Fixpoint get_text (n : node) : string :=
  match n with
  | Text s => s
  | Tag _ _ cs => fold_right String.append EmptyString (List.map get_text cs)
  end.

Section Parser.

(** [BeautifulSoup(markup, 'html.parser')] for a str, and for a list or
    dict. *)
Variable html_parser : string -> lib soup.
Variable container_markup : Json.value -> lib soup.

(** [None], a bool or a number has no [len()]: the constructor raises
    [TypeError] before any parsing. *)
Definition BeautifulSoup (markup : Json.value) : result soup :=
  match markup with
  | Json.Str s => of_lib (html_parser s)
  | Json.Arr _ | Json.Obj _ => of_lib (container_markup markup)
  | Json.Null | Json.Bool _ | Json.Num _ => Raise TypeError
  end.

End Parser.

End Bs4.

(** ** requests *)

Module Requests.

Record Response : Type := { status_code : Z; text : string }.

(** [response.raise_for_status()]: HTTPError, a RequestException, on 4xx
    and 5xx. *)
Definition raise_for_status (r : Response) : result unit :=
  if ((400 <=? status_code r) && (status_code r <? 600))%bool
  then Raise RequestException else Ok tt.

End Requests.

(** ** The broker (Redis) *)

Module Redis.

(** A string key holds what [set] was given: an int or a str. *)
Inductive sval : Type :=
| SInt (z : Z)
| SStr (s : string).

(** What [get] returns with [decode_responses=True]. *)
Definition render (v : sval) : string :=
  match v with
  | SInt z => pretty z
  | SStr s => s
  end.

(** A stream entry: field names and values. *)
Definition entry : Type := list (string * string).

Record broker : Type := {
  strings : gmap string sval;
  lists : gmap string (list Json.text);
  sets : gmap string (gset string);
  streams : gmap string (list entry);
  published : list (string * Json.text)   (* (channel, message), newest first *)
}.

Definition empty : broker :=
  {| strings := ∅; lists := ∅; sets := ∅; streams := ∅; published := [] |}.

(** Commands queued on a pipeline. *)
Inductive pipe_cmd : Type :=
| p_lpush (key : string) (payload : Json.text)
| p_incr (key : string)
| p_xadd (key : string) (fields : entry).

(** redis-py's encoder: str and numbers are sent, anything else is refused. *)
Definition encode (v : Json.value) : result string :=
  match v with
  | Json.Str s => Ok s
  | Json.Num r => Ok r
  | _ => Raise DataError
  end.

(** *** Effect of each command on the keyspace *)

Definition llist (b : broker) (key : string) : list Json.text :=
  default [] (lists b !! key).

Definition smembers (b : broker) (key : string) : gset string :=
  default ∅ (sets b !! key).

Definition xrange (b : broker) (key : string) : list entry :=
  default [] (streams b !! key).

Definition counter (b : broker) (key : string) : Z :=
  match strings b !! key with
  | Some (SInt z) => z
  | _ => 0
  end.

Definition get (b : broker) (key : string) : option string :=
  render <$> strings b !! key.

Definition set (key : string) (v : sval) (b : broker) : broker :=
  {| strings := <[key := v]> (strings b); lists := lists b; sets := sets b;
     streams := streams b; published := published b |}.

(** The key is missing or holds an integer. *)
Definition is_counter (b : broker) (key : string) : Prop :=
  match strings b !! key with
  | Some (SStr _) => False
  | _ => True
  end.

(** INCR: a missing key counts as 0; a value that is not an integer is an
    error and is left as it is. *)
Definition incr (key : string) (b : broker) : result Z * broker :=
  match strings b !! key with
  | Some (SStr _) => (Raise OtherException, b)
  | _ => (Ok (counter b key + 1), set key (SInt (counter b key + 1)) b)
  end.

Definition delete (key : string) (b : broker) : broker :=
  {| strings := base.delete key (strings b); lists := base.delete key (lists b);
     sets := base.delete key (sets b); streams := base.delete key (streams b);
     published := published b |}.

Definition flushdb (b : broker) : broker :=
  {| strings := ∅; lists := ∅; sets := ∅; streams := ∅; published := published b |}.

Definition set_list (key : string) (l : list Json.text) (b : broker) : broker :=
  {| strings := strings b; lists := <[key := l]> (lists b);
     sets := sets b; streams := streams b; published := published b |}.

(** LPUSH puts the payload at the head of the list. *)
Definition lpush (key : string) (payload : Json.text) (b : broker) : broker :=
  set_list key (payload :: llist b key) b.

(** BRPOP takes the payload at the tail; on an empty list the call times
    out and returns [None]. *)
Definition brpop (key : string) (b : broker) : option (string * Json.text) * broker :=
  match List.rev (llist b key) with
  | [] => (None, b)
  | x :: r => (Some (key, x), set_list key (List.rev r) b)
  end.

(** SADD returns 1 when the member is new and 0 when it was there. *)
Definition sadd (key member : string) (b : broker) : Z * broker :=
  if decide (member ∈ smembers b key) then (0, b)
  else (1, {| strings := strings b; lists := lists b;
              sets := <[key := {[member]} ∪ smembers b key]> (sets b);
              streams := streams b; published := published b |}).

Definition sismember (key member : string) (b : broker) : bool :=
  bool_decide (member ∈ smembers b key).

Definition xadd (key : string) (fields : entry) (b : broker) : broker :=
  {| strings := strings b; lists := lists b; sets := sets b;
     streams := <[key := xrange b key ++ [fields]]> (streams b);
     published := published b |}.

Definition publish (channel : string) (message : Json.text) (b : broker) : broker :=
  {| strings := strings b; lists := lists b; sets := sets b; streams := streams b;
     published := (channel, message) :: published b |}.

(** One queued command: the keyspace after it and whether it succeeded. *)
Definition apply_pipe_cmd (c : pipe_cmd) (b : broker) : bool * broker :=
  match c with
  | p_lpush key payload => (true, lpush key payload b)
  | p_incr key =>
      match incr key b with
      | (Ok _, b') => (true, b')
      | (Raise _, b') => (false, b')
      end
  | p_xadd key fields => (true, xadd key fields b)
  end.

(** [pipe.execute()] with the default [transaction=True]: the queued
    commands run in order with nothing in between (MULTI/EXEC); a command
    that fails does not stop the others, and the call raises afterwards. *)
Fixpoint execute_from (pipe : list pipe_cmd) (ok : bool) (b : broker) : bool * broker :=
  match pipe with
  | [] => (ok, b)
  | c :: rest =>
      let '(ok1, b1) := apply_pipe_cmd c b in
      execute_from rest (ok && ok1) b1
  end.

(** What a pipeline holds for one key. *)
Definition pushed_to (key : string) (pipe : list pipe_cmd) : list Json.text :=
  omap (fun c => match c with
                 | p_lpush k x => if String.eqb k key then Some x else None
                 | _ => None
                 end) pipe.

Definition incrs (key : string) (pipe : list pipe_cmd) : nat :=
  length (List.filter (fun c => match c with
                                | p_incr k => String.eqb k key
                                | _ => false
                                end) pipe).

Definition execute (pipe : list pipe_cmd) (b : broker) : result unit * broker :=
  let '(ok, b') := execute_from pipe true b in
  ((if ok then Ok tt else Raise OtherException), b').

End Redis.

(** ** Processes

    A process is a tree of commands.  Each command is one round trip to
    the broker, one HTTP request, or one reading of the clock; commands of
    different processes interleave, a single command does not. *)

Module Proc.

Inductive cmd : Type -> Type :=
| ping : cmd unit
| get (key : string) : cmd (option string)
| set (key : string) (v : Redis.sval) : cmd unit
| delete (key : string) : cmd unit
| flushdb : cmd unit
| lpush (key : string) (payload : Json.text) : cmd unit
| brpop (key : string) (timeout : Z) : cmd (option (string * Json.text))
| sadd (key member : string) : cmd Z
| sismember (key member : string) : cmd bool
| publish (channel : string) (message : Json.text) : cmd unit
| execute (pipe : list Redis.pipe_cmd) : cmd unit
| requests_get (url : string) (timeout : Z) : cmd Requests.Response
| time : cmd Z
| sleep (seconds : Z) : cmd unit.

Inductive prog (A : Type) : Type :=
| Ret (a : A)
| Throw (e : exn)
| Do (X : Type) (c : cmd X) (k : result X -> prog A).
Arguments Ret {A} a.
Arguments Throw {A} e.
Arguments Do {A X} c k.

Definition lift {A} (r : result A) : prog A :=
  match r with
  | Ok a => Ret a
  | Raise e => Throw e
  end.

Definition call {X} (c : cmd X) : prog X := Do c lift.

Fixpoint bind {A B} (p : prog A) (f : A -> prog B) : prog B :=
  match p with
  | Ret a => f a
  | Throw e => Throw e
  | Do c k => Do c (fun r => bind (k r) f)
  end.

Fixpoint handle {A} (clauses : list (exn_class * (exn -> prog A))) (e : exn) : prog A :=
  match clauses with
  | [] => Throw e
  | (c, h) :: rest => if isinstance e c then h e else handle rest e
  end.

(** [try: body except ...]: an exception raised anywhere in the body,
    also by one of its commands, goes to the first matching clause. *)
Fixpoint try_except {A} (body : prog A) (clauses : list (exn_class * (exn -> prog A)))
  : prog A :=
  match body with
  | Ret a => Ret a
  | Throw e => handle clauses e
  | Do c k => Do c (fun r => try_except (k r) clauses)
  end.

(** *** The world a command runs in *)

(** Effects that stay once they have happened. *)
Inductive event : Type :=
| fetched (url : string)                       (* an HTTP GET was sent *)
| pushed (key : string) (payload : Json.text)  (* a payload entered a list *)
| added (key member : string).                 (* a member newly entered a set *)

Record world : Type := {
  db : Redis.broker;
  trace : list event          (* newest first *)
}.

(** The connection to the broker when a command is issued: the command is
    served; or it is not delivered; or it is served and the reply is lost.
    The client sees [ConnectionError] in the last two cases. *)
Inductive link : Type := Up | Down | ReplyLost.

(** What the outside decides for one command. *)
Record env : Type := {
  redis : link;
  http : lib Requests.Response;      (* outcome of requests.get *)
  clock : Z                          (* time.time() *)
}.

Definition calm : env :=
  {| redis := Up; http := Fails RequestException; clock := 0 |}.

(** The broker answers every command of the run. *)
Definition connected (envs : list env) : Prop :=
  Forall (fun ev => redis ev = Up) envs.

Definition is_push (e : event) : Prop :=
  match e with
  | pushed _ _ => True
  | _ => False
  end.

Definition pushes_of (pipe : list Redis.pipe_cmd) : list event :=
  concat (List.map (fun c => match c with
                             | Redis.p_lpush key payload => [pushed key payload]
                             | _ => []
                             end) pipe).

(** A broker command: its reply, the keyspace after it, what it adds to
    the trace. *)
Definition serve {X} (c : cmd X) (b : Redis.broker)
  : option (result X * Redis.broker * list event) :=
  match c in cmd X return option (result X * Redis.broker * list event) with
  | ping => Some (Ok tt, b, [])
  | get key => Some (Ok (Redis.get b key), b, [])
  | set key v => Some (Ok tt, Redis.set key v b, [])
  | delete key => Some (Ok tt, Redis.delete key b, [])
  | flushdb => Some (Ok tt, Redis.flushdb b, [])
  | lpush key payload => Some (Ok tt, Redis.lpush key payload b, [pushed key payload])
  | brpop key _ => let '(r, b') := Redis.brpop key b in Some (Ok r, b', [])
  | sadd key member =>
      let '(n, b') := Redis.sadd key member b in
      Some (Ok n, b', if n =? 1 then [added key member] else [])
  | sismember key member => Some (Ok (Redis.sismember key member b), b, [])
  | publish channel message => Some (Ok tt, Redis.publish channel message b, [])
  | execute pipe =>
      let '(r, b') := Redis.execute pipe b in Some (r, b', List.rev (pushes_of pipe))
  | requests_get _ _ => None
  | time => None
  | sleep _ => None
  end.

(** A command that does not go to the broker. *)
Definition local {X} (c : cmd X) (ev : env) : result X * list event :=
  match c in cmd X return result X * list event with
  | requests_get url _ => (of_lib (http ev), [fetched url])
  | time => (Ok (clock ev), [])
  | sleep _ => (Ok tt, [])
  | _ => (Raise OtherException, [])
  end.

Definition exec {X} (c : cmd X) (ev : env) (w : world) : result X * world :=
  match serve c (db w) with
  | Some (r, b', evs) =>
      match redis ev with
      | Up => (r, {| db := b'; trace := evs ++ trace w |})
      | Down => (Raise ConnectionError, w)
      | ReplyLost => (Raise ConnectionError, {| db := b'; trace := evs ++ trace w |})
      end
  | None =>
      let '(r, evs) := local c ev in (r, {| db := db w; trace := evs ++ trace w |})
  end.

(** Running a process on its own: one [env] per command, [calm] once the
    list is used up.  The result, the world after it, and the part of the
    list that was not used. *)
Fixpoint run {A} (p : prog A) (envs : list env) (w : world)
  : result A * world * list env :=
  match p with
  | Ret a => (Ok a, w, envs)
  | Throw e => (Raise e, w, envs)
  | Do c k =>
      let '(r, w') := exec c (hd calm envs) w in
      run (k r) (tl envs) w'
  end.

End Proc.

Declare Scope prog_scope.
Delimit Scope prog_scope with prog.
Notation "x <- e ;; k" := (Proc.bind e (fun x => k))
  (at level 100, e at next level, right associativity) : prog_scope.
Notation "e ;;; k" := (Proc.bind e (fun _ => k))
  (at level 100, right associativity) : prog_scope.

(** ** Worker processes

    Both worker functions have the same shape: a start-up part, then
    [while not should_stop: <iteration>].  [should_stop] is the flag of
    the process, set by the SIGINT/SIGTERM handler. *)

Module Worker.
Import Proc.

(** How an iteration of the loop body ends. *)
Inductive flow : Type :=
| Continue      (* a [continue] statement *)
| Break         (* the [break] statement *)
| Fall.         (* the end of the body *)

Record code : Type := {
  startup : prog bool;        (* [false]: the function returns before the loop *)
  iteration : prog flow
}.

Inductive pstate : Type :=
| Starting (p : prog bool)
| LoopHead                    (* about to test [while not should_stop] *)
| InBody (p : prog flow)
| Exited
| Crashed (e : exn).          (* an exception left the function *)

Record proc : Type := {
  should_stop : bool;
  at_ : pstate
}.

Definition spawn (c : code) : proc :=
  {| should_stop := false; at_ := Starting (startup c) |}.

(** The signal handler: [should_stop = True]. *)
Definition signal_handler (p : proc) : proc :=
  {| should_stop := true; at_ := at_ p |}.

Definition goto (p : proc) (s : pstate) : proc :=
  {| should_stop := should_stop p; at_ := s |}.

(** One step of a process: the next command, the loop test, or the
    transfer of control at the end of the body. *)
Definition step (c : code) (ev : env) (p : proc) (w : world) : proc * world :=
  match at_ p with
  | Starting (Ret true) => (goto p LoopHead, w)
  | Starting (Ret false) => (goto p Exited, w)
  | Starting (Throw e) => (goto p (Crashed e), w)
  | Starting (Do cm k) =>
      let '(r, w') := exec cm ev w in (goto p (Starting (k r)), w')
  | LoopHead =>
      if should_stop p then (goto p Exited, w)
      else (goto p (InBody (iteration c)), w)
  | InBody (Ret Break) => (goto p Exited, w)
  | InBody (Ret _) => (goto p LoopHead, w)
  | InBody (Throw e) => (goto p (Crashed e), w)
  | InBody (Do cm k) =>
      let '(r, w') := exec cm ev w in (goto p (InBody (k r)), w')
  | Exited => (p, w)
  | Crashed _ => (p, w)
  end.

Definition running (p : proc) : bool :=
  match at_ p with
  | Exited | Crashed _ => false
  | _ => true
  end.

(** [q] can be reached from [p] by steps of the process alone. *)
Inductive reaches (c : code) : proc * world -> proc * world -> Prop :=
| reaches_here (pw : proc * world) : reaches c pw pw
| reaches_step (ev : env) (p : proc) (w : world) (qw : proc * world) :
    reaches c (step c ev p w) qw -> reaches c (p, w) qw.

(** One pass from the loop test to the next loop test (or out of the
    loop), with nothing else touching the broker in between. *)
Definition iterate (c : code) (envs : list env) (p : proc) (w : world)
  : proc * world * list env :=
  if should_stop p then (goto p Exited, w, envs)
  else
    match run (iteration c) envs w with
    | (Ok Break, w', rest) => (goto p Exited, w', rest)
    | (Ok _, w', rest) => (goto p LoopHead, w', rest)
    | (Raise e, w', rest) => (goto p (Crashed e), w', rest)
    end.

(** [n] passes, stopping when the process has left the loop. *)
Fixpoint loop (c : code) (n : nat) (envs : list env) (p : proc) (w : world)
  : proc * world * list env :=
  match n with
  | O => (p, w, envs)
  | S n' =>
      match at_ p with
      | LoopHead =>
          let '(p', w', rest) := iterate c envs p w in loop c n' rest p' w'
      | _ => (p, w, envs)
      end
  end.

End Worker.

(** ** explorer.py *)

Module Explorer.
Import Proc Worker.

Section Code.

(** Library functions the explorer calls. *)
Variable urlparse : string -> lib Urllib.ParseResult.
Variable urljoin : string -> string -> lib string.
Variable html_parser : string -> lib Bs4.soup.
Variable container_markup : Json.value -> lib Bs4.soup.

Definition skip_extensions : list string :=
  [".pdf"; ".jpg"; ".png"; ".gif"; ".zip"; ".mp4"; ".css"; ".js"].

Definition is_valid_url (url base_url : string) : result bool :=
  Py.try_except
    (parsed <- of_lib (urlparse url) ;;
     base_parsed <- of_lib (urlparse base_url) ;;
     (* Must have a scheme *)
     if negb (Str.truthy (Urllib.scheme parsed)) then Ok false
     (* Must be http/https *)
     else if negb (existsb (String.eqb (Urllib.scheme parsed)) ["http"; "https"])
     then Ok false
     (* Must have a network location *)
     else if negb (Str.truthy (Urllib.netloc parsed)) then Ok false
     (* Must be same domain *)
     else if negb (String.eqb (Urllib.netloc parsed) (Urllib.netloc base_parsed))
     then Ok false
     (* Skip common non-html files *)
     else if existsb (fun ext => Str.endswith (Str.lower url) ext) skip_extensions
     then Ok false
     else Ok true)%py
    [(BaseException_, fun _ => Ok false)].

(** The body of [for anchor in soup.find_all('a', href=True)].  [url] is
    whatever [item['url']] was; joining onto a base that is not a str
    raises. *)
Fixpoint collect_links (url : Json.value) (anchors : list Bs4.node) (links : list string)
  : result (list string) :=
  match anchors with
  | [] => Ok links
  | anchor :: rest =>
      (href <- Bs4.attr anchor "href" ;;
       match url with
       | Json.Str base =>
           absolute_url <- of_lib (urljoin base href) ;;
           valid <- is_valid_url absolute_url base ;;
           collect_links url rest (if valid then links ++ [absolute_url] else links)
       | _ => Raise TypeError
       end)%py
  end.

(** [requests.get(url, timeout=10, allow_redirects=True)]: anything that
    is not a str becomes its [str()], which has no usable scheme, and the
    call raises a RequestException before a request is sent.  For a str
    the outcome is left to the outside, which covers the text without a
    scheme that the library refuses in the same way; the [fetched] event
    records the call, whether or not a request leaves. *)
Definition requests_get (url : Json.value) : prog Requests.Response :=
  match url with
  | Json.Str s => call (Proc.requests_get s 10)
  | _ => Throw RequestException
  end.

(** The [try] block of [explore_url]. *)
Definition fetch_and_parse (url : Json.value) : prog (Json.value * list string) :=
  (response <- requests_get url ;;
   lift (Requests.raise_for_status response) ;;;
   let html := Requests.text response in
   (* Parse and find links *)
   soup <- lift (Bs4.BeautifulSoup html_parser container_markup (Json.Str html)) ;;
   links <- lift (collect_links url (Bs4.find_all soup "a" "href") []) ;;
   Ret (Json.Str html, links))%prog.

Definition explore_url (url : Json.value) : prog (Json.value * list string) :=
  Proc.try_except (fetch_and_parse url)
    [(requests_RequestException, fun _ => Ret (Json.Null, []));
     (Exception_, fun _ => Ret (Json.Null, []))].

Definition frontier_item (link : string) : Json.text :=
  Json.dumps (Json.Obj [("url", Json.Str link); ("html", Json.Null)]).

Definition exploit_item (url html : Json.value) : Json.text :=
  Json.dumps (Json.Obj [("url", url); ("html", html)]).

(** [for link in new_links: ...], queueing on [pipe]. *)
Fixpoint queue_links (new_links : list string) (pipe : list Redis.pipe_cmd)
  : prog (list Redis.pipe_cmd) :=
  match new_links with
  | [] => Ret pipe
  | link :: rest =>
      (seen <- call (sismember "visited_urls" link) ;;
       if seen : bool then queue_links rest pipe
       else queue_links rest (pipe ++ [Redis.p_lpush "explored_queue" (frontier_item link)]))%prog
  end.

(** The body of [while not should_stop] in [explorer_worker]. *)
Definition iteration : prog flow :=
  (result <- call (brpop "explored_queue" 1) ;;
   match result with
   | None => Ret Continue
   | Some (queue_name, item_json) =>
       (* Parse queue item *)
       item <- lift (Json.loads item_json) ;;
       url <- lift (Json.getitem item "url") ;;
       (* Deduplication *)
       member <- lift (Redis.encode url) ;;
       n <- call (sadd "visited_urls" member) ;;
       if n =? 0 then Ret Continue
       else
         hl <- explore_url url ;;
         let '(html, new_links) := hl in
         pipe <- queue_links new_links [] ;;
         let pipe := pipe ++ [Redis.p_lpush "exploit_queue" (exploit_item url html);
                              Redis.p_incr "urls_found"] in
         call (execute pipe) ;;;
         stop <- call (get "stop_signal") ;;
         if bool_decide (stop = Some "1") then Ret Break else Ret Fall
   end)%prog.

(** The part of [explorer_worker] before the loop. *)
Definition startup : prog bool :=
  (root_url <- call (get "root_url") ;;
   Proc.try_except (call ping ;;; Ret true)
     [(redis_ConnectionError, fun _ => Ret false)])%prog.

Definition explorer_worker : code :=
  {| Worker.startup := startup; Worker.iteration := iteration |}.

End Code.

End Explorer.

(** ** extractor.py *)

Module Extractor.
Import Proc Worker.

Section Code.

Variable html_parser : string -> lib Bs4.soup.
Variable container_markup : Json.value -> lib Bs4.soup.

(** [title_tag.string] when [title_tag and title_tag.string] holds: the tag
    exists and its string is neither [None] nor empty. *)
Definition title_string (soup : Bs4.soup) : option string :=
  match Bs4.find soup "title" with
  | Some title_tag =>
      match Bs4.string_ title_tag with
      | Some s => if Str.truthy s then Some s else None
      | None => None
      end
  | None => None
  end.

Definition extract_title (html : Json.value) : result string :=
  Py.try_except
    (soup <- Bs4.BeautifulSoup html_parser container_markup html ;;
     (* Try to find title tag *)
     match title_string soup with
     | Some s => Ok (Str.strip s)
     | None =>
         (* Fallback: try h1 *)
         match Bs4.find soup "h1" with
         | Some h1_tag => Ok (Str.strip (Bs4.get_text h1_tag))
         | None => Ok "No title found"
         end
     end)%py
    [(Exception_, fun _ => Ok "Error extracting title")].

(** [result_data], as the pipeline encodes it for XADD. *)
Definition result_data (url : Json.value) (title : string) (now worker_id : Z)
  : result Redis.entry :=
  (u <- Redis.encode url ;;
   Ok [("url", u); ("title", title); ("timestamp", pretty now);
       ("worker_id", pretty worker_id)])%py.

(** The [try] block of the loop body. *)
Definition pop_and_extract (worker_id : Z) : prog flow :=
  (result <- call (brpop "exploit_queue" 1) ;;
   match result with
   | None => Ret Continue
   | Some (queue_name, item_json) =>
       (* Parse queue item *)
       item <- lift (Json.loads item_json) ;;
       url <- lift (Json.getitem item "url") ;;
       html <- lift (Json.getitem item "html") ;;
       (* Extract title *)
       title <- lift (extract_title html) ;;
       now <- call time ;;
       fields <- lift (result_data url title now worker_id) ;;
       call (execute [Redis.p_xadd "results_stream" fields;
                      Redis.p_incr "urls_extracted"]) ;;;
       Ret Fall
   end)%prog.

(** The body of [while not should_stop] in [extractor_worker]. *)
Definition iteration (worker_id : Z) : prog flow :=
  (outcome <-
     Proc.try_except (pop_and_extract worker_id)
       [(redis_ConnectionError, fun _ => call (sleep 2) ;;; Ret Continue);
        (json_JSONDecodeError, fun _ => Ret Continue);
        (Exception_, fun _ => Ret Continue)] ;;
   match outcome with
   | Fall =>
       stop <- call (get "stop_signal") ;;
       if bool_decide (stop = Some "1") then Ret Break else Ret Fall
   | other => Ret other
   end)%prog.

(** The part of [extractor_worker] before the loop. *)
Definition startup : prog bool :=
  Proc.try_except (call ping ;;; Ret true)%prog
    [(redis_ConnectionError, fun _ => Ret false)].

Definition extractor_worker (worker_id : Z) : code :=
  {| Worker.startup := startup; Worker.iteration := iteration worker_id |}.

End Code.

End Extractor.

(** ** The two front ends: scraper.py and app.py *)

Module Control.
Import Proc.

Definition start_command : Json.text :=
  Json.dumps (Json.Obj [("command", Json.Str "start")]).

Definition stop_command : Json.text :=
  Json.dumps (Json.Obj [("command", Json.Str "stop")]).

Definition initial_item (root_url : string) : Json.text :=
  Json.dumps (Json.Obj [("url", Json.Str root_url); ("html", Json.Null)]).

(** "Initialize input": the same nine calls in both files.  [minutes] is
    the duration as the caller gave it. *)
Definition initialize (root_url : string) (minutes num_explorers num_extractors : Z)
  : prog unit :=
  (call flushdb ;;;
   call (delete "explorer_ack") ;;;
   call (delete "extractor_ack") ;;;
   call (set "num_explorers" (Redis.SInt num_explorers)) ;;;
   call (set "num_extractors" (Redis.SInt num_extractors)) ;;;
   call (set "stop_signal" (Redis.SStr "0")) ;;;
   call (set "duration" (Redis.SInt (minutes * 60))) ;;;
   call (set "urls_found" (Redis.SInt 0)) ;;;
   call (set "urls_extracted" (Redis.SInt 0)) ;;;
   call (set "root_url" (Redis.SStr root_url)))%prog.

(** Recording the start time and seeding the frontier. *)
Definition seed (root_url : string) : prog unit :=
  (now <- call time ;;
   call (set "start_time" (Redis.SInt now)) ;;;
   call (lpush "explored_queue" (initial_item root_url)))%prog.

End Control.

Module Scraper.
Import Proc Control.

(** [main()] of scraper.py once the four arguments are read, up to the
    point where the monitor thread is started.  [sys.exit(1)] raises
    [SystemExit]. *)
Definition main (root_url : string) (duration_minutes num_explorers num_extractors : Z)
  : prog unit :=
  (initialize root_url duration_minutes num_explorers num_extractors ;;;
   call (publish "scraper_control" start_command) ;;;
   explorer_ack <- call (brpop "explorer_ack" 10) ;;
   match explorer_ack with
   | None => Throw (SystemExit 1)
   | Some _ =>
       extractor_ack <- call (brpop "extractor_ack" 10) ;;
       match extractor_ack with
       | None => Throw (SystemExit 1)
       | Some _ => seed root_url
       end
   end)%prog.

End Scraper.

Module App.
Import Proc Control.

Definition started (root_url : string) (duration num_explorers num_extractors : Z)
  : Json.value :=
  Json.Obj
    [("success", Json.Bool true);
     ("message",
      Json.Str ("Scraper started! Explorers: " ++ pretty num_explorers
                ++ ", Extractors: " ++ pretty num_extractors
                ++ ", Duration: " ++ pretty duration ++ "m")%string);
     ("config",
      Json.Obj [("root_url", Json.Str root_url);
                ("duration", Json.Num (pretty duration));
                ("num_explorers", Json.Num (pretty num_explorers));
                ("num_extractors", Json.Num (pretty num_extractors))])].

(** [start_scraper()] of app.py once the request body is read; the value
    returned is the body of the HTTP response. *)
Definition start_scraper (root_url : string) (duration num_explorers num_extractors : Z)
  : prog Json.value :=
  (initialize root_url duration num_explorers num_extractors ;;;
   call (publish "scraper_control" start_command) ;;;
   explorer_ack <- call (brpop "explorer_ack" 10) ;;
   seed root_url ;;;
   Ret (started root_url duration num_explorers num_extractors))%prog.

End App.

(** ** The start handshake seen from a front end

    While a front end runs, worker nodes that received the start command
    push their acknowledgment ([explorer.py] and [extractor.py],
    [r.lpush('explorer_ack', ...)]).  A turn is one command of the front
    end together with the acknowledgments that reached the broker before
    the command was served; for a blocking pop this is everything that
    arrived before the wait ended. *)

Module Handshake.
Import Proc.

Inductive pool : Type := explorers | extractors.

(** The list a node of the pool acknowledges on. *)
Definition ack_queue (p : pool) : string :=
  match p with
  | explorers => "explorer_ack"
  | extractors => "extractor_ack"
  end.

Record ack : Type := {
  from : pool;
  num_workers : Z;
  timestamp : Z
}.

Definition ack_payload (a : ack) : Json.text :=
  Json.dumps (Json.Obj [("status", Json.Str "ready");
                        ("num_workers", Json.Num (pretty (num_workers a)));
                        ("timestamp", Json.Num (pretty (timestamp a)))]).

Definition deliver (w : world) (a : ack) : world :=
  {| db := Redis.lpush (ack_queue (from a)) (ack_payload a) (db w);
     trace := pushed (ack_queue (from a)) (ack_payload a) :: trace w |}.

Record turn : Type := {
  arrivals : list ack;
  outside : env
}.

Definition quiet : turn := {| arrivals := []; outside := calm |}.

Fixpoint run {A} (p : prog A) (turns : list turn) (w : world)
  : result A * world * list turn :=
  match p with
  | Ret a => (Ok a, w, turns)
  | Throw e => (Raise e, w, turns)
  | Do c k =>
      let t := hd quiet turns in
      let '(r, w') := exec c (outside t) (fold_left deliver (arrivals t) w) in
      run (k r) (tl turns) w'
  end.

(** No node of the pool acknowledges during the run. *)
Definition silent (p : pool) (turns : list turn) : Prop :=
  Forall (fun t => Forall (fun a => from a <> p) (arrivals t)) turns.

Definition connected (turns : list turn) : Prop :=
  Forall (fun t => redis (outside t) = Up) turns.

End Handshake.

(** ** The running job: worker processes around one broker *)

Module System.
Import Proc Worker.

Record state : Type := {
  world_ : world;
  procs : list (code * proc)
}.

(** What the front end does to the broker while the job runs. *)
Inductive orchestration : Type :=
| seed_frontier (root_url : string) (now : Z)  (* set start_time, push the root URL *)
| raise_stop                                   (* r.set('stop_signal', '1') *)
| publish_stop.                                (* publish the stop command *)

Inductive action : Type :=
| proc_step (i : nat) (ev : env)      (* process i takes its next step *)
| proc_signal (i : nat)               (* SIGINT/SIGTERM reaches process i *)
| front (o : orchestration).

Definition orchestrate (o : orchestration) (w : world) : world :=
  match o with
  | seed_frontier root_url now =>
      snd (fst (run (Control.seed root_url)
                    [{| redis := Up; http := Fails RequestException; clock := now |}] w))
  | raise_stop => snd (fst (run (call (set "stop_signal" (Redis.SStr "1"))) [] w))
  | publish_stop =>
      snd (fst (run (call (publish "scraper_control" Control.stop_command)) [] w))
  end.

Definition act (a : action) (s : state) : state :=
  match a with
  | proc_step i ev =>
      match procs s !! i with
      | Some (c, p) =>
          let '(p', w') := step c ev p (world_ s) in
          {| world_ := w'; procs := <[i := (c, p')]> (procs s) |}
      | None => s
      end
  | proc_signal i =>
      match procs s !! i with
      | Some (c, p) =>
          {| world_ := world_ s; procs := <[i := (c, signal_handler p)]> (procs s) |}
      | None => s
      end
  | front o => {| world_ := orchestrate o (world_ s); procs := procs s |}
  end.

(** The state after a list of actions, oldest first. *)
Definition exec_all (acts : list action) (s : state) : state :=
  fold_left (fun s a => act a s) acts s.

Definition init (b : Redis.broker) (codes : list code) : state :=
  {| world_ := {| db := b; trace := [] |};
     procs := List.map (fun c => (c, spawn c)) codes |}.

(** A job: [explorers] explorer workers and one extractor worker per
    process id of [extractor_ids], just spawned around the broker. *)
Definition job
    (urlparse : string -> lib Urllib.ParseResult)
    (urljoin : string -> string -> lib string)
    (html_parser : string -> lib Bs4.soup)
    (container_markup : Json.value -> lib Bs4.soup)
    (b : Redis.broker) (explorers : nat) (extractor_ids : list Z) : state :=
  init b
    (repeat (Explorer.explorer_worker urlparse urljoin html_parser container_markup)
            explorers
     ++ List.map (Extractor.extractor_worker html_parser container_markup)
                 extractor_ids).

(** *** What the trace says *)

Definition fetches (t : list event) : list string :=
  omap (fun e => match e with fetched u => Some u | _ => None end) t.

Definition additions (key : string) (t : list event) : list string :=
  omap (fun e => match e with
                 | added k m => if String.eqb k key then Some m else None
                 | _ => None
                 end) t.

Definition enqueued (key : string) (t : list event) : nat :=
  length (List.filter (fun e => match e with
                                | pushed k _ => String.eqb k key
                                | _ => false
                                end) t).

End System.

(** ** What a worker holds between two commands

    The bookkeeping behind the two invariants of the job.  A worker gets a
    licence to fetch a URL from the SADD that reported it new, and spends
    it on the GET; it gets a credit from popping the exploit queue, and
    spends it on incrementing [urls_extracted]. *)

Module Discipline.
Import Proc Worker.

Record ghost : Type := {
  licenses : list string;
  credits : nat
}.

Definition no_ghost : ghost := {| licenses := []; credits := 0 |}.

Definition without (url : string) (l : list string) : list string :=
  List.filter (fun u => negb (String.eqb u url)) l.

(** What a worker may issue, holding [g]. *)
Definition allowed (g : ghost) {X} (c : cmd X) : Prop :=
  match c with
  | requests_get url _ => url ∈ licenses g
  | execute pipe =>
      (Redis.incrs "urls_extracted" pipe <= credits g)%nat /\
      length (Redis.pushed_to "exploit_queue" pipe) = Redis.incrs "urls_found" pipe
  | sadd key _ => key = "visited_urls"
  | ping | get _ | brpop _ _ | sismember _ _ | time | sleep _ => True
  | set _ _ | delete _ | flushdb | lpush _ _ | publish _ _ => False
  end.

(** What the worker holds once the command has answered. *)
Definition after (g : ghost) {X} (c : cmd X) : result X -> ghost :=
  match c in cmd X return result X -> ghost with
  | sadd key member =>
      fun r =>
        match r with
        | Ok n =>
            if (negb (n =? 0) && String.eqb key "visited_urls")%bool
            then {| licenses := member :: licenses g; credits := credits g |}
            else g
        | Raise _ => g
        end
  | requests_get url _ =>
      fun _ => {| licenses := without url (licenses g); credits := credits g |}
  | brpop key _ =>
      fun r =>
        match r with
        | Ok (Some _) =>
            if String.eqb key "exploit_queue"
            then {| licenses := licenses g; credits := S (credits g) |}
            else g
        | _ => g
        end
  | execute pipe =>
      fun _ => {| licenses := licenses g;
                  credits := credits g - Redis.incrs "urls_extracted" pipe |}
  | _ => fun _ => g
  end.

(** Every command of the tree is allowed when it is reached. *)
Inductive safe {A : Type} : ghost -> prog A -> Prop :=
| safe_ret (g : ghost) (a : A) : safe g (Ret a)
| safe_throw (g : ghost) (e : exn) : safe g (Throw e)
| safe_do (g : ghost) (X : Type) (c : cmd X) (k : result X -> prog A) :
    allowed g c -> (forall r, safe (after g c r) (k r)) -> safe g (Do c k).

Definition code_safe (c : code) : Prop :=
  safe no_ghost (startup c) /\ safe no_ghost (iteration c).

Definition proc_safe (g : ghost) (p : proc) : Prop :=
  match at_ p with
  | Starting s => safe g s
  | InBody b => safe g b
  | LoopHead | Exited | Crashed _ => True
  end.

(** A pipeline that pushes onto the frontier only. *)
Definition frontier_only (pipe : list Redis.pipe_cmd) : Prop :=
  Redis.pushed_to "exploit_queue" pipe = [] /\
  forall key, Redis.incrs key pipe = O.

Definition total_licenses (gs : list ghost) : list string :=
  concat (List.map licenses gs).

Definition total_credits (gs : list ghost) : nat :=
  sum_list_with credits gs.

(** Every GET in the trace comes after the SADD that added its URL. *)
Fixpoint fetch_after_add (t : list event) : Prop :=
  match t with
  | [] => True
  | e :: older =>
      match e with
      | fetched u => u ∈ System.additions "visited_urls" older
      | _ => True
      end /\ fetch_after_add older
  end.

(** Dedup: no URL is fetched twice or licensed twice, every fetched or
    licensed URL was added by an SADD, no URL was added twice, and what was
    added is in the set. *)
Definition dedup (w : world) (held : list string) : Prop :=
  NoDup (System.fetches (trace w) ++ held) /\
  (forall u, u ∈ System.fetches (trace w) ++ held ->
             u ∈ System.additions "visited_urls" (trace w)) /\
  NoDup (System.additions "visited_urls" (trace w)) /\
  (forall u, u ∈ System.additions "visited_urls" (trace w) ->
             u ∈ Redis.smembers (db w) "visited_urls") /\
  fetch_after_add (trace w).

(** Counting: [urls_found] is the number of exploit items ever pushed, and
    what was extracted, what waits in the queue and what extractors hold
    add up to no more than that. *)
Definition counting (w : world) (held : nat) : Prop :=
  Redis.is_counter (db w) "urls_found" /\
  Redis.is_counter (db w) "urls_extracted" /\
  Redis.counter (db w) "urls_found"
  = Z.of_nat (System.enqueued "exploit_queue" (trace w)) /\
  Redis.counter (db w) "urls_extracted"
  + Z.of_nat (length (Redis.llist (db w) "exploit_queue")) + Z.of_nat held
  <= Z.of_nat (System.enqueued "exploit_queue" (trace w)).

(** A property of the world and of what the workers hold, together with
    the safety of every worker. *)
Definition holds (P : world -> list ghost -> Prop) (s : System.state) : Prop :=
  exists gs : list ghost,
    Forall2 (fun g cp => code_safe (fst cp) /\ proc_safe g (snd cp)) gs (System.procs s) /\
    P (System.world_ s) gs.

Definition dedup_invariant : System.state -> Prop :=
  holds (fun w gs => dedup w (total_licenses gs)).

Definition counting_invariant : System.state -> Prop :=
  holds (fun w gs => counting w (total_credits gs)).

(** A keyspace as the reset of a start leaves it, as far as the counting
    goes. *)
Definition fresh (b : Redis.broker) : Prop :=
  Redis.strings b !! "urls_found" = Some (Redis.SInt 0) /\
  Redis.strings b !! "urls_extracted" = Some (Redis.SInt 0) /\
  Redis.llist b "exploit_queue" = [].

End Discipline.

(** ** The link filter as the specification words it *)

Module Spec.

(** Section 4.2.1: a candidate is accepted iff it has a scheme, the scheme
    is http or https, it has a non-empty host, the host equals the host of
    the page, and its path does not end with a blacklisted extension,
    case-insensitively; a malformed URL is rejected. *)
Definition link_filter (urlparse : string -> lib Urllib.ParseResult)
    (url page_url : string) : bool :=
  match urlparse url, urlparse page_url with
  | Returns parsed, Returns page =>
      (Str.truthy (Urllib.scheme parsed)
       && (String.eqb (Urllib.scheme parsed) "http"
           || String.eqb (Urllib.scheme parsed) "https")
       && Str.truthy (Urllib.netloc parsed)
       && String.eqb (Urllib.netloc parsed) (Urllib.netloc page)
       && negb (existsb (fun ext => Str.endswith (Str.lower (Urllib.path parsed)) ext)
                        Explorer.skip_extensions))%bool
  | _, _ => false
  end.

(** What [is_valid_url] tests, as a proposition: the same conditions, with
    the extension looked for at the end of the whole lower-cased URL. *)
Definition code_filter (urlparse : string -> lib Urllib.ParseResult)
    (url base_url : string) : Prop :=
  exists parsed page,
    urlparse url = Returns parsed /\ urlparse base_url = Returns page /\
    Urllib.scheme parsed <> EmptyString /\
    (Urllib.scheme parsed = "http" \/ Urllib.scheme parsed = "https") /\
    Urllib.netloc parsed <> EmptyString /\
    Urllib.netloc parsed = Urllib.netloc page /\
    forall ext, In ext Explorer.skip_extensions ->
                ~ exists pre, Str.lower url = (pre ++ ext)%string.

(** "The document's title text is present": there is a title tag and its
    string is there and not empty. *)
Definition title_text (soup : Bs4.soup) (s : string) : Prop :=
  exists tag, Bs4.find soup "title" = Some tag /\ Bs4.string_ tag = Some s /\ s <> EmptyString.

(** Section 4.3, step 3, as worded: the document's title text when there
    is some, otherwise the text of the first heading-1 when there is one,
    otherwise the sentinel.  The text of an element is all the text below
    it. *)
Definition title_of (soup : Bs4.soup) : string :=
  match Bs4.find soup "title" with
  | Some title_tag =>
      if Str.truthy (Bs4.get_text title_tag) then Bs4.get_text title_tag
      else match Bs4.find soup "h1" with
           | Some h1_tag => Bs4.get_text h1_tag
           | None => "No title found"
           end
  | None =>
      match Bs4.find soup "h1" with
      | Some h1_tag => Bs4.get_text h1_tag
      | None => "No title found"
      end
  end.

(** The element holds one string and nothing else: the string itself, or
    a tag whose only child holds one string and nothing else. *)
Inductive sole_string : Bs4.node -> string -> Prop :=
| sole_text (s : string) : sole_string (Bs4.Text s) s
| sole_child (name : string) (attrs : list (string * string)) (c : Bs4.node) (s : string) :
    sole_string c s -> sole_string (Bs4.Tag name attrs [c]) s.

(** The title the code can use: the first title tag holds one string and
    nothing else, and that string is not empty. *)
Definition sole_title (soup : Bs4.soup) (s : string) : Prop :=
  exists tag, Bs4.find soup "title" = Some tag /\ sole_string tag s /\ s <> EmptyString.

(** What the [try] block of [explore_url] comes to, given the outcome of
    the HTTP request: the page text and its filtered links, or the
    exception raised by the request, the status check, the parse or the
    link collection. *)
Definition attempt
    (urlparse : string -> lib Urllib.ParseResult)
    (urljoin : string -> string -> lib string)
    (html_parser : string -> lib Bs4.soup)
    (url : Json.value) (http : lib Requests.Response)
  : result (Json.value * list string) :=
  match url with
  | Json.Str s =>
      (response <- of_lib http ;;
       _ <- Requests.raise_for_status response ;;
       soup <- of_lib (html_parser (Requests.text response)) ;;
       links <- Explorer.collect_links urlparse urljoin url
                  (Bs4.find_all soup "a" "href") [] ;;
       Ok (Json.Str (Requests.text response), links))%py
  | _ => Raise RequestException
  end.

(** What [explore_url] returns. *)
Definition page
    (urlparse : string -> lib Urllib.ParseResult)
    (urljoin : string -> string -> lib string)
    (html_parser : string -> lib Bs4.soup)
    (url : Json.value) (http : lib Requests.Response) : Json.value * list string :=
  match attempt urlparse urljoin html_parser url http with
  | Ok hl => hl
  | Raise _ => (Json.Null, [])
  end.

(** The GETs [explore_url] sends. *)
Definition gets (url : Json.value) : list Proc.event :=
  match url with
  | Json.Str s => [Proc.fetched s]
  | _ => []
  end.

(** The links of a page that are not in the visited set. *)
Definition unseen (b : Redis.broker) (links : list string) : list string :=
  List.filter (fun link => negb (Redis.sismember "visited_urls" link b)) links.

(** The pipeline an explorer iteration executes for a page. *)
Definition explorer_pipe (b : Redis.broker) (url html : Json.value) (links : list string)
  : list Redis.pipe_cmd :=
  List.map (fun link => Redis.p_lpush "explored_queue" (Explorer.frontier_item link))
           (unseen b links)
  ++ [Redis.p_lpush "exploit_queue" (Explorer.exploit_item url html);
      Redis.p_incr "urls_found"].

(** The job has not been started: no start time is recorded and the
    frontier is empty. *)
Definition not_started (b : Redis.broker) : Prop :=
  Redis.get b "start_time" = None /\ Redis.llist b "explored_queue" = [].

(** The front end has reset the keyspace and no explorer node has
    acknowledged. *)
Definition awaiting_ack (b : Redis.broker) : Prop :=
  not_started b /\ Redis.llist b "explorer_ack" = [].

(** What decoding a frontier payload yields in [explorer_worker]: the
    member handed to SADD, or the exception raised on the way. *)
Definition frontier_member (x : Json.text) : result string :=
  (item <- Json.loads x ;; url <- Json.getitem item "url" ;; Redis.encode url)%py.

(** What decoding an exploit payload yields in [extractor_worker]: the url
    and html fields. *)
Definition exploit_fields (x : Json.text) : result (Json.value * Json.value) :=
  (item <- Json.loads x ;;
   url <- Json.getitem item "url" ;;
   html <- Json.getitem item "html" ;;
   Ok (url, html))%py.

End Spec.

(** ** Documents and library stand-ins used in examples *)

Module Sample.

Definition welcome : Bs4.soup := [Bs4.Tag "h1" [] [Bs4.Text "Welcome"]].

Definition home : Bs4.soup :=
  [Bs4.Tag "html" []
     [Bs4.Tag "head" [] [Bs4.Tag "title" [] [Bs4.Text " Home "]];
      Bs4.Tag "body" []
        [Bs4.Tag "h1" [] [Bs4.Text "Heading"];
         Bs4.Tag "a" [("href", "https://example.test/a")] [Bs4.Text "a"];
         Bs4.Tag "a" [("href", "https://example.test/b.pdf")] [Bs4.Text "b"];
         Bs4.Tag "a" [("href", "https://other.test/c")] [Bs4.Text "c"]]]].

Definition home_html : string :=
  "<html><head><title> Home </title></head><body><h1>Heading</h1><a href=https://example.test/a>a</a><a href=https://example.test/b.pdf>b</a><a href=https://other.test/c>c</a></body></html>".

(** The trees of the three documents above; any other text is a lone
    string. *)
Definition html_parser (html : string) : lib Bs4.soup :=
  if String.eqb html "<h1>Welcome</h1>" then Returns welcome
  else if String.eqb html home_html then Returns home
  else Returns [Bs4.Text html].

Definition container_markup (v : Json.value) : lib Bs4.soup := Fails TypeError.

(** A document whose title is made of a string and a tag, with an h1, and
    a parser that gives its tree. *)
Definition mixed_html : string := "<title>A<b>B</b></title><h1>H</h1>".

Definition mixed : Bs4.soup :=
  [Bs4.Tag "title" [] [Bs4.Text "A"; Bs4.Tag "b" [] [Bs4.Text "B"]];
   Bs4.Tag "h1" [] [Bs4.Text "H"]].

Definition mixed_parser (html : string) : lib Bs4.soup :=
  if String.eqb html mixed_html then Returns mixed else Returns [Bs4.Text html].

(** A parser that gives up on every text. *)
Definition failing_parser (html : string) : lib Bs4.soup := Fails ValueError.

(** Joining an absolute href onto any base gives the href. *)
Definition urljoin (base href : string) : lib string := Returns href.

Definition served (r : lib Requests.Response) : Proc.env :=
  {| Proc.redis := Proc.Up; Proc.http := r; Proc.clock := 1700000000 |}.

Definition home_response : lib Requests.Response :=
  Returns {| Requests.status_code := 200; Requests.text := home_html |}.


(** An explorer node and an extractor node acknowledging during the two
    waits of scraper.py. *)
Definition acknowledged : list Handshake.turn :=
  repeat Handshake.quiet 11
  ++ [{| Handshake.arrivals :=
           [{| Handshake.from := Handshake.explorers; Handshake.num_workers := 4;
               Handshake.timestamp := 1700000000 |}];
         Handshake.outside := Proc.calm |};
      {| Handshake.arrivals :=
           [{| Handshake.from := Handshake.extractors; Handshake.num_workers := 1;
               Handshake.timestamp := 1700000000 |}];
         Handshake.outside := Proc.calm |};
      {| Handshake.arrivals := []; Handshake.outside := served (Fails RequestException) |}].

Definition blank : Proc.world := {| Proc.db := Redis.empty; Proc.trace := [] |}.

(** The keyspace after the reset of a start. *)
Definition reset : Redis.broker :=
  Proc.db (snd (fst (Proc.run (Control.initialize "https://example.test/" 1 2 1) []
                       blank))).

(** Two explorers and one extractor taking turns, every request answered
    with the home page. *)
Definition round : list System.action :=
  [System.proc_step 0 (served home_response);
   System.proc_step 1 (served home_response);
   System.proc_step 2 (served home_response)].

Definition race : list System.action :=
  System.front (System.seed_frontier "https://example.test/" 1700000000)
  :: System.front (System.seed_frontier "https://example.test/" 1700000000)
  :: concat (repeat round 30).

(** A broker holding one list. *)
Definition broker_with (key : string) (payloads : list Json.text) : Redis.broker :=
  Redis.set_list key payloads Redis.empty.

Definition world_with (key : string) (payloads : list Json.text) : Proc.world :=
  {| Proc.db := broker_with key payloads; Proc.trace := [] |}.

Definition at_loop_head : Worker.proc :=
  {| Worker.should_stop := false; Worker.at_ := Worker.LoopHead |}.

End Sample.

(** ** The start of a worker *)

Module Boot.
Import Proc Worker.

(** The part of a worker function before its loop, run in one go: the
    worker reaches the loop test, returns, or dies of an exception. *)
Definition start (c : code) (envs : list env) (p : proc) (w : world)
  : proc * world * list env :=
  match run (startup c) envs w with
  | (Ok true, w', rest) => (goto p LoopHead, w', rest)
  | (Ok false, w', rest) => (goto p Exited, w', rest)
  | (Raise e, w', rest) => (goto p (Crashed e), w', rest)
  end.

End Boot.

(** ** Counting acknowledgments *)

Module Acks.
Import Handshake.

Definition pool_eqb (p q : pool) : bool :=
  match p, q with
  | explorers, explorers | extractors, extractors => true
  | _, _ => false
  end.

(** How many of the acknowledgments come from the pool. *)
Definition count (p : pool) (acks : list ack) : nat :=
  length (List.filter (fun a => pool_eqb (from a) p) acks).

(** The acknowledgments of the pool that arrive during the turns. *)
Definition arrived (p : pool) (turns : list turn) : nat :=
  count p (concat (List.map arrivals turns)).

(** Turns [i] to [j] of a run, counted from 0. *)
Definition during (i j : nat) (turns : list turn) : list turn :=
  take (S j - i) (drop i turns).

(** The job is not started and the two acknowledgment lists hold [n_exp]
    and [n_ext] payloads. *)
Definition pending (b : Redis.broker) (n_exp n_ext : nat) : Prop :=
  Spec.not_started b /\
  length (Redis.llist b "explorer_ack") = n_exp /\
  length (Redis.llist b "extractor_ack") = n_ext.

End Acks.

(** ** The worker nodes: [main()] of explorer.py and the main block of
    extractor.py

    A node waits for commands on the [scraper_control] channel.  The two
    files have the same code but for the pool they serve: the key read
    for the number of workers, the worker function started, and the list
    the acknowledgment goes to. *)

Module Node.
Import Handshake.

(** A message as [pubsub.get_message()] returns it: its type
    (['subscribe'], ['message'], ...) and, for a published message, its
    text. *)
Record message : Type := { type_ : string; data : Json.text }.

(** A [Process] object that was started. *)
Definition handle : Type := nat.

Inductive cmd : Type -> Type :=
| broker {X : Type} (c : Proc.cmd X) : cmd X   (* r.get, r.lpush, time.time *)
| subscribe (channel : string) : cmd unit      (* pubsub.subscribe *)
| get_message : cmd (option message)           (* pubsub.get_message() *)
| nap : cmd unit                               (* time.sleep(0.1) *)
| start (target : pool) : cmd handle           (* p = Process(target=...); p.start() *)
| is_alive (p : handle) : cmd bool
| join (p : handle) (timeout : option Z) : cmd unit
| terminate (p : handle) : cmd unit.

Inductive tree (A : Type) : Type :=
| Done (a : A)
| Do (X : Type) (c : cmd X) (k : result X -> tree A).
Arguments Done {A} a.
Arguments Do {A X} c k.

Fixpoint tbind {A B} (t : tree A) (f : A -> tree B) : tree B :=
  match t with
  | Done a => f a
  | Do c k => Do c (fun r => tbind (k r) f)
  end.

(** Code of the node: it reads and updates the list [active_processes],
    issues commands, and returns or raises. *)
Definition M (A : Type) : Type := list handle -> tree (list handle * result A).

Definition ret {A} (a : A) : M A := fun s => Done (s, Ok a).

Definition lift {A} (r : result A) : M A := fun s => Done (s, r).

Definition call {X} (c : cmd X) : M X := fun s => Do c (fun r => Done (s, r)).

Definition bind {A B} (m : M A) (f : A -> M B) : M B :=
  fun s =>
    tbind (m s) (fun sr =>
      match snd sr with
      | Ok a => f a (fst sr)
      | Raise e => Done (fst sr, Raise e)
      end).

(** [try: body except C1: h1 ...] *)
Fixpoint handle_with {A} (clauses : list (exn_class * (exn -> M A))) (e : exn) : M A :=
  match clauses with
  | [] => lift (Raise e)
  | (c, h) :: rest => if isinstance e c then h e else handle_with rest e
  end.

Definition try_except {A} (body : M A) (clauses : list (exn_class * (exn -> M A))) : M A :=
  fun s =>
    tbind (body s) (fun sr =>
      match snd sr with
      | Ok a => Done sr
      | Raise e => handle_with clauses e (fst sr)
      end).

(** [try: body finally: cleanup]: the cleanup runs however the body ended;
    the outcome is that of the body unless the cleanup raises. *)
Definition try_finally {A} (body : M A) (cleanup : M unit) : M A :=
  fun s =>
    tbind (body s) (fun sr =>
      tbind (cleanup (fst sr)) (fun sc =>
        match snd sc with
        | Ok _ => Done (fst sc, snd sr)
        | Raise e => Done (fst sc, Raise e)
        end)).

(** [active_processes], read; [.append(p)]; [.clear()]. *)
Definition active_processes : M (list handle) := fun s => Done (s, Ok s).
Definition append (p : handle) : M unit := fun s => Done (s ++ [p], Ok tt).
Definition clear : M unit := fun _ => Done ([], Ok tt).

End Node.

Declare Scope node_scope.
Delimit Scope node_scope with node.
Notation "x <- e ;; k" := (Node.bind e (fun x => k))
  (at level 100, e at next level, right associativity) : node_scope.
Notation "e ;;; k" := (Node.bind e (fun _ => k))
  (at level 100, right associativity) : node_scope.

Module NodeCode.
Import Handshake Node.

(** [for x in l: body] *)
Fixpoint for_each {A} (l : list A) (body : A -> M unit) : M unit :=
  match l with
  | [] => ret tt
  | x :: rest => (body x ;;; for_each rest body)%node
  end.

Section Code.

(** [int(s)] on a str. *)
Variable int_of_str : string -> lib Z.

(** The pool the node serves. *)
Variable pool_ : pool.

(** The key holding the number of workers to start. *)
Definition workers_key : string :=
  match pool_ with
  | explorers => "num_explorers"
  | extractors => "num_extractors"
  end.

(** [int(r.get(key) or 4)] *)
Definition int_or_4 (stored : option string) : result Z :=
  match stored with
  | Some s => if Str.truthy s then of_lib (int_of_str s) else Ok 4
  | None => Ok 4
  end.

(** [for p in active_processes: if p.is_alive(): p.terminate();
    p.join(timeout=t)] *)
Definition terminate_all (timeout : Z) : M unit :=
  (ps <- active_processes ;;
   for_each ps (fun p =>
     alive <- call (is_alive p) ;;
     if alive : bool
     then call (terminate p) ;;; call (join p (Some timeout))
     else ret tt))%node.

(** [for p in active_processes: if p.is_alive(): p.join()] *)
Definition join_all : M unit :=
  (ps <- active_processes ;;
   for_each ps (fun p =>
     alive <- call (is_alive p) ;;
     if alive : bool then call (join p None) else ret tt))%node.

(** The branch for [command == 'start']. *)
Definition on_start : M unit :=
  (stored <- call (broker (Proc.get workers_key)) ;;
   num_workers <- lift (int_or_4 stored) ;;
   for_each (seq 0 (Z.to_nat num_workers)) (fun _ =>
     p <- call (start pool_) ;;
     append p) ;;;
   now <- call (broker Proc.time) ;;
   call (broker (Proc.lpush (ack_queue pool_)
                   (ack_payload {| from := pool_; num_workers := num_workers;
                                   timestamp := now |}))) ;;;
   join_all ;;;
   clear)%node.

(** The branch for [command == 'stop']. *)
Definition on_stop : M unit := (terminate_all 5 ;;; clear)%node.

Definition is_str (v : Json.value) (s : string) : bool :=
  match v with
  | Json.Str t => String.eqb t s
  | _ => false
  end.

(** The [try] block run for a message of type ['message']. *)
Definition dispatch (m : message) : M unit :=
  (data <- lift (Json.loads (data m)) ;;
   command <- lift (Json.getitem data "command") ;;
   if is_str command "start" then on_start
   else if is_str command "stop" then on_stop
   else ret tt)%node.

(** The [try ... except ... finally] statement.  SIGINT is handled by
    [signal_handler], so that no [KeyboardInterrupt] is raised and the
    clause for it is never entered; [except Exception: pass] takes every
    exception. *)
Definition handle_message (m : message) : M unit :=
  try_finally
    (try_except (dispatch m) [(Exception_, fun _ => ret tt)])
    (terminate_all 2 ;;; clear)%node.

(** One pass of [while not should_stop]. *)
Definition pass : M unit :=
  (message <- call get_message ;;
   match message with
   | Some m => if String.eqb (type_ m) "message" then handle_message m else ret tt
   | None => ret tt
   end ;;;
   call nap)%node.

Fixpoint passes (n : nat) : M unit :=
  match n with
  | O => ret tt
  | S n' => (pass ;;; passes n')%node
  end.

(** The node from its start, for [n] passes of its loop. *)
Definition main (n : nat) : tree (list handle * result unit) :=
  (call (subscribe "scraper_control") ;;; passes n)%node [].

End Code.

End NodeCode.

(** ** Running a node *)

Module NodeRun.
Import Handshake Node.

(** What the operating system did for the node, newest first. *)
Inductive os_event : Type :=
| started (p : handle) (target : pool)
| joined (p : handle) (timeout : option Z)
| terminated (p : handle).

Record world : Type := {
  net : Proc.world;
  os : list os_event
}.

(** What the outside decides for one command of the node. *)
Record env : Type := {
  outside : Proc.env;          (* the link to the broker and the clock *)
  inbox : option message;      (* what get_message finds *)
  pid : handle;                (* the process a start creates *)
  alive : bool;                (* the answer of is_alive *)
  fault : option exception     (* a failure of the process call *)
}.

Definition smooth : env :=
  {| outside := Proc.calm; inbox := None; pid := O; alive := false; fault := None |}.

(** A call on a process: it fails when the outside says so. *)
Definition os_call {X} (ev : env) (x : X) (evs : list os_event) (w : world)
  : result X * world :=
  match fault ev with
  | Some e => (Raise e, w)
  | None => (Ok x, {| net := net w; os := evs ++ os w |})
  end.

Definition exec {X} (c : cmd X) (ev : env) (w : world) : result X * world :=
  match c in cmd X return result X * world with
  | broker c' =>
      let '(r, n') := Proc.exec c' (outside ev) (net w) in (r, {| net := n'; os := os w |})
  | subscribe _ =>
      match Proc.redis (outside ev) with
      | Proc.Up => (Ok tt, w)
      | _ => (Raise ConnectionError, w)
      end
  | get_message =>
      match Proc.redis (outside ev) with
      | Proc.Up => (Ok (inbox ev), w)
      | _ => (Raise ConnectionError, w)
      end
  | nap => (Ok tt, w)
  | start target => os_call ev (pid ev) [started (pid ev) target] w
  | is_alive _ => os_call ev (alive ev) [] w
  | join p timeout => os_call ev tt [joined p timeout] w
  | terminate p => os_call ev tt [terminated p] w
  end.

Fixpoint run {A} (t : tree A) (envs : list env) (w : world) : A * world * list env :=
  match t with
  | Done a => (a, w, envs)
  | Do c k =>
      let '(r, w') := exec c (hd smooth envs) w in
      run (k r) (tl envs) w'
  end.

(** The first [k] of the environments, [smooth] standing for the ones that
    are missing. *)
Fixpoint first (k : nat) (envs : list env) : list env :=
  match k with
  | O => []
  | S k' => hd smooth envs :: first k' (tl envs)
  end.

(** The broker answers and no process call fails. *)
Definition fair (envs : list env) : Prop :=
  Forall (fun ev => Proc.redis (outside ev) = Proc.Up /\ fault ev = None) envs.

(** The world once the first [k] commands of the code have been served
    (or at the end of the code, when it issues fewer). *)
Fixpoint world_after {A} (k : nat) (t : tree A) (envs : list env) (w : world) : world :=
  match k, t with
  | S k', Do c cont =>
      let '(r, w') := exec c (hd smooth envs) w in
      world_after k' (cont r) (tl envs) w'
  | _, _ => w
  end.

(** The number of commands the code issues. *)
Fixpoint cost {A} (t : tree A) (envs : list env) (w : world) : nat :=
  match t with
  | Done _ => O
  | Do c cont =>
      let '(r, w') := exec c (hd smooth envs) w in
      S (cost (cont r) (tl envs) w')
  end.

(** A loop [for p in ps: if p.is_alive(): ...] asks one question for each
    process, in order, and a process found alive takes one more turn for
    what is done to it: the processes found alive, and the environments
    left after the loop. *)
Fixpoint found_alive (ps : list handle) (envs : list env) : list handle :=
  match ps with
  | [] => []
  | p :: rest =>
      if alive (hd smooth envs) then p :: found_alive rest (tl (tl envs))
      else found_alive rest (tl envs)
  end.

Fixpoint past_loop (ps : list handle) (envs : list env) : list env :=
  match ps with
  | [] => envs
  | p :: rest =>
      if alive (hd smooth envs) then past_loop rest (tl (tl envs))
      else past_loop rest (tl envs)
  end.

End NodeRun.

(** ** Stand-ins used in examples of nodes *)

Module NodeSample.
Import Handshake Node NodeRun.

(** [int(s)] on a text of decimal digits; any other text is refused
    here. *)
Fixpoint digits (s : string) (acc : Z) : option Z :=
  match s with
  | EmptyString => Some acc
  | String c r =>
      if Urllib.is_digit c
      then digits r (10 * acc + (Z.of_nat (nat_of_ascii c) - 48))
      else None
  end.

Definition int_of_str (s : string) : lib Z :=
  match s with
  | EmptyString => Fails ValueError
  | _ => match digits s 0 with
         | Some z => Returns z
         | None => Fails ValueError
         end
  end.

Definition start_message : message :=
  {| type_ := "message"; data := Control.start_command |}.

Definition stop_message : message :=
  {| type_ := "message"; data := Control.stop_command |}.

(** A keyspace after the reset of a start, and no process yet. *)
Definition ready : world := {| net := {| Proc.db := Sample.reset; Proc.trace := [] |}; os := [] |}.

(** The outside while a node starts two workers that end by themselves:
    the process ids given out, and workers found alive when joined. *)
Definition spawning (p : handle) : env :=
  {| outside := Proc.calm; inbox := None; pid := p; alive := true; fault := None |}.

Definition delivering (m : message) : env :=
  {| outside := Proc.calm; inbox := Some m; pid := O; alive := false; fault := None |}.

End NodeSample.

(** ** The threads of the front ends: stopping and monitoring

    [stop_scraper] of app.py and [monitor_scraper] of both front ends run
    beside other threads of the same process, which share the global
    [scraper_running].  A function is written in a state and error monad
    over the globals; each command takes one turn, before which another
    thread may have assigned the global. *)

Module Web.

Record app : Type := {
  scraper_running : bool;
  site : Proc.world;
  emitted : list (string * Json.value)     (* socketio.emit(event, data), newest first *)
}.

(** What the outside decides for one command. *)
Record env : Type := {
  outside : Proc.env;              (* the link to the broker and the clock *)
  meddling : option bool;          (* another thread assigned scraper_running meanwhile *)
  emit_fault : option exception    (* socketio.emit fails *)
}.

Definition quiet : env :=
  {| outside := Proc.calm; meddling := None; emit_fault := None |}.

Definition M (A : Type) : Type := list env -> app -> result A * app * list env.

Definition ret {A} (a : A) : M A := fun envs st => (Ok a, st, envs).

Definition lift {A} (r : result A) : M A := fun envs st => (r, st, envs).

Definition bind {A B} (m : M A) (f : A -> M B) : M B :=
  fun envs st =>
    match m envs st with
    | (Ok a, st', rest) => f a rest st'
    | (Raise e, st', rest) => (Raise e, st', rest)
    end.

Fixpoint handle_with {A} (clauses : list (exn_class * (exn -> M A))) (e : exn) : M A :=
  match clauses with
  | [] => lift (Raise e)
  | (c, h) :: rest => if isinstance e c then h e else handle_with rest e
  end.

Definition try_except {A} (body : M A) (clauses : list (exn_class * (exn -> M A))) : M A :=
  fun envs st =>
    match body envs st with
    | (Ok a, st', rest) => (Ok a, st', rest)
    | (Raise e, st', rest) => handle_with clauses e rest st'
    end.

Definition meddle (ev : env) (st : app) : app :=
  match meddling ev with
  | Some b => {| scraper_running := b; site := site st; emitted := emitted st |}
  | None => st
  end.

(** A call on [r], [time.time()] or [time.sleep()]. *)
Definition redis {X} (c : Proc.cmd X) : M X :=
  fun envs st =>
    let ev := hd quiet envs in
    let st0 := meddle ev st in
    let '(r, w') := Proc.exec c (outside ev) (site st0) in
    (r, {| scraper_running := scraper_running st0; site := w'; emitted := emitted st0 |},
     tl envs).

(** [socketio.emit(event, data)] *)
Definition emit (event : string) (data : Json.value) : M unit :=
  fun envs st =>
    let ev := hd quiet envs in
    let st0 := meddle ev st in
    match emit_fault ev with
    | Some e => (Raise e, st0, tl envs)
    | None =>
        (Ok tt,
         {| scraper_running := scraper_running st0; site := site st0;
            emitted := (event, data) :: emitted st0 |},
         tl envs)
    end.

(** Reading and assigning the global. *)
Definition running : M bool := fun envs st => (Ok (scraper_running st), st, envs).

Definition set_running (b : bool) : M unit :=
  fun envs st =>
    (Ok tt, {| scraper_running := b; site := site st; emitted := emitted st |}, envs).

(** The broker answers and no other thread assigns the global. *)
Definition steady (envs : list env) : Prop :=
  Forall (fun ev => Proc.redis (outside ev) = Proc.Up /\ meddling ev = None) envs.

(** The clock at the [i]-th turn. *)
Definition clock_at (i : nat) (envs : list env) : Z :=
  Proc.clock (outside (hd quiet (drop i envs))).

End Web.

Declare Scope web_scope.
Delimit Scope web_scope with web.
Notation "x <- e ;; k" := (Web.bind e (fun x => k))
  (at level 100, e at next level, right associativity) : web_scope.
Notation "e ;;; k" := (Web.bind e (fun _ => k))
  (at level 100, right associativity) : web_scope.

Module Front.
Import Web.

(** How the monitor's loop was left: by [break] or by its condition, or
    not yet (the polls looked at are used up). *)
Inductive watch : Type := Stopped | Watching.

Section Code.

(** [float(s)] and [int(s)].  Clock readings are whole numbers here, as
    in [Proc.clock], and so is what [float] yields on them. *)
Variable float_of_str : string -> lib Z.
Variable int_of_str : string -> lib Z.

(** [x or y] on what [r.get] returned: the str when there is one and it is
    not empty. *)
Definition present (stored : option string) : option string :=
  match stored with
  | Some s => if Str.truthy s then Some s else None
  | None => None
  end.

(** [float(r.get('start_time') or time.time())] *)
Definition read_start_time : M Z :=
  (stored <- redis (Proc.get "start_time") ;;
   match present stored with
   | Some s => lift (of_lib (float_of_str s))
   | None => redis Proc.time
   end)%web.

(** [int(r.get('duration') or 60)] in app.py, [int(r.get('duration'))] in
    scraper.py, where [int(None)] raises. *)
Definition read_duration (default : option Z) : M Z :=
  (stored <- redis (Proc.get "duration") ;;
   match default with
   | Some d =>
       match present stored with
       | Some s => lift (of_lib (int_of_str s))
       | None => ret d
       end
   | None =>
       match stored with
       | Some s => lift (of_lib (int_of_str s))
       | None => lift (Raise TypeError)
       end
   end)%web.

(** [while scraper_running: ...], for at most [polls] passes. *)
Fixpoint monitor_loop (finish : M unit) (start_time duration : Z) (polls : nat)
  : M watch :=
  match polls with
  | O => ret Watching
  | S polls' =>
      (still <- running ;;
       if negb still then ret Stopped
       else
         now <- redis Proc.time ;;
         let elapsed := now - start_time in
         let remaining := Z.max 0 (duration - elapsed) in
         if remaining <=? 0
         then
           redis (Proc.set "stop_signal" (Redis.SStr "1")) ;;;
           set_running false ;;;
           (* Collect and save results *)
           finish ;;;
           ret Stopped
         else
           redis (Proc.sleep 1) ;;;
           monitor_loop finish start_time duration polls')%web
  end.

Definition monitor (default : option Z) (finish : M unit) (polls : nat) : M watch :=
  try_except
    (start_time <- read_start_time ;;
     duration <- read_duration default ;;
     monitor_loop finish start_time duration polls)%web
    [(Exception_, fun _ => set_running false ;;; ret Stopped)%web].

End Code.

(** The globals and the keyspace once the monitor has raised the flag. *)
Definition stopped (st : app) : app :=
  {| scraper_running := false;
     site := {| Proc.db := Redis.set "stop_signal" (Redis.SStr "1") (Proc.db (site st));
                Proc.trace := Proc.trace (site st) |};
     emitted := emitted st |}.

End Front.

Module ScraperThreads.
Import Web Front.

(** [monitor_scraper()] of scraper.py. *)
Definition monitor_scraper (float_of_str int_of_str : string -> lib Z)
    (collect_results : M Json.value) (polls : nat) : M watch :=
  monitor float_of_str int_of_str None (collect_results ;;; ret tt)%web polls.

End ScraperThreads.

Module AppThreads.
Import Web Front.

(** [monitor_scraper()] of app.py. *)
Definition monitor_scraper (float_of_str int_of_str : string -> lib Z)
    (collect_results : M Json.value) (polls : nat) : M watch :=
  monitor float_of_str int_of_str (Some 60)
    (results_data <- collect_results ;;
     (* Emit results via WebSocket *)
     emit "scraper_completed" results_data)%web polls.

(** [stop_scraper()] of app.py: the body of the response and its status. *)
Definition stop_scraper (str_of_exn : exn -> string) : M (Json.value * Z) :=
  try_except
    (redis (Proc.set "stop_signal" (Redis.SStr "1")) ;;;
     set_running false ;;;
     (* Publish stop command to worker nodes via Pub/Sub *)
     redis (Proc.publish "scraper_control" Control.stop_command) ;;;
     (* Emit via WebSocket *)
     emit "scraper_stopped" (Json.Obj [("message", Json.Str "Stop signal sent")]) ;;;
     ret (Json.Obj [("success", Json.Bool true);
                    ("message", Json.Str "Stop signal sent")], 200))%web
    [(Exception_, fun e => ret (Json.Obj [("error", Json.Str (str_of_exn e))], 500))].

End AppThreads.

(** ** Stand-ins used in examples of the front-end threads *)

Module WebSample.
Import Web.

(** The outside at a moment when the clock shows [now]. *)
Definition at_time (now : Z) : env :=
  {| outside := {| Proc.redis := Proc.Up; Proc.http := Fails RequestException;
                   Proc.clock := now |};
     meddling := None; emit_fault := None |}.

Definition offline : env :=
  {| outside := {| Proc.redis := Proc.Down; Proc.http := Fails RequestException;
                   Proc.clock := 0 |};
     meddling := None; emit_fault := None |}.

(** A job of one minute started at time 100. *)
Definition started : app :=
  {| scraper_running := true;
     site := {| Proc.db := Redis.set "start_time" (Redis.SInt 100) Sample.reset;
                Proc.trace := [] |};
     emitted := [] |}.

(** A [collect_results] that reports the counters. *)
Definition collect_results : M Json.value :=
  (found <- redis (Proc.get "urls_found") ;;
   ret (Json.Obj [("urls_found", match found with
                                 | Some s => Json.Str s
                                 | None => Json.Null
                                 end)]))%web.

End WebSample.

(** ** What an explorer owes

    The bookkeeping behind a third invariant of the job.  The SADD that
    reports a URL new leaves the worker owing one exploit item, and the
    pipeline that pushes the item settles the debt; so no more exploit
    items are pushed than URLs were added to the visited set. *)

Module Owed.
Import Proc Worker.

(** What a worker may issue while it owes [owed] items. *)
Definition allowed (owed : nat) {X} (c : cmd X) : Prop :=
  match c with
  | execute pipe => (length (Redis.pushed_to "exploit_queue" pipe) <= owed)%nat
  | lpush key _ => key <> "exploit_queue"
  | _ => True
  end.

(** What the worker owes once the command has answered. *)
Definition after (owed : nat) {X} (c : cmd X) : result X -> nat :=
  match c in cmd X return result X -> nat with
  | sadd key member =>
      fun r =>
        match r with
        | Ok n =>
            if (negb (n =? 0) && String.eqb key "visited_urls")%bool
            then S owed else owed
        | Raise _ => owed
        end
  | execute pipe =>
      fun _ => (owed - length (Redis.pushed_to "exploit_queue" pipe))%nat
  | _ => fun _ => owed
  end.

Inductive safe {A : Type} : nat -> prog A -> Prop :=
| safe_ret (owed : nat) (a : A) : safe owed (Ret a)
| safe_throw (owed : nat) (e : exn) : safe owed (Throw e)
| safe_do (owed : nat) (X : Type) (c : cmd X) (k : result X -> prog A) :
    allowed owed c -> (forall r, safe (after owed c r) (k r)) -> safe owed (Do c k).

(** A program whose commands neither add to a set nor run a pipeline nor
    push. *)
Inductive reads_only {A : Type} : prog A -> Prop :=
| reads_ret (a : A) : reads_only (Ret a)
| reads_throw (e : exn) : reads_only (Throw e)
| reads_do (X : Type) (c : cmd X) (k : result X -> prog A) :
    match c with
    | ping | get _ | brpop _ _ | sismember _ _ | requests_get _ _ | time | sleep _ => True
    | _ => False
    end ->
    (forall r, reads_only (k r)) -> reads_only (Do c k).

Definition code_safe (c : code) : Prop :=
  safe 0 (startup c) /\ safe 0 (iteration c).

Definition proc_safe (owed : nat) (p : proc) : Prop :=
  match at_ p with
  | Starting s => safe owed s
  | InBody b => safe owed b
  | LoopHead | Exited | Crashed _ => True
  end.

(** The exploit items pushed so far and those still owed are covered by
    the additions to the visited set. *)
Definition covered (w : world) (owed : nat) : Prop :=
  (System.enqueued "exploit_queue" (trace w) + owed
   <= length (System.additions "visited_urls" (trace w)))%nat.

Definition invariant (s : System.state) : Prop :=
  exists debts : list nat,
    Forall2 (fun owed cp => code_safe (fst cp) /\ proc_safe owed (snd cp))
            debts (System.procs s) /\
    covered (System.world_ s) (sum_list debts).

End Owed.

(** * Theorems *)

(** ** Strings *)

Lemma append_nil (s : string) : (EmptyString ++ s)%string = s.
Proof. reflexivity. Qed.

Lemma append_cons (c : ascii) (a b : string) :
  (String c a ++ b)%string = String c (a ++ b)%string.
Proof. reflexivity. Qed.

Lemma substring_skip (pre s : string) (m : nat) :
  substring (String.length pre) m (pre ++ s)%string = substring 0 m s.
Proof.
  induction pre as [|c pre IH]; [reflexivity|].
  rewrite append_cons. simpl. exact IH.
Qed.

Lemma substring_all (s : string) : substring 0 (String.length s) s = s.
Proof. induction s as [|c s IH]; simpl; congruence. Qed.

Lemma substring_split (s : string) (k : nat) :
  (k <= String.length s)%nat ->
  s = (substring 0 k s ++ substring k (String.length s - k) s)%string.
Proof.
  revert k. induction s as [|c s IH]; intros [|k] Hk; simpl in *; try lia.
  - reflexivity.
  - rewrite append_nil. f_equal. symmetry. apply substring_all.
  - rewrite append_cons. f_equal. apply IH. lia.
Qed.

Lemma string_app_length (a b : string) :
  String.length (a ++ b)%string = (String.length a + String.length b)%nat.
Proof.
  induction a as [|c a IH]; [reflexivity|].
  rewrite append_cons. simpl. congruence.
Qed.

(** [endswith] is the suffix relation. *)
Lemma endswith_spec (s suffix : string) :
  Str.endswith s suffix = true <-> exists pre, s = (pre ++ suffix)%string.
Proof.
  unfold Str.endswith. rewrite andb_true_iff, Nat.leb_le, String.eqb_eq. split.
  - intros [Hle Hsub].
    exists (substring 0 (String.length s - String.length suffix) s).
    pose proof (substring_split s (String.length s - String.length suffix)%nat) as Hsp.
    replace (String.length s - (String.length s - String.length suffix))%nat
      with (String.length suffix) in Hsp by lia.
    rewrite Hsub in Hsp. apply Hsp. lia.
  - intros [pre ->]. rewrite string_app_length. split; [lia|].
    replace (String.length pre + String.length suffix - String.length suffix)%nat
      with (String.length pre) by lia.
    rewrite substring_skip. apply substring_all.
Qed.

Lemma truthy_spec (s : string) : Str.truthy s = true <-> s <> EmptyString.
Proof. destruct s; simpl; split; congruence. Qed.

(** ** urllib.parse on concrete URLs *)

Example urlparse_query :
  Urllib.urlparse "https://a.com/file.pdf?x=1" =
  Returns {| Urllib.scheme := "https"; Urllib.netloc := "a.com";
             Urllib.path := "/file.pdf"; Urllib.params := EmptyString;
             Urllib.query := "x=1"; Urllib.fragment := EmptyString |}.
Proof. reflexivity. Qed.

Example urlparse_all_parts :
  Urllib.urlparse "HTTP://User@A.com:80/a/b;p?q#f" =
  Returns {| Urllib.scheme := "http"; Urllib.netloc := "User@A.com:80";
             Urllib.path := "/a/b"; Urllib.params := "p";
             Urllib.query := "q"; Urllib.fragment := "f" |}.
Proof. reflexivity. Qed.

Example urlparse_mailto :
  Urllib.urlparse "mailto:x@y.com" =
  Returns {| Urllib.scheme := "mailto"; Urllib.netloc := EmptyString;
             Urllib.path := "x@y.com"; Urllib.params := EmptyString;
             Urllib.query := EmptyString; Urllib.fragment := EmptyString |}.
Proof. reflexivity. Qed.

Example urlparse_bad_bracket : Urllib.urlparse "http://[::1/x" = Fails ValueError.
Proof. reflexivity. Qed.

(** ** The link filter *)

Section LinkFilter.

Variable urlparse : string -> lib Urllib.ParseResult.
Variable urljoin : string -> string -> lib string.

Local Abbreviation is_valid_url := (Explorer.is_valid_url urlparse).

(** The chain of early returns as one boolean. *)
Lemma is_valid_url_eq (url base_url : string) :
  is_valid_url url base_url =
  Ok match urlparse url, urlparse base_url with
     | Returns p, Returns q =>
         (Str.truthy (Urllib.scheme p)
          && (String.eqb (Urllib.scheme p) "http" || String.eqb (Urllib.scheme p) "https")
          && Str.truthy (Urllib.netloc p)
          && String.eqb (Urllib.netloc p) (Urllib.netloc q)
          && negb (existsb (fun ext => Str.endswith (Str.lower url) ext)
                           Explorer.skip_extensions))%bool
     | _, _ => false
     end.
Proof.
  unfold Explorer.is_valid_url.
  destruct (urlparse url) as [p|e]; simpl; [|reflexivity].
  destruct (urlparse base_url) as [q|e]; simpl; [|reflexivity].
  destruct (Str.truthy (Urllib.scheme p)); simpl; [|reflexivity].
  destruct (String.eqb (Urllib.scheme p) "http"),
           (String.eqb (Urllib.scheme p) "https"); simpl; try reflexivity;
    (destruct (Str.truthy (Urllib.netloc p)); simpl; [|reflexivity]);
    (destruct (String.eqb (Urllib.netloc p) (Urllib.netloc q)); simpl; [|reflexivity]);
    match goal with |- context [if ?c then _ else _] => destruct c end; reflexivity.
Qed.

Lemma is_valid_url_total (url base_url : string) :
  exists b, is_valid_url url base_url = Ok b.
Proof. rewrite is_valid_url_eq. eauto. Qed.

Lemma no_extension_spec (url : string) :
  existsb (fun ext => Str.endswith (Str.lower url) ext) Explorer.skip_extensions = false
  <-> forall ext, In ext Explorer.skip_extensions ->
                  ~ exists pre, Str.lower url = (pre ++ ext)%string.
Proof.
  split.
  - intros H ext Hin Hsuf. apply endswith_spec in Hsuf.
    assert (existsb (fun ext => Str.endswith (Str.lower url) ext)
                    Explorer.skip_extensions = true) as Ht
      by (apply existsb_exists; eauto).
    congruence.
  - intros H. apply not_true_is_false. intros Ht.
    apply existsb_exists in Ht as (ext & Hin & Hsuf).
    apply endswith_spec in Hsuf. exact (H ext Hin Hsuf).
Qed.

Lemma is_valid_url_true (url base_url : string) :
  is_valid_url url base_url = Ok true <-> Spec.code_filter urlparse url base_url.
Proof.
  rewrite is_valid_url_eq. unfold Spec.code_filter. split.
  - intros H. injection H as H.
    destruct (urlparse url) as [p|e]; [|discriminate].
    destruct (urlparse base_url) as [q|e]; [|discriminate].
    repeat (apply andb_prop in H as [H ?]).
    exists p, q. repeat split; auto.
    + now apply truthy_spec.
    + match goal with
      | Ho : (_ || _)%bool = true |- _ =>
          apply orb_prop in Ho as [Ho|Ho]; apply String.eqb_eq in Ho; auto
      end.
    + now apply truthy_spec.
    + now apply String.eqb_eq.
    + apply no_extension_spec. now apply negb_true_iff.
  - intros (p & q & -> & -> & Hs & Hsch & Hn & He & Hx). f_equal.
    apply truthy_spec in Hs. apply truthy_spec in Hn. rewrite Hs, Hn.
    apply String.eqb_eq in He. rewrite He.
    apply no_extension_spec in Hx. rewrite Hx.
    destruct Hsch as [H|H]; rewrite H; reflexivity.
Qed.

(** The links [explore_url] keeps: each href joined onto the page URL and
    then filtered, in document order. *)
Lemma collect_links_spec (base : string) (anchors : list Bs4.node) :
  forall acc links,
    Explorer.collect_links urlparse urljoin (Json.Str base) anchors acc = Ok links ->
    forall l, In l links <->
      In l acc \/
      exists anchor href, In anchor anchors /\ Bs4.attr anchor "href" = Ok href /\
                          urljoin base href = Returns l /\
                          is_valid_url l base = Ok true.
Proof.
  induction anchors as [|a rest IH]; intros acc links H l; simpl in H.
  - inversion H; subst. split; [auto|]. intros [?|(?&?&[]&_)]; auto.
  - destruct (Bs4.attr a "href") as [href|e] eqn:Ha; simpl in H; [|discriminate].
    destruct (urljoin base href) as [abs|e] eqn:Hj; simpl in H; [|discriminate].
    destruct (is_valid_url_total abs base) as [b Hb]. rewrite Hb in H. simpl in H.
    apply IH with (l := l) in H. rewrite H. clear H. split.
    + intros [Hin|(an & hr & Hin & Hat & Hjo & Hv)].
      * destruct b.
        -- apply in_app_or in Hin as [Hin|[<-|[]]]; [auto|].
           right. exists a, href. simpl. auto.
        -- auto.
      * right. exists an, hr. simpl. auto.
    + intros [Hin|(an & hr & [<-|Hin] & Hat & Hjo & Hv)].
      * left. destruct b; [apply in_or_app|]; auto.
      * left. rewrite Ha in Hat. inversion Hat; subst hr.
        rewrite Hj in Hjo. inversion Hjo; subst abs.
        rewrite Hb in Hv. inversion Hv; subst b.
        apply in_or_app. right. simpl. auto.
      * right. exists an, hr. auto.
Qed.

End LinkFilter.

(** *** Section 8, property 3, on the resolved URLs *)

Example filter_same_origin :
  Explorer.is_valid_url Urllib.urlparse "https://a.com/y" "https://a.com/p" = Ok true.
Proof. reflexivity. Qed.

Example filter_pdf :
  Explorer.is_valid_url Urllib.urlparse "https://a.com/file.pdf" "https://a.com/p" = Ok false.
Proof. reflexivity. Qed.

Example filter_mailto :
  Explorer.is_valid_url Urllib.urlparse "mailto:x@y.com" "https://a.com/p" = Ok false.
Proof. reflexivity. Qed.

Example filter_cross_origin :
  Explorer.is_valid_url Urllib.urlparse "https://other.com/z" "https://a.com/p" = Ok false.
Proof. reflexivity. Qed.

Example filter_upper_case_extension :
  Explorer.is_valid_url Urllib.urlparse "https://a.com/FILE.PDF" "https://a.com/p" = Ok false.
Proof. reflexivity. Qed.

Example filter_malformed :
  Explorer.is_valid_url Urllib.urlparse "http://[::1/x" "http://[::1/x" = Ok false.
Proof. reflexivity. Qed.

(** A query that ends like a file name: the path is [/x], the filter the
    specification words accepts, the code rejects. *)
Example filter_query_suffix :
  Explorer.is_valid_url Urllib.urlparse "https://a.com/x?f=a.pdf" "https://a.com/p" = Ok false
  /\ Spec.link_filter Urllib.urlparse "https://a.com/x?f=a.pdf" "https://a.com/p" = true.
Proof. split; reflexivity. Qed.

(** C3, as stated, fails: the path of [https://a.com/file.pdf?x=1] is
    [/file.pdf], which ends with a blacklisted extension, so the filter of
    section 4.2.1 rejects the URL; [is_valid_url] looks at the end of the
    whole URL, [=1], and accepts it. *)
Lemma link_filter_path_counterexample :
  (exists parsed,
      Urllib.urlparse "https://a.com/file.pdf?x=1" = Returns parsed /\
      Urllib.path parsed = "/file.pdf") /\
  Spec.link_filter Urllib.urlparse "https://a.com/file.pdf?x=1" "https://a.com/p" = false /\
  Explorer.is_valid_url Urllib.urlparse "https://a.com/file.pdf?x=1" "https://a.com/p"
  = Ok true.
Proof.
  split; [|split]; try reflexivity.
  eexists. split; reflexivity.
Qed.

(** C3 (amended): [is_valid_url] never raises, and it accepts a candidate
    exactly when both URLs parse, the candidate has a scheme, the scheme is
    http or https, its network location is not empty and equals that of
    the page, and the whole lower-cased URL text does not end with one of
    the eight extensions.  The candidates [explore_url] keeps are the hrefs
    of the page joined onto the page URL that pass this filter. *)
Theorem is_valid_url_spec
    (urlparse : string -> lib Urllib.ParseResult)
    (urljoin : string -> string -> lib string) (url base_url : string) :
  (exists b, Explorer.is_valid_url urlparse url base_url = Ok b) /\
  (Explorer.is_valid_url urlparse url base_url = Ok true
   <-> Spec.code_filter urlparse url base_url) /\
  (forall anchors links,
      Explorer.collect_links urlparse urljoin (Json.Str base_url) anchors [] = Ok links ->
      forall l, In l links <->
        exists anchor href,
          In anchor anchors /\ Bs4.attr anchor "href" = Ok href /\
          urljoin base_url href = Returns l /\
          Explorer.is_valid_url urlparse l base_url = Ok true).
Proof.
  split; [|split].
  - apply is_valid_url_total.
  - apply is_valid_url_true.
  - intros anchors links H l.
    rewrite (collect_links_spec urlparse urljoin base_url anchors [] links H l).
    simpl. tauto.
Qed.

(** The theorem at the page [https://a.com/p] with one anchor. *)
Lemma is_valid_url_spec_witness :
  Explorer.is_valid_url Urllib.urlparse "https://a.com/y" "https://a.com/p" = Ok true /\
  In "https://a.com/y" ["https://a.com/y"].
Proof.
  destruct (is_valid_url_spec Urllib.urlparse (fun _ href => Returns href)
              "https://a.com/y" "https://a.com/p") as (_ & Hiff & Hlinks).
  split.
  - apply Hiff. eexists _, _. split; [reflexivity|]. split; [reflexivity|].
    simpl. repeat split; try discriminate; auto.
    intros ext Hin Hsuf. apply endswith_spec in Hsuf.
    simpl in Hin.
    repeat (destruct Hin as [<-|Hin]; [vm_compute in Hsuf; discriminate|]).
    destruct Hin.
  - apply (Hlinks [Bs4.Tag "a" [("href", "https://a.com/y")] []]); [reflexivity|].
    eexists _, _. split; [left; reflexivity|].
    split; [reflexivity|]. split; reflexivity.
Defined.

(** ** Title extraction *)

Section Title.

Variable html_parser : string -> lib Bs4.soup.
Variable container_markup : Json.value -> lib Bs4.soup.

Local Abbreviation extract_title := (Extractor.extract_title html_parser container_markup).

Lemma title_string_some (soup : Bs4.soup) (s : string) :
  Extractor.title_string soup = Some s <-> Spec.title_text soup s.
Proof.
  unfold Extractor.title_string, Spec.title_text. split.
  - destruct (Bs4.find soup "title") as [tag|]; [|discriminate].
    destruct (Bs4.string_ tag) as [t|] eqn:Es; [|discriminate].
    destruct (Str.truthy t) eqn:Ht; [|discriminate].
    intros [= ->]. exists tag. split; [reflexivity|]. split; [exact Es|].
    now apply truthy_spec.
  - intros (tag & -> & -> & Hs). apply truthy_spec in Hs. now rewrite Hs.
Qed.

Lemma title_string_none (soup : Bs4.soup) :
  Extractor.title_string soup = None <-> ~ exists s, Spec.title_text soup s.
Proof.
  split.
  - intros H [s Hs]. apply title_string_some in Hs. congruence.
  - intros H. destruct (Extractor.title_string soup) as [s|] eqn:E; [|reflexivity].
    exfalso. apply H. exists s. now apply title_string_some.
Qed.

(** [tag.string] is the string of a tag that holds one string and nothing
    else. *)
Lemma string_sole : forall (n : Bs4.node) (s : string),
  Bs4.string_ n = Some s -> Spec.sole_string n s.
Proof.
  fix IH 1. intros [t|name attrs cs] s H.
  - injection H as <-. constructor.
  - destruct cs as [|c [|c' rest]]; simpl in H; try discriminate.
    constructor. now apply IH.
Qed.

Lemma sole_string_ (n : Bs4.node) (s : string) :
  Spec.sole_string n s -> Bs4.string_ n = Some s.
Proof. induction 1 as [s|name attrs c s _ IH]; [reflexivity|exact IH]. Qed.

Lemma sole_title_text (soup : Bs4.soup) (s : string) :
  Spec.sole_title soup s -> Spec.title_text soup s.
Proof.
  intros (tag & Hf & Hs & Hne). exists tag. split; [exact Hf|].
  split; [now apply sole_string_|exact Hne].
Qed.

Lemma title_text_sole (soup : Bs4.soup) (s : string) :
  Spec.title_text soup s -> Spec.sole_title soup s.
Proof.
  intros (tag & Hf & Hs & Hne). exists tag. split; [exact Hf|].
  split; [now apply string_sole|exact Hne].
Qed.

(** Whatever the markup object is, [extract_title] returns a str. *)
Lemma extract_title_total (html : Json.value) :
  exists title, extract_title html = Ok title.
Proof.
  unfold Extractor.extract_title.
  destruct (Bs4.BeautifulSoup html_parser container_markup html) as [soup|e] eqn:E;
    simpl.
  - destruct (Extractor.title_string soup); simpl; eauto.
    destruct (Bs4.find soup "h1"); simpl; eauto.
  - destruct html; simpl in E;
      try (injection E as <-; simpl; eauto);
      match type of E with
      | of_lib ?x = _ => destruct x; simpl in E; inversion E; subst; simpl; eauto
      end.
Qed.

Lemma extract_title_parsed (html : string) (soup : Bs4.soup) :
  html_parser html = Returns soup ->
  extract_title (Json.Str html) =
  Ok match Extractor.title_string soup with
     | Some s => Str.strip s
     | None =>
         match Bs4.find soup "h1" with
         | Some h1_tag => Str.strip (Bs4.get_text h1_tag)
         | None => "No title found"
         end
     end.
Proof.
  intros H. unfold Extractor.extract_title. simpl. rewrite H. simpl.
  destruct (Extractor.title_string soup); simpl; [reflexivity|].
  destruct (Bs4.find soup "h1"); reflexivity.
Qed.

(** [BeautifulSoup(None)] raises, and the handler turns that into the
    error title. *)
Lemma extract_title_None : extract_title Json.Null = Ok "Error extracting title".
Proof. reflexivity. Qed.

End Title.

(** C8, as stated, fails: the title of [<title>A<b>B</b></title><h1>H</h1>]
    has the text [AB], which is what section 4.3 asks for, but the title
    tag holds a string and a tag, so that its [.string] is [None] and
    [extract_title] returns the text of the h1. *)
Lemma title_text_counterexample :
  (exists title_tag,
      Bs4.find Sample.mixed "title" = Some title_tag /\
      Bs4.get_text title_tag = "AB") /\
  Spec.title_of Sample.mixed = "AB" /\
  Extractor.extract_title Sample.mixed_parser Sample.container_markup
    (Json.Str Sample.mixed_html) = Ok "H".
Proof.
  split; [|split]; try reflexivity.
  eexists. split; reflexivity.
Qed.

(** C8 (amended): on a str, [extract_title] always returns.  When the
    parser raises, the result is "Error extracting title".  On the parsed
    document it is the stripped string of the first title tag when that
    tag holds one string and nothing else and the string is not empty;
    otherwise the stripped text of the first h1 when there is one;
    otherwise "No title found". *)
Theorem extract_title_spec
    (html_parser : string -> lib Bs4.soup)
    (container_markup : Json.value -> lib Bs4.soup)
    (html : string) :
  (exists title,
      Extractor.extract_title html_parser container_markup (Json.Str html) = Ok title) /\
  (forall e, html_parser html = Fails e ->
      Extractor.extract_title html_parser container_markup (Json.Str html)
      = Ok "Error extracting title") /\
  (forall soup, html_parser html = Returns soup ->
     (forall s, Spec.sole_title soup s ->
        Extractor.extract_title html_parser container_markup (Json.Str html)
        = Ok (Str.strip s)) /\
     (forall h1_tag,
        ~ (exists s, Spec.sole_title soup s) -> Bs4.find soup "h1" = Some h1_tag ->
        Extractor.extract_title html_parser container_markup (Json.Str html)
        = Ok (Str.strip (Bs4.get_text h1_tag))) /\
     (~ (exists s, Spec.sole_title soup s) -> Bs4.find soup "h1" = None ->
        Extractor.extract_title html_parser container_markup (Json.Str html)
        = Ok "No title found")).
Proof.
  split; [apply extract_title_total|]. split.
  - intros e He. unfold Extractor.extract_title. simpl. rewrite He.
    destruct e; reflexivity.
  - intros soup Hp.
    rewrite (extract_title_parsed html_parser container_markup html soup Hp).
    split; [|split].
    + intros s Hs. apply sole_title_text, title_string_some in Hs. now rewrite Hs.
    + intros h Hn Hh. rewrite (proj2 (title_string_none soup)), Hh; [reflexivity|].
      intros [s Hs]. apply Hn. exists s. now apply title_text_sole.
    + intros Hn Hh. rewrite (proj2 (title_string_none soup)), Hh; [reflexivity|].
      intros [s Hs]. apply Hn. exists s. now apply title_text_sole.
Qed.

(** C8 (amended) on four documents: a page with a title and an h1, a page
    with an h1 only, a page with neither, and a text the parser gives up
    on. *)
Lemma extract_title_spec_witness :
  Extractor.extract_title Sample.html_parser Sample.container_markup
    (Json.Str Sample.home_html) = Ok "Home" /\
  Extractor.extract_title Sample.html_parser Sample.container_markup
    (Json.Str "<h1>Welcome</h1>") = Ok "Welcome" /\
  Extractor.extract_title Sample.html_parser Sample.container_markup
    (Json.Str "plain text") = Ok "No title found" /\
  Extractor.extract_title Sample.failing_parser Sample.container_markup
    (Json.Str "<title>") = Ok "Error extracting title".
Proof.
  split; [|split; [|split]].
  - destruct (extract_title_spec Sample.html_parser Sample.container_markup
                Sample.home_html) as (_ & _ & Hp).
    destruct (Hp Sample.home eq_refl) as (Ht & _).
    apply (Ht " Home ").
    eexists. split; [reflexivity|]. split; [repeat constructor|discriminate].
  - destruct (extract_title_spec Sample.html_parser Sample.container_markup
                "<h1>Welcome</h1>") as (_ & _ & Hp).
    destruct (Hp Sample.welcome eq_refl) as (_ & Hh1 & _).
    apply (Hh1 (Bs4.Tag "h1" [] [Bs4.Text "Welcome"])).
    + intros (s & tag & Hfind & _). discriminate Hfind.
    + reflexivity.
  - destruct (extract_title_spec Sample.html_parser Sample.container_markup
                "plain text") as (_ & _ & Hp).
    destruct (Hp [Bs4.Text "plain text"] eq_refl) as (_ & _ & Hn).
    apply Hn.
    + intros (s & tag & Hfind & _). discriminate Hfind.
    + reflexivity.
  - destruct (extract_title_spec Sample.failing_parser Sample.container_markup
                "<title>") as (_ & He & _).
    apply (He ValueError). reflexivity.
Defined.

(** Section 8, property 8, and the title branch. *)
Example title_of_home :
  Extractor.extract_title Sample.html_parser Sample.container_markup
    (Json.Str Sample.home_html) = Ok "Home".
Proof. reflexivity. Qed.

Example title_of_nothing :
  Extractor.extract_title Sample.html_parser Sample.container_markup
    (Json.Str "plain text") = Ok "No title found".
Proof. reflexivity. Qed.

Example title_of_None :
  Extractor.extract_title Sample.html_parser Sample.container_markup Json.Null
  = Ok "Error extracting title".
Proof. reflexivity. Qed.

(** ** Running command trees *)

Section RunLemmas.
Import Proc.

Lemma run_bind {A B} (p : prog A) (f : A -> prog B) (envs : list env) (w : world) :
  run (bind p f) envs w =
  match run p envs w with
  | (Ok a, w', rest) => run (f a) rest w'
  | (Raise e, w', rest) => (Raise e, w', rest)
  end.
Proof.
  revert envs w. induction p as [a|e|X c k IH]; intros envs w; simpl; auto.
  destruct (exec c (hd calm envs) w) as [r w']. apply IH.
Qed.

Lemma run_try {A} (p : prog A) (cl : list (exn_class * (exn -> prog A)))
    (envs : list env) (w : world) :
  run (try_except p cl) envs w =
  match run p envs w with
  | (Ok a, w', rest) => (Ok a, w', rest)
  | (Raise e, w', rest) => run (handle cl e) rest w'
  end.
Proof.
  revert envs w. induction p as [a|e|X c k IH]; intros envs w; simpl; auto.
  destruct (exec c (hd calm envs) w) as [r w']. apply IH.
Qed.

Lemma run_call {X} (c : cmd X) (envs : list env) (w : world) :
  run (call c) envs w =
  (fst (exec c (hd calm envs) w), snd (exec c (hd calm envs) w), tl envs).
Proof.
  unfold call. simpl. destruct (exec c (hd calm envs) w) as [[x|e] w']; reflexivity.
Qed.

Lemma run_lift {A} (r : result A) (envs : list env) (w : world) :
  run (lift r) envs w = (r, w, envs).
Proof. destruct r; reflexivity. Qed.

(** A served command. *)
Lemma exec_up {X} (c : cmd X) (ev : env) (w : world) r b' evs :
  redis ev = Up -> serve c (db w) = Some (r, b', evs) ->
  exec c ev w = (r, {| db := b'; trace := evs ++ trace w |}).
Proof. intros Hup Hs. unfold exec. now rewrite Hs, Hup. Qed.

End RunLemmas.

(** ** The keyspace *)

Section RedisLemmas.

Lemma llist_set_list (key key' : string) (l : list Json.text) (b : Redis.broker) :
  Redis.llist (Redis.set_list key l b) key' =
  if decide (key = key') then l else Redis.llist b key'.
Proof.
  unfold Redis.llist, Redis.set_list. simpl.
  case_decide; subst; now simplify_map_eq.
Qed.

Lemma llist_lpush (key key' : string) (x : Json.text) (b : Redis.broker) :
  Redis.llist (Redis.lpush key x b) key' =
  if decide (key = key') then x :: Redis.llist b key else Redis.llist b key'.
Proof. unfold Redis.lpush. apply llist_set_list. Qed.

Lemma brpop_empty (key : string) (b : Redis.broker) :
  Redis.llist b key = [] -> Redis.brpop key b = (None, b).
Proof. intros H. unfold Redis.brpop. now rewrite H. Qed.

Lemma brpop_last (key : string) (b : Redis.broker) (q : list Json.text) (x : Json.text) :
  Redis.llist b key = q ++ [x] ->
  Redis.brpop key b = (Some (key, x), Redis.set_list key q b).
Proof.
  intros H. unfold Redis.brpop. rewrite H, rev_app_distr. simpl.
  now rewrite rev_involutive.
Qed.

Lemma sadd_new (key member : string) (b : Redis.broker) :
  member ∉ Redis.smembers b key ->
  fst (Redis.sadd key member b) = 1 /\
  Redis.smembers (snd (Redis.sadd key member b)) key = {[member]} ∪ Redis.smembers b key.
Proof.
  intros H. unfold Redis.sadd. case_decide; [done|]. simpl. split; [done|].
  unfold Redis.smembers at 1. simpl. now simplify_map_eq.
Qed.

Lemma sadd_old (key member : string) (b : Redis.broker) :
  member ∈ Redis.smembers b key -> Redis.sadd key member b = (0, b).
Proof. intros H. unfold Redis.sadd. now case_decide. Qed.

Lemma sadd_result (key member : string) (b : Redis.broker) :
  (fst (Redis.sadd key member b) = 0 /\ member ∈ Redis.smembers b key
   /\ snd (Redis.sadd key member b) = b) \/
  (fst (Redis.sadd key member b) = 1 /\ member ∉ Redis.smembers b key).
Proof. unfold Redis.sadd. case_decide; simpl; auto. Qed.

End RedisLemmas.

(** ** A malformed payload *)

Section Malformed.
Import Proc Worker.

Variable urlparse : string -> lib Urllib.ParseResult.
Variable urljoin : string -> string -> lib string.
Variable html_parser : string -> lib Bs4.soup.
Variable container_markup : Json.value -> lib Bs4.soup.

Local Abbreviation explorer_worker :=
  (Explorer.explorer_worker urlparse urljoin html_parser container_markup).
Local Abbreviation extractor_worker :=
  (Extractor.extractor_worker html_parser container_markup).

Lemma run_call_up {X} (c : cmd X) (envs : list env) (w : world) r b' evs :
  redis (hd calm envs) = Up -> serve c (db w) = Some (r, b', evs) ->
  run (call c) envs w = (r, {| db := b'; trace := evs ++ trace w |}, tl envs).
Proof.
  intros Hup Hs. rewrite run_call. now rewrite (exec_up c _ w r b' evs Hup Hs).
Qed.

Lemma run_brpop_last (key : string) (t : Z) (envs : list env) (w : world) q x :
  redis (hd calm envs) = Up -> Redis.llist (db w) key = q ++ [x] ->
  run (call (brpop key t)) envs w =
  (Ok (Some (key, x)), {| db := Redis.set_list key q (db w); trace := trace w |}, tl envs).
Proof.
  intros Hup Hq.
  rewrite (run_call_up (brpop key t) envs w (Ok (Some (key, x)))
             (Redis.set_list key q (db w)) []); auto.
  simpl. now rewrite (brpop_last key (db w) q x Hq).
Qed.

Lemma run_brpop_empty (key : string) (t : Z) (envs : list env) (w : world) :
  redis (hd calm envs) = Up -> Redis.llist (db w) key = [] ->
  run (call (brpop key t)) envs w = (Ok None, w, tl envs).
Proof.
  intros Hup Hq. rewrite (run_call_up (brpop key t) envs w (Ok None) (db w) []); auto.
  - now destruct w.
  - simpl. now rewrite (brpop_empty key (db w) Hq).
Qed.

(** The explorer has no handler around the decoding: the exception leaves
    [explorer_worker]. *)
Lemma explorer_undecodable (envs : list env) (p : proc) (w : world)
    (q : list Json.text) (x : Json.text) (e : exn) :
  should_stop p = false ->
  Redis.llist (db w) "explored_queue" = q ++ [x] ->
  redis (hd calm envs) = Up ->
  Spec.frontier_member x = Raise e ->
  iterate explorer_worker envs p w =
  (goto p (Crashed e),
   {| db := Redis.set_list "explored_queue" q (db w); trace := trace w |}, tl envs).
Proof.
  intros Hs Hq Hup Hd. unfold iterate. rewrite Hs.
  unfold Explorer.explorer_worker. cbn [Worker.iteration].
  unfold Explorer.iteration. rewrite run_bind.
  rewrite (run_brpop_last "explored_queue" 1 envs w q x Hup Hq).
  unfold Spec.frontier_member in Hd.
  destruct (Json.loads x) as [item|e1]; simpl in Hd.
  - simpl. destruct (Json.getitem item "url") as [url|e2]; simpl in Hd.
    + simpl. destruct (Redis.encode url) as [m|e3]; simpl in Hd; [discriminate|].
      simpl. now inversion Hd.
    + simpl. now inversion Hd.
  - simpl. now inversion Hd.
Qed.

(** The exceptions decoding can raise. *)
Lemma exploit_fields_raises (x : Json.text) (e : exn) :
  Spec.exploit_fields x = Raise e ->
  e = JSONDecodeError \/ e = TypeError \/ exists k, e = KeyError k.
Proof.
  unfold Spec.exploit_fields. destruct x as [v|raw]; simpl.
  - destruct v; simpl; try (intros [= <-]; auto).
    destruct (Json.dict_get fields "url"); simpl; [|intros [= <-]; eauto].
    destruct (Json.dict_get fields "html"); simpl; [discriminate|].
    intros [= <-]; eauto.
  - intros [= <-]; auto.
Qed.

(** The extractor decodes inside its [try]: the payload is dropped, nothing
    else changes, and the loop goes on. *)
Lemma extractor_undecodable (worker_id : Z) (envs : list env) (p : proc) (w : world)
    (q : list Json.text) (x : Json.text) (e : exn) :
  should_stop p = false ->
  Redis.llist (db w) "exploit_queue" = q ++ [x] ->
  redis (hd calm envs) = Up ->
  Spec.exploit_fields x = Raise e ->
  iterate (extractor_worker worker_id) envs p w =
  (goto p LoopHead,
   {| db := Redis.set_list "exploit_queue" q (db w); trace := trace w |}, tl envs).
Proof.
  intros Hs Hq Hup Hd. unfold iterate. rewrite Hs.
  unfold Extractor.extractor_worker. cbn [Worker.iteration].
  unfold Extractor.iteration. rewrite run_bind, run_try.
  unfold Extractor.pop_and_extract. rewrite run_bind.
  rewrite (run_brpop_last "exploit_queue" 1 envs w q x Hup Hq).
  pose proof (exploit_fields_raises x e Hd) as He.
  unfold Spec.exploit_fields in Hd.
  destruct (Json.loads x) as [item|e1]; simpl in Hd.
  - simpl. destruct (Json.getitem item "url") as [url|e2]; simpl in Hd.
    + simpl. destruct (Json.getitem item "html") as [html|e3]; simpl in Hd;
        [discriminate|].
      simpl. inversion Hd; subst e3.
      destruct He as [->|[->|[k ->]]]; reflexivity.
    + simpl. inversion Hd; subst e2.
      destruct He as [->|[->|[k ->]]]; reflexivity.
  - simpl. inversion Hd; subst e1.
    destruct He as [->|[->|[k ->]]]; reflexivity.
Qed.

End Malformed.

(** C1 at the failing input: a frontier payload that is not JSON.  The
    explorer pops it and [json.loads] raises outside any [try]; the
    exception leaves [explorer_worker] and the process is gone.  The
    extractor, whose decoding sits inside its [try], drops the same
    payload and returns to the loop test. *)
Theorem malformed_payload_kills_explorer
    (urlparse : string -> lib Urllib.ParseResult)
    (urljoin : string -> string -> lib string)
    (html_parser : string -> lib Bs4.soup)
    (container_markup : Json.value -> lib Bs4.soup)
    (worker_id : Z) (envs : list Proc.env) (p : Worker.proc)
    (q : list Json.text) (raw : string) :
  Worker.should_stop p = false ->
  Proc.redis (hd Proc.calm envs) = Proc.Up ->
  (forall w, Redis.llist (Proc.db w) "explored_queue" = q ++ [Json.Garbage raw] ->
     Worker.iterate
       (Explorer.explorer_worker urlparse urljoin html_parser container_markup)
       envs p w =
     (Worker.goto p (Worker.Crashed JSONDecodeError),
      {| Proc.db := Redis.set_list "explored_queue" q (Proc.db w);
         Proc.trace := Proc.trace w |}, tl envs)) /\
  (forall w, Redis.llist (Proc.db w) "exploit_queue" = q ++ [Json.Garbage raw] ->
     Worker.iterate (Extractor.extractor_worker html_parser container_markup worker_id)
       envs p w =
     (Worker.goto p Worker.LoopHead,
      {| Proc.db := Redis.set_list "exploit_queue" q (Proc.db w);
         Proc.trace := Proc.trace w |}, tl envs)).
Proof.
  intros Hs Hup. split; intros w Hq.
  - now apply (explorer_undecodable urlparse urljoin html_parser container_markup envs p w
                 q (Json.Garbage raw) JSONDecodeError).
  - now apply (extractor_undecodable html_parser container_markup worker_id envs p w
                 q (Json.Garbage raw) JSONDecodeError).
Qed.

(** The theorem on a frontier holding the one payload [not json]. *)
Lemma malformed_payload_kills_explorer_witness :
  Worker.running
    (fst (fst (Worker.iterate
                 (Explorer.explorer_worker Urllib.urlparse Sample.urljoin
                    Sample.html_parser Sample.container_markup)
                 [] Sample.at_loop_head
                 (Sample.world_with "explored_queue" [Json.Garbage "not json"]))))
  = false.
Proof.
  destruct (malformed_payload_kills_explorer Urllib.urlparse Sample.urljoin
              Sample.html_parser Sample.container_markup 7 [] Sample.at_loop_head
              [] "not json" eq_refl eq_refl) as [Hexp _].
  rewrite (Hexp (Sample.world_with "explored_queue" [Json.Garbage "not json"]) eq_refl).
  reflexivity.
Defined.


(** ** Pipelines *)

Section Pipelines.

Lemma counter_set (key key' : string) (z : Z) (b : Redis.broker) :
  Redis.counter (Redis.set key (Redis.SInt z) b) key' =
  if decide (key = key') then z else Redis.counter b key'.
Proof. unfold Redis.counter, Redis.set. simpl. case_decide; subst; now simplify_map_eq. Qed.

Lemma is_counter_set (key key' : string) (z : Z) (b : Redis.broker) :
  Redis.is_counter b key' -> Redis.is_counter (Redis.set key (Redis.SInt z) b) key'.
Proof.
  unfold Redis.is_counter, Redis.set. simpl.
  destruct (decide (key = key')); subst; now simplify_map_eq.
Qed.

Lemma incr_counter (key : string) (b : Redis.broker) :
  Redis.is_counter b key ->
  Redis.incr key b =
  (Ok (Redis.counter b key + 1), Redis.set key (Redis.SInt (Redis.counter b key + 1)) b).
Proof.
  unfold Redis.is_counter, Redis.incr.
  destruct (Redis.strings b !! key) as [[z|s]|]; simpl; tauto.
Qed.

(** INCR leaves every other key alone and adds one to its own. *)
Lemma incr_effect (key key' : string) (b : Redis.broker) :
  Redis.is_counter b key' ->
  Redis.is_counter (snd (Redis.incr key b)) key' /\
  Redis.counter (snd (Redis.incr key b)) key' =
  Redis.counter b key' + (if decide (key = key') then 1 else 0) /\
  (key = key' -> exists z, fst (Redis.incr key b) = Ok z).
Proof.
  intros Hc. unfold Redis.incr.
  destruct (Redis.strings b !! key) as [[z|s]|] eqn:E; simpl.
  - split; [now apply is_counter_set|]. rewrite counter_set.
    split; [destruct (decide (key = key')); subst; lia|eauto].
  - assert (key <> key') as Hne.
    { intros ->. unfold Redis.is_counter in Hc. now rewrite E in Hc. }
    split; [assumption|]. split; [rewrite decide_False by assumption; lia|done].
  - split; [now apply is_counter_set|]. rewrite counter_set.
    split; [destruct (decide (key = key')); subst; lia|eauto].
Qed.

Lemma incr_frame (key : string) (b : Redis.broker) :
  Redis.lists (snd (Redis.incr key b)) = Redis.lists b /\
  Redis.sets (snd (Redis.incr key b)) = Redis.sets b /\
  Redis.streams (snd (Redis.incr key b)) = Redis.streams b.
Proof.
  unfold Redis.incr. destruct (Redis.strings b !! key) as [[z|s]|]; simpl; auto.
Qed.

Lemma apply_pipe_cmd_llist (c : Redis.pipe_cmd) (b : Redis.broker) (key : string) :
  Redis.llist (snd (Redis.apply_pipe_cmd c b)) key =
  List.rev (Redis.pushed_to key [c]) ++ Redis.llist b key.
Proof.
  destruct c as [k x|k|k f]; simpl.
  - rewrite llist_lpush. destruct (String.eqb_spec k key) as [->|Hne].
    + now rewrite decide_True.
    + now rewrite decide_False.
  - pose proof (incr_frame k b) as (Hl & _).
    destruct (Redis.incr k b) as [[z|e] b']; simpl in *;
      unfold Redis.llist; now rewrite Hl.
  - reflexivity.
Qed.

Lemma pushed_to_cons (key : string) (c : Redis.pipe_cmd) (pipe : list Redis.pipe_cmd) :
  Redis.pushed_to key (c :: pipe) = Redis.pushed_to key [c] ++ Redis.pushed_to key pipe.
Proof. unfold Redis.pushed_to. simpl. destruct c; simpl; auto. now destruct (String.eqb key0 key). Qed.

Lemma llist_execute_from (pipe : list Redis.pipe_cmd) (ok : bool) (b : Redis.broker)
    (key : string) :
  Redis.llist (snd (Redis.execute_from pipe ok b)) key =
  List.rev (Redis.pushed_to key pipe) ++ Redis.llist b key.
Proof.
  revert ok b. induction pipe as [|c pipe IH]; intros ok b; [reflexivity|].
  simpl Redis.execute_from.
  pose proof (apply_pipe_cmd_llist c b key) as Hc.
  destruct (Redis.apply_pipe_cmd c b) as [ok1 b1]. cbn [snd] in Hc.
  rewrite (pushed_to_cons key c pipe), rev_app_distr, <- app_assoc, IH, Hc.
  reflexivity.
Qed.

Lemma apply_pipe_cmd_counter (c : Redis.pipe_cmd) (b : Redis.broker) (key : string) :
  Redis.is_counter b key ->
  Redis.is_counter (snd (Redis.apply_pipe_cmd c b)) key /\
  Redis.counter (snd (Redis.apply_pipe_cmd c b)) key =
  Redis.counter b key + Z.of_nat (Redis.incrs key [c]).
Proof.
  intros Hc. destruct c as [k x|k|k f]; simpl.
  - split; [assumption|]. unfold Redis.counter, Redis.incrs. simpl. lia.
  - pose proof (incr_effect k key b Hc) as (H1 & H2 & _).
    assert (Z.of_nat (Redis.incrs key [Redis.p_incr k])
            = if decide (k = key) then 1 else 0) as Hn.
    { unfold Redis.incrs. simpl.
      destruct (String.eqb_spec k key) as [->|Hne];
        [rewrite decide_True by done|rewrite decide_False by done]; reflexivity. }
    rewrite Hn.
    destruct (Redis.incr k b) as [[z|e] b']; simpl in *; auto.
  - split; [assumption|]. unfold Redis.counter, Redis.incrs. simpl. lia.
Qed.

Lemma incrs_cons (key : string) (c : Redis.pipe_cmd) (pipe : list Redis.pipe_cmd) :
  Redis.incrs key (c :: pipe) = (Redis.incrs key [c] + Redis.incrs key pipe)%nat.
Proof.
  unfold Redis.incrs. simpl.
  destruct c; simpl; auto. now destruct (String.eqb key0 key).
Qed.

Lemma counter_execute_from (pipe : list Redis.pipe_cmd) (ok : bool) (b : Redis.broker)
    (key : string) :
  Redis.is_counter b key ->
  Redis.is_counter (snd (Redis.execute_from pipe ok b)) key /\
  Redis.counter (snd (Redis.execute_from pipe ok b)) key =
  Redis.counter b key + Z.of_nat (Redis.incrs key pipe).
Proof.
  revert ok b. induction pipe as [|c pipe IH]; intros ok b Hc.
  - simpl. split; [assumption|]. unfold Redis.incrs. simpl. symmetry; apply Z.add_0_r.
  - simpl Redis.execute_from.
    pose proof (apply_pipe_cmd_counter c b key Hc) as (H1 & H2).
    destruct (Redis.apply_pipe_cmd c b) as [ok1 b1]. cbn [snd] in H1, H2.
    destruct (IH (ok && ok1)%bool b1 H1) as (H3 & H4).
    split; [assumption|]. rewrite (incrs_cons key c pipe), Nat2Z.inj_add, H4, H2. lia.
Qed.

Lemma apply_pipe_cmd_frame (c : Redis.pipe_cmd) (b : Redis.broker) :
  Redis.sets (snd (Redis.apply_pipe_cmd c b)) = Redis.sets b /\
  Redis.published (snd (Redis.apply_pipe_cmd c b)) = Redis.published b.
Proof.
  destruct c as [k x|k|k f]; simpl; auto.
  unfold Redis.incr. destruct (Redis.strings b !! k) as [[z|s]|]; simpl; auto.
Qed.

Lemma sets_execute_from (pipe : list Redis.pipe_cmd) (ok : bool) (b : Redis.broker) :
  Redis.sets (snd (Redis.execute_from pipe ok b)) = Redis.sets b.
Proof.
  revert ok b. induction pipe as [|c pipe IH]; intros ok b; [reflexivity|].
  simpl Redis.execute_from.
  pose proof (apply_pipe_cmd_frame c b) as (Hs & _).
  destruct (Redis.apply_pipe_cmd c b) as [ok1 b1]. simpl in Hs.
  now rewrite IH.
Qed.

(** A pipeline whose INCRs all hit counters does not fail. *)
Lemma execute_from_ok (pipe : list Redis.pipe_cmd) (ok : bool) (b : Redis.broker) :
  (forall key, Redis.incrs key pipe <> O -> Redis.is_counter b key) ->
  fst (Redis.execute_from pipe ok b) = ok.
Proof.
  revert ok b. induction pipe as [|c pipe IH]; intros ok b Hc; [reflexivity|].
  simpl Redis.execute_from.
  assert (fst (Redis.apply_pipe_cmd c b) = true) as Hok.
  { destruct c as [k x|k|k f]; simpl; auto.
    rewrite incr_counter; [reflexivity|].
    apply Hc. unfold Redis.incrs. simpl. now rewrite String.eqb_refl. }
  assert (forall key, Redis.incrs key pipe <> O ->
                      Redis.is_counter (snd (Redis.apply_pipe_cmd c b)) key) as Hc'.
  { intros key Hk.
    apply apply_pipe_cmd_counter. apply Hc. rewrite (incrs_cons key c pipe). lia. }
  destruct (Redis.apply_pipe_cmd c b) as [ok1 b1]. simpl in Hok, Hc'. subst ok1.
  rewrite IH; [|assumption]. now rewrite andb_true_r.
Qed.

End Pipelines.

(** ** One explorer iteration *)

Section ExplorerIteration.
Import Proc Worker.

Variable urlparse : string -> lib Urllib.ParseResult.
Variable urljoin : string -> string -> lib string.
Variable html_parser : string -> lib Bs4.soup.
Variable container_markup : Json.value -> lib Bs4.soup.

Local Abbreviation explore_url :=
  (Explorer.explore_url urlparse urljoin html_parser container_markup).
Local Abbreviation iteration :=
  (Explorer.iteration urlparse urljoin html_parser container_markup).

Lemma connected_hd (envs : list env) : connected envs -> redis (hd calm envs) = Up.
Proof. intros H. destruct envs; [reflexivity|]. now inversion H. Qed.

Lemma connected_tl (envs : list env) : connected envs -> connected (tl envs).
Proof. intros H. destruct envs; [assumption|]. now inversion H. Qed.

Lemma connected_drop (n : nat) (envs : list env) : connected envs -> connected (drop n envs).
Proof. intros H. unfold connected. now apply Forall_drop. Qed.

Lemma drop_tl {A} (n : nat) (l : list A) : drop n (tl l) = drop (S n) l.
Proof. destruct l; [now destruct n|reflexivity]. Qed.

Lemma world_eta (w : world) : {| db := db w; trace := trace w |} = w.
Proof. now destruct w. Qed.

(** The link collection raises only exceptions. *)
Lemma collect_links_raises (url : Json.value) (anchors : list Bs4.node) :
  forall links e,
    Explorer.collect_links urlparse urljoin url anchors links = Raise e ->
    exists x, e = Exc x.
Proof.
  induction anchors as [|a rest IH]; intros links e H; simpl in H; [discriminate|].
  destruct (Bs4.attr a "href") as [href|e1] eqn:Ha; simpl in H.
  - destruct url; simpl in H; try (inversion H; eauto).
    destruct (urljoin s href) as [abs|e2]; simpl in H; [|inversion H; eauto].
    destruct (is_valid_url_total urlparse abs s) as [b Hb]. rewrite Hb in H. simpl in H.
    eapply IH; eassumption.
  - destruct a; simpl in Ha; [inversion Ha; subst; inversion H; eauto|].
    destruct (List.find _ attrs); inversion Ha; subst. inversion H. eauto.
Qed.

(** The [try] block: at most one GET, sent before anything else. *)
Lemma fetch_and_parse_run (url : Json.value) (envs : list env) (w : world) :
  exists rest,
    run (Explorer.fetch_and_parse urlparse urljoin html_parser container_markup url)
        envs w =
    (Spec.attempt urlparse urljoin html_parser url (http (hd calm envs)),
     {| db := db w; trace := Spec.gets url ++ trace w |}, rest)
    /\ (connected envs -> connected rest).
Proof.
  unfold Explorer.fetch_and_parse. rewrite run_bind.
  destruct url;
    try (exists envs; simpl; rewrite world_eta; split; [reflexivity|auto]).
  exists (tl envs). split; [|apply connected_tl].
  unfold Explorer.requests_get. rewrite run_call. simpl.
  destruct (http (hd calm envs)) as [response|e]; cbn [Py.bind of_lib];
    [|reflexivity].
  rewrite run_bind, run_lift.
  destruct (Requests.raise_for_status response) as [[]|e]; cbn [Py.bind of_lib];
    cbv beta iota zeta; [|reflexivity].
  rewrite run_bind, run_lift. simpl Bs4.BeautifulSoup.
  destruct (html_parser (Requests.text response)) as [soup|e]; cbn [Py.bind of_lib];
    cbv beta iota zeta; [|reflexivity].
  rewrite run_bind, run_lift.
  destruct (Explorer.collect_links _ _ _ _ _) as [links|e]; reflexivity.
Qed.

(** The [try] block raises only exceptions. *)
Lemma attempt_raises (url : Json.value) (http : lib Requests.Response) (e : exn) :
  Spec.attempt urlparse urljoin html_parser url http = Raise e -> exists x, e = Exc x.
Proof.
  unfold Spec.attempt. destruct url; try (intros [= <-]; eauto).
  destruct http as [response|e1]; simpl; [|intros [= <-]; eauto].
  unfold Requests.raise_for_status.
  destruct (_ && _)%bool; simpl; [intros [= <-]; eauto|].
  destruct (html_parser (Requests.text response)) as [soup|e2]; simpl;
    [|intros [= <-]; eauto].
  destruct (Explorer.collect_links _ _ _ _ _) as [links|e3] eqn:Hl; simpl;
    [discriminate|].
  intros [= <-]. eapply collect_links_raises; eassumption.
Qed.

(** [explore_url] in one statement: it never raises. *)
Lemma explore_url_run (url : Json.value) (envs : list env) (w : world) :
  exists rest,
    run (explore_url url) envs w =
    (Ok (Spec.page urlparse urljoin html_parser url (http (hd calm envs))),
     {| db := db w; trace := Spec.gets url ++ trace w |}, rest)
    /\ (connected envs -> connected rest).
Proof.
  destruct (fetch_and_parse_run url envs w) as (rest & Hrun & Hc).
  exists rest. split; [|assumption].
  unfold Explorer.explore_url. rewrite run_try, Hrun. unfold Spec.page.
  destruct (Spec.attempt urlparse urljoin html_parser url (http (hd calm envs)))
    as [hl|e] eqn:Ha; [reflexivity|].
  destruct (attempt_raises _ _ _ Ha) as [x ->]. destruct x; reflexivity.
Qed.

Lemma queue_links_cons (link : string) (rest : list string) (pipe : list Redis.pipe_cmd) :
  Explorer.queue_links (link :: rest) pipe =
  (seen <- call (sismember "visited_urls" link) ;;
   if seen : bool then Explorer.queue_links rest pipe
   else Explorer.queue_links rest
          (pipe ++ [Redis.p_lpush "explored_queue" (Explorer.frontier_item link)]))%prog.
Proof. reflexivity. Qed.

(** The loop over the links queues a push for each link not yet visited and
    changes nothing. *)
Lemma queue_links_run (links : list string) :
  forall (pipe : list Redis.pipe_cmd) (envs : list env) (w : world),
    connected envs ->
    run (Explorer.queue_links links pipe) envs w =
    (Ok (pipe ++ List.map (fun link => Redis.p_lpush "explored_queue"
                                          (Explorer.frontier_item link))
                          (Spec.unseen (db w) links)),
     w, drop (length links) envs).
Proof.
  induction links as [|link rest IH]; intros pipe envs w Hc.
  - simpl. now rewrite app_nil_r.
  - rewrite queue_links_cons, run_bind.
    rewrite (run_call_up (sismember "visited_urls" link) envs w
               (Ok (Redis.sismember "visited_urls" link (db w))) (db w) []);
      [|now apply connected_hd|reflexivity].
    simpl app. rewrite world_eta.
    unfold Spec.unseen. simpl List.filter.
    destruct (Redis.sismember "visited_urls" link (db w)); simpl negb; cbv iota.
    + rewrite IH by now apply connected_tl. rewrite drop_tl. reflexivity.
    + rewrite IH by now apply connected_tl. rewrite drop_tl.
      simpl List.map. rewrite <- app_assoc. reflexivity.
Qed.

Lemma incrs_pushes (key : string) (f : string -> Redis.pipe_cmd) (xs : list string) :
  (forall x, exists k v, f x = Redis.p_lpush k v) ->
  Redis.incrs key (List.map f xs) = O.
Proof.
  intros Hf. induction xs as [|x xs IH]; [reflexivity|].
  simpl List.map. rewrite (incrs_cons key (f x) (List.map f xs)), IH.
  destruct (Hf x) as (k & v & ->). reflexivity.
Qed.

Lemma incrs_app (key : string) (p1 p2 : list Redis.pipe_cmd) :
  Redis.incrs key (p1 ++ p2) = (Redis.incrs key p1 + Redis.incrs key p2)%nat.
Proof. unfold Redis.incrs. now rewrite List.filter_app, length_app. Qed.

Lemma pushed_to_app (key : string) (p1 p2 : list Redis.pipe_cmd) :
  Redis.pushed_to key (p1 ++ p2) = Redis.pushed_to key p1 ++ Redis.pushed_to key p2.
Proof. unfold Redis.pushed_to. apply omap_app. Qed.

(** The pipeline of an iteration: one INCR, of [urls_found]; one push onto
    the exploit queue; a push onto the frontier for each unseen link. *)
Lemma explorer_pipe_incrs (b : Redis.broker) (url html : Json.value)
    (links : list string) (key : string) :
  Redis.incrs key (Spec.explorer_pipe b url html links) =
  if String.eqb "urls_found" key then 1%nat else 0%nat.
Proof.
  unfold Spec.explorer_pipe. rewrite incrs_app.
  rewrite incrs_pushes; [|intros x; eexists _, _; reflexivity].
  unfold Redis.incrs. cbn [List.filter].
  destruct (String.eqb "urls_found" key); reflexivity.
Qed.

Lemma explorer_pipe_exploit (b : Redis.broker) (url html : Json.value)
    (links : list string) :
  Redis.pushed_to "exploit_queue" (Spec.explorer_pipe b url html links) =
  [Explorer.exploit_item url html].
Proof.
  unfold Spec.explorer_pipe. rewrite pushed_to_app.
  assert (Redis.pushed_to "exploit_queue"
            (List.map (fun link => Redis.p_lpush "explored_queue"
                                     (Explorer.frontier_item link))
                      (Spec.unseen b links)) = []) as ->; [|reflexivity].
  induction (Spec.unseen b links) as [|x xs IH]; [reflexivity|].
  simpl List.map. rewrite pushed_to_cons, IH. reflexivity.
Qed.

Lemma explorer_pipe_frontier (b : Redis.broker) (url html : Json.value)
    (links : list string) :
  Redis.pushed_to "explored_queue" (Spec.explorer_pipe b url html links) =
  List.map Explorer.frontier_item (Spec.unseen b links).
Proof.
  unfold Spec.explorer_pipe. rewrite pushed_to_app. simpl. rewrite app_nil_r.
  induction (Spec.unseen b links) as [|x xs IH]; [reflexivity|].
  simpl List.map. rewrite pushed_to_cons, IH. reflexivity.
Qed.

(** An iteration on a payload that decodes to a member not yet in the
    visited set, with the broker answering: the world afterwards. *)
Lemma explorer_iteration_new (envs : list env) (w : world)
    (q : list Json.text) (x : Json.text) (item url : Json.value) (member : string) :
  Redis.llist (db w) "explored_queue" = q ++ [x] ->
  Json.loads x = Ok item -> Json.getitem item "url" = Ok url ->
  Redis.encode url = Ok member ->
  member ∉ Redis.smembers (db w) "visited_urls" ->
  Redis.is_counter (db w) "urls_found" ->
  connected envs ->
  let b1 := snd (Redis.sadd "visited_urls" member
                   (Redis.set_list "explored_queue" q (db w))) in
  let hl := Spec.page urlparse urljoin html_parser url (http (hd calm (tl (tl envs)))) in
  let pipe := Spec.explorer_pipe b1 url (fst hl) (snd hl) in
  let b3 := snd (Redis.execute pipe b1) in
  exists rest,
    run iteration envs w =
    (Ok (if bool_decide (Redis.get b3 "stop_signal" = Some "1") then Break else Fall),
     {| db := b3;
        trace := List.rev (pushes_of pipe) ++ Spec.gets url
                 ++ added "visited_urls" member :: trace w |},
     rest).
Proof.
  intros Hq Hl Hg He Hnew Hcnt Hc b1 hl pipe b3.
  unfold Explorer.iteration. rewrite run_bind.
  rewrite (run_brpop_last "explored_queue" 1 envs w q x (connected_hd envs Hc) Hq).
  cbv beta iota zeta.
  rewrite run_bind, run_lift, Hl. cbv beta iota.
  rewrite run_bind, run_lift, Hg. cbv beta iota.
  rewrite run_bind, run_lift, He. cbv beta iota.
  assert (member ∉ Redis.smembers (Redis.set_list "explored_queue" q (db w))
                    "visited_urls") as Hnew' by exact Hnew.
  destruct (sadd_new "visited_urls" member _ Hnew') as (Hone & _).
  rewrite run_bind.
  rewrite (run_call_up (sadd "visited_urls" member) (tl envs) _ (Ok 1) b1
             [added "visited_urls" member]);
    [|now apply connected_hd, connected_tl|].
  2:{ simpl. subst b1. destruct (Redis.sadd _ _ _) as [n b']. simpl in Hone. now subst n. }
  cbv beta iota. simpl Z.eqb. cbv iota. cbn [db trace app].
  rewrite run_bind.
  destruct (explore_url_run url (tl (tl envs))
              {| db := b1; trace := added "visited_urls" member :: trace w |})
    as (rest2 & -> & Hc2).
  fold hl. destruct hl as [html links] eqn:Ehl. cbv beta iota zeta.
  rewrite run_bind, queue_links_run by now apply Hc2, connected_tl, connected_tl.
  cbv beta iota zeta. simpl app at 1. cbn [db].
  fold (Spec.explorer_pipe b1 url html links).
  change (Spec.explorer_pipe b1 url html links) with pipe.
  assert (Redis.is_counter b1 "urls_found") as Hcnt1.
  { subst b1. unfold Redis.sadd. case_decide; exact Hcnt. }
  assert (Redis.execute pipe b1 = (Ok tt, b3)) as Hex.
  { subst b3. unfold Redis.execute.
    pose proof (execute_from_ok pipe true b1) as Hok.
    destruct (Redis.execute_from pipe true b1) as [ok b']. cbn [fst snd] in *.
    rewrite Hok; [reflexivity|].
    intros key Hk. subst pipe. rewrite explorer_pipe_incrs in Hk.
    destruct (String.eqb_spec "urls_found" key) as [Heq|Hne]; [|congruence].
    rewrite <- Heq. exact Hcnt1. }
  rewrite run_bind.
  rewrite (run_call_up (execute pipe) _ _ (Ok tt) b3 (List.rev (pushes_of pipe)));
    [| |simpl; now rewrite Hex].
  2:{ now apply connected_hd, connected_drop, Hc2, connected_tl, connected_tl. }
  cbv beta iota.
  rewrite run_bind.
  rewrite (run_call_up (get "stop_signal") _ _ (Ok (Redis.get b3 "stop_signal")) b3 []);
    [| |reflexivity].
  2:{ now apply connected_hd, connected_tl, connected_drop, Hc2, connected_tl,
                connected_tl. }
  cbv beta iota. cbn [db trace].
  eexists. destruct (bool_decide _); reflexivity.
Qed.

End ExplorerIteration.

Lemma execute_snd (pipe : list Redis.pipe_cmd) (b : Redis.broker) :
  snd (Redis.execute pipe b) = snd (Redis.execute_from pipe true b).
Proof. unfold Redis.execute. now destruct (Redis.execute_from pipe true b). Qed.

Lemma sadd_frame (key member : string) (b : Redis.broker) :
  Redis.strings (snd (Redis.sadd key member b)) = Redis.strings b /\
  Redis.lists (snd (Redis.sadd key member b)) = Redis.lists b /\
  Redis.streams (snd (Redis.sadd key member b)) = Redis.streams b.
Proof. unfold Redis.sadd. case_decide; simpl; auto. Qed.

Lemma counter_strings (b b' : Redis.broker) (key : string) :
  Redis.strings b' = Redis.strings b ->
  Redis.counter b' key = Redis.counter b key /\
  (Redis.is_counter b key -> Redis.is_counter b' key).
Proof. intros H. unfold Redis.counter, Redis.is_counter. now rewrite H. Qed.

Lemma llist_lists (b b' : Redis.broker) (key : string) :
  Redis.lists b' = Redis.lists b -> Redis.llist b' key = Redis.llist b key.
Proof. intros H. unfold Redis.llist. now rewrite H. Qed.

Lemma unseen_ext (b b' : Redis.broker) (links : list string) :
  Redis.smembers b "visited_urls" = Redis.smembers b' "visited_urls" ->
  Spec.unseen b links = Spec.unseen b' links.
Proof. intros H. unfold Spec.unseen, Redis.sismember. now rewrite H. Qed.

Lemma smembers_sadd_set_list (key member lkey : string) (l : list Json.text)
    (b : Redis.broker) :
  Redis.smembers (snd (Redis.sadd key member (Redis.set_list lkey l b))) key =
  Redis.smembers (snd (Redis.sadd key member b)) key.
Proof.
  unfold Redis.sadd.
  change (Redis.smembers (Redis.set_list lkey l b) key) with (Redis.smembers b key).
  case_decide; reflexivity.
Qed.

(** C6: an iteration whose item passes the dedup test adds exactly one to
    [urls_found], whatever the page was and however many links it had,
    while the frontier grows by one item per unseen link. *)
Theorem urls_found_once_per_item
    (urlparse : string -> lib Urllib.ParseResult)
    (urljoin : string -> string -> lib string)
    (html_parser : string -> lib Bs4.soup)
    (container_markup : Json.value -> lib Bs4.soup)
    (envs : list Proc.env) (w : Proc.world)
    (q : list Json.text) (x : Json.text) (item url : Json.value) (member : string) :
  Redis.llist (Proc.db w) "explored_queue" = q ++ [x] ->
  Json.loads x = Ok item -> Json.getitem item "url" = Ok url ->
  Redis.encode url = Ok member ->
  member ∉ Redis.smembers (Proc.db w) "visited_urls" ->
  Redis.is_counter (Proc.db w) "urls_found" ->
  Proc.connected envs ->
  let visited := snd (Redis.sadd "visited_urls" member (Proc.db w)) in
  let links :=
    snd (Spec.page urlparse urljoin html_parser url
           (Proc.http (hd Proc.calm (tl (tl envs))))) in
  exists flow w' rest,
    Proc.run (Explorer.iteration urlparse urljoin html_parser container_markup) envs w
    = (Ok flow, w', rest) /\
    Redis.counter (Proc.db w') "urls_found"
    = Redis.counter (Proc.db w) "urls_found" + 1 /\
    Redis.llist (Proc.db w') "explored_queue"
    = List.rev (List.map Explorer.frontier_item (Spec.unseen visited links)) ++ q.
Proof.
  intros Hq Hl Hg He Hnew Hcnt Hc visited links.
  destruct (explorer_iteration_new urlparse urljoin html_parser container_markup
              envs w q x item url member Hq Hl Hg He Hnew Hcnt Hc) as (rest & Hrun).
  eexists _, _, rest. split; [exact Hrun|]. cbn [Proc.db].
  set (b0 := Redis.set_list "explored_queue" q (Proc.db w)) in *.
  set (b1 := snd (Redis.sadd "visited_urls" member b0)) in *.
  destruct (sadd_frame "visited_urls" member b0) as (Hs1 & Hl1 & _). fold b1 in Hs1, Hl1.
  rewrite execute_snd. split.
  - destruct (counter_strings b0 b1 "urls_found" Hs1) as (Hc1 & Hi1).
    destruct (counter_execute_from
                (Spec.explorer_pipe b1 url
                   (fst (Spec.page urlparse urljoin html_parser url
                           (Proc.http (hd Proc.calm (tl (tl envs))))))
                   (snd (Spec.page urlparse urljoin html_parser url
                           (Proc.http (hd Proc.calm (tl (tl envs)))))))
                true b1 "urls_found" (Hi1 Hcnt)) as (_ & Hn).
    rewrite Hn, explorer_pipe_incrs, Hc1. reflexivity.
  - rewrite llist_execute_from, explorer_pipe_frontier.
    rewrite (llist_lists b0 b1 "explored_queue" Hl1).
    subst b0. rewrite llist_set_list, decide_True by reflexivity.
    subst links.
    rewrite (unseen_ext b1 visited); [reflexivity|].
    subst b1 visited. apply smembers_sadd_set_list.
Qed.

(** ** Traces *)

Section Traces.
Import Proc System.


Lemma additions_app (key : string) (t1 t2 : list event) :
  additions key (t1 ++ t2) = additions key t1 ++ additions key t2.
Proof. apply omap_app. Qed.

Lemma enqueued_app (key : string) (t1 t2 : list event) :
  enqueued key (t1 ++ t2) = (enqueued key t1 + enqueued key t2)%nat.
Proof. unfold enqueued. now rewrite List.filter_app, length_app. Qed.

Lemma pushes_of_cons (c : Redis.pipe_cmd) (pipe : list Redis.pipe_cmd) :
  pushes_of (c :: pipe) = pushes_of [c] ++ pushes_of pipe.
Proof. unfold pushes_of. simpl. now rewrite app_nil_r. Qed.


Lemma additions_pushes (key : string) (pipe : list Redis.pipe_cmd) :
  additions key (List.rev (pushes_of pipe)) = [].
Proof.
  induction pipe as [|c pipe IH]; [reflexivity|].
  rewrite pushes_of_cons, rev_app_distr, additions_app, IH.
  destruct c; reflexivity.
Qed.

Lemma enqueued_pushes (key : string) (pipe : list Redis.pipe_cmd) :
  enqueued key (List.rev (pushes_of pipe)) = length (Redis.pushed_to key pipe).
Proof.
  induction pipe as [|c pipe IH]; [reflexivity|].
  rewrite pushes_of_cons, rev_app_distr, enqueued_app, IH, (pushed_to_cons key c pipe),
    length_app.
  destruct c as [k x|k|k f]; unfold enqueued, Redis.pushed_to; simpl; try lia.
  destruct (String.eqb k key); simpl; lia.
Qed.

Lemma fetches_gets (url : Json.value) :
  (length (fetches (Spec.gets url)) <= 1)%nat /\
  additions "visited_urls" (Spec.gets url) = [] /\
  forall key, enqueued key (Spec.gets url) = O.
Proof. destruct url; simpl; repeat split; auto. Qed.

End Traces.


(** Settles a closed decidable proposition by evaluating its decision. *)
Ltac by_decide :=
  match goal with
  | |- ?P =>
      let H := fresh in
      let E := fresh in
      destruct (decide P) as [H|H] eqn:E; [exact H|vm_compute in E; discriminate]
  end.

(** C6 on the seed of [https://example.test/], whose page has three
    anchors, one of which passes the filter. *)
Lemma urls_found_once_per_item_witness :
  exists flow w' rest,
    Proc.run (Explorer.iteration Urllib.urlparse Sample.urljoin Sample.html_parser
                Sample.container_markup)
      [Sample.served (Fails RequestException); Sample.served (Fails RequestException);
       Sample.served Sample.home_response]
      (Sample.world_with "explored_queue" [Control.initial_item "https://example.test/"])
    = (Ok flow, w', rest) /\
    Redis.counter (Proc.db w') "urls_found" = 1 /\
    Redis.llist (Proc.db w') "explored_queue"
    = [Explorer.frontier_item "https://example.test/a"].
Proof.
  destruct (urls_found_once_per_item Urllib.urlparse Sample.urljoin Sample.html_parser
              Sample.container_markup
              [Sample.served (Fails RequestException);
               Sample.served (Fails RequestException);
               Sample.served Sample.home_response]
              (Sample.world_with "explored_queue"
                 [Control.initial_item "https://example.test/"])
              [] (Control.initial_item "https://example.test/")
              (Json.Obj [("url", Json.Str "https://example.test/"); ("html", Json.Null)])
              (Json.Str "https://example.test/") "https://example.test/")
    as (flow & w' & rest & Hrun & Hcount & Hfrontier).
  - reflexivity.
  - reflexivity.
  - reflexivity.
  - reflexivity.
  - by_decide.
  - vm_compute. exact I.
  - repeat constructor.
  - exists flow, w', rest. split; [exact Hrun|]. split; [exact Hcount|].
    rewrite Hfrontier. vm_compute. reflexivity.
Defined.


(** ** One extractor iteration *)

Section ExtractorIteration.
Import Proc Worker.

Variable html_parser : string -> lib Bs4.soup.
Variable container_markup : Json.value -> lib Bs4.soup.

Local Abbreviation extract_title := (Extractor.extract_title html_parser container_markup).
Local Abbreviation iteration := (Extractor.iteration html_parser container_markup).

(** The record and the counter go in together. *)
Lemma execute_record (fields : Redis.entry) (b : Redis.broker) :
  Redis.is_counter b "urls_extracted" ->
  Redis.execute [Redis.p_xadd "results_stream" fields; Redis.p_incr "urls_extracted"] b =
  (Ok tt,
   Redis.set "urls_extracted" (Redis.SInt (Redis.counter b "urls_extracted" + 1))
     (Redis.xadd "results_stream" fields b)).
Proof.
  intros Hc. unfold Redis.execute. simpl.
  rewrite incr_counter by exact Hc. reflexivity.
Qed.

Lemma run_time (envs : list env) (w : world) :
  run (call time) envs w = (Ok (clock (hd calm envs)), w, tl envs).
Proof. rewrite run_call. now destruct w. Qed.

(** An iteration on a payload with both fields and an encodable url, with
    the broker answering. *)
Lemma extractor_iteration_item (worker_id : Z) (envs : list env) (w : world)
    (q : list Json.text) (x : Json.text) (url html : Json.value) (u title : string) :
  Redis.llist (db w) "exploit_queue" = q ++ [x] ->
  Spec.exploit_fields x = Ok (url, html) ->
  Redis.encode url = Ok u ->
  extract_title html = Ok title ->
  Redis.is_counter (db w) "urls_extracted" ->
  connected envs ->
  let fields := [("url", u); ("title", title);
                 ("timestamp", pretty (clock (hd calm (tl envs))));
                 ("worker_id", pretty worker_id)] in
  let b0 := Redis.set_list "exploit_queue" q (db w) in
  let b2 := Redis.set "urls_extracted"
              (Redis.SInt (Redis.counter b0 "urls_extracted" + 1))
              (Redis.xadd "results_stream" fields b0) in
  run (iteration worker_id) envs w =
  (Ok (if bool_decide (Redis.get b2 "stop_signal" = Some "1") then Break else Fall),
   {| db := b2; trace := trace w |}, tl (tl (tl (tl envs)))).
Proof.
  intros Hq Hf He Ht Hcnt Hc fields b0 b2.
  unfold Extractor.iteration. rewrite run_bind, run_try.
  unfold Extractor.pop_and_extract. rewrite run_bind.
  rewrite (run_brpop_last "exploit_queue" 1 envs w q x (connected_hd envs Hc) Hq).
  cbv beta iota zeta.
  unfold Spec.exploit_fields in Hf.
  destruct (Json.loads x) as [item|e0] eqn:E1; [|discriminate]. simpl in Hf.
  destruct (Json.getitem item "url") as [url'|e0] eqn:E2; [|discriminate]. simpl in Hf.
  destruct (Json.getitem item "html") as [html'|e0] eqn:E3; [|discriminate].
  simpl in Hf. injection Hf as -> ->.
  rewrite run_bind, run_lift. cbv beta iota.
  rewrite run_bind, run_lift, E2. cbv beta iota.
  rewrite run_bind, run_lift, E3. cbv beta iota.
  rewrite run_bind, run_lift, Ht. cbv beta iota.
  rewrite run_bind, run_time. cbv beta iota.
  unfold Extractor.result_data. rewrite He. cbn [Py.bind].
  rewrite run_bind, run_lift. cbv beta iota.
  rewrite run_bind.
  rewrite (run_call_up (execute _) _ _ (Ok tt) b2 []);
    [|now apply connected_hd, connected_tl, connected_tl|].
  2:{ cbn [serve db]. rewrite execute_record by exact Hcnt. reflexivity. }
  cbv beta iota. cbn [db trace app run].
  rewrite run_bind.
  rewrite (run_call_up (get "stop_signal") _ _ (Ok (Redis.get b2 "stop_signal")) b2 []);
    [| |reflexivity].
  2:{ now apply connected_hd, connected_tl, connected_tl, connected_tl. }
  cbv beta iota. cbn [db trace app].
  destruct (bool_decide _); reflexivity.
Qed.

End ExtractorIteration.

(** C10: an exploit item whose html is null is still processed: the title
    is "Error extracting title", the record is appended to the results
    stream and [urls_extracted] goes up by one. *)
Theorem null_html_gets_error_title
    (html_parser : string -> lib Bs4.soup)
    (container_markup : Json.value -> lib Bs4.soup)
    (worker_id : Z) (envs : list Proc.env) (w : Proc.world)
    (q : list Json.text) (url : string) :
  Redis.llist (Proc.db w) "exploit_queue"
  = q ++ [Explorer.exploit_item (Json.Str url) Json.Null] ->
  Redis.is_counter (Proc.db w) "urls_extracted" ->
  Proc.connected envs ->
  Extractor.extract_title html_parser container_markup Json.Null
  = Ok "Error extracting title" /\
  exists flow w' rest,
    Proc.run (Extractor.iteration html_parser container_markup worker_id) envs w
    = (Ok flow, w', rest) /\
    Redis.xrange (Proc.db w') "results_stream"
    = Redis.xrange (Proc.db w) "results_stream"
      ++ [[("url", url); ("title", "Error extracting title");
           ("timestamp", pretty (Proc.clock (hd Proc.calm (tl envs))));
           ("worker_id", pretty worker_id)]] /\
    Redis.counter (Proc.db w') "urls_extracted"
    = Redis.counter (Proc.db w) "urls_extracted" + 1 /\
    Redis.llist (Proc.db w') "exploit_queue" = q.
Proof.
  intros Hq Hcnt Hc. split; [reflexivity|].
  pose proof (extractor_iteration_item html_parser container_markup worker_id envs w q
                (Explorer.exploit_item (Json.Str url) Json.Null)
                (Json.Str url) Json.Null url "Error extracting title"
                Hq eq_refl eq_refl eq_refl Hcnt Hc) as Hrun.
  cbv zeta in Hrun.
  eexists _, _, _. split; [exact Hrun|]. cbn [Proc.db].
  split; [|split].
  - unfold Redis.xrange. simpl. now simplify_map_eq.
  - rewrite counter_set, decide_True by reflexivity. reflexivity.
  - unfold Redis.llist. simpl. now simplify_map_eq.
Qed.

(** C10 on a queue holding the one item of a failed fetch. *)
Lemma null_html_gets_error_title_witness :
  exists flow w' rest,
    Proc.run (Extractor.iteration Sample.html_parser Sample.container_markup 7) []
      (Sample.world_with "exploit_queue"
         [Explorer.exploit_item (Json.Str "https://example.test/") Json.Null])
    = (Ok flow, w', rest) /\
    Redis.xrange (Proc.db w') "results_stream"
    = [[("url", "https://example.test/"); ("title", "Error extracting title");
        ("timestamp", "0"); ("worker_id", "7")]].
Proof.
  destruct (null_html_gets_error_title Sample.html_parser Sample.container_markup 7 []
              (Sample.world_with "exploit_queue"
                 [Explorer.exploit_item (Json.Str "https://example.test/") Json.Null])
              [] "https://example.test/")
    as (_ & flow & w' & rest & Hrun & Hrec & _).
  - reflexivity.
  - vm_compute. exact I.
  - constructor.
  - exists flow, w', rest. split; [exact Hrun|]. rewrite Hrec. reflexivity.
Defined.

(** ** The start handshake *)

Section HandshakeLemmas.
Import Proc Handshake.

Lemma hs_run_bind {A B} (p : prog A) (f : A -> prog B) (turns : list turn) (w : world) :
  Handshake.run (bind p f) turns w =
  match Handshake.run p turns w with
  | (Ok a, w', rest) => Handshake.run (f a) rest w'
  | (Raise e, w', rest) => (Raise e, w', rest)
  end.
Proof.
  revert turns w. induction p as [a|e|X c k IH]; intros turns w; simpl; auto.
  destruct (exec c _ _) as [r w']. apply IH.
Qed.

Lemma hs_run_call {X} (c : cmd X) (turns : list turn) (w : world) :
  Handshake.run (call c) turns w =
  (fst (exec c (outside (hd quiet turns)) (fold_left deliver (arrivals (hd quiet turns)) w)),
   snd (exec c (outside (hd quiet turns)) (fold_left deliver (arrivals (hd quiet turns)) w)),
   tl turns).
Proof.
  unfold call. simpl. destruct (exec c _ _) as [[x|e] w']; reflexivity.
Qed.

Lemma hs_connected_hd (turns : list turn) :
  Handshake.connected turns -> redis (outside (hd quiet turns)) = Up.
Proof. intros H. destruct turns; [reflexivity|]. now inversion H. Qed.

Lemma hs_connected_tl (turns : list turn) :
  Handshake.connected turns -> Handshake.connected (tl turns).
Proof. intros H. destruct turns; [assumption|]. now inversion H. Qed.

Lemma silent_hd (p : pool) (turns : list turn) :
  silent p turns -> Forall (fun a => from a <> p) (arrivals (hd quiet turns)).
Proof. intros H. destruct turns; [constructor|]. now inversion H. Qed.

Lemma silent_tl (p : pool) (turns : list turn) : silent p turns -> silent p (tl turns).
Proof. intros H. destruct turns; [assumption|]. now inversion H. Qed.

(** Acknowledgments touch the two acknowledgment lists only. *)
Lemma deliver_all_frame (acks : list ack) (w : world) :
  Redis.strings (db (fold_left deliver acks w)) = Redis.strings (db w) /\
  (forall key, key <> "explorer_ack" -> key <> "extractor_ack" ->
     Redis.llist (db (fold_left deliver acks w)) key = Redis.llist (db w) key) /\
  (Forall (fun a => from a <> explorers) acks ->
     Redis.llist (db (fold_left deliver acks w)) "explorer_ack"
     = Redis.llist (db w) "explorer_ack").
Proof.
  revert w. induction acks as [|a acks IH]; intros w; [auto|].
  simpl fold_left. destruct (IH (deliver w a)) as (Hs & Hl & He).
  split; [|split].
  - rewrite Hs. reflexivity.
  - intros key H1 H2. rewrite Hl by assumption. unfold deliver. simpl.
    rewrite llist_lpush. rewrite decide_False; [reflexivity|].
    destruct (from a); simpl; congruence.
  - intros Hf. inversion Hf as [|? ? Ha Hrest]; subst.
    rewrite He by assumption. unfold deliver. simpl.
    rewrite llist_lpush. rewrite decide_False; [reflexivity|].
    destruct (from a); simpl; congruence.
Qed.

End HandshakeLemmas.

Section Start.
Import Proc Handshake.

(** A served command at the head of a front end. *)
Lemma hs_step {X B} (c : cmd X) (f : X -> prog B) (turns : list turn) (w : world)
    (x : X) (b' : Redis.broker) (evs : list event) :
  Handshake.connected turns ->
  serve c (db (fold_left deliver (arrivals (hd quiet turns)) w)) = Some (Ok x, b', evs) ->
  Handshake.run (bind (call c) f) turns w =
  Handshake.run (f x) (tl turns)
    {| db := b';
       trace := evs ++ trace (fold_left deliver (arrivals (hd quiet turns)) w) |}.
Proof.
  intros Hc Hs. rewrite hs_run_bind, hs_run_call.
  rewrite (exec_up c _ _ (Ok x) b' evs (hs_connected_hd turns Hc) Hs). reflexivity.
Qed.

Lemma awaiting_after_flushdb (b : Redis.broker) : Spec.awaiting_ack (Redis.flushdb b).
Proof. repeat split. Qed.

Lemma awaiting_after_arrivals (acks : list ack) (w : world) :
  Forall (fun a => from a <> explorers) acks ->
  Spec.awaiting_ack (db w) -> Spec.awaiting_ack (db (fold_left deliver acks w)).
Proof.
  intros Hs ((Hst & Hq) & Ha).
  destruct (deliver_all_frame acks w) as (Hstr & Hl & He).
  unfold Spec.awaiting_ack, Spec.not_started, Redis.get.
  rewrite Hstr, Hl, He by (assumption || discriminate). auto.
Qed.

Lemma awaiting_after_set (key : string) (v : Redis.sval) (b : Redis.broker) :
  key <> "start_time" -> Spec.awaiting_ack b -> Spec.awaiting_ack (Redis.set key v b).
Proof.
  intros Hk ((Hst & Hq) & Ha). repeat split; try assumption.
  unfold Redis.get, Redis.set in *. simpl. now rewrite lookup_insert_ne.
Qed.

Lemma awaiting_after_delete (key : string) (b : Redis.broker) :
  Spec.awaiting_ack b -> Spec.awaiting_ack (Redis.delete key b).
Proof.
  intros ((Hst & Hq) & Ha).
  unfold Spec.awaiting_ack, Spec.not_started, Redis.get, Redis.llist, Redis.delete in *.
  simpl. repeat split.
  - destruct (decide (key = "start_time")) as [->|Hne]; [now rewrite lookup_delete_eq|].
    now rewrite lookup_delete_ne.
  - destruct (decide (key = "explored_queue")) as [->|Hne];
      [now rewrite lookup_delete_eq|]. now rewrite lookup_delete_ne.
  - destruct (decide (key = "explorer_ack")) as [->|Hne];
      [now rewrite lookup_delete_eq|]. now rewrite lookup_delete_ne.
Qed.

Lemma awaiting_after_publish (ch : string) (m : Json.text) (b : Redis.broker) :
  Spec.awaiting_ack b -> Spec.awaiting_ack (Redis.publish ch m b).
Proof. intros H. exact H. Qed.

Lemma drop_S_tl {A} (n : nat) (l : list A) : drop (S n) l = tl (drop n l).
Proof.
  revert l. induction n as [|n IH]; intros [|x l]; try reflexivity.
  simpl drop at 2. rewrite <- IH. reflexivity.
Qed.

(** After a step of the opening: the keyspace is still awaiting the
    acknowledgment; the world is then forgotten but for that fact. *)
Ltac opening_settle Hc Hs Hq lemma :=
  match goal with
  | |- context [Handshake.run _ (tl _) {| db := ?b; trace := ?tr |}] =>
      let Hq' := fresh "Hq" in
      let bn := fresh "b" in
      let tn := fresh "t" in
      let Eb := fresh "Eb" in
      let Et := fresh "Et" in
      assert (Spec.awaiting_ack b) as Hq'
        by (apply lemma; try discriminate;
            apply (awaiting_after_arrivals _ {| db := _; trace := _ |});
            [now apply silent_hd|exact Hq]);
      clear Hq; rename Hq' into Hq;
      remember b as bn eqn:Eb; remember tr as tn eqn:Et; clear Eb Et
  end;
  apply hs_connected_tl in Hc; apply silent_tl in Hs.

Ltac opening_step Hc Hs Hq lemma :=
  erewrite hs_step; [|exact Hc|reflexivity];
  opening_settle Hc Hs Hq lemma.

(** The common opening of both front ends, up to the end of the wait on
    [explorer_ack], when no explorer node acknowledges: the pop times out
    with the job not started. *)
Lemma opening_times_out {B} (root_url : string) (minutes n_exp n_ext : Z)
    (k : option (string * Json.text) -> prog B) (turns : list turn) (w : world) :
  Handshake.connected turns -> silent explorers turns ->
  exists w1,
    Handshake.run
      (Control.initialize root_url minutes n_exp n_ext ;;;
       call (publish "scraper_control" Control.start_command) ;;;
       explorer_ack <- call (brpop "explorer_ack" 10) ;;
       k explorer_ack)%prog turns w
    = Handshake.run (k None) (drop 12 turns) w1
    /\ Spec.not_started (db w1).
Proof.
  intros Hc Hs. unfold Control.initialize.
  rewrite hs_run_bind.
  (* flushdb *)
  erewrite hs_step; [|exact Hc|reflexivity].
  match goal with
  | |- context [Handshake.run _ (tl _) {| db := ?b; trace := ?tr |}] =>
      assert (Spec.awaiting_ack b) as Hq by apply awaiting_after_flushdb;
      remember b as b1 eqn:Eb; remember tr as t1 eqn:Et; clear Eb Et
  end.
  apply hs_connected_tl in Hc. apply silent_tl in Hs.
  (* the other commands of the reset *)
  opening_step Hc Hs Hq awaiting_after_delete.
  opening_step Hc Hs Hq awaiting_after_delete.
  opening_step Hc Hs Hq awaiting_after_set.
  opening_step Hc Hs Hq awaiting_after_set.
  opening_step Hc Hs Hq awaiting_after_set.
  opening_step Hc Hs Hq awaiting_after_set.
  opening_step Hc Hs Hq awaiting_after_set.
  opening_step Hc Hs Hq awaiting_after_set.
  rewrite hs_run_call.
  erewrite (exec_up (set "root_url" _)); [|now apply hs_connected_hd|reflexivity].
  cbn [fst snd].
  opening_settle Hc Hs Hq awaiting_after_set.
  (* publish *)
  opening_step Hc Hs Hq awaiting_after_publish.
  (* the wait *)
  match goal with
  | |- context [Handshake.run _ ?ts {| db := ?b; trace := ?tr |}] =>
      pose proof (awaiting_after_arrivals (arrivals (hd quiet ts))
                    {| db := b; trace := tr |} (silent_hd _ _ Hs) Hq) as Hq'
  end.
  erewrite hs_step; [|exact Hc|].
  2:{ cbn [serve]. rewrite (brpop_empty "explorer_ack" _ (proj2 Hq')). reflexivity. }
  rewrite !drop_S_tl. cbn [drop].
  eexists. split; [reflexivity|]. exact (proj1 Hq').
Qed.

End Start.

Section NoAck.
Import Proc Handshake.

(** scraper.py: the timeout ends [main] with [sys.exit(1)] before anything
    is recorded or seeded. *)
Lemma scraper_main_no_ack (root_url : string) (minutes n_exp n_ext : Z)
    (turns : list turn) (w : world) :
  Handshake.connected turns -> silent explorers turns ->
  exists w1,
    Handshake.run (Scraper.main root_url minutes n_exp n_ext) turns w
    = (Raise (SystemExit 1), w1, drop 12 turns)
    /\ Spec.not_started (db w1).
Proof.
  intros Hc Hs.
  destruct (opening_times_out root_url minutes n_exp n_ext
              (fun explorer_ack : option (string * Json.text) =>
                 match explorer_ack with
                 | None => Throw (SystemExit 1)
                 | Some _ =>
                     (extractor_ack <- call (brpop "extractor_ack" 10) ;;
                      match extractor_ack with
                      | None => Throw (SystemExit 1)
                      | Some _ => Control.seed root_url
                      end)%prog
                 end) turns w Hc Hs) as (w1 & Hrun & Hns).
  exists w1. split; [|exact Hns]. exact Hrun.
Qed.

Lemma hs_connected_drop (n : nat) (turns : list turn) :
  Handshake.connected turns -> Handshake.connected (drop n turns).
Proof. intros H. unfold Handshake.connected. now apply Forall_drop. Qed.

Lemma get_deliver (acks : list ack) (w : world) (key : string) :
  Redis.get (db (fold_left deliver acks w)) key = Redis.get (db w) key.
Proof.
  destruct (deliver_all_frame acks w) as (Hs & _). unfold Redis.get. now rewrite Hs.
Qed.

Lemma frontier_deliver (acks : list ack) (w : world) :
  Redis.llist (db (fold_left deliver acks w)) "explored_queue"
  = Redis.llist (db w) "explored_queue".
Proof.
  destruct (deliver_all_frame acks w) as (_ & Hl & _). now apply Hl.
Qed.

Lemma get_set_eq (key : string) (v : Redis.sval) (b : Redis.broker) :
  Redis.get (Redis.set key v b) key = Some (Redis.render v).
Proof. unfold Redis.get, Redis.set. simpl. now rewrite lookup_insert_eq. Qed.

Lemma get_lpush (k : string) (x : Json.text) (b : Redis.broker) (key : string) :
  Redis.get (Redis.lpush k x b) key = Redis.get b key.
Proof. reflexivity. Qed.

Lemma llist_set (k : string) (v : Redis.sval) (b : Redis.broker) (key : string) :
  Redis.llist (Redis.set k v b) key = Redis.llist b key.
Proof. reflexivity. Qed.

(** Seeding, from a keyspace with an empty frontier. *)
Lemma seed_run {B} (root_url : string) (k : unit -> prog B) (turns : list turn)
    (w : world) :
  Handshake.connected turns ->
  Redis.llist (db w) "explored_queue" = [] ->
  exists w2,
    Handshake.run (Control.seed root_url ;;; k tt)%prog turns w
    = Handshake.run (k tt) (tl (tl (tl turns))) w2
    /\ Redis.get (db w2) "start_time"
       = Some (pretty (clock (outside (hd quiet turns))))
    /\ Redis.llist (db w2) "explored_queue" = [Control.initial_item root_url].
Proof.
  intros Hc Hq. unfold Control.seed.
  rewrite hs_run_bind, hs_run_bind, hs_run_call. cbn [exec serve local fst snd].
  cbv beta iota. cbn [app].
  pose proof (hs_connected_tl _ Hc) as Hc1.
  erewrite hs_step; [|exact Hc1|reflexivity].
  rewrite hs_run_call.
  erewrite (exec_up (lpush "explored_queue" _));
    [|now apply hs_connected_hd, hs_connected_tl|reflexivity].
  cbn [fst snd]. eexists. split; [reflexivity|]. cbn [db].
  split.
  - rewrite get_lpush, get_deliver. cbn [db]. rewrite get_set_eq. reflexivity.
  - rewrite llist_lpush, decide_True by reflexivity. f_equal.
    rewrite frontier_deliver. cbn [db]. rewrite llist_set, frontier_deliver.
    cbn [db]. rewrite frontier_deliver. exact Hq.
Qed.

(** app.py: the result of the wait is not looked at; the start time is
    recorded, the root URL is seeded and the caller is told of a success. *)
Lemma start_scraper_no_ack (root_url : string) (duration n_exp n_ext : Z)
    (turns : list turn) (w : world) :
  Handshake.connected turns -> silent explorers turns ->
  exists w2,
    Handshake.run (App.start_scraper root_url duration n_exp n_ext) turns w
    = (Ok (App.started root_url duration n_exp n_ext), w2, drop 15 turns)
    /\ Redis.get (db w2) "start_time"
       = Some (pretty (clock (outside (hd quiet (drop 12 turns)))))
    /\ Redis.llist (db w2) "explored_queue" = [Control.initial_item root_url].
Proof.
  intros Hc Hs.
  destruct (opening_times_out root_url duration n_exp n_ext
              (fun _ : option (string * Json.text) =>
                 (Control.seed root_url ;;;
                  Ret (App.started root_url duration n_exp n_ext))%prog)
              turns w Hc Hs) as (w1 & Hrun & Hst & Hq).
  destruct (seed_run root_url (fun _ => Ret (App.started root_url duration n_exp n_ext))
              (drop 12 turns) w1 (hs_connected_drop 12 turns Hc) Hq)
    as (w2 & Hseed & Htime & Hfront).
  exists w2. split; [|split; assumption].
  unfold App.start_scraper. rewrite Hrun, Hseed.
  rewrite <- !drop_S_tl. reflexivity.
Qed.

End NoAck.

(** C2 at the failing input: no explorer node acknowledges.  scraper.py
    leaves [main] through [sys.exit(1)] with no start time and an empty
    frontier, as the claim says; app.py records the start time, seeds the
    root URL and answers [success: true]. *)
Theorem ack_timeout_ignored_by_app
    (root_url : string) (duration num_explorers num_extractors : Z)
    (turns : list Handshake.turn) (w : Proc.world) :
  Handshake.connected turns -> Handshake.silent Handshake.explorers turns ->
  (exists w1,
      Handshake.run (Scraper.main root_url duration num_explorers num_extractors) turns w
      = (Raise (SystemExit 1), w1, drop 12 turns)
      /\ Spec.not_started (Proc.db w1)) /\
  (exists w2,
      Handshake.run (App.start_scraper root_url duration num_explorers num_extractors)
        turns w
      = (Ok (App.started root_url duration num_explorers num_extractors), w2,
         drop 15 turns)
      /\ Redis.get (Proc.db w2) "start_time"
         = Some (pretty (Proc.clock (Handshake.outside
                                       (hd Handshake.quiet (drop 12 turns)))))
      /\ Redis.llist (Proc.db w2) "explored_queue" = [Control.initial_item root_url]).
Proof.
  intros Hc Hs. split.
  - now apply scraper_main_no_ack.
  - now apply start_scraper_no_ack.
Qed.

(** The theorem with nobody listening at all. *)
Lemma ack_timeout_ignored_by_app_witness :
  Json.getitem
    (match fst (fst (Handshake.run
                       (App.start_scraper "https://example.test/" 1 4 1) []
                       Sample.blank)) with
     | Ok response => response
     | Raise _ => Json.Null
     end) "success" = Ok (Json.Bool true).
Proof.
  destruct (ack_timeout_ignored_by_app "https://example.test/" 1 4 1 [] Sample.blank)
    as (_ & w2 & Hrun & _).
  - constructor.
  - constructor.
  - rewrite Hrun. reflexivity.
Defined.

(** With both acknowledgments, scraper.py goes on to seed the frontier. *)
Example scraper_main_acknowledged :
  let '(r, w, _) :=
    Handshake.run (Scraper.main "https://example.test/" 1 4 1) Sample.acknowledged
      Sample.blank in
  r = Ok tt /\
  Redis.llist (Proc.db w) "explored_queue" = [Control.initial_item "https://example.test/"]
  /\ Redis.get (Proc.db w) "start_time" = Some "1700000000"
  /\ Redis.get (Proc.db w) "stop_signal" = Some "0"
  /\ Redis.counter (Proc.db w) "urls_found" = 0.
Proof. vm_compute. repeat split. Qed.

(** ** The stop flags *)

Section Stop.
Import Proc Worker.

Variable urlparse : string -> lib Urllib.ParseResult.
Variable urljoin : string -> string -> lib string.
Variable html_parser : string -> lib Bs4.soup.
Variable container_markup : Json.value -> lib Bs4.soup.

Local Abbreviation explorer_worker :=
  (Explorer.explorer_worker urlparse urljoin html_parser container_markup).
Local Abbreviation extractor_worker :=
  (Extractor.extractor_worker html_parser container_markup).

Lemma goto_same (p : proc) (s : pstate) : at_ p = s -> goto p s = p.
Proof. intros <-. now destruct p. Qed.

(** A pop that times out: [continue], and nothing was read or written. *)
Lemma explorer_timeout (envs : list env) (w : world) :
  redis (hd calm envs) = Up ->
  Redis.llist (db w) "explored_queue" = [] ->
  run (Explorer.iteration urlparse urljoin html_parser container_markup) envs w
  = (Ok Continue, w, tl envs).
Proof.
  intros Hup Hq. unfold Explorer.iteration.
  rewrite run_bind, (run_brpop_empty "explored_queue" 1 envs w Hup Hq). reflexivity.
Qed.

Lemma extractor_timeout (worker_id : Z) (envs : list env) (w : world) :
  redis (hd calm envs) = Up ->
  Redis.llist (db w) "exploit_queue" = [] ->
  run (Extractor.iteration html_parser container_markup worker_id) envs w
  = (Ok Continue, w, tl envs).
Proof.
  intros Hup Hq. unfold Extractor.iteration, Extractor.pop_and_extract.
  rewrite run_bind, run_try, run_bind.
  rewrite (run_brpop_empty "exploit_queue" 1 envs w Hup Hq). reflexivity.
Qed.

(** A worker whose queue stays empty goes round the loop without ever
    leaving it, whatever the broker holds under [stop_signal]. *)
Lemma idle_loop (c : code) (key : string) (n : nat) :
  (forall envs w, redis (hd calm envs) = Up -> Redis.llist (db w) key = [] ->
                  run (iteration c) envs w = (Ok Continue, w, tl envs)) ->
  forall (envs : list env) (p : proc) (w : world),
    at_ p = LoopHead -> should_stop p = false ->
    connected envs -> Redis.llist (db w) key = [] ->
    loop c n envs p w = (p, w, drop n envs).
Proof.
  intros Hit. induction n as [|n IH]; intros envs p w Hat Hs Hc Hq; [reflexivity|].
  simpl loop. rewrite Hat. unfold iterate.
  rewrite Hs, (Hit envs w (connected_hd envs Hc) Hq).
  rewrite (goto_same p LoopHead Hat).
  rewrite (IH (tl envs) p w Hat Hs (connected_tl envs Hc) Hq).
  now rewrite drop_tl.
Qed.

(** The process flag is tested at the head of every pass, and ends the
    loop without another command. *)
Lemma should_stop_exits (c : code) (envs : list env) (p : proc) (w : world) :
  should_stop p = true -> iterate c envs p w = (goto p Exited, w, envs).
Proof. intros H. unfold iterate. now rewrite H. Qed.

End Stop.

(** C5 at the failing input: the broker holds [stop_signal = '1'] and the
    worker's queue is empty.  Each pop times out and [continue] leads back
    to [while not should_stop], the flag of the process; [stop_signal] is
    not read.  After any number of passes the worker is still at the loop
    test, the world is as it was, and the worker has not exited. *)
Theorem idle_worker_ignores_stop_signal
    (urlparse : string -> lib Urllib.ParseResult)
    (urljoin : string -> string -> lib string)
    (html_parser : string -> lib Bs4.soup)
    (container_markup : Json.value -> lib Bs4.soup)
    (worker_id : Z) (n : nat) (envs : list Proc.env) (p : Worker.proc) (w : Proc.world) :
  Worker.at_ p = Worker.LoopHead -> Worker.should_stop p = false ->
  Proc.connected envs ->
  Redis.get (Proc.db w) "stop_signal" = Some "1" ->
  (Redis.llist (Proc.db w) "explored_queue" = [] ->
   Worker.loop (Explorer.explorer_worker urlparse urljoin html_parser container_markup)
     n envs p w = (p, w, drop n envs)) /\
  (Redis.llist (Proc.db w) "exploit_queue" = [] ->
   Worker.loop (Extractor.extractor_worker html_parser container_markup worker_id)
     n envs p w = (p, w, drop n envs)) /\
  Worker.running p = true.
Proof.
  intros Hat Hs Hc _. split; [|split].
  - intros Hq. apply (idle_loop _ "explored_queue"); auto.
    intros envs' w' Hup Hq'. now apply explorer_timeout.
  - intros Hq. apply (idle_loop _ "exploit_queue"); auto.
    intros envs' w' Hup Hq'. now apply extractor_timeout.
  - unfold Worker.running. now rewrite Hat.
Qed.

(** The theorem after a hundred time-outs with the flag raised. *)
Lemma idle_worker_ignores_stop_signal_witness :
  Worker.running
    (fst (fst (Worker.loop
                 (Explorer.explorer_worker Urllib.urlparse Sample.urljoin
                    Sample.html_parser Sample.container_markup)
                 100 [] Sample.at_loop_head
                 {| Proc.db := Redis.set "stop_signal" (Redis.SStr "1") Redis.empty;
                    Proc.trace := [] |}))) = true.
Proof.
  destruct (idle_worker_ignores_stop_signal Urllib.urlparse Sample.urljoin
              Sample.html_parser Sample.container_markup 7 100 [] Sample.at_loop_head
              {| Proc.db := Redis.set "stop_signal" (Redis.SStr "1") Redis.empty;
                 Proc.trace := [] |}) as (Hexp & _ & Hrun).
  - reflexivity.
  - reflexivity.
  - constructor.
  - reflexivity.
  - rewrite Hexp by reflexivity. exact Hrun.
Defined.

(** ** Passes of the loop and steps of the process *)

Section Adequacy.
Import Proc Worker.

Lemma reaches_trans (c : code) (a b d : proc * world) :
  reaches c a b -> reaches c b d -> reaches c a d.
Proof.
  induction 1 as [pw|ev p w qw H IH]; intros Hbd; [assumption|].
  apply (reaches_step c ev). now apply IH.
Qed.

(** Running the body to its end is a sequence of steps of the process. *)
Lemma run_reaches (c : code) (stop : bool) (body : prog flow) :
  forall (envs : list env) (w : world),
    reaches c ({| should_stop := stop; at_ := InBody body |}, w)
      ({| should_stop := stop; at_ := InBody (lift (fst (fst (run body envs w)))) |},
       snd (fst (run body envs w))).
Proof.
  induction body as [a|e|X cm k IH]; intros envs w; simpl; try apply reaches_here.
  apply (reaches_step c (hd calm envs)). unfold step. simpl.
  destruct (exec cm (hd calm envs) w) as [r w']. unfold goto. simpl. apply IH.
Qed.

(** A pass of the loop is a sequence of steps of the process. *)
Lemma iterate_reaches (c : code) (envs : list env) (p : proc) (w : world) :
  at_ p = LoopHead ->
  reaches c (p, w) (fst (fst (iterate c envs p w)), snd (fst (iterate c envs p w))).
Proof.
  intros Hat. destruct p as [stop st]. simpl in Hat. subst st.
  apply (reaches_step c calm). unfold step, iterate. simpl.
  destruct stop; simpl; [apply reaches_here|].
  eapply reaches_trans; [apply (run_reaches c false (iteration c) envs w)|].
  destruct (run (iteration c) envs w) as [[[f|e] w'] rest]; simpl.
  - apply (reaches_step c calm). unfold step. simpl.
    destruct f; apply reaches_here.
  - apply (reaches_step c calm). unfold step. simpl. apply reaches_here.
Qed.

End Adequacy.

(** ** The workers keep to the discipline *)

Section Safety.
Import Proc Worker Discipline.

Lemma safe_bind_any {A B} (g : ghost) (p : prog A) (f : A -> prog B) :
  safe g p -> (forall g' a, safe g' (f a)) -> safe g (bind p f).
Proof.
  intros Hp Hf. induction Hp as [g a|g e|g X c k Hal Hk IH]; simpl.
  - apply Hf.
  - constructor.
  - constructor; [assumption|]. intros r. apply IH.
Qed.

Lemma safe_try_any {A} (g : ghost) (p : prog A) (cl : list (exn_class * (exn -> prog A))) :
  safe g p -> (forall g' e, safe g' (handle cl e)) -> safe g (try_except p cl).
Proof.
  intros Hp Hh. induction Hp as [g a|g e|g X c k Hal Hk IH]; simpl.
  - constructor.
  - apply Hh.
  - constructor; [assumption|]. intros r. apply IH.
Qed.

Lemma safe_lift {A} (g : ghost) (r : result A) : safe g (lift r).
Proof. destruct r; constructor. Qed.

Lemma safe_lift_bind {A B} (g : ghost) (r : result A) (f : A -> prog B) :
  (forall a, r = Ok a -> safe g (f a)) -> safe g (bind (lift r) f).
Proof. intros H. destruct r as [a|e]; simpl; [now apply H|constructor]. Qed.

Lemma safe_call_bind {X B} (g : ghost) (c : cmd X) (f : X -> prog B) :
  allowed g c -> (forall x, safe (after g c (Ok x)) (f x)) -> safe g (bind (call c) f).
Proof.
  intros Hal Hf. unfold call. simpl. constructor; [assumption|].
  intros [x|e]; simpl; [apply Hf|constructor].
Qed.

Lemma safe_call {X} (g : ghost) (c : cmd X) : allowed g c -> safe g (call c).
Proof.
  intros Hal. unfold call. constructor; [assumption|]. intros r. apply safe_lift.
Qed.

Variable urlparse : string -> lib Urllib.ParseResult.
Variable urljoin : string -> string -> lib string.
Variable html_parser : string -> lib Bs4.soup.
Variable container_markup : Json.value -> lib Bs4.soup.

Lemma frontier_only_nil : frontier_only [].
Proof. split; reflexivity. Qed.

Lemma frontier_only_snoc (pipe : list Redis.pipe_cmd) (link : string) :
  frontier_only pipe ->
  frontier_only (pipe ++ [Redis.p_lpush "explored_queue" (Explorer.frontier_item link)]).
Proof.
  intros (Hp & Hi). split.
  - rewrite pushed_to_app, Hp. reflexivity.
  - intros key. rewrite incrs_app, Hi. reflexivity.
Qed.

Lemma safe_queue_links {B} (links : list string) :
  forall (pipe : list Redis.pipe_cmd) (g : ghost) (f : list Redis.pipe_cmd -> prog B),
    (forall g' pipe', frontier_only pipe' -> safe g' (f pipe')) ->
    frontier_only pipe ->
    safe g (bind (Explorer.queue_links links pipe) f).
Proof.
  induction links as [|link rest IH]; intros pipe g f Hf Hp.
  - simpl. now apply Hf.
  - rewrite queue_links_cons. simpl. constructor; [exact I|].
    intros [seen|e]; simpl; [|constructor].
    destruct seen.
    + apply IH; assumption.
    + apply IH; [assumption|]. now apply frontier_only_snoc.
Qed.

Lemma safe_requests_get (g : ghost) (url : Json.value) (member : string) :
  Redis.encode url = Ok member -> member ∈ licenses g ->
  safe g (Explorer.requests_get url).
Proof.
  intros He Hin. destruct url; simpl in He; try discriminate.
  - constructor.
  - injection He as <-. apply safe_call. exact Hin.
Qed.

Lemma safe_explore_url (g : ghost) (url : Json.value) (member : string) :
  Redis.encode url = Ok member -> member ∈ licenses g ->
  safe g (Explorer.explore_url urlparse urljoin html_parser container_markup url).
Proof.
  intros He Hin. unfold Explorer.explore_url. apply safe_try_any.
  - unfold Explorer.fetch_and_parse. apply safe_bind_any.
    + now apply (safe_requests_get g url member).
    + intros g' response. apply safe_lift_bind. intros _ _.
      apply safe_lift_bind. intros soup _.
      apply safe_lift_bind. intros links _. constructor.
  - intros g' e. cbn [handle].
    destruct (isinstance e requests_RequestException); [constructor|].
    destruct (isinstance e Exception_); constructor.
Qed.

Lemma explorer_iteration_safe :
  safe no_ghost (Explorer.iteration urlparse urljoin html_parser container_markup).
Proof.
  unfold Explorer.iteration. apply safe_call_bind; [exact I|].
  intros [[queue_name item_json]|]; [|constructor].
  apply safe_lift_bind. intros item _.
  apply safe_lift_bind. intros url _.
  apply safe_lift_bind. intros member He.
  apply safe_call_bind; [reflexivity|]. intros n.
  destruct (n =? 0) eqn:Hn; [constructor|].
  cbn [after]. rewrite Hn. simpl.
  apply safe_bind_any.
  - apply (safe_explore_url _ url member He). simpl. apply elem_of_cons. now left.
  - intros g' [html new_links].
    apply safe_queue_links; [|apply frontier_only_nil].
    intros g'' pipe (Hp & Hi).
    apply safe_call_bind.
    + cbn [allowed]. rewrite !incrs_app, !Hi, pushed_to_app, Hp.
      split; [apply Nat.le_0_l|reflexivity].
    + intros ?. apply safe_call_bind; [exact I|]. intros stop.
      destruct (bool_decide _); constructor.
Qed.

Lemma explorer_safe :
  code_safe (Explorer.explorer_worker urlparse urljoin html_parser container_markup).
Proof.
  split; [|apply explorer_iteration_safe].
  simpl. unfold Explorer.startup. apply safe_call_bind; [exact I|]. intros root_url.
  apply safe_try_any.
  - apply safe_call_bind; [exact I|]. intros ?. constructor.
  - intros g' e. cbn [handle]. destruct (isinstance e redis_ConnectionError); constructor.
Qed.

Lemma extractor_iteration_safe (worker_id : Z) :
  safe no_ghost (Extractor.iteration html_parser container_markup worker_id).
Proof.
  unfold Extractor.iteration. apply safe_bind_any.
  - apply safe_try_any.
    + unfold Extractor.pop_and_extract. apply safe_call_bind; [exact I|].
      intros [[queue_name item_json]|]; [|constructor].
      cbn [after]. simpl String.eqb. cbv iota.
      apply safe_lift_bind. intros item _.
      apply safe_lift_bind. intros url _.
      apply safe_lift_bind. intros html _.
      apply safe_lift_bind. intros title _.
      apply safe_call_bind; [exact I|]. intros now.
      apply safe_lift_bind. intros fields _.
      apply safe_call_bind.
      * cbn [allowed credits]. split; [apply Nat.le_refl|reflexivity].
      * intros ?. constructor.
    + intros g' e. cbn [handle].
      destruct (isinstance e redis_ConnectionError).
      { apply safe_call_bind; [exact I|]. intros ?. constructor. }
      destruct (isinstance e json_JSONDecodeError); [constructor|].
      destruct (isinstance e Exception_); constructor.
  - intros g' [| |]; [constructor|constructor|].
    apply safe_call_bind; [exact I|]. intros stop.
    destruct (bool_decide _); constructor.
Qed.

Lemma extractor_safe (worker_id : Z) :
  code_safe (Extractor.extractor_worker html_parser container_markup worker_id).
Proof.
  split; [|apply extractor_iteration_safe].
  simpl. unfold Extractor.startup. apply safe_try_any.
  - apply safe_call_bind; [exact I|]. intros ?. constructor.
  - intros g' e. cbn [handle]. destruct (isinstance e redis_ConnectionError); constructor.
Qed.

End Safety.

(** ** One command and the two invariants *)

Section Preservation.
Import Proc Worker System Discipline.

Lemma brpop_frame (key : string) (b : Redis.broker) :
  Redis.strings (snd (Redis.brpop key b)) = Redis.strings b /\
  Redis.sets (snd (Redis.brpop key b)) = Redis.sets b.
Proof. unfold Redis.brpop. destruct (List.rev (Redis.llist b key)); simpl; auto. Qed.

Lemma smembers_sets (b b' : Redis.broker) (key : string) :
  Redis.sets b' = Redis.sets b -> Redis.smembers b' key = Redis.smembers b key.
Proof. intros H. unfold Redis.smembers. now rewrite H. Qed.

Lemma pushes_are_pushes (pipe : list Redis.pipe_cmd) : Forall is_push (List.rev (pushes_of pipe)).
Proof.
  apply Forall_rev. unfold pushes_of. apply Forall_concat, Forall_forall.
  intros l Hl. apply list_elem_of_In, in_map_iff in Hl as (c & <- & _).
  destruct c; repeat constructor.
Qed.

Lemma fetches_quiet (evs t : list event) :
  Forall is_push evs -> fetches (evs ++ t) = fetches t.
Proof.
  induction 1 as [|e evs He _ IH]; [reflexivity|].
  destruct e; try contradiction. exact IH.
Qed.

Lemma additions_quiet (key : string) (evs t : list event) :
  Forall is_push evs -> additions key (evs ++ t) = additions key t.
Proof.
  induction 1 as [|e evs He _ IH]; [reflexivity|].
  destruct e; try contradiction. exact IH.
Qed.

Lemma fetch_after_add_quiet (evs t : list event) :
  Forall is_push evs -> fetch_after_add t -> fetch_after_add (evs ++ t).
Proof.
  induction 1 as [|e evs He _ IH]; intros Ht; [assumption|].
  destruct e; try contradiction. simpl. auto.
Qed.

(** A command that sends no GET and adds nothing to the visited set. *)
Lemma dedup_quiet (w : world) (b' : Redis.broker) (evs : list event) (held : list string) :
  Forall is_push evs -> Redis.sets b' = Redis.sets (db w) ->
  dedup w held -> dedup {| db := b'; trace := evs ++ trace w |} held.
Proof.
  intros Hq Hs (H1 & H2 & H3 & H4 & H5). unfold dedup. cbn [db trace].
  rewrite (fetches_quiet evs _ Hq), (additions_quiet _ evs _ Hq),
    (smembers_sets (db w) b' _ Hs).
  repeat split; try assumption. now apply fetch_after_add_quiet.
Qed.

Lemma dedup_same (w : world) (held : list string) :
  dedup w held -> dedup {| db := db w; trace := [] ++ trace w |} held.
Proof. intros H. apply dedup_quiet; [constructor|reflexivity|assumption]. Qed.

Lemma dedup_weaken (w : world) (held held' : list string) :
  (forall u, u ∈ held' -> u ∈ held) -> NoDup held' ->
  dedup w held -> dedup w held'.
Proof.
  intros Hsub Hnd (H1 & H2 & H3 & H4 & H5). unfold dedup.
  apply NoDup_app in H1 as (Hf & Hdis & _).
  repeat split; try assumption.
  - apply NoDup_app. repeat split; try assumption.
    intros u Hu Hu'. exact (Hdis u Hu (Hsub u Hu')).
  - intros u Hu. apply H2. apply elem_of_app in Hu as [Hu|Hu]; apply elem_of_app; auto.
Qed.

Lemma elem_of_without (url u : string) (l : list string) :
  u ∈ without url l <-> u ∈ l /\ u <> url.
Proof.
  unfold without. rewrite !list_elem_of_In, filter_In, negb_true_iff.
  destruct (String.eqb_spec u url); split; intros [? ?]; split; auto; congruence.
Qed.

Lemma NoDup_without (url : string) (l : list string) : NoDup l -> NoDup (without url l).
Proof.
  intros H. apply NoDup_ListNoDup. apply List.NoDup_filter. now apply NoDup_ListNoDup.
Qed.

(** The GET: the licence moves to the trace. *)
Lemma dedup_fetch (w : world) (url : string) (mine rest : list string) :
  url ∈ mine -> dedup w (mine ++ rest) ->
  dedup {| db := db w; trace := [fetched url] ++ trace w |} (without url mine ++ rest).
Proof.
  intros Hin (H1 & H2 & H3 & H4 & H5). unfold dedup. cbn [db trace app].
  change (fetches (fetched url :: trace w)) with (url :: fetches (trace w)).
  change (additions "visited_urls" (fetched url :: trace w))
    with (additions "visited_urls" (trace w)).
  apply NoDup_app in H1 as (Hf & Hdis & Hheld).
  apply NoDup_app in Hheld as (Hm & Hdis2 & Hr).
  repeat split; try assumption.
  - simpl. apply NoDup_cons. split.
    + intros Hu. apply elem_of_app in Hu as [Hu|Hu].
      * apply (Hdis url Hu). apply elem_of_app. now left.
      * apply elem_of_app in Hu as [Hu|Hu].
        -- apply elem_of_without in Hu as [_ Hne]. congruence.
        -- exact (Hdis2 url Hin Hu).
    + apply NoDup_app. repeat split; try assumption.
      * intros u Hu Hu'. apply (Hdis u Hu).
        apply elem_of_app in Hu' as [Hu'|Hu']; apply elem_of_app; [left|now right].
        now apply elem_of_without in Hu' as [? _].
      * apply NoDup_app. repeat split; try assumption.
        -- now apply NoDup_without.
        -- intros u Hu. apply Hdis2. now apply elem_of_without in Hu as [? _].
  - intros u Hu. apply H2. simpl in Hu. apply elem_of_cons in Hu as [->|Hu].
    + apply elem_of_app. right. apply elem_of_app. now left.
    + apply elem_of_app in Hu as [Hu|Hu]; apply elem_of_app; [now left|right].
      apply elem_of_app in Hu as [Hu|Hu]; apply elem_of_app; [left|now right].
      now apply elem_of_without in Hu as [? _].
  - apply H2. apply elem_of_app. right. apply elem_of_app. now left.
Qed.

(** The SADD that reports a new member of the visited set. *)
Lemma dedup_add (w : world) (member : string) (held : list string) (grant : bool) :
  member ∉ Redis.smembers (db w) "visited_urls" ->
  dedup w held ->
  dedup {| db := snd (Redis.sadd "visited_urls" member (db w));
           trace := [added "visited_urls" member] ++ trace w |}
        (if grant then member :: held else held).
Proof.
  intros Hnew (H1 & H2 & H3 & H4 & H5). unfold dedup. cbn [db trace app].
  change (fetches (added "visited_urls" member :: trace w)) with (fetches (trace w)).
  change (additions "visited_urls" (added "visited_urls" member :: trace w))
    with (member :: additions "visited_urls" (trace w)).
  destruct (sadd_new "visited_urls" member (db w) Hnew) as (_ & Hset). rewrite Hset.
  assert (member ∉ additions "visited_urls" (trace w)) as Hfresh
    by (intros Hin; exact (Hnew (H4 member Hin))).
  assert (member ∉ fetches (trace w) ++ held) as Hfresh2
    by (intros Hin; exact (Hfresh (H2 member Hin))).
  repeat split.
  - destruct grant; [|assumption].
    apply NoDup_app in H1 as (Hf & Hdis & Hh).
    apply NoDup_app. repeat split; try assumption.
    + intros u Hu Hu'. apply elem_of_cons in Hu' as [->|Hu'].
      * apply Hfresh2. apply elem_of_app. now left.
      * exact (Hdis u Hu Hu').
    + apply NoDup_cons. split; [|assumption].
      intros Hin. apply Hfresh2. apply elem_of_app. now right.
  - intros u Hu. apply elem_of_cons. destruct grant.
    + apply elem_of_app in Hu as [Hu|Hu].
      * right. apply H2. apply elem_of_app. now left.
      * apply elem_of_cons in Hu as [->|Hu]; [now left|].
        right. apply H2. apply elem_of_app. now right.
    + right. now apply H2.
  - apply NoDup_cons. split; assumption.
  - intros u Hu. apply elem_of_union. apply elem_of_cons in Hu as [->|Hu].
    + left. now apply elem_of_singleton.
    + right. now apply H4.
  - exact H5.
Qed.

Lemma sets_execute (pipe : list Redis.pipe_cmd) (b : Redis.broker) :
  Redis.sets (snd (Redis.execute pipe b)) = Redis.sets b.
Proof. rewrite execute_snd. apply sets_execute_from. Qed.

(** Any allowed command keeps the dedup invariant, the worker's licences
    changing as [after] says. *)
Lemma exec_dedup {X} (c : cmd X) (ev : env) (w w' : world) (r : result X)
    (g : ghost) (rest : list string) :
  allowed g c -> exec c ev w = (r, w') ->
  dedup w (licenses g ++ rest) -> dedup w' (licenses (after g c r) ++ rest).
Proof.
  intros Hal Hex Hd.
  destruct c; cbn [allowed] in Hal; try contradiction;
    unfold exec in Hex; cbn [serve local] in Hex.
  - (* ping *)
    destruct (redis ev); injection Hex as <- <-; try assumption; now apply dedup_same.
  - (* get *)
    destruct (redis ev); injection Hex as <- <-; try assumption; now apply dedup_same.
  - (* brpop *)
    pose proof (brpop_frame key (db w)) as (_ & Hsets).
    destruct (Redis.brpop key (db w)) as [popped b'] eqn:Hb. cbn [snd] in Hsets.
    assert (forall r0 : result (option (string * Json.text)),
               licenses (after g (brpop key timeout) r0) = licenses g) as Hl.
    { intros [[?|]|?]; simpl; try reflexivity. now destruct (String.eqb key _). }
    rewrite Hl.
    destruct (redis ev); injection Hex as <- <-; try assumption;
      apply (dedup_quiet w b' []); auto; constructor.
  - (* sadd *)
    subst key.
    destruct (sadd_result "visited_urls" member (db w)) as [(Hn & Hin & Hb)|(Hn & Hnew)].
    + destruct (Redis.sadd "visited_urls" member (db w)) as [n b'].
      cbn [fst snd] in Hn, Hb. subst n b'. simpl in Hex.
      destruct (redis ev); injection Hex as <- <-; simpl; try assumption;
        now apply dedup_same.
    + pose proof (dedup_add w member (licenses g ++ rest) true Hnew Hd) as Ht.
      pose proof (dedup_add w member (licenses g ++ rest) false Hnew Hd) as Hf.
      destruct (Redis.sadd "visited_urls" member (db w)) as [n b'].
      cbn [fst snd] in Hn, Ht, Hf. subst n. simpl in Hex.
      destruct (redis ev); injection Hex as <- <-; simpl; assumption.
  - (* sismember *)
    destruct (redis ev); injection Hex as <- <-; try assumption; now apply dedup_same.
  - (* execute *)
    pose proof (sets_execute pipe (db w)) as Hsets.
    destruct (Redis.execute pipe (db w)) as [r0 b'] eqn:He. cbn [snd] in Hsets.
    cbn [after licenses].
    destruct (redis ev); injection Hex as <- <-; try assumption;
      apply (dedup_quiet w b' (List.rev (pushes_of pipe))); auto;
      apply pushes_are_pushes.
  - (* requests_get *)
    injection Hex as <- <-. cbn [after licenses]. now apply dedup_fetch.
  - (* time *)
    injection Hex as <- <-. now apply dedup_same.
  - (* sleep *)
    injection Hex as <- <-. now apply dedup_same.
Qed.

Lemma enqueued_quiet_fetch (key url : string) (t : list event) :
  enqueued key ([fetched url] ++ t) = enqueued key t.
Proof. reflexivity. Qed.

Lemma counting_weaken (w : world) (held held' : nat) :
  (held' <= held)%nat -> counting w held -> counting w held'.
Proof. intros Hle (H1 & H2 & H3 & H4). repeat split; try assumption. lia. Qed.

(** The world moves on, the counters, the exploit queue and the number of
    exploit pushes do not. *)
Lemma counting_frame (w : world) (b' : Redis.broker) (t' : list event) (held : nat) :
  Redis.strings b' = Redis.strings (db w) ->
  Redis.llist b' "exploit_queue" = Redis.llist (db w) "exploit_queue" ->
  enqueued "exploit_queue" t' = enqueued "exploit_queue" (trace w) ->
  counting w held -> counting {| db := b'; trace := t' |} held.
Proof.
  intros Hs Hl He (H1 & H2 & H3 & H4). unfold counting. cbn [db trace].
  destruct (counter_strings (db w) b' "urls_found" Hs) as (Hc1 & Hi1).
  destruct (counter_strings (db w) b' "urls_extracted" Hs) as (Hc2 & Hi2).
  rewrite Hc1, Hc2, Hl, He. auto.
Qed.

Lemma brpop_cases (key : string) (b : Redis.broker) :
  Redis.brpop key b = (None, b) \/
  exists x q, Redis.llist b key = q ++ [x] /\
              Redis.brpop key b = (Some (key, x), Redis.set_list key q b).
Proof.
  unfold Redis.brpop. destruct (List.rev (Redis.llist b key)) as [|x r] eqn:E; [now left|].
  right. exists x, (List.rev r). split; [|reflexivity].
  rewrite <- (rev_involutive (Redis.llist b key)), E. reflexivity.
Qed.

(** Any allowed command keeps the counting invariant, the worker's credits
    changing as [after] says. *)
Lemma exec_counting {X} (c : cmd X) (ev : env) (w w' : world) (r : result X)
    (g : ghost) (rest : nat) :
  allowed g c -> exec c ev w = (r, w') ->
  counting w (credits g + rest) -> counting w' (credits (after g c r) + rest).
Proof.
  intros Hal Hex Hd.
  destruct c; cbn [allowed] in Hal; try contradiction;
    unfold exec in Hex; cbn [serve local] in Hex.
  - (* ping *)
    destruct (redis ev); injection Hex as <- <-; try assumption;
      now apply (counting_frame w).
  - (* get *)
    destruct (redis ev); injection Hex as <- <-; try assumption;
      now apply (counting_frame w).
  - (* brpop *)
    destruct (brpop_cases key (db w)) as [Hb|(x & q & Hq & Hb)]; rewrite Hb in Hex.
    + destruct (redis ev); injection Hex as <- <-; try assumption;
        now apply (counting_frame w).
    + destruct (String.eqb_spec key "exploit_queue") as [->|Hne].
      * assert (counting {| db := Redis.set_list "exploit_queue" q (db w);
                            trace := [] ++ trace w |} (S (credits g) + rest)) as Hpop.
        { destruct Hd as (H1 & H2 & H3 & H4). unfold counting. cbn [db trace app].
          repeat split; try assumption.
          rewrite llist_set_list, decide_True by reflexivity.
          rewrite Hq, length_app in H4. simpl in H4.
          change (Redis.counter (Redis.set_list "exploit_queue" q (db w)) "urls_extracted")
            with (Redis.counter (db w) "urls_extracted"). lia. }
        destruct (redis ev); injection Hex as <- <-; try assumption.
        simpl. apply (counting_weaken _ (S (credits g) + rest)); [lia|exact Hpop].
      * assert (forall r0 : result (option (string * Json.text)),
                   credits (after g (brpop key timeout) r0) = credits g) as Hl.
        { intros [[?|]|?]; simpl; try reflexivity.
          destruct (String.eqb_spec key "exploit_queue"); [contradiction|reflexivity]. }
        rewrite Hl.
        destruct (redis ev); injection Hex as <- <-; try assumption;
          apply (counting_frame w); auto;
          rewrite llist_set_list, decide_False by assumption; reflexivity.
  - (* sadd *)
    assert (forall r0 : result Z, credits (after g (sadd key member) r0) = credits g) as Hl.
    { intros [n|?]; simpl; try reflexivity. now destruct (_ && _)%bool. }
    rewrite Hl.
    destruct (sadd_frame key member (db w)) as (Hs1 & Hl1 & _).
    destruct (Redis.sadd key member (db w)) as [n b']. cbn [snd] in Hs1, Hl1.
    destruct (redis ev); injection Hex as <- <-; try assumption;
      apply (counting_frame w); auto;
      try (unfold Redis.llist; now rewrite Hl1);
      destruct (n =? 1); reflexivity.
  - (* sismember *)
    destruct (redis ev); injection Hex as <- <-; try assumption;
      now apply (counting_frame w).
  - (* execute *)
    destruct Hal as (Hcred & Hbal). cbn [after credits].
    assert (counting {| db := snd (Redis.execute pipe (db w));
                        trace := List.rev (pushes_of pipe) ++ trace w |}
              (credits g - Redis.incrs "urls_extracted" pipe + rest)) as Hdone.
    { destruct Hd as (H1 & H2 & H3 & H4). unfold counting. cbn [db trace].
      rewrite execute_snd.
      destruct (counter_execute_from pipe true (db w) "urls_found" H1) as (Hi1 & Hc1).
      destruct (counter_execute_from pipe true (db w) "urls_extracted" H2) as (Hi2 & Hc2).
      rewrite Hc1, Hc2, llist_execute_from, enqueued_app, enqueued_pushes, length_app,
        length_rev, Hbal.
      repeat split; try assumption; lia. }
    destruct (Redis.execute pipe (db w)) as [r0 b'] eqn:He. cbn [snd] in Hdone.
    destruct (redis ev); injection Hex as <- <-; try assumption.
    apply (counting_weaken _ (credits g + rest)); [lia|assumption].
  - (* requests_get *)
    injection Hex as <- <-. cbn [after credits]. now apply (counting_frame w).
  - (* time *)
    injection Hex as <- <-. now apply (counting_frame w).
  - (* sleep *)
    injection Hex as <- <-. now apply (counting_frame w).
Qed.

End Preservation.

(** ** The running job *)

Section Holds.
Import Proc Worker System Discipline.

Lemma safe_inv {A} (g : ghost) (p : prog A) :
  safe g p ->
  match p with
  | Do c k => allowed g c /\ forall r, safe (after g c r) (k r)
  | _ => True
  end.
Proof. intros H. destruct H; auto. Qed.

Variable P : world -> list ghost -> Prop.

Hypothesis P_exec :
  forall X (c : cmd X) (ev : env) (w w' : world) (r : result X)
         (gs : list ghost) (i : nat) (g : ghost),
    gs !! i = Some g -> allowed g c -> exec c ev w = (r, w') ->
    P w gs -> P w' (<[i := after g c r]> gs).

Hypothesis P_reset :
  forall (w : world) (gs : list ghost) (i : nat), P w gs -> P w (<[i := no_ghost]> gs).

Hypothesis P_front :
  forall (o : orchestration) (w : world) (gs : list ghost),
    P w gs -> P (orchestrate o w) gs.

Local Abbreviation ok := (fun (g : ghost) (cp : code * proc) =>
                            code_safe (fst cp) /\ proc_safe g (snd cp)).

(** A step that runs no command: the worker's holdings are dropped. *)
Lemma settle (s : state) (gs : list ghost) (i : nat) (c : code) (p' : proc) :
  Forall2 ok gs (procs s) -> P (world_ s) gs ->
  code_safe c -> proc_safe no_ghost p' ->
  holds P {| world_ := world_ s; procs := <[i := (c, p')]> (procs s) |}.
Proof.
  intros Hall HP Hc Hp. exists (<[i := no_ghost]> gs). split.
  - apply Forall2_insert; [assumption|]. split; assumption.
  - now apply P_reset.
Qed.

Lemma step_holds (s : state) (i : nat) (ev : env) : holds P s -> holds P (act (proc_step i ev) s).
Proof.
  intros (gs & Hall & HP). unfold act.
  destruct (procs s !! i) as [[c p]|] eqn:Hi; [|exists gs; auto].
  destruct (Forall2_lookup_r _ _ _ _ _ Hall Hi) as (g & Hg & Hcode & Hsafe).
  cbn [fst snd] in Hcode, Hsafe. unfold proc_safe in Hsafe. unfold step.
  destruct (at_ p) as [sp| |bp| |e] eqn:Hat.
  - (* Starting *)
    destruct sp as [b|e|X cm k].
    + destruct b; apply (settle s gs); auto; try exact I.
    + apply (settle s gs); auto; try exact I.
    + apply safe_inv in Hsafe as (Hal & Hk).
      destruct (exec cm ev (world_ s)) as [r w'] eqn:Hex.
      exists (<[i := after g cm r]> gs). split.
      * apply Forall2_insert; [assumption|]. split; [assumption|]. apply Hk.
      * now apply (P_exec X cm ev (world_ s) w' r gs i g).
  - (* LoopHead *)
    destruct (should_stop p).
    + apply (settle s gs); auto; try exact I.
    + apply (settle s gs); auto; try exact I. exact (proj2 Hcode).
  - (* InBody *)
    destruct bp as [f|e|X cm k].
    + destruct f; apply (settle s gs); auto; try exact I.
    + apply (settle s gs); auto; try exact I.
    + apply safe_inv in Hsafe as (Hal & Hk).
      destruct (exec cm ev (world_ s)) as [r w'] eqn:Hex.
      exists (<[i := after g cm r]> gs). split.
      * apply Forall2_insert; [assumption|]. split; [assumption|]. apply Hk.
      * now apply (P_exec X cm ev (world_ s) w' r gs i g).
  - (* Exited *)
    apply (settle s gs); auto; try exact I. unfold proc_safe. now rewrite Hat.
  - (* Crashed *)
    apply (settle s gs); auto; try exact I. unfold proc_safe. now rewrite Hat.
Qed.

Lemma act_holds (a : action) (s : state) : holds P s -> holds P (act a s).
Proof.
  destruct a as [i ev|i|o].
  - apply step_holds.
  - intros (gs & Hall & HP). unfold act.
    destruct (procs s !! i) as [[c p]|] eqn:Hi; [|exists gs; auto].
    destruct (Forall2_lookup_r _ _ _ _ _ Hall Hi) as (g & Hg & Hcode & Hsafe).
    exists gs. split; [|assumption].
    rewrite <- (list_insert_id gs i g Hg).
    apply Forall2_insert; [assumption|]. split; assumption.
  - intros (gs & Hall & HP). exists gs. split; [assumption|]. now apply P_front.
Qed.

Lemma exec_all_holds (acts : list action) (s : state) :
  holds P s -> holds P (exec_all acts s).
Proof.
  revert s. induction acts as [|a acts IH]; intros s H; [assumption|].
  simpl. apply IH. now apply act_holds.
Qed.

(** Fresh workers hold nothing. *)
Lemma init_holds (b : Redis.broker) (codes : list code) :
  Forall code_safe codes ->
  P {| db := b; trace := [] |} (List.map (fun _ => no_ghost) codes) ->
  holds P (init b codes).
Proof.
  intros Hc HP. exists (List.map (fun _ => no_ghost) codes). split; [|exact HP].
  unfold init. cbn [procs]. clear HP.
  induction Hc as [|c codes Hc _ IH]; simpl; constructor; [|exact IH].
  split; [exact Hc|]. exact (proj1 Hc).
Qed.

End Holds.

Section Totals.
Import Proc Worker System Discipline.

Lemma total_licenses_app (gs1 gs2 : list ghost) :
  total_licenses (gs1 ++ gs2) = total_licenses gs1 ++ total_licenses gs2.
Proof. unfold total_licenses. now rewrite map_app, concat_app. Qed.

Lemma total_credits_app (gs1 gs2 : list ghost) :
  total_credits (gs1 ++ gs2) = (total_credits gs1 + total_credits gs2)%nat.
Proof. apply sum_list_with_app. Qed.

(** The holdings of worker [i] apart from those of the others. *)
Lemma total_licenses_at (gs : list ghost) (i : nat) (g : ghost) :
  gs !! i = Some g ->
  exists rest,
    forall g', total_licenses (<[i := g']> gs) ≡ₚ licenses g' ++ rest.
Proof.
  intros Hi. exists (total_licenses (take i gs) ++ total_licenses (drop (S i) gs)).
  intros g'. rewrite insert_take_drop by (eapply lookup_lt_Some; eassumption).
  rewrite total_licenses_app.
  change (total_licenses (g' :: drop (S i) gs))
    with (licenses g' ++ total_licenses (drop (S i) gs)).
  apply Permutation_app_swap_app.
Qed.

Lemma total_credits_at (gs : list ghost) (i : nat) (g : ghost) :
  gs !! i = Some g ->
  exists rest, forall g', total_credits (<[i := g']> gs) = (credits g' + rest)%nat.
Proof.
  intros Hi. exists (total_credits (take i gs) + total_credits (drop (S i) gs))%nat.
  intros g'. rewrite insert_take_drop by (eapply lookup_lt_Some; eassumption).
  rewrite total_credits_app.
  change (total_credits (g' :: drop (S i) gs))
    with (credits g' + total_credits (drop (S i) gs))%nat.
  lia.
Qed.

Lemma dedup_perm (w : world) (held held' : list string) :
  held ≡ₚ held' -> dedup w held -> dedup w held'.
Proof.
  intros Hp Hd. apply (dedup_weaken w held held'); [| |assumption].
  - intros u Hu. now rewrite Hp.
  - destruct Hd as (H1 & _). apply NoDup_app in H1 as (_ & _ & Hh). now rewrite <- Hp.
Qed.

(** What the front end does touches neither the visited set, nor the
    counters, nor the exploit queue, and leaves only pushes onto the
    frontier in the trace. *)
Lemma orchestrate_effect (o : orchestration) (w : world) :
  exists b' evs,
    orchestrate o w = {| db := b'; trace := evs ++ trace w |} /\
    Forall is_push evs /\
    Redis.sets b' = Redis.sets (db w) /\
    Redis.strings b' !! "urls_found" = Redis.strings (db w) !! "urls_found" /\
    Redis.strings b' !! "urls_extracted" = Redis.strings (db w) !! "urls_extracted" /\
    Redis.llist b' "exploit_queue" = Redis.llist (db w) "exploit_queue" /\
    enqueued "exploit_queue" (evs ++ trace w) = enqueued "exploit_queue" (trace w).
Proof.
  destruct o as [root_url now| |].
  - eexists _, [pushed "explored_queue" (Control.initial_item root_url)].
    split; [reflexivity|]. repeat split.
    + repeat constructor.
    + simpl. now rewrite lookup_insert_ne.
    + simpl. now rewrite lookup_insert_ne.
    + rewrite llist_lpush, decide_False by discriminate. reflexivity.
  - eexists _, []. split; [reflexivity|]. repeat split.
    + constructor.
    + simpl. now rewrite lookup_insert_ne.
    + simpl. now rewrite lookup_insert_ne.
  - eexists _, []. split; [reflexivity|]. repeat split. constructor.
Qed.

Lemma counting_frame_keys (w : world) (b' : Redis.broker) (t' : list event) (held : nat) :
  Redis.strings b' !! "urls_found" = Redis.strings (db w) !! "urls_found" ->
  Redis.strings b' !! "urls_extracted" = Redis.strings (db w) !! "urls_extracted" ->
  Redis.llist b' "exploit_queue" = Redis.llist (db w) "exploit_queue" ->
  enqueued "exploit_queue" t' = enqueued "exploit_queue" (trace w) ->
  counting w held -> counting {| db := b'; trace := t' |} held.
Proof.
  intros Hf Hx Hl He. unfold counting, Redis.is_counter, Redis.counter. cbn [db trace].
  rewrite Hf, Hx, Hl, He. auto.
Qed.

(** The dedup invariant is kept by every action. *)
Lemma dedup_kept (acts : list action) (s : state) :
  dedup_invariant s -> dedup_invariant (exec_all acts s).
Proof.
  apply exec_all_holds.
  - intros X c ev w w' r gs i g Hi Hal Hex Hd.
    destruct (total_licenses_at gs i g Hi) as (rest & Hrest).
    apply (dedup_perm w' (licenses (after g c r) ++ rest)); [symmetry; apply Hrest|].
    apply (exec_dedup c ev w w' r g rest Hal Hex).
    apply (dedup_perm w (total_licenses gs)); [|assumption].
    rewrite <- (list_insert_id gs i g Hi) at 1. apply Hrest.
  - intros w gs i Hd. destruct (gs !! i) as [g|] eqn:Hi.
    + destruct (total_licenses_at gs i g Hi) as (rest & Hrest).
      apply (dedup_perm w rest); [symmetry; apply (Hrest no_ghost)|].
      assert (dedup w (licenses g ++ rest)) as Hd'.
      { apply (dedup_perm w (total_licenses gs)); [|assumption].
        rewrite <- (list_insert_id gs i g Hi) at 1. apply Hrest. }
      apply (dedup_weaken w (licenses g ++ rest)); [| |assumption].
      * intros u Hu. apply elem_of_app. now right.
      * destruct Hd' as (H1 & _). apply NoDup_app in H1 as (_ & _ & Hh).
        now apply NoDup_app in Hh as (_ & _ & Hr).
    + rewrite list_insert_ge; [assumption|]. now apply lookup_ge_None.
  - intros o w gs Hd.
    destruct (orchestrate_effect o w) as (b' & evs & -> & Hq & Hs & _).
    now apply (dedup_quiet w).
Qed.

(** The counting invariant is kept by every action. *)
Lemma counting_kept (acts : list action) (s : state) :
  counting_invariant s -> counting_invariant (exec_all acts s).
Proof.
  apply exec_all_holds.
  - intros X c ev w w' r gs i g Hi Hal Hex Hd.
    destruct (total_credits_at gs i g Hi) as (rest & Hrest).
    rewrite Hrest. apply (exec_counting c ev w w' r g rest Hal Hex).
    rewrite <- (Hrest g), (list_insert_id gs i g Hi). assumption.
  - intros w gs i Hd. destruct (gs !! i) as [g|] eqn:Hi.
    + destruct (total_credits_at gs i g Hi) as (rest & Hrest).
      rewrite Hrest. apply (counting_weaken w (credits g + rest)); [simpl; lia|].
      rewrite <- (Hrest g), (list_insert_id gs i g Hi). assumption.
    + rewrite list_insert_ge; [assumption|]. now apply lookup_ge_None.
  - intros o w gs Hd.
    destruct (orchestrate_effect o w) as (b' & evs & -> & _ & _ & Hf & Hx & Hl & He).
    now apply (counting_frame_keys w).
Qed.

End Totals.

(** ** The two invariants of a job *)

Section Job.
Import Proc Worker System Discipline.

Variable urlparse : string -> lib Urllib.ParseResult.
Variable urljoin : string -> string -> lib string.
Variable html_parser : string -> lib Bs4.soup.
Variable container_markup : Json.value -> lib Bs4.soup.

Local Abbreviation job := (System.job urlparse urljoin html_parser container_markup).

Lemma job_codes_safe (explorers : nat) (extractor_ids : list Z) :
  Forall code_safe
    (repeat (Explorer.explorer_worker urlparse urljoin html_parser container_markup)
            explorers
     ++ List.map (Extractor.extractor_worker html_parser container_markup)
                 extractor_ids).
Proof.
  apply Forall_app. split.
  - apply Forall_forall. intros c Hc.
    apply list_elem_of_In, repeat_spec in Hc. subst c. apply explorer_safe.
  - apply Forall_forall. intros c Hc.
    apply list_elem_of_In, in_map_iff in Hc as (wid & <- & _). apply extractor_safe.
Qed.

Lemma nothing_held {A} (l : list A) :
  total_licenses (List.map (fun _ => no_ghost) l) = [] /\
  total_credits (List.map (fun _ => no_ghost) l) = O.
Proof. induction l as [|x l (IH1 & IH2)]; split; auto. Qed.

Lemma job_dedup (b : Redis.broker) (explorers : nat) (extractor_ids : list Z)
    (acts : list action) :
  dedup_invariant (exec_all acts (job b explorers extractor_ids)).
Proof.
  apply dedup_kept. apply init_holds; [apply job_codes_safe|].
  rewrite (proj1 (nothing_held _)). unfold dedup. simpl.
  repeat split; try constructor; intros u Hu; now apply elem_of_nil in Hu.
Qed.

Lemma job_counting (b : Redis.broker) (explorers : nat) (extractor_ids : list Z)
    (acts : list action) :
  fresh b -> counting_invariant (exec_all acts (job b explorers extractor_ids)).
Proof.
  intros (Hf & Hx & Hq).
  apply counting_kept. apply init_holds; [apply job_codes_safe|].
  rewrite (proj2 (nothing_held _)).
  unfold counting, Redis.is_counter, Redis.counter. cbn [db trace].
  rewrite Hf, Hx, Hq. simpl. repeat split; lia.
Qed.

End Job.

(** C4: in every state a job can reach, with any number of explorer and
    extractor processes interleaved in any order and any answers from the
    broker and the network, each GET in the trace comes after the SADD on
    [visited_urls] that reported its URL new, no URL was reported new
    twice, and no URL was fetched twice. *)
Theorem fetched_at_most_once
    (urlparse : string -> lib Urllib.ParseResult)
    (urljoin : string -> string -> lib string)
    (html_parser : string -> lib Bs4.soup)
    (container_markup : Json.value -> lib Bs4.soup)
    (b : Redis.broker) (explorers : nat) (extractor_ids : list Z)
    (acts : list System.action) :
  let t := Proc.trace
             (System.world_
                (System.exec_all acts
                   (System.job urlparse urljoin html_parser container_markup
                      b explorers extractor_ids))) in
  Discipline.fetch_after_add t /\
  NoDup (System.additions "visited_urls" t) /\
  NoDup (System.fetches t).
Proof.
  intros t.
  destruct (job_dedup urlparse urljoin html_parser container_markup b explorers
              extractor_ids acts) as (gs & _ & H1 & _ & H3 & _ & H5).
  fold t in H1, H3, H5. repeat split; try assumption.
  now apply NoDup_app in H1 as (Hf & _).
Qed.

(** C9: in every state a job started on a reset keyspace can reach,
    [urls_extracted] is at most the number of exploit items ever pushed,
    which is at most [urls_found + 1]. *)
Theorem extracted_le_enqueued_le_found
    (urlparse : string -> lib Urllib.ParseResult)
    (urljoin : string -> string -> lib string)
    (html_parser : string -> lib Bs4.soup)
    (container_markup : Json.value -> lib Bs4.soup)
    (b : Redis.broker) (explorers : nat) (extractor_ids : list Z)
    (acts : list System.action) :
  Discipline.fresh b ->
  let w := System.world_
             (System.exec_all acts
                (System.job urlparse urljoin html_parser container_markup
                   b explorers extractor_ids)) in
  Redis.counter (Proc.db w) "urls_extracted"
  <= Z.of_nat (System.enqueued "exploit_queue" (Proc.trace w)) /\
  Z.of_nat (System.enqueued "exploit_queue" (Proc.trace w))
  <= Redis.counter (Proc.db w) "urls_found" + 1.
Proof.
  intros Hfresh w.
  destruct (job_counting urlparse urljoin html_parser container_markup b explorers
              extractor_ids acts Hfresh) as (gs & _ & _ & _ & Hfound & Hle).
  fold w in Hfound, Hle. lia.
Qed.

(** C9 on a race of two explorers and one extractor after a reset. *)
Lemma extracted_le_enqueued_le_found_witness :
  let w := System.world_
             (System.exec_all Sample.race
                (System.job Urllib.urlparse Sample.urljoin Sample.html_parser
                   Sample.container_markup Sample.reset 2 [7])) in
  Redis.counter (Proc.db w) "urls_extracted"
  <= Z.of_nat (System.enqueued "exploit_queue" (Proc.trace w)) /\
  Z.of_nat (System.enqueued "exploit_queue" (Proc.trace w))
  <= Redis.counter (Proc.db w) "urls_found" + 1.
Proof.
  apply (extracted_le_enqueued_le_found Urllib.urlparse Sample.urljoin Sample.html_parser
           Sample.container_markup Sample.reset 2 [7] Sample.race).
  repeat split; reflexivity.
Defined.

(** The race itself: the root URL is in the frontier twice and is fetched
    once; the link found on its page is fetched once; both pages are
    extracted. *)
Example race_outcome :
  let w := System.world_
             (System.exec_all Sample.race
                (System.job Urllib.urlparse Sample.urljoin Sample.html_parser
                   Sample.container_markup Sample.reset 2 [7])) in
  System.fetches (Proc.trace w) = ["https://example.test/a"; "https://example.test/"] /\
  System.additions "visited_urls" (Proc.trace w)
  = ["https://example.test/a"; "https://example.test/"] /\
  Redis.counter (Proc.db w) "urls_found" = 2 /\
  Redis.counter (Proc.db w) "urls_extracted" = 2 /\
  System.enqueued "exploit_queue" (Proc.trace w) = 2%nat /\
  List.map (fun e => List.find (fun kv => String.eqb (fst kv) "title") e)
           (Redis.xrange (Proc.db w) "results_stream")
  = [Some ("title", "Home"); Some ("title", "Home")].
Proof. vm_compute. repeat split. Qed.

(** ** Start-up of the workers *)

Section StartUp.
Import Proc Worker.

Variable urlparse : string -> lib Urllib.ParseResult.
Variable urljoin : string -> string -> lib string.
Variable html_parser : string -> lib Bs4.soup.
Variable container_markup : Json.value -> lib Bs4.soup.

Local Abbreviation explorer_worker :=
  (Explorer.explorer_worker urlparse urljoin html_parser container_markup).
Local Abbreviation extractor_worker :=
  (Extractor.extractor_worker html_parser container_markup).

(** A command that reads: its effect on the world when the link is not
    up. *)
Lemma exec_get_failed (key : string) (ev : env) (w : world) :
  redis ev <> Up -> exec (get key) ev w = (Raise ConnectionError, w).
Proof.
  intros H. unfold exec. cbn [serve]. destruct (redis ev); [congruence| |];
    rewrite ?app_nil_l, ?world_eta; reflexivity.
Qed.

Lemma exec_ping_failed (ev : env) (w : world) :
  redis ev <> Up -> exec ping ev w = (Raise ConnectionError, w).
Proof.
  intros H. unfold exec. cbn [serve]. destruct (redis ev); [congruence| |];
    rewrite ?app_nil_l, ?world_eta; reflexivity.
Qed.

Lemma exec_get_up (key : string) (ev : env) (w : world) :
  redis ev = Up -> exec (get key) ev w = (Ok (Redis.get (db w) key), w).
Proof.
  intros H. unfold exec. cbn [serve]. rewrite H. now rewrite app_nil_l, world_eta.
Qed.

Lemma exec_ping_up (ev : env) (w : world) :
  redis ev = Up -> exec ping ev w = (Ok tt, w).
Proof.
  intros H. unfold exec. cbn [serve]. rewrite H. now rewrite app_nil_l, world_eta.
Qed.

(** The start of a worker is a sequence of steps of the process. *)
Lemma run_startup_reaches (c : code) (stop : bool) (s : prog bool) :
  forall (envs : list env) (w : world),
    reaches c ({| should_stop := stop; at_ := Starting s |}, w)
      ({| should_stop := stop; at_ := Starting (lift (fst (fst (run s envs w)))) |},
       snd (fst (run s envs w))).
Proof.
  induction s as [a|e|X cm k IH]; intros envs w; simpl; try apply reaches_here.
  apply (reaches_step c (hd calm envs)). unfold step. simpl.
  destruct (exec cm (hd calm envs) w) as [r w']. unfold goto. simpl. apply IH.
Qed.

Lemma start_reaches (c : code) (envs : list env) (w : world) :
  reaches c (spawn c, w)
    (fst (fst (Boot.start c envs (spawn c) w)), snd (fst (Boot.start c envs (spawn c) w))).
Proof.
  unfold spawn.
  eapply reaches_trans; [apply (run_startup_reaches c false (startup c) envs w)|].
  unfold Boot.start.
  destruct (run (startup c) envs w) as [[[[|]|e] w'] rest]; simpl;
    apply (reaches_step c calm); unfold step; simpl; apply reaches_here.
Qed.

Lemma explorer_start (envs : list env) (p : proc) (w : world) :
  Boot.start explorer_worker envs p w =
  match redis (hd calm envs), redis (hd calm (tl envs)) with
  | Up, Up => (goto p LoopHead, w, tl (tl envs))
  | Up, _ => (goto p Exited, w, tl (tl envs))
  | _, _ => (goto p (Crashed ConnectionError), w, tl envs)
  end.
Proof.
  unfold Boot.start, Explorer.explorer_worker. cbn [startup].
  unfold Explorer.startup. rewrite run_bind, run_call.
  destruct (redis (hd calm envs)) eqn:E0.
  - rewrite exec_get_up by assumption. cbn [fst snd].
    rewrite run_try, run_bind, run_call.
    destruct (redis (hd calm (tl envs))) eqn:E1.
    + rewrite exec_ping_up by assumption. reflexivity.
    + rewrite exec_ping_failed by congruence. reflexivity.
    + rewrite exec_ping_failed by congruence. reflexivity.
  - rewrite exec_get_failed by congruence. reflexivity.
  - rewrite exec_get_failed by congruence. reflexivity.
Qed.

Lemma extractor_start (worker_id : Z) (envs : list env) (p : proc) (w : world) :
  Boot.start (extractor_worker worker_id) envs p w =
  match redis (hd calm envs) with
  | Up => (goto p LoopHead, w, tl envs)
  | _ => (goto p Exited, w, tl envs)
  end.
Proof.
  unfold Boot.start, Extractor.extractor_worker. cbn [startup].
  unfold Extractor.startup. rewrite run_try, run_bind, run_call.
  destruct (redis (hd calm envs)) eqn:E0.
  - rewrite exec_ping_up by assumption. reflexivity.
  - rewrite exec_ping_failed by congruence. reflexivity.
  - rewrite exec_ping_failed by congruence. reflexivity.
Qed.

End StartUp.

(** X1: the start of the two workers when the broker cannot be reached.
    [explorer_worker] reads [root_url] before its guarded ping: a failure
    of that first call leaves the function as a [ConnectionError], a
    failure of the ping makes it return.  [extractor_worker] has only the
    guarded ping and returns.  With the broker answering, both reach the
    loop test.  The world is not changed in any of these cases. *)
Theorem worker_start_when_broker_unreachable
    (urlparse : string -> lib Urllib.ParseResult)
    (urljoin : string -> string -> lib string)
    (html_parser : string -> lib Bs4.soup)
    (container_markup : Json.value -> lib Bs4.soup)
    (worker_id : Z) (envs : list Proc.env) (w : Proc.world) :
  let explorer := Explorer.explorer_worker urlparse urljoin html_parser container_markup in
  let extractor := Extractor.extractor_worker html_parser container_markup worker_id in
  let first := Proc.redis (hd Proc.calm envs) in
  let second := Proc.redis (hd Proc.calm (tl envs)) in
  Boot.start explorer envs (Worker.spawn explorer) w
  = (Worker.goto (Worker.spawn explorer)
       (match first, second with
        | Proc.Up, Proc.Up => Worker.LoopHead
        | Proc.Up, _ => Worker.Exited
        | _, _ => Worker.Crashed ConnectionError
        end),
     w, match first with Proc.Up => tl (tl envs) | _ => tl envs end) /\
  Boot.start extractor envs (Worker.spawn extractor) w
  = (Worker.goto (Worker.spawn extractor)
       (match first with Proc.Up => Worker.LoopHead | _ => Worker.Exited end),
     w, tl envs).
Proof.
  intros explorer extractor first second. split.
  - unfold explorer. rewrite explorer_start. fold first second.
    destruct first, second; reflexivity.
  - unfold extractor. rewrite extractor_start. fold first.
    destruct first; reflexivity.
Qed.

(** ** Passes of the two loops *)

Section Passes.
Import Proc Worker.

Variable urlparse : string -> lib Urllib.ParseResult.
Variable urljoin : string -> string -> lib string.
Variable html_parser : string -> lib Bs4.soup.
Variable container_markup : Json.value -> lib Bs4.soup.

Local Abbreviation explorer_iteration :=
  (Explorer.iteration urlparse urljoin html_parser container_markup).
Local Abbreviation extractor_iteration :=
  (Extractor.iteration html_parser container_markup).
Local Abbreviation explorer_worker :=
  (Explorer.explorer_worker urlparse urljoin html_parser container_markup).
Local Abbreviation extractor_worker :=
  (Extractor.extractor_worker html_parser container_markup).

(** A payload whose URL is in the visited set already. *)
Lemma explorer_iteration_seen (envs : list env) (w : world)
    (q : list Json.text) (x : Json.text) (member : string) :
  Redis.llist (db w) "explored_queue" = q ++ [x] ->
  Spec.frontier_member x = Ok member ->
  member ∈ Redis.smembers (db w) "visited_urls" ->
  connected envs ->
  run explorer_iteration envs w =
  (Ok Continue,
   {| db := Redis.set_list "explored_queue" q (db w); trace := trace w |},
   tl (tl envs)).
Proof.
  intros Hq Hm Hin Hc.
  unfold Explorer.iteration. rewrite run_bind.
  rewrite (run_brpop_last "explored_queue" 1 envs w q x (connected_hd envs Hc) Hq).
  cbv beta iota zeta.
  unfold Spec.frontier_member in Hm.
  destruct (Json.loads x) as [item|e0] eqn:E1; [|discriminate]. cbn [Py.bind] in Hm.
  destruct (Json.getitem item "url") as [url|e0] eqn:E2; [|discriminate].
  cbn [Py.bind] in Hm.
  rewrite run_bind, run_lift. cbv beta iota.
  rewrite run_bind, run_lift, E2. cbv beta iota.
  rewrite run_bind, run_lift, Hm. cbv beta iota.
  rewrite run_bind.
  rewrite (run_call_up (sadd "visited_urls" member) (tl envs) _ (Ok 0)
             (Redis.set_list "explored_queue" q (db w)) []);
    [|now apply connected_hd, connected_tl|].
  - reflexivity.
  - cbn [serve db].
    rewrite (sadd_old "visited_urls" member (Redis.set_list "explored_queue" q (db w)));
      [reflexivity|exact Hin].
Qed.

End Passes.

(** X2: a frontier item whose URL is already in [visited_urls] is popped
    and dropped: the pass ends with [continue] after the SADD, no GET is
    sent, nothing is pushed, and the visited set, the exploit queue and
    [urls_found] are as they were. *)
Theorem visited_url_is_discarded
    (urlparse : string -> lib Urllib.ParseResult)
    (urljoin : string -> string -> lib string)
    (html_parser : string -> lib Bs4.soup)
    (container_markup : Json.value -> lib Bs4.soup)
    (envs : list Proc.env) (w : Proc.world)
    (q : list Json.text) (x : Json.text) (member : string) :
  Redis.llist (Proc.db w) "explored_queue" = q ++ [x] ->
  Spec.frontier_member x = Ok member ->
  member ∈ Redis.smembers (Proc.db w) "visited_urls" ->
  Proc.connected envs ->
  exists w',
    Proc.run (Explorer.iteration urlparse urljoin html_parser container_markup) envs w
    = (Ok Worker.Continue, w', tl (tl envs)) /\
    Proc.trace w' = Proc.trace w /\
    Redis.llist (Proc.db w') "explored_queue" = q /\
    Redis.llist (Proc.db w') "exploit_queue" = Redis.llist (Proc.db w) "exploit_queue" /\
    Redis.smembers (Proc.db w') "visited_urls" = Redis.smembers (Proc.db w) "visited_urls" /\
    Redis.strings (Proc.db w') = Redis.strings (Proc.db w).
Proof.
  intros Hq Hm Hin Hc. eexists. split.
  - apply (explorer_iteration_seen urlparse urljoin html_parser container_markup
             envs w q x member); assumption.
  - cbn [Proc.db Proc.trace]. repeat split.
    + rewrite llist_set_list. now rewrite decide_True.
    + rewrite llist_set_list. now rewrite decide_False.
Qed.

(** The theorem on a frontier holding the root URL while the visited set
    has it. *)
Lemma visited_url_is_discarded_witness :
  exists w',
    Proc.run (Explorer.iteration Urllib.urlparse Sample.urljoin Sample.html_parser
                Sample.container_markup) []
      {| Proc.db := snd (Redis.sadd "visited_urls" "https://example.test/"
                           (Sample.broker_with "explored_queue"
                              [Control.initial_item "https://example.test/"]));
         Proc.trace := [] |}
    = (Ok Worker.Continue, w', []) /\
    Proc.trace w' = [] /\
    Redis.llist (Proc.db w') "explored_queue" = [].
Proof.
  destruct (visited_url_is_discarded Urllib.urlparse Sample.urljoin Sample.html_parser
              Sample.container_markup []
              {| Proc.db := snd (Redis.sadd "visited_urls" "https://example.test/"
                                   (Sample.broker_with "explored_queue"
                                      [Control.initial_item "https://example.test/"]));
                 Proc.trace := [] |}
              [] (Control.initial_item "https://example.test/") "https://example.test/")
    as (w' & H1 & H2 & H3 & _).
  - reflexivity.
  - reflexivity.
  - by_decide.
  - constructor.
  - exists w'. auto.
Defined.

(** ** The stop flag at the end of a pass *)

Section StopRead.

Lemma get_strings (b b' : Redis.broker) (key : string) :
  Redis.strings b' = Redis.strings b -> Redis.get b' key = Redis.get b key.
Proof. intros H. unfold Redis.get. now rewrite H. Qed.

Lemma get_set_ne (k key : string) (v : Redis.sval) (b : Redis.broker) :
  k <> key -> Redis.get (Redis.set k v b) key = Redis.get b key.
Proof. intros H. unfold Redis.get, Redis.set. simpl. now rewrite lookup_insert_ne. Qed.

Lemma get_apply_pipe_cmd (c : Redis.pipe_cmd) (b : Redis.broker) (key : string) :
  Redis.incrs key [c] = O ->
  Redis.get (snd (Redis.apply_pipe_cmd c b)) key = Redis.get b key.
Proof.
  destruct c as [k x|k|k f]; simpl; try reflexivity.
  unfold Redis.incrs. simpl. destruct (String.eqb_spec k key) as [->|Hne]; [discriminate|].
  intros _. unfold Redis.incr.
  destruct (Redis.strings b !! k) as [[z|s]|]; simpl; try reflexivity;
    now apply get_set_ne.
Qed.

(** A pipeline leaves alone the string keys it does not increment. *)
Lemma get_execute_from (pipe : list Redis.pipe_cmd) (ok : bool) (b : Redis.broker)
    (key : string) :
  Redis.incrs key pipe = O ->
  Redis.get (snd (Redis.execute_from pipe ok b)) key = Redis.get b key.
Proof.
  revert ok b. induction pipe as [|c pipe IH]; intros ok b H; [reflexivity|].
  rewrite (incrs_cons key c pipe) in H.
  simpl Redis.execute_from.
  pose proof (get_apply_pipe_cmd c b key) as Hc.
  destruct (Redis.apply_pipe_cmd c b) as [ok1 b1]. cbn [snd] in Hc.
  rewrite IH by lia. apply Hc. lia.
Qed.

End StopRead.

(** X3: the broker flag is read at the end of a pass that processed an
    item, and only the text ['1'] ends the worker: after such a pass the
    explorer (the extractor) has exited if [stop_signal] holds ['1'], and
    is back at the loop test for any other content or a missing key.  The
    item of the pass is processed in both cases. *)
Theorem stop_signal_read_after_item
    (urlparse : string -> lib Urllib.ParseResult)
    (urljoin : string -> string -> lib string)
    (html_parser : string -> lib Bs4.soup)
    (container_markup : Json.value -> lib Bs4.soup)
    (worker_id : Z) (envs : list Proc.env) (p : Worker.proc) (w : Proc.world)
    (q : list Json.text) (x : Json.text) (url html : Json.value) (member : string) :
  Worker.should_stop p = false ->
  Proc.connected envs ->
  Redis.encode url = Ok member ->
  let after :=
    if bool_decide (Redis.get (Proc.db w) "stop_signal" = Some "1")
    then Worker.Exited else Worker.LoopHead in
  (Redis.llist (Proc.db w) "explored_queue" = q ++ [x] ->
   (exists item, Json.loads x = Ok item /\ Json.getitem item "url" = Ok url) ->
   member ∉ Redis.smembers (Proc.db w) "visited_urls" ->
   Redis.is_counter (Proc.db w) "urls_found" ->
   exists w' rest,
     Worker.iterate
       (Explorer.explorer_worker urlparse urljoin html_parser container_markup)
       envs p w = (Worker.goto p after, w', rest) /\
     System.enqueued "exploit_queue" (Proc.trace w')
     = S (System.enqueued "exploit_queue" (Proc.trace w))) /\
  (Redis.llist (Proc.db w) "exploit_queue" = q ++ [x] ->
   Spec.exploit_fields x = Ok (url, html) ->
   Redis.is_counter (Proc.db w) "urls_extracted" ->
   exists w' rest,
     Worker.iterate (Extractor.extractor_worker html_parser container_markup worker_id)
       envs p w = (Worker.goto p after, w', rest) /\
     Redis.counter (Proc.db w') "urls_extracted"
     = Redis.counter (Proc.db w) "urls_extracted" + 1).
Proof.
  intros Hs Hc He after. split.
  - intros Hq (item & Hl & Hg) Hnew Hcnt.
    destruct (explorer_iteration_new urlparse urljoin html_parser container_markup
                envs w q x item url member Hq Hl Hg He Hnew Hcnt Hc) as (rest & Hrun).
    unfold Worker.iterate. rewrite Hs.
    unfold Explorer.explorer_worker at 1. cbn [Worker.iteration].
    rewrite Hrun. clear Hrun.
    set (b0 := Redis.set_list "explored_queue" q (Proc.db w)) in *.
    set (b1 := snd (Redis.sadd "visited_urls" member b0)) in *.
    set (hl := Spec.page urlparse urljoin html_parser url _) in *.
    set (pipe := Spec.explorer_pipe b1 url (fst hl) (snd hl)) in *.
    assert (Redis.get (snd (Redis.execute pipe b1)) "stop_signal"
            = Redis.get (Proc.db w) "stop_signal") as Hget.
    { rewrite execute_snd, get_execute_from.
      - apply get_strings. apply (sadd_frame "visited_urls" member b0).
      - subst pipe. now rewrite explorer_pipe_incrs. }
    rewrite Hget. fold after.
    eexists _, _. split.
    + subst after. destruct (bool_decide _); reflexivity.
    + cbn [Proc.trace]. rewrite !enqueued_app.
      rewrite enqueued_pushes.
      subst pipe. rewrite explorer_pipe_exploit.
      destruct (fetches_gets url) as (_ & _ & Hg0). rewrite Hg0.
      cbn [length System.enqueued List.filter]. reflexivity.
  - intros Hq Hf Hcnt.
    destruct (extract_title_total html_parser container_markup html) as [title Ht].
    pose proof (extractor_iteration_item html_parser container_markup worker_id envs w
                  q x url html member title Hq Hf He Ht Hcnt Hc) as Hrun.
    cbv zeta in Hrun.
    unfold Worker.iterate. rewrite Hs.
    unfold Extractor.extractor_worker at 1. cbn [Worker.iteration].
    rewrite Hrun. clear Hrun.
    rewrite get_set_ne by discriminate.
    change (Redis.get (Redis.xadd "results_stream" ?f ?b) "stop_signal")
      with (Redis.get b "stop_signal").
    change (Redis.get (Redis.set_list "exploit_queue" q (Proc.db w)) "stop_signal")
      with (Redis.get (Proc.db w) "stop_signal").
    fold after.
    eexists _, _. split.
    + subst after. destruct (bool_decide _); reflexivity.
    + cbn [Proc.db]. rewrite counter_set, decide_True by reflexivity. reflexivity.
Qed.

(** The theorem on a reset keyspace whose flag was raised, with the root
    URL in the frontier: the explorer processes the item and exits. *)
Lemma stop_signal_read_after_item_witness :
  exists w' rest,
    Worker.iterate
      (Explorer.explorer_worker Urllib.urlparse Sample.urljoin Sample.html_parser
         Sample.container_markup)
      [] Sample.at_loop_head
      {| Proc.db := Redis.set "stop_signal" (Redis.SStr "1")
                      (Redis.lpush "explored_queue"
                         (Control.initial_item "https://example.test/") Sample.reset);
         Proc.trace := [] |}
    = (Worker.goto Sample.at_loop_head Worker.Exited, w', rest) /\
    System.enqueued "exploit_queue" (Proc.trace w') = 1%nat.
Proof.
  destruct (stop_signal_read_after_item Urllib.urlparse Sample.urljoin Sample.html_parser
              Sample.container_markup 7 [] Sample.at_loop_head
              {| Proc.db := Redis.set "stop_signal" (Redis.SStr "1")
                              (Redis.lpush "explored_queue"
                                 (Control.initial_item "https://example.test/")
                                 Sample.reset);
                 Proc.trace := [] |}
              [] (Control.initial_item "https://example.test/")
              (Json.Str "https://example.test/") Json.Null "https://example.test/")
    as [Hexplorer _].
  - reflexivity.
  - constructor.
  - reflexivity.
  - destruct Hexplorer as (w' & rest & Hrun & Hn).
    + reflexivity.
    + eexists. split; reflexivity.
    + by_decide.
    + vm_compute. exact I.
    + exists w', rest. split; [exact Hrun|exact Hn].
Defined.

(** ** Exceptions and lost connections in the two loops *)

Section Failures.
Import Proc Worker.

Variable urlparse : string -> lib Urllib.ParseResult.
Variable urljoin : string -> string -> lib string.
Variable html_parser : string -> lib Bs4.soup.
Variable container_markup : Json.value -> lib Bs4.soup.

Local Abbreviation explorer_iteration :=
  (Explorer.iteration urlparse urljoin html_parser container_markup).
Local Abbreviation extractor_iteration :=
  (Extractor.iteration html_parser container_markup).
Local Abbreviation explorer_worker :=
  (Explorer.explorer_worker urlparse urljoin html_parser container_markup).
Local Abbreviation extractor_worker :=
  (Extractor.extractor_worker html_parser container_markup).

(** No [SystemExit] comes out of a command. *)
Lemma exec_raises {X} (c : cmd X) (ev : env) (w : world) (e : exn) (w' : world) :
  exec c ev w = (Raise e, w') -> exists x, e = Exc x.
Proof.
  unfold exec.
  destruct c; cbn [serve local];
    try (destruct (redis ev); intros [= <- <-]; eauto; fail).
  - destruct (Redis.brpop key (db w)) as [r b'].
    destruct (redis ev); intros [= <- <-]; eauto.
  - destruct (Redis.sadd key member (db w)) as [n b'].
    destruct (redis ev); intros [= <- <-]; eauto.
  - unfold Redis.execute. destruct (Redis.execute_from pipe true (db w)) as [ok b'].
    destruct ok; destruct (redis ev); intros [= <- <-]; eauto.
  - destruct (http ev); simpl; intros [= <- <-]; eauto.
Qed.

(** A broker command when the link is down: [ConnectionError], and the
    world is as it was. *)
Lemma exec_down {X} (c : cmd X) (ev : env) (w : world) :
  redis ev = Down -> serve c (db w) <> None ->
  exec c ev w = (Raise ConnectionError, w).
Proof.
  intros Hd Hs. unfold exec. destruct (serve c (db w)) as [[[r b'] evs]|]; [|congruence].
  now rewrite Hd.
Qed.

Lemma loads_raises (x : Json.text) (e : exn) :
  Json.loads x = Raise e -> e = JSONDecodeError.
Proof. destruct x; simpl; congruence. Qed.

Lemma getitem_raises (item : Json.value) (key : string) (e : exn) :
  Json.getitem item key = Raise e -> exists x, e = Exc x.
Proof.
  destruct item; simpl; try (intros [= <-]; eauto).
  destruct (Json.dict_get fields key); [discriminate|intros [= <-]; eauto].
Qed.

Lemma encode_raises (v : Json.value) (e : exn) :
  Redis.encode v = Raise e -> e = DataError.
Proof. destruct v; simpl; congruence. Qed.

(** The [try] block of the extractor raises only exceptions. *)
Lemma pop_and_extract_raises (worker_id : Z) (envs : list env) (w : world)
    (e : exn) (w' : world) (rest : list env) :
  run (Extractor.pop_and_extract html_parser container_markup worker_id) envs w
  = (Raise e, w', rest) ->
  exists x, e = Exc x.
Proof.
  unfold Extractor.pop_and_extract. rewrite run_bind, run_call.
  destruct (exec (brpop "exploit_queue" 1) (hd calm envs) w) as [[res|e0] w0] eqn:E0;
    cbn [fst snd].
  2:{ intros [= <- <- <-]. eapply exec_raises; eassumption. }
  destruct res as [[queue_name item_json]|]; [|discriminate].
  rewrite run_bind, run_lift.
  destruct (Json.loads item_json) as [item|e1] eqn:E1.
  2:{ intros [= <- <- <-]. rewrite (loads_raises _ _ E1). eauto. }
  rewrite run_bind, run_lift.
  destruct (Json.getitem item "url") as [url|e2] eqn:E2.
  2:{ intros [= <- <- <-]. eapply getitem_raises; eassumption. }
  rewrite run_bind, run_lift.
  destruct (Json.getitem item "html") as [html|e3] eqn:E3.
  2:{ intros [= <- <- <-]. eapply getitem_raises; eassumption. }
  rewrite run_bind, run_lift.
  destruct (extract_title_total html_parser container_markup html) as [title ->].
  rewrite run_bind, run_time.
  rewrite run_bind, run_lift.
  destruct (Extractor.result_data url title _ worker_id) as [fields|e4] eqn:E4.
  2:{ intros [= <- <- <-]. unfold Extractor.result_data in E4.
      destruct (Redis.encode url) as [u|e5] eqn:E5; [discriminate|].
      simpl in E4. injection E4 as <-. rewrite (encode_raises _ _ E5). eauto. }
  rewrite run_bind, run_call.
  destruct (exec (execute _) _ _) as [[[]|e6] w6] eqn:E6; cbn [fst snd].
  - discriminate.
  - intros [= <- <- <-]. eapply exec_raises; eassumption.
Qed.

(** The handlers of the extractor's [try] absorb every exception. *)
Lemma extractor_try_returns (worker_id : Z) (envs : list env) (w : world) :
  exists flow w' rest,
    run (try_except (Extractor.pop_and_extract html_parser container_markup worker_id)
           [(redis_ConnectionError, fun _ => call (sleep 2) ;;; Ret Continue);
            (json_JSONDecodeError, fun _ => Ret Continue);
            (Exception_, fun _ => Ret Continue)]%prog) envs w
    = (Ok flow, w', rest) /\
    (flow = Fall ->
     run (Extractor.pop_and_extract html_parser container_markup worker_id) envs w
     = (Ok Fall, w', rest)).
Proof.
  rewrite run_try.
  destruct (run (Extractor.pop_and_extract _ _ _) envs w) as [[[flow|e] w1] rest1] eqn:E.
  - eexists _, _, _. split; [reflexivity|]. intros ->. reflexivity.
  - destruct (pop_and_extract_raises worker_id envs w e w1 rest1 E) as [x ->].
    destruct x; cbn [handle isinstance];
      eexists _, _, _; (split; [reflexivity|discriminate]).
Qed.

(** A pop that fails for want of a connection. *)
Lemma explorer_pop_fails (envs : list env) (w : world) :
  redis (hd calm envs) = Down ->
  run explorer_iteration envs w = (Raise ConnectionError, w, tl envs).
Proof.
  intros Hd. unfold Explorer.iteration. rewrite run_bind, run_call.
  rewrite exec_down by (assumption || (cbn [serve]; now destruct (Redis.brpop _ _))).
  reflexivity.
Qed.

Lemma extractor_pop_fails (worker_id : Z) (envs : list env) (w : world) :
  redis (hd calm envs) = Down ->
  run (extractor_iteration worker_id) envs w = (Ok Continue, w, tl (tl envs)).
Proof.
  intros Hd. unfold Extractor.iteration, Extractor.pop_and_extract.
  rewrite run_bind, run_try, run_bind, run_call.
  rewrite exec_down by (assumption || (cbn [serve]; now destruct (Redis.brpop _ _))).
  cbn [fst snd handle isinstance].
  rewrite run_bind, run_call. cbn [exec serve local fst snd app].
  now rewrite world_eta.
Qed.

End Failures.

(** X4: the body of the extractor's loop raises in one case only: the
    [try] block has processed an item to its end and the read of
    [stop_signal] that follows it, which is outside the [try], fails with
    [ConnectionError].  Whatever else fails (the pop, the decoding, a
    missing field, the pipeline) is absorbed by the handlers. *)
Theorem extractor_pass_raises_only_at_stop_read
    (html_parser : string -> lib Bs4.soup)
    (container_markup : Json.value -> lib Bs4.soup)
    (worker_id : Z) (envs : list Proc.env) (w : Proc.world) :
  (exists flow w' rest,
      Proc.run (Extractor.iteration html_parser container_markup worker_id) envs w
      = (Ok flow, w', rest)) \/
  (exists w' rest,
      Proc.run (Extractor.iteration html_parser container_markup worker_id) envs w
      = (Raise ConnectionError, w', tl rest) /\
      Proc.run (Extractor.pop_and_extract html_parser container_markup worker_id) envs w
      = (Ok Worker.Fall, w', rest) /\
      Proc.redis (hd Proc.calm rest) <> Proc.Up).
Proof.
  unfold Extractor.iteration. rewrite run_bind.
  destruct (extractor_try_returns html_parser container_markup worker_id envs w)
    as (flow & w1 & rest1 & -> & Hfall).
  destruct flow; try (left; eexists _, _, _; reflexivity).
  rewrite run_bind, run_call.
  destruct (Proc.redis (hd Proc.calm rest1)) eqn:E.
  - left. rewrite exec_get_up by assumption. cbn [fst snd Proc.lift].
    destruct (bool_decide _); eexists _, _, _; reflexivity.
  - right. rewrite exec_get_failed by congruence. cbn [fst snd].
    exists w1, rest1. split; [reflexivity|]. split; [now apply Hfall|congruence].
  - right. rewrite exec_get_failed by congruence. cbn [fst snd].
    exists w1, rest1. split; [reflexivity|]. split; [now apply Hfall|congruence].
Qed.

(** X5: when the connection is down at the extractor's [pipe.execute()],
    the item that was popped is gone: it is not in the queue, no record is
    in the results stream, [urls_extracted] is unchanged, and the worker
    sleeps and goes on with the next pass. *)
Theorem extractor_write_failure_loses_item
    (html_parser : string -> lib Bs4.soup)
    (container_markup : Json.value -> lib Bs4.soup)
    (worker_id : Z) (envs : list Proc.env) (w : Proc.world)
    (q : list Json.text) (x : Json.text) (url html : Json.value) (u : string) :
  Redis.llist (Proc.db w) "exploit_queue" = q ++ [x] ->
  Spec.exploit_fields x = Ok (url, html) ->
  Redis.encode url = Ok u ->
  Proc.redis (hd Proc.calm envs) = Proc.Up ->
  Proc.redis (hd Proc.calm (tl (tl envs))) = Proc.Down ->
  exists w',
    Proc.run (Extractor.iteration html_parser container_markup worker_id) envs w
    = (Ok Worker.Continue, w', tl (tl (tl (tl envs)))) /\
    Redis.llist (Proc.db w') "exploit_queue" = q /\
    Redis.xrange (Proc.db w') "results_stream" = Redis.xrange (Proc.db w) "results_stream" /\
    Redis.strings (Proc.db w') = Redis.strings (Proc.db w).
Proof.
  intros Hq Hf He Hup Hdown.
  exists {| Proc.db := Redis.set_list "exploit_queue" q (Proc.db w);
            Proc.trace := Proc.trace w |}.
  split.
  - unfold Extractor.iteration. rewrite run_bind, run_try.
    unfold Extractor.pop_and_extract. rewrite run_bind.
    rewrite (run_brpop_last "exploit_queue" 1 envs w q x Hup Hq).
    cbv beta iota zeta.
    unfold Spec.exploit_fields in Hf.
    destruct (Json.loads x) as [item|e0] eqn:E1; [|discriminate]. simpl in Hf.
    destruct (Json.getitem item "url") as [url'|e0] eqn:E2; [|discriminate]. simpl in Hf.
    destruct (Json.getitem item "html") as [html'|e0] eqn:E3; [|discriminate].
    simpl in Hf. injection Hf as -> ->.
    rewrite run_bind, run_lift. cbv beta iota.
    rewrite run_bind, run_lift, E2. cbv beta iota.
    rewrite run_bind, run_lift, E3. cbv beta iota.
    destruct (extract_title_total html_parser container_markup html) as [title Ht].
    rewrite run_bind, run_lift, Ht. cbv beta iota.
    rewrite run_bind, run_time. cbv beta iota.
    unfold Extractor.result_data. rewrite He. cbn [Py.bind].
    rewrite run_bind, run_lift. cbv beta iota.
    rewrite run_bind, run_call.
    rewrite exec_down; [|exact Hdown|].
    2:{ cbn [Proc.serve]. now destruct (Redis.execute _ _). }
    cbn [fst snd Proc.handle isinstance].
    rewrite run_bind, run_call. cbn [Proc.exec Proc.serve Proc.local fst snd app].
    reflexivity.
  - cbn [Proc.db]. rewrite llist_set_list, decide_True by reflexivity. auto.
Qed.

(** The theorem on a queue holding one item. *)
Lemma extractor_write_failure_loses_item_witness :
  exists w',
    Proc.run (Extractor.iteration Sample.html_parser Sample.container_markup 7)
      [Proc.calm; Proc.calm;
       {| Proc.redis := Proc.Down; Proc.http := Fails RequestException; Proc.clock := 0 |}]
      (Sample.world_with "exploit_queue"
         [Explorer.exploit_item (Json.Str "https://example.test/") (Json.Str "<h1>Welcome</h1>")])
    = (Ok Worker.Continue, w', []) /\
    Redis.llist (Proc.db w') "exploit_queue" = [] /\
    Redis.xrange (Proc.db w') "results_stream" = [].
Proof.
  destruct (extractor_write_failure_loses_item Sample.html_parser Sample.container_markup 7
              [Proc.calm; Proc.calm;
               {| Proc.redis := Proc.Down; Proc.http := Fails RequestException;
                  Proc.clock := 0 |}]
              (Sample.world_with "exploit_queue"
                 [Explorer.exploit_item (Json.Str "https://example.test/")
                    (Json.Str "<h1>Welcome</h1>")])
              [] (Explorer.exploit_item (Json.Str "https://example.test/")
                    (Json.Str "<h1>Welcome</h1>"))
              (Json.Str "https://example.test/") (Json.Str "<h1>Welcome</h1>")
              "https://example.test/")
    as (w' & H1 & H2 & H3 & _); try reflexivity.
  exists w'. split; [exact H1|]. split; [exact H2|exact H3].
Defined.

(** X6: a pop that fails because the broker cannot be reached.  The
    explorer has no handler: the [ConnectionError] leaves
    [explorer_worker] and the process is gone.  The extractor sleeps two
    seconds and tests the loop condition again.  Nothing is changed in
    the keyspace. *)
Theorem pop_failure_kills_explorer_only
    (urlparse : string -> lib Urllib.ParseResult)
    (urljoin : string -> string -> lib string)
    (html_parser : string -> lib Bs4.soup)
    (container_markup : Json.value -> lib Bs4.soup)
    (worker_id : Z) (envs : list Proc.env) (p : Worker.proc) (w : Proc.world) :
  Worker.should_stop p = false ->
  Proc.redis (hd Proc.calm envs) = Proc.Down ->
  Worker.iterate (Explorer.explorer_worker urlparse urljoin html_parser container_markup)
    envs p w
  = (Worker.goto p (Worker.Crashed ConnectionError), w, tl envs) /\
  Worker.iterate (Extractor.extractor_worker html_parser container_markup worker_id)
    envs p w
  = (Worker.goto p Worker.LoopHead, w, tl (tl envs)).
Proof.
  intros Hs Hd. unfold Worker.iterate. rewrite Hs.
  unfold Explorer.explorer_worker, Extractor.extractor_worker. cbn [Worker.iteration].
  rewrite (explorer_pop_fails urlparse urljoin html_parser container_markup envs w Hd).
  rewrite (extractor_pop_fails html_parser container_markup worker_id envs w Hd).
  split; reflexivity.
Qed.

(** The theorem on an empty keyspace. *)
Lemma pop_failure_kills_explorer_only_witness :
  Worker.at_
    (fst (fst (Worker.iterate
                 (Explorer.explorer_worker Urllib.urlparse Sample.urljoin
                    Sample.html_parser Sample.container_markup)
                 [{| Proc.redis := Proc.Down; Proc.http := Fails RequestException;
                     Proc.clock := 0 |}]
                 Sample.at_loop_head Sample.blank)))
  = Worker.Crashed ConnectionError /\
  Worker.at_
    (fst (fst (Worker.iterate
                 (Extractor.extractor_worker Sample.html_parser Sample.container_markup 7)
                 [{| Proc.redis := Proc.Down; Proc.http := Fails RequestException;
                     Proc.clock := 0 |}]
                 Sample.at_loop_head Sample.blank)))
  = Worker.LoopHead.
Proof.
  destruct (pop_failure_kills_explorer_only Urllib.urlparse Sample.urljoin
              Sample.html_parser Sample.container_markup 7
              [{| Proc.redis := Proc.Down; Proc.http := Fails RequestException;
                  Proc.clock := 0 |}]
              Sample.at_loop_head Sample.blank) as [H1 H2]; try reflexivity.
  rewrite H1, H2. split; reflexivity.
Defined.

(** ** [explore_url] as a whole *)

Section ExploreUrl.
Import Proc.

Variable urlparse : string -> lib Urllib.ParseResult.
Variable urljoin : string -> string -> lib string.
Variable html_parser : string -> lib Bs4.soup.
Variable container_markup : Json.value -> lib Bs4.soup.


(** With a str URL the request takes one turn. *)
Lemma explore_url_run_str (s : string) (envs : list env) (w : world) :
  run (Explorer.explore_url urlparse urljoin html_parser container_markup (Json.Str s))
    envs w =
  (Ok (Spec.page urlparse urljoin html_parser (Json.Str s) (http (hd calm envs))),
   {| db := db w; trace := fetched s :: trace w |}, tl envs).
Proof.
  unfold Explorer.explore_url. rewrite run_try.
  unfold Explorer.fetch_and_parse. rewrite run_bind.
  unfold Explorer.requests_get. rewrite run_call. simpl.
  unfold Spec.page, Spec.attempt.
  destruct (http (hd calm envs)) as [response|e]; cbn [Py.bind of_lib].
  2:{ destruct e; reflexivity. }
  rewrite run_bind, run_lift.
  destruct (Requests.raise_for_status response) as [[]|e] eqn:Es; cbn [Py.bind of_lib];
    cbv beta iota zeta.
  2:{ unfold Requests.raise_for_status in Es. destruct (_ && _)%bool; [|discriminate].
      injection Es as <-. reflexivity. }
  rewrite run_bind, run_lift. simpl Bs4.BeautifulSoup.
  destruct (html_parser (Requests.text response)) as [soup|e]; cbn [Py.bind of_lib];
    cbv beta iota zeta.
  2:{ destruct e; reflexivity. }
  rewrite run_bind, run_lift.
  destruct (Explorer.collect_links _ _ _ _ _) as [links|e] eqn:El; [reflexivity|].
  destruct (collect_links_raises urlparse urljoin _ _ _ _ El) as [x ->].
  destruct x; reflexivity.
Qed.

End ExploreUrl.


(** ** A connection lost between the SADD and the pipeline *)

Section LostPage.
Import Proc Worker.

Variable urlparse : string -> lib Urllib.ParseResult.
Variable urljoin : string -> string -> lib string.
Variable html_parser : string -> lib Bs4.soup.
Variable container_markup : Json.value -> lib Bs4.soup.

Lemma connected_take_hd (n : nat) (envs : list env) :
  connected (take (S n) envs) -> redis (hd calm envs) = Up.
Proof. destruct envs as [|ev envs]; [reflexivity|]. simpl. intros H. now inversion H. Qed.

Lemma connected_take_tl (n : nat) (envs : list env) :
  connected (take (S n) envs) -> connected (take n (tl envs)).
Proof.
  destruct envs as [|ev envs]; simpl.
  - intros _. rewrite take_nil. constructor.
  - intros H. now inversion H.
Qed.

(** The loop over the links needs the broker for as many turns as there
    are links. *)
Lemma queue_links_run_prefix (links : list string) :
  forall (pipe : list Redis.pipe_cmd) (envs : list env) (w : world),
    connected (take (length links) envs) ->
    run (Explorer.queue_links links pipe) envs w =
    (Ok (pipe ++ List.map (fun link => Redis.p_lpush "explored_queue"
                                          (Explorer.frontier_item link))
                          (Spec.unseen (db w) links)),
     w, drop (length links) envs).
Proof.
  induction links as [|link rest IH]; intros pipe envs w Hc.
  - simpl. now rewrite app_nil_r.
  - rewrite queue_links_cons, run_bind. cbn [length] in Hc.
    rewrite (run_call_up (sismember "visited_urls" link) envs w
               (Ok (Redis.sismember "visited_urls" link (db w))) (db w) []);
      [|now apply (connected_take_hd (length rest))|reflexivity].
    simpl app. rewrite world_eta.
    unfold Spec.unseen. simpl List.filter.
    destruct (Redis.sismember "visited_urls" link (db w)); simpl negb; cbv iota.
    + rewrite IH by now apply connected_take_tl. rewrite drop_tl. reflexivity.
    + rewrite IH by now apply connected_take_tl. rewrite drop_tl.
      simpl List.map. rewrite <- app_assoc. reflexivity.
Qed.

End LostPage.

(** X8: when the connection is down at the explorer's [pipe.execute()],
    the worker dies of the [ConnectionError] with the page fetched and its
    URL in [visited_urls], but with no exploit item pushed, no link queued
    and [urls_found] unchanged: the page never reaches an extractor. *)
Theorem explorer_write_failure_loses_page
    (urlparse : string -> lib Urllib.ParseResult)
    (urljoin : string -> string -> lib string)
    (html_parser : string -> lib Bs4.soup)
    (container_markup : Json.value -> lib Bs4.soup)
    (envs : list Proc.env) (p : Worker.proc) (w : Proc.world)
    (q : list Json.text) (x : Json.text) (item : Json.value) (s : string) :
  Worker.should_stop p = false ->
  Redis.llist (Proc.db w) "explored_queue" = q ++ [x] ->
  Json.loads x = Ok item -> Json.getitem item "url" = Ok (Json.Str s) ->
  s ∉ Redis.smembers (Proc.db w) "visited_urls" ->
  let links :=
    snd (Spec.page urlparse urljoin html_parser (Json.Str s)
           (Proc.http (hd Proc.calm (tl (tl envs))))) in
  Proc.redis (hd Proc.calm envs) = Proc.Up ->
  Proc.redis (hd Proc.calm (tl envs)) = Proc.Up ->
  Proc.connected (take (length links) (drop 3 envs)) ->
  Proc.redis (hd Proc.calm (drop (3 + length links) envs)) = Proc.Down ->
  exists w',
    Worker.iterate (Explorer.explorer_worker urlparse urljoin html_parser container_markup)
      envs p w
    = (Worker.goto p (Worker.Crashed ConnectionError), w', drop (4 + length links) envs) /\
    System.fetches (Proc.trace w') = s :: System.fetches (Proc.trace w) /\
    s ∈ Redis.smembers (Proc.db w') "visited_urls" /\
    Redis.llist (Proc.db w') "exploit_queue" = Redis.llist (Proc.db w) "exploit_queue" /\
    Redis.llist (Proc.db w') "explored_queue" = q /\
    Redis.strings (Proc.db w') = Redis.strings (Proc.db w).
Proof.
  intros Hs Hq Hl Hg Hnew links Hup0 Hup1 Hc Hdown.
  set (b0 := Redis.set_list "explored_queue" q (Proc.db w)).
  set (b1 := snd (Redis.sadd "visited_urls" s b0)).
  exists {| Proc.db := b1;
            Proc.trace := Proc.fetched s :: Proc.added "visited_urls" s :: Proc.trace w |}.
  assert (s ∉ Redis.smembers b0 "visited_urls") as Hnew' by exact Hnew.
  destruct (sadd_new "visited_urls" s b0 Hnew') as (Hone & Hmem).
  destruct (sadd_frame "visited_urls" s b0) as (Hstr & Hlist & _).
  fold b1 in Hmem, Hstr, Hlist.
  split; [|split; [reflexivity|split; [|split; [|split]]]].
  - unfold Worker.iterate. rewrite Hs.
    unfold Explorer.explorer_worker. cbn [Worker.iteration].
    unfold Explorer.iteration. rewrite run_bind.
    rewrite (run_brpop_last "explored_queue" 1 envs w q x Hup0 Hq).
    cbv beta iota zeta.
    rewrite run_bind, run_lift, Hl. cbv beta iota.
    rewrite run_bind, run_lift, Hg. cbv beta iota.
    rewrite run_bind, run_lift. cbn [Redis.encode]. cbv beta iota.
    rewrite run_bind.
    rewrite (run_call_up (Proc.sadd "visited_urls" s) (tl envs) _ (Ok 1) b1
               [Proc.added "visited_urls" s]); [|exact Hup1|].
    2:{ simpl. subst b1. fold b0. destruct (Redis.sadd _ _ _) as [n b']. simpl in Hone.
        now subst n. }
    cbv beta iota. simpl Z.eqb. cbv iota. cbn [Proc.db Proc.trace app].
    rewrite run_bind, explore_url_run_str.
    fold links.
    destruct (Spec.page urlparse urljoin html_parser (Json.Str s) _) as [html links'] eqn:Ep.
    cbn [snd] in links. subst links. cbv beta iota zeta.
    assert (tl (tl (tl envs)) = drop 3 envs) as E3
      by (now rewrite !drop_S_tl, drop_0).
    rewrite E3.
    rewrite run_bind, queue_links_run_prefix by exact Hc.
    cbv beta iota zeta. rewrite drop_drop.
    replace (3 + length links')%nat with (length links' + 3)%nat in * by lia.
    rewrite run_bind, run_call.
    rewrite exec_down.
    + cbn [fst snd]. rewrite <- drop_S_tl.
      replace (4 + length links')%nat with (S (length links' + 3)) by lia. reflexivity.
    + exact Hdown.
    + cbn [Proc.serve]. now destruct (Redis.execute _ _).
  - cbn [Proc.db]. rewrite Hmem. apply elem_of_union. left. now apply elem_of_singleton.
  - cbn [Proc.db]. rewrite (llist_lists b0 b1 _ Hlist). subst b0.
    rewrite llist_set_list. now rewrite decide_False.
  - cbn [Proc.db]. rewrite (llist_lists b0 b1 _ Hlist). subst b0.
    rewrite llist_set_list. now rewrite decide_True.
  - cbn [Proc.db]. rewrite Hstr. reflexivity.
Qed.

(** The theorem on the root URL, whose page has one link that passes the
    filter: the connection is lost after the SISMEMBER for that link. *)
Lemma explorer_write_failure_loses_page_witness :
  exists w',
    Worker.at_
      (fst (fst (Worker.iterate
                   (Explorer.explorer_worker Urllib.urlparse Sample.urljoin
                      Sample.html_parser Sample.container_markup)
                   [Proc.calm; Proc.calm; Sample.served Sample.home_response; Proc.calm;
                    {| Proc.redis := Proc.Down; Proc.http := Fails RequestException;
                       Proc.clock := 0 |}]
                   Sample.at_loop_head
                   (Sample.world_with "explored_queue"
                      [Control.initial_item "https://example.test/"]))))
    = Worker.Crashed ConnectionError /\
    "https://example.test/" ∈ Redis.smembers (Proc.db w') "visited_urls" /\
    Redis.llist (Proc.db w') "exploit_queue" = [].
Proof.
  destruct (explorer_write_failure_loses_page Urllib.urlparse Sample.urljoin
              Sample.html_parser Sample.container_markup
              [Proc.calm; Proc.calm; Sample.served Sample.home_response; Proc.calm;
               {| Proc.redis := Proc.Down; Proc.http := Fails RequestException;
                  Proc.clock := 0 |}]
              Sample.at_loop_head
              (Sample.world_with "explored_queue"
                 [Control.initial_item "https://example.test/"])
              [] (Control.initial_item "https://example.test/")
              (Json.Obj [("url", Json.Str "https://example.test/"); ("html", Json.Null)])
              "https://example.test/")
    as (w' & H1 & _ & H3 & H4 & _); try reflexivity.
  - by_decide.
  - repeat constructor.
  - exists w'. rewrite H1. split; [reflexivity|]. split; [exact H3|exact H4].
Defined.

(** ** More on titles *)

Section Blank.

Lemma lstrip_all (f : ascii -> bool) (s : string) :
  Urllib.all_chars f s = true -> Str.lstrip_by f s = EmptyString.
Proof.
  induction s as [|c s IH]; [reflexivity|]. simpl.
  destruct (f c); [|discriminate]. simpl. exact IH.
Qed.

(** Stripping a text made of whitespace leaves nothing. *)
Lemma strip_blank (s : string) :
  Urllib.all_chars Str.isspace s = true -> Str.strip s = EmptyString.
Proof. intros H. unfold Str.strip. now rewrite (lstrip_all _ _ H). Qed.

End Blank.

(** X9: [extract_title] never raises, whatever value the [html] field
    holds and whatever the parser does: when the [BeautifulSoup]
    constructor raises, and it always does on [None], a bool or a number,
    the result is the text "Error extracting title". *)
Theorem extract_title_never_raises
    (html_parser : string -> lib Bs4.soup)
    (container_markup : Json.value -> lib Bs4.soup)
    (html : Json.value) :
  (exists title, Extractor.extract_title html_parser container_markup html = Ok title) /\
  (forall e, Bs4.BeautifulSoup html_parser container_markup html = Raise e ->
     Extractor.extract_title html_parser container_markup html
     = Ok "Error extracting title") /\
  match html with
  | Json.Null | Json.Bool _ | Json.Num _ =>
      Extractor.extract_title html_parser container_markup html
      = Ok "Error extracting title"
  | _ => True
  end.
Proof.
  split; [apply extract_title_total|]. split.
  - intros e He. unfold Extractor.extract_title. rewrite He. cbn [Py.bind Py.try_except].
    destruct html; simpl in He;
      try (injection He as <-; reflexivity);
      match type of He with
      | of_lib ?x = _ => destruct x; simpl in He; inversion He; subst; reflexivity
      end.
  - destruct html; try exact I; reflexivity.
Qed.

(** X10: a title tag whose text is whitespace only gives the empty title:
    the text is there, so the h1 fallback is not used even when the page
    has an h1. *)
Theorem blank_title_gives_empty_title
    (html_parser : string -> lib Bs4.soup)
    (container_markup : Json.value -> lib Bs4.soup)
    (html : string) (soup : Bs4.soup) (s : string) :
  html_parser html = Returns soup ->
  Spec.title_text soup s ->
  Urllib.all_chars Str.isspace s = true ->
  Extractor.extract_title html_parser container_markup (Json.Str html) = Ok EmptyString.
Proof.
  intros Hp Ht Hb.
  rewrite (extract_title_parsed html_parser container_markup html soup Hp).
  apply title_string_some in Ht. rewrite Ht. now rewrite (strip_blank s Hb).
Qed.

(** The theorem on a page with a blank title and an h1. *)
Lemma blank_title_gives_empty_title_witness :
  Extractor.extract_title
    (fun _ => Returns [Bs4.Tag "title" [] [Bs4.Text "  "];
                       Bs4.Tag "h1" [] [Bs4.Text "Heading"]])
    Sample.container_markup
    (Json.Str "<title>  </title><h1>Heading</h1>")
  = Ok EmptyString.
Proof.
  apply (blank_title_gives_empty_title
           (fun _ => Returns [Bs4.Tag "title" [] [Bs4.Text "  "];
                              Bs4.Tag "h1" [] [Bs4.Text "Heading"]])
           Sample.container_markup "<title>  </title><h1>Heading</h1>"
           [Bs4.Tag "title" [] [Bs4.Text "  "]; Bs4.Tag "h1" [] [Bs4.Text "Heading"]]
           "  ").
  - reflexivity.
  - eexists. split; [reflexivity|]. split; [reflexivity|discriminate].
  - reflexivity.
Defined.

(** ** More on the running job *)

(** X11: in every state a job can reach, every URL that was fetched is a
    member of [visited_urls], so that the number of GETs sent is at most
    the size of the set. *)
Theorem fetched_urls_are_visited
    (urlparse : string -> lib Urllib.ParseResult)
    (urljoin : string -> string -> lib string)
    (html_parser : string -> lib Bs4.soup)
    (container_markup : Json.value -> lib Bs4.soup)
    (b : Redis.broker) (explorers : nat) (extractor_ids : list Z)
    (acts : list System.action) :
  let w := System.world_
             (System.exec_all acts
                (System.job urlparse urljoin html_parser container_markup
                   b explorers extractor_ids)) in
  (forall u, u ∈ System.fetches (Proc.trace w) ->
             u ∈ Redis.smembers (Proc.db w) "visited_urls") /\
  (length (System.fetches (Proc.trace w))
   <= size (Redis.smembers (Proc.db w) "visited_urls"))%nat.
Proof.
  intros w.
  destruct (job_dedup urlparse urljoin html_parser container_markup b explorers
              extractor_ids acts) as (gs & _ & H1 & H2 & _ & H4 & _).
  fold w in H1, H2, H4.
  assert (forall u, u ∈ System.fetches (Proc.trace w) ->
                    u ∈ Redis.smembers (Proc.db w) "visited_urls") as Hin.
  { intros u Hu. apply H4, H2, elem_of_app. now left. }
  split; [exact Hin|].
  apply NoDup_app in H1 as (Hnd & _).
  rewrite <- (size_list_to_set (C := gset string) _ Hnd).
  apply subseteq_size. intros u Hu. apply elem_of_list_to_set in Hu. now apply Hin.
Qed.

(** X12: in every state a job started on a reset keyspace can reach,
    [urls_found] is exactly the number of exploit items pushed so far, and
    [urls_extracted] plus the length of the exploit queue is at most
    [urls_found]. *)
Theorem counters_account_for_queue
    (urlparse : string -> lib Urllib.ParseResult)
    (urljoin : string -> string -> lib string)
    (html_parser : string -> lib Bs4.soup)
    (container_markup : Json.value -> lib Bs4.soup)
    (b : Redis.broker) (explorers : nat) (extractor_ids : list Z)
    (acts : list System.action) :
  Discipline.fresh b ->
  let w := System.world_
             (System.exec_all acts
                (System.job urlparse urljoin html_parser container_markup
                   b explorers extractor_ids)) in
  Redis.counter (Proc.db w) "urls_found"
  = Z.of_nat (System.enqueued "exploit_queue" (Proc.trace w)) /\
  Redis.counter (Proc.db w) "urls_extracted"
  + Z.of_nat (length (Redis.llist (Proc.db w) "exploit_queue"))
  <= Redis.counter (Proc.db w) "urls_found".
Proof.
  intros Hfresh w.
  destruct (job_counting urlparse urljoin html_parser container_markup b explorers
              extractor_ids acts Hfresh) as (gs & _ & _ & _ & Hfound & Hle).
  fold w in Hfound, Hle. split; [exact Hfound|lia].
Qed.

(** The theorem on the race of two explorers and one extractor, stopped
    after nine rounds. *)
Lemma counters_account_for_queue_witness :
  let w := System.world_
             (System.exec_all (take 29 Sample.race)
                (System.job Urllib.urlparse Sample.urljoin Sample.html_parser
                   Sample.container_markup Sample.reset 2 [7])) in
  Redis.counter (Proc.db w) "urls_found"
  = Z.of_nat (System.enqueued "exploit_queue" (Proc.trace w)) /\
  Redis.counter (Proc.db w) "urls_extracted"
  + Z.of_nat (length (Redis.llist (Proc.db w) "exploit_queue"))
  <= Redis.counter (Proc.db w) "urls_found".
Proof.
  apply (counters_account_for_queue Urllib.urlparse Sample.urljoin Sample.html_parser
           Sample.container_markup Sample.reset 2 [7] (take 29 Sample.race)).
  repeat split; reflexivity.
Defined.

(** ** The reset at the start of a job *)

Section Reset.
Import Proc.

(** A served command at the head of a program run on its own. *)
Lemma run_step {X B} (c : cmd X) (f : X -> prog B) (envs : list env) (w : world)
    (x : X) (b' : Redis.broker) (evs : list event) :
  redis (hd calm envs) = Up ->
  serve c (db w) = Some (Ok x, b', evs) ->
  run (bind (call c) f) envs w =
  run (f x) (tl envs) {| db := b'; trace := evs ++ trace w |}.
Proof.
  intros Hup Hs. rewrite run_bind.
  now rewrite (run_call_up c envs w (Ok x) b' evs Hup Hs).
Qed.

(** The keyspace the ten calls of "Initialize input" leave. *)
Lemma initialize_run (root_url : string) (minutes n_exp n_ext : Z)
    (envs : list env) (w : world) :
  connected envs ->
  run (Control.initialize root_url minutes n_exp n_ext) envs w =
  (Ok tt,
   {| db :=
        Redis.set "root_url" (Redis.SStr root_url)
          (Redis.set "urls_extracted" (Redis.SInt 0)
             (Redis.set "urls_found" (Redis.SInt 0)
                (Redis.set "duration" (Redis.SInt (minutes * 60))
                   (Redis.set "stop_signal" (Redis.SStr "0")
                      (Redis.set "num_extractors" (Redis.SInt n_ext)
                         (Redis.set "num_explorers" (Redis.SInt n_exp)
                            (Redis.delete "extractor_ack"
                               (Redis.delete "explorer_ack"
                                  (Redis.flushdb (db w))))))))));
      trace := trace w |},
   drop 10 envs).
Proof.
  intros Hc. unfold Control.initialize.
  do 9 (erewrite run_step; [|now apply connected_hd|reflexivity];
        apply connected_tl in Hc; cbn [app db trace]).
  rewrite run_call.
  erewrite (exec_up (set "root_url" _)); [|now apply connected_hd|reflexivity].
  cbn [fst snd app db trace]. rewrite !drop_S_tl, drop_0. reflexivity.
Qed.

End Reset.

(** X13: the reset of a start, from any keyspace: afterwards every list,
    set and stream is empty (both queues, [visited_urls], the results
    stream), the two counters are 0, [stop_signal] is ['0'], [duration] is
    the minutes times 60, and no string key other than the seven that were
    set is left, so that nothing of an earlier job survives. *)
Theorem initialize_resets_keyspace
    (root_url : string) (minutes num_explorers num_extractors : Z)
    (envs : list Proc.env) (w : Proc.world) :
  Proc.connected envs ->
  exists b,
    Proc.run (Control.initialize root_url minutes num_explorers num_extractors) envs w
    = (Ok tt, {| Proc.db := b; Proc.trace := Proc.trace w |}, drop 10 envs) /\
    (forall key, Redis.llist b key = [] /\ Redis.smembers b key = ∅
                 /\ Redis.xrange b key = []) /\
    Redis.strings b !! "urls_found" = Some (Redis.SInt 0) /\
    Redis.strings b !! "urls_extracted" = Some (Redis.SInt 0) /\
    Redis.get b "stop_signal" = Some "0" /\
    Redis.get b "duration" = Some (pretty (minutes * 60)) /\
    Redis.get b "num_explorers" = Some (pretty num_explorers) /\
    Redis.get b "num_extractors" = Some (pretty num_extractors) /\
    Redis.get b "root_url" = Some root_url /\
    (forall key,
        ~ In key ["num_explorers"; "num_extractors"; "stop_signal"; "duration";
                  "urls_found"; "urls_extracted"; "root_url"] ->
        Redis.get b key = None) /\
    Discipline.fresh b.
Proof.
  intros Hc. eexists. split; [now apply initialize_run|].
  split; [|repeat split].
  - intros key. unfold Redis.llist, Redis.smembers, Redis.xrange. cbn.
    rewrite !delete_empty, !lookup_empty. auto.
  - intros key Hk. unfold Redis.get. cbn.
    rewrite !lookup_insert_ne by (intros <-; apply Hk; simpl; tauto).
    now rewrite !delete_empty, lookup_empty.
Qed.

(** The theorem on a keyspace that holds a frontier from an earlier job. *)
Lemma initialize_resets_keyspace_witness :
  exists b,
    Proc.run (Control.initialize "https://example.test/" 1 2 1) []
      (Sample.world_with "explored_queue" [Control.initial_item "https://old.test/"])
    = (Ok tt, {| Proc.db := b; Proc.trace := [] |}, []) /\
    Redis.llist b "explored_queue" = [] /\
    Redis.get b "duration" = Some "60".
Proof.
  destruct (initialize_resets_keyspace "https://example.test/" 1 2 1 []
              (Sample.world_with "explored_queue"
                 [Control.initial_item "https://old.test/"]))
    as (b & Hrun & Hall & _ & _ & _ & Hd & _).
  - constructor.
  - exists b. split; [exact Hrun|]. split; [apply Hall|exact Hd].
Defined.

(** ** The two waits of scraper.py *)

Section AckCounting.
Import Proc Handshake Acks.

Lemma arrived_take_S (p : pool) (n : nat) (turns : list turn) :
  arrived p (take (S n) turns)
  = (count p (arrivals (hd quiet turns)) + arrived p (take n (tl turns)))%nat.
Proof.
  destruct turns as [|t turns]; simpl.
  - rewrite take_nil. reflexivity.
  - unfold arrived, count. simpl. now rewrite List.filter_app, length_app.
Qed.

Lemma arrived_take_0 (p : pool) (turns : list turn) : arrived p (take 0 turns) = O.
Proof. reflexivity. Qed.

Lemma pending_flushdb (b : Redis.broker) : pending (Redis.flushdb b) 0 0.
Proof. repeat split. Qed.

Lemma deliver_pending (a : ack) (w : world) (n_exp n_ext : nat) :
  pending (db w) n_exp n_ext ->
  pending (db (deliver w a)) (count explorers [a] + n_exp) (count extractors [a] + n_ext).
Proof.
  intros ((Hst & Hq) & He & Hx). unfold deliver, pending, Spec.not_started. cbn [db].
  rewrite get_lpush, !llist_lpush. unfold count. cbn [List.filter].
  destruct (from a); cbn [ack_queue pool_eqb length];
    repeat case_decide; try discriminate; try congruence;
    cbn [length]; repeat split; auto; lia.
Qed.

Lemma count_cons (p : pool) (a : ack) (acks : list ack) :
  count p (a :: acks) = (count p [a] + count p acks)%nat.
Proof. unfold count. cbn [List.filter]. destruct (pool_eqb (from a) p); reflexivity. Qed.

Lemma pending_arrivals (acks : list ack) :
  forall (w : world) (n_exp n_ext : nat),
    pending (db w) n_exp n_ext ->
    pending (db (fold_left deliver acks w))
      (n_exp + count explorers acks) (n_ext + count extractors acks).
Proof.
  induction acks as [|a acks IH]; intros w n_exp n_ext H.
  - simpl. unfold count. simpl. now rewrite !Nat.add_0_r.
  - simpl fold_left. apply deliver_pending with (a := a) in H. apply IH in H.
    rewrite (count_cons explorers), (count_cons extractors).
    replace (n_exp + (count explorers [a] + count explorers acks))%nat
      with (count explorers [a] + n_exp + count explorers acks)%nat by lia.
    replace (n_ext + (count extractors [a] + count extractors acks))%nat
      with (count extractors [a] + n_ext + count extractors acks)%nat by lia.
    exact H.
Qed.

Lemma pending_set (key : string) (v : Redis.sval) (b : Redis.broker) (n_exp n_ext : nat) :
  key <> "start_time" -> pending b n_exp n_ext -> pending (Redis.set key v b) n_exp n_ext.
Proof.
  intros Hk ((Hst & Hq) & He & Hx). repeat split; try assumption.
  unfold Redis.get, Redis.set in *. simpl. now rewrite lookup_insert_ne.
Qed.

Lemma pending_publish (ch : string) (m : Json.text) (b : Redis.broker)
    (n_exp n_ext : nat) :
  pending b n_exp n_ext -> pending (Redis.publish ch m b) n_exp n_ext.
Proof. intros H. exact H. Qed.

Lemma llist_delete (k key : string) (b : Redis.broker) :
  Redis.llist (Redis.delete k b) key = if decide (k = key) then [] else Redis.llist b key.
Proof.
  unfold Redis.llist, Redis.delete. simpl. case_decide.
  - subst. now rewrite lookup_delete_eq.
  - now rewrite lookup_delete_ne.
Qed.

Lemma get_delete_none (k key : string) (b : Redis.broker) :
  Redis.get b key = None -> Redis.get (Redis.delete k b) key = None.
Proof.
  unfold Redis.get, Redis.delete. simpl. intros H.
  destruct (decide (k = key)) as [->|Hne].
  - now rewrite lookup_delete_eq.
  - now rewrite lookup_delete_ne.
Qed.

Lemma pending_delete_explorer (b : Redis.broker) (n_exp n_ext : nat) :
  pending b n_exp n_ext -> pending (Redis.delete "explorer_ack" b) 0 n_ext.
Proof.
  intros ((Hst & Hq) & He & Hx). unfold pending, Spec.not_started.
  rewrite !llist_delete, get_delete_none by assumption.
  repeat case_decide; try discriminate; try congruence; auto.
Qed.

Lemma pending_delete_extractor (b : Redis.broker) (n_exp n_ext : nat) :
  pending b n_exp n_ext -> pending (Redis.delete "extractor_ack" b) n_exp 0.
Proof.
  intros ((Hst & Hq) & He & Hx). unfold pending, Spec.not_started.
  rewrite !llist_delete, get_delete_none by assumption.
  repeat case_decide; try discriminate; try congruence; auto.
Qed.

(** The wait on a list of acknowledgments: it times out on an empty list
    and takes one payload otherwise. *)
Lemma brpop_length (key : string) (b : Redis.broker) :
  match Redis.brpop key b with
  | (None, b') => b' = b /\ Redis.llist b key = []
  | (Some _, b') =>
      exists q, b' = Redis.set_list key q b /\ Redis.llist b key <> [] /\
                S (length q) = length (Redis.llist b key)
  end.
Proof.
  unfold Redis.brpop.
  destruct (List.rev (Redis.llist b key)) as [|x r] eqn:E.
  - split; [reflexivity|]. apply (f_equal (@List.rev _)) in E.
    now rewrite rev_involutive in E.
  - exists (List.rev r). split; [reflexivity|].
    apply (f_equal (@List.rev _)) in E. rewrite rev_involutive in E. rewrite E.
    simpl. split; [now destruct (List.rev r)|]. rewrite length_app. simpl. lia.
Qed.

Lemma pending_pop_explorer (q : list Json.text) (b : Redis.broker) (n_exp n_ext : nat) :
  S (length q) = length (Redis.llist b "explorer_ack") ->
  pending b n_exp n_ext -> pending (Redis.set_list "explorer_ack" q b) (n_exp - 1) n_ext.
Proof.
  intros Hl ((Hst & Hq) & He & Hx). unfold pending, Spec.not_started.
  rewrite !llist_set_list.
  repeat case_decide; try discriminate; try congruence.
  repeat split; auto. lia.
Qed.

Lemma pending_pop_extractor (q : list Json.text) (b : Redis.broker) (n_exp n_ext : nat) :
  S (length q) = length (Redis.llist b "extractor_ack") ->
  pending b n_exp n_ext -> pending (Redis.set_list "extractor_ack" q b) n_exp (n_ext - 1).
Proof.
  intros Hl ((Hst & Hq) & He & Hx). unfold pending, Spec.not_started.
  rewrite !llist_set_list.
  repeat case_decide; try discriminate; try congruence.
  repeat split; auto. lia.
Qed.

End AckCounting.

Section MainOutcome.
Import Proc Handshake Acks.

Lemma hs_run_unit (p : prog unit) (turns : list turn) (w : world) :
  Handshake.run p turns w = Handshake.run (p ;;; Ret tt)%prog turns w.
Proof.
  rewrite hs_run_bind.
  destruct (Handshake.run p turns w) as [[[[]|e] w'] rest]; reflexivity.
Qed.

(** After a step of the reset: the counts of the two lists, the world
    being forgotten but for them. *)
Ltac ack_settle Hc Hq lemma :=
  match goal with
  | |- context [Handshake.run _ (tl _) {| db := ?b; trace := ?tr |}] =>
      let Hq' := fresh "Hq" in
      let bn := fresh "b" in
      let tn := fresh "t" in
      let Eb := fresh "Eb" in
      let Et := fresh "Et" in
      eassert (pending b _ _) as Hq'
        by (eapply lemma; try discriminate;
            eapply (pending_arrivals _ {| db := _; trace := _ |}); exact Hq);
      clear Hq; rename Hq' into Hq;
      remember b as bn eqn:Eb; remember tr as tn eqn:Et; clear Eb Et
  end;
  apply hs_connected_tl in Hc.

Ltac ack_step Hc Hq lemma :=
  erewrite hs_step; [|exact Hc|reflexivity];
  ack_settle Hc Hq lemma.

(** The reset and the publication of the start command: what the two
    acknowledgment lists hold when the first wait begins. *)
Lemma opening_counts {B} (root_url : string) (minutes n_exp n_ext : Z)
    (k : prog B) (turns : list turn) (w : world) :
  Handshake.connected turns ->
  exists w1,
    Handshake.run
      (Control.initialize root_url minutes n_exp n_ext ;;;
       call (publish "scraper_control" Control.start_command) ;;;
       k)%prog turns w
    = Handshake.run k (drop 11 turns) w1
    /\ pending (db w1)
         (arrived explorers (during 2 10 turns))
         (arrived extractors (during 3 10 turns)).
Proof.
  intros Hc. unfold Control.initialize.
  rewrite hs_run_bind.
  (* flushdb *)
  erewrite hs_step; [|exact Hc|reflexivity].
  match goal with
  | |- context [Handshake.run _ (tl _) {| db := ?b; trace := ?tr |}] =>
      assert (pending b 0 0) as Hq by apply pending_flushdb;
      remember b as b1 eqn:Eb; remember tr as t1 eqn:Et; clear Eb Et
  end.
  apply hs_connected_tl in Hc.
  (* the other commands of the reset *)
  ack_step Hc Hq pending_delete_explorer.
  ack_step Hc Hq pending_delete_extractor.
  ack_step Hc Hq pending_set.
  ack_step Hc Hq pending_set.
  ack_step Hc Hq pending_set.
  ack_step Hc Hq pending_set.
  ack_step Hc Hq pending_set.
  ack_step Hc Hq pending_set.
  rewrite hs_run_call.
  erewrite (exec_up (set "root_url" _)); [|now apply hs_connected_hd|reflexivity].
  cbn [fst snd].
  ack_settle Hc Hq pending_set.
  (* publish *)
  ack_step Hc Hq pending_publish.
  unfold during. cbn [Nat.sub].
  rewrite !arrived_take_S, !arrived_take_0.
  rewrite !drop_S_tl, !drop_0.
  eexists. split; [reflexivity|].
  cbn [db].
  destruct Hq as (Hns & He & Hx). split; [exact Hns|]. split; [rewrite He|rewrite Hx]; lia.
Qed.

(** A wait on the explorers' list: it takes a payload when one is there
    at the end of the wait, and times out otherwise. *)
Lemma wait_explorer {B} (k : option (string * Json.text) -> prog B)
    (turns : list turn) (w : world) (n_exp n_ext : nat) :
  Handshake.connected turns -> pending (db w) n_exp n_ext ->
  exists w1 r,
    Handshake.run (bind (call (brpop "explorer_ack" 10)) k) turns w
    = Handshake.run (k r) (tl turns) w1 /\
    (r = None <-> (n_exp + count explorers (arrivals (hd quiet turns)) = 0)%nat) /\
    pending (db w1) (n_exp + count explorers (arrivals (hd quiet turns)) - 1)
      (n_ext + count extractors (arrivals (hd quiet turns))).
Proof.
  intros Hc Hq.
  apply (pending_arrivals (arrivals (hd quiet turns))) in Hq.
  set (w0 := fold_left deliver (arrivals (hd quiet turns)) w) in *.
  pose proof (brpop_length "explorer_ack" (db w0)) as Hb.
  rewrite hs_run_bind, hs_run_call. fold w0.
  unfold exec. cbn [serve]. rewrite (hs_connected_hd _ Hc).
  destruct (Redis.brpop "explorer_ack" (db w0)) as [[kv|] b'].
  - destruct Hb as (q & -> & Hne & Hlen). cbn [fst snd lift].
    eexists _, (Some kv). split; [reflexivity|]. cbn [db].
    destruct Hq as (Hns & He & Hx). split.
    + split; [discriminate|]. intros H0. rewrite H0 in He.
      destruct (Redis.llist (db w0) "explorer_ack"); [congruence|discriminate].
    + apply pending_pop_explorer; [exact Hlen|]. exact (conj Hns (conj He Hx)).
  - destruct Hb as (-> & Hnil). cbn [fst snd lift].
    eexists _, None. split; [reflexivity|]. cbn [db app].
    destruct Hq as (Hns & He & Hx). rewrite Hnil in He. simpl in He. split.
    + split; [intros _; lia|reflexivity].
    + rewrite <- He. destruct Hns as [H1 H2]. unfold pending, Spec.not_started.
      rewrite Hnil. simpl. auto.
Qed.

Lemma wait_extractor {B} (k : option (string * Json.text) -> prog B)
    (turns : list turn) (w : world) (n_exp n_ext : nat) :
  Handshake.connected turns -> pending (db w) n_exp n_ext ->
  exists w1 r,
    Handshake.run (bind (call (brpop "extractor_ack" 10)) k) turns w
    = Handshake.run (k r) (tl turns) w1 /\
    (r = None <-> (n_ext + count extractors (arrivals (hd quiet turns)) = 0)%nat) /\
    pending (db w1) (n_exp + count explorers (arrivals (hd quiet turns)))
      (n_ext + count extractors (arrivals (hd quiet turns)) - 1).
Proof.
  intros Hc Hq.
  apply (pending_arrivals (arrivals (hd quiet turns))) in Hq.
  set (w0 := fold_left deliver (arrivals (hd quiet turns)) w) in *.
  pose proof (brpop_length "extractor_ack" (db w0)) as Hb.
  rewrite hs_run_bind, hs_run_call. fold w0.
  unfold exec. cbn [serve]. rewrite (hs_connected_hd _ Hc).
  destruct (Redis.brpop "extractor_ack" (db w0)) as [[kv|] b'].
  - destruct Hb as (q & -> & Hne & Hlen). cbn [fst snd lift].
    eexists _, (Some kv). split; [reflexivity|]. cbn [db].
    destruct Hq as (Hns & He & Hx). split.
    + split; [discriminate|]. intros H0. rewrite H0 in Hx.
      destruct (Redis.llist (db w0) "extractor_ack"); [congruence|discriminate].
    + apply pending_pop_extractor; [exact Hlen|]. exact (conj Hns (conj He Hx)).
  - destruct Hb as (-> & Hnil). cbn [fst snd lift].
    eexists _, None. split; [reflexivity|]. cbn [db app].
    destruct Hq as (Hns & He & Hx). rewrite Hnil in Hx. simpl in Hx. split.
    + split; [intros _; lia|reflexivity].
    + rewrite <- Hx. destruct Hns as [H1 H2]. unfold pending, Spec.not_started.
      rewrite Hnil. simpl. auto.
Qed.

End MainOutcome.

(** X14: the outcome of [main] of scraper.py is decided by the
    acknowledgments that reach the broker: it starts the job (records the
    start time and seeds the root URL) exactly when an explorer node
    acknowledges between the deletion of [explorer_ack] and the end of the
    first wait, and an extractor node between the deletion of
    [extractor_ack] and the end of the second wait; in every other case it
    leaves through [sys.exit(1)] with no start time recorded and an empty
    frontier.  Acknowledgments pushed before the deletions are lost. *)
Theorem main_starts_iff_both_pools_acknowledge
    (root_url : string) (duration_minutes num_explorers num_extractors : Z)
    (turns : list Handshake.turn) (w : Proc.world) :
  Handshake.connected turns ->
  let e := Acks.arrived Handshake.explorers (Acks.during 2 11 turns) in
  let x := Acks.arrived Handshake.extractors (Acks.during 3 12 turns) in
  exists w1,
    Handshake.run (Scraper.main root_url duration_minutes num_explorers num_extractors)
      turns w
    = (if ((e =? 0)%nat || (x =? 0)%nat)%bool then Raise (SystemExit 1) else Ok tt,
       w1,
       drop (if (e =? 0)%nat then 12 else if (x =? 0)%nat then 13 else 16)%nat turns) /\
    if ((e =? 0)%nat || (x =? 0)%nat)%bool
    then Spec.not_started (Proc.db w1)
    else Redis.get (Proc.db w1) "start_time"
         = Some (pretty (Proc.clock (Handshake.outside
                                       (hd Handshake.quiet (drop 13 turns))))) /\
         Redis.llist (Proc.db w1) "explored_queue" = [Control.initial_item root_url].
Proof.
  intros Hc e x. unfold Scraper.main.
  destruct (opening_counts root_url duration_minutes num_explorers num_extractors
              (explorer_ack <- Proc.call (Proc.brpop "explorer_ack" 10) ;;
               match explorer_ack with
               | None => Proc.Throw (SystemExit 1)
               | Some _ =>
                   extractor_ack <- Proc.call (Proc.brpop "extractor_ack" 10) ;;
                   match extractor_ack with
                   | None => Proc.Throw (SystemExit 1)
                   | Some _ => Control.seed root_url
                   end
               end)%prog turns w Hc) as (w1 & -> & Hp).
  pose proof (hs_connected_drop 11 turns Hc) as Hc11.
  destruct (wait_explorer
              (fun explorer_ack : option (string * Json.text) =>
                 match explorer_ack with
                 | None => Proc.Throw (SystemExit 1)
                 | Some _ =>
                     (extractor_ack <- Proc.call (Proc.brpop "extractor_ack" 10) ;;
                      match extractor_ack with
                      | None => Proc.Throw (SystemExit 1)
                      | Some _ => Control.seed root_url
                      end)%prog
                 end) (drop 11 turns) w1 _ _ Hc11 Hp) as (w2 & r & -> & Hr & Hp2).
  assert (e = Acks.arrived Handshake.explorers (Acks.during 2 10 turns)
              + Acks.count Handshake.explorers
                  (Handshake.arrivals (hd Handshake.quiet (drop 11 turns))))%nat as He.
  { subst e. unfold Acks.during. cbn [Nat.sub].
    rewrite !arrived_take_S, !arrived_take_0, !drop_S_tl, !drop_0. lia. }
  assert (x = Acks.arrived Handshake.extractors (Acks.during 3 10 turns)
              + Acks.count Handshake.extractors
                  (Handshake.arrivals (hd Handshake.quiet (drop 11 turns)))
              + Acks.count Handshake.extractors
                  (Handshake.arrivals (hd Handshake.quiet (tl (drop 11 turns)))))%nat
    as Hx.
  { subst x. unfold Acks.during. cbn [Nat.sub].
    rewrite !arrived_take_S, !arrived_take_0, !drop_S_tl, !drop_0. lia. }
  rewrite <- He in Hr, Hp2. clearbody e x.
  destruct r as [kv|].
  - assert ((e =? 0)%nat = false) as -> by (apply Nat.eqb_neq; intros H0; now apply Hr in H0).
    cbn [orb].
    destruct (wait_extractor
                (fun extractor_ack : option (string * Json.text) =>
                   match extractor_ack with
                   | None => Proc.Throw (SystemExit 1)
                   | Some _ => Control.seed root_url
                   end) (tl (drop 11 turns)) w2 _ _ (hs_connected_tl _ Hc11) Hp2)
      as (w3 & r2 & -> & Hr2 & Hp3).
    rewrite <- Hx in Hr2.
    destruct r2 as [kv2|].
    + assert ((x =? 0)%nat = false) as ->
        by (apply Nat.eqb_neq; intros H0; now apply Hr2 in H0).
      rewrite hs_run_unit.
      destruct (seed_run root_url (fun _ => Proc.Ret tt) (tl (tl (drop 11 turns))) w3)
        as (w4 & -> & Hst & Hfr).
      * apply hs_connected_tl, hs_connected_tl, Hc11.
      * apply Hp3.
      * exists w4. rewrite <- !drop_S_tl in *. split; [reflexivity|]. split; assumption.
    + assert ((x =? 0)%nat = true) as -> by (apply Nat.eqb_eq; now apply Hr2).
      exists w3. rewrite <- !drop_S_tl. split; [reflexivity|]. apply Hp3.
  - assert ((e =? 0)%nat = true) as -> by (apply Nat.eqb_eq; now apply Hr).
    exists w2. rewrite <- !drop_S_tl. split; [reflexivity|]. apply Hp2.
Qed.

(** The theorem on a run in which an explorer node acknowledges during
    the first wait and an extractor node during the second. *)
Lemma main_starts_iff_both_pools_acknowledge_witness :
  exists w1,
    Handshake.run (Scraper.main "https://example.test/" 1 4 1) Sample.acknowledged
      Sample.blank
    = (Ok tt, w1, []) /\
    Redis.llist (Proc.db w1) "explored_queue"
    = [Control.initial_item "https://example.test/"].
Proof.
  destruct (main_starts_iff_both_pools_acknowledge "https://example.test/" 1 4 1
              Sample.acknowledged Sample.blank) as (w1 & Hrun & Hst).
  - unfold Sample.acknowledged. apply Forall_app. split.
    + apply Forall_forall. intros t Ht. apply list_elem_of_In, repeat_spec in Ht.
      now subst t.
    + repeat constructor.
  - exists w1. split; [exact Hrun|]. exact (proj2 Hst).
Defined.

(** X15: [start_scraper] of app.py does not depend on the
    acknowledgments: whatever reaches the two lists and whenever, with the
    broker answering it waits once on [explorer_ack], records the start
    time, seeds the root URL once and answers [success: true]. *)
Theorem start_scraper_succeeds_whatever_the_acks
    (root_url : string) (duration num_explorers num_extractors : Z)
    (turns : list Handshake.turn) (w : Proc.world) :
  Handshake.connected turns ->
  exists w2,
    Handshake.run (App.start_scraper root_url duration num_explorers num_extractors)
      turns w
    = (Ok (App.started root_url duration num_explorers num_extractors), w2,
       drop 15 turns) /\
    Redis.get (Proc.db w2) "start_time"
    = Some (pretty (Proc.clock (Handshake.outside
                                  (hd Handshake.quiet (drop 12 turns))))) /\
    Redis.llist (Proc.db w2) "explored_queue" = [Control.initial_item root_url].
Proof.
  intros Hc. unfold App.start_scraper.
  destruct (opening_counts root_url duration num_explorers num_extractors
              (explorer_ack <- Proc.call (Proc.brpop "explorer_ack" 10) ;;
               Control.seed root_url ;;;
               Proc.Ret (App.started root_url duration num_explorers num_extractors))%prog
              turns w Hc) as (w1 & -> & Hp).
  pose proof (hs_connected_drop 11 turns Hc) as Hc11.
  destruct (wait_explorer
              (fun _ : option (string * Json.text) =>
                 (Control.seed root_url ;;;
                  Proc.Ret (App.started root_url duration num_explorers num_extractors))%prog)
              (drop 11 turns) w1 _ _ Hc11 Hp) as (w2 & r & -> & _ & Hp2).
  destruct (seed_run root_url
              (fun _ => Proc.Ret (App.started root_url duration num_explorers
                                    num_extractors))
              (tl (drop 11 turns)) w2 (hs_connected_tl _ Hc11) (proj2 (proj1 Hp2)))
    as (w3 & -> & Hst & Hfr).
  exists w3. rewrite <- !drop_S_tl in *. split; [reflexivity|]. split; assumption.
Qed.

(** The theorem on a run in which both pools acknowledge. *)
Lemma start_scraper_succeeds_whatever_the_acks_witness :
  exists w2,
    Handshake.run (App.start_scraper "https://example.test/" 1 4 1) Sample.acknowledged
      Sample.blank
    = (Ok (App.started "https://example.test/" 1 4 1), w2, []) /\
    Redis.llist (Proc.db w2) "explored_queue"
    = [Control.initial_item "https://example.test/"].
Proof.
  destruct (start_scraper_succeeds_whatever_the_acks "https://example.test/" 1 4 1
              Sample.acknowledged Sample.blank) as (w2 & Hrun & _ & Hfr).
  - unfold Sample.acknowledged. apply Forall_app. split.
    + apply Forall_forall. intros t Ht. apply list_elem_of_In, repeat_spec in Ht.
      now subst t.
    + repeat constructor.
  - exists w2. split; [exact Hrun|exact Hfr].
Defined.

(** ** The worker nodes *)

Section NodeLemmas.
Import Handshake Node NodeCode NodeRun.

Lemma run_tbind {A B} (t : tree A) (f : A -> tree B) (envs : list env) (w : world) :
  run (tbind t f) envs w =
  run (f (fst (fst (run t envs w)))) (snd (run t envs w)) (snd (fst (run t envs w))).
Proof.
  revert envs w. induction t as [a|X c k IH]; intros envs w; simpl; [reflexivity|].
  destruct (exec c (hd smooth envs) w) as [r w']. apply IH.
Qed.

Lemma run_bind_node {A B} (m : M A) (f : A -> M B) (s : list handle)
    (envs : list env) (w : world) :
  run (Node.bind m f s) envs w =
  match run (m s) envs w with
  | ((s', Ok a), w', rest) => run (f a s') rest w'
  | ((s', Raise e), w', rest) => ((s', Raise e), w', rest)
  end.
Proof.
  unfold Node.bind. rewrite run_tbind.
  destruct (run (m s) envs w) as [[[s' [a|e]] w'] rest]; reflexivity.
Qed.

Lemma fair_hd (envs : list env) :
  fair envs ->
  Proc.redis (outside (hd smooth envs)) = Proc.Up /\ fault (hd smooth envs) = None.
Proof. intros H. destruct envs; [split; reflexivity|]. now inversion H. Qed.

Lemma fair_tl (envs : list env) : fair envs -> fair (tl envs).
Proof. intros H. destruct envs; [assumption|]. now inversion H. Qed.

Lemma fair_drop (n : nat) (envs : list env) : fair envs -> fair (drop n envs).
Proof. intros H. unfold fair. now apply Forall_drop. Qed.

Variable int_of_str : string -> lib Z.
Variable pool_ : pool.

Local Abbreviation handle_message := (NodeCode.handle_message int_of_str pool_).
Local Abbreviation dispatch := (NodeCode.dispatch int_of_str pool_).

(** A loop whose body leaves the list alone leaves the list alone. *)
Lemma for_each_keeps {A} (body : A -> M unit) (l : list A) :
  (forall x s envs w, fst (fst (fst (run (body x s) envs w))) = s) ->
  forall s envs w, fst (fst (fst (run (for_each l body s) envs w))) = s.
Proof.
  intros Hb. induction l as [|x l IH]; intros s envs w; [reflexivity|].
  cbn [for_each]. rewrite run_bind_node.
  pose proof (Hb x s envs w) as Hx.
  destruct (run (body x s) envs w) as [[[s' [[]|e]] w'] rest]; cbn [fst] in Hx; subst s'.
  - apply IH.
  - reflexivity.
Qed.

Lemma terminate_all_keeps (timeout : Z) (s : list handle) (envs : list env) (w : world) :
  fst (fst (fst (run (terminate_all timeout s) envs w))) = s.
Proof.
  unfold terminate_all. rewrite run_bind_node. cbn [active_processes run].
  apply for_each_keeps. intros p s0 envs0 w0.
  rewrite run_bind_node. cbn [call run].
  destruct (exec (is_alive p) (hd smooth envs0) w0) as [[[|]|e] w1]; cbn [run];
    try reflexivity.
  rewrite run_bind_node. cbn [call run].
  destruct (exec (terminate p) (hd smooth (tl envs0)) w1) as [[[]|e] w2]; cbn [run];
    try reflexivity.
  destruct (exec (join p (Some timeout)) _ w2) as [[[]|e] w3]; reflexivity.
Qed.

(** The [finally] block: when it returns, the list is empty. *)
Lemma cleanup_empties (s : list handle) (envs : list env) (w : world) :
  match fst (fst (run ((terminate_all 2 ;;; clear)%node s) envs w)) with
  | (s', Ok _) => s' = []
  | (_, Raise _) => True
  end.
Proof.
  rewrite run_bind_node.
  destruct (run (terminate_all 2 s) envs w) as [[[s' [[]|e]] w'] rest]; cbn [fst snd];
    [reflexivity|exact I].
Qed.

(** Handling a message: when it returns, the list is empty. *)
Lemma handle_message_empties (m : message) (s : list handle) (envs : list env)
    (w : world) :
  match fst (fst (run (handle_message m s) envs w)) with
  | (s', Ok _) => s' = []
  | (_, Raise _) => True
  end.
Proof.
  unfold NodeCode.handle_message, try_finally. rewrite run_tbind, run_tbind.
  set (body := run (try_except _ _ s) envs w).
  destruct body as [[[s1 r1] w1] rest1]. cbn [fst snd].
  pose proof (cleanup_empties s1 rest1 w1) as Hc.
  destruct (run ((terminate_all 2 ;;; clear)%node s1) rest1 w1) as [[[s2 [[]|e]] w2] rest2];
    cbn [fst snd] in *; [|exact I].
  destruct r1; [exact Hc|exact I].
Qed.

Lemma pass_empties (envs : list env) (w : world) :
  match fst (fst (run (NodeCode.pass int_of_str pool_ []) envs w)) with
  | (s', Ok _) => s' = []
  | (_, Raise _) => True
  end.
Proof.
  unfold NodeCode.pass. rewrite run_bind_node. cbn [call run].
  destruct (exec get_message (hd smooth envs) w) as [[message|e] w1]; cbn [run];
    [|exact I].
  rewrite run_bind_node.
  destruct message as [m|].
  - destruct (String.eqb (type_ m) "message").
    + pose proof (handle_message_empties m [] (tl envs) w1) as H.
      destruct (run (handle_message m []) (tl envs) w1) as [[[s1 [[]|e]] w2] rest];
        cbn [fst] in H; [|exact I].
      subst s1. cbn [call run]. destruct (exec nap _ _) as [[[]|e] w3]; [reflexivity|exact I].
    + cbn [ret run call]. destruct (exec nap _ _) as [[[]|e] w3]; [reflexivity|exact I].
  - cbn [ret run call]. destruct (exec nap _ _) as [[[]|e] w3]; [reflexivity|exact I].
Qed.

Lemma passes_empties (n : nat) :
  forall (envs : list env) (w : world),
    match fst (fst (run (NodeCode.passes int_of_str pool_ n []) envs w)) with
    | (s', Ok _) => s' = []
    | (_, Raise _) => True
    end.
Proof.
  induction n as [|n IH]; intros envs w; [reflexivity|].
  cbn [passes]. rewrite run_bind_node.
  pose proof (pass_empties envs w) as H.
  destruct (run (NodeCode.pass int_of_str pool_ []) envs w) as [[[s1 [[]|e]] w1] rest];
    cbn [fst] in H; [|exact I].
  subst s1. apply IH.
Qed.

End NodeLemmas.

Section NodeStop.
Import Handshake Node NodeCode NodeRun.

Variable int_of_str : string -> lib Z.
Variable pool_ : pool.

(** On an empty list the two cleaning loops issue no command. *)
Lemma cleanup_nothing (envs : list env) (w : world) :
  run ((terminate_all 2 ;;; clear)%node []) envs w = (([], Ok tt), w, envs).
Proof. reflexivity. Qed.

(** A message that does not carry the start command, with an empty list:
    the [try] block issues no command. *)
Lemma dispatch_idle (m : message) (envs : list env) (w : world) :
  (forall d, Json.loads (data m) = Ok d ->
             Json.getitem d "command" <> Ok (Json.Str "start")) ->
  exists r,
    run (NodeCode.dispatch int_of_str pool_ m []) envs w = (([], r), w, envs) /\
    (r = Ok tt \/ exists x, r = Raise (Exc x)).
Proof.
  intros Hm. unfold NodeCode.dispatch.
  rewrite run_bind_node. cbn [lift run].
  destruct (Json.loads (data m)) as [d|e] eqn:El.
  - rewrite run_bind_node. cbn [lift run].
    specialize (Hm d eq_refl).
    destruct (Json.getitem d "command") as [command|e] eqn:Eg.
    + destruct command; cbn [is_str]; try (eexists; split; [reflexivity|auto]).
      destruct (String.eqb_spec s "start") as [->|Hne]; [congruence|].
      destruct (String.eqb s "stop"); eexists; (split; [reflexivity|auto]).
    + destruct (getitem_raises _ _ _ Eg) as [x ->]. eexists. split; [reflexivity|eauto].
  - rewrite (loads_raises _ _ El). eexists. split; [reflexivity|eauto].
Qed.

Lemma handle_message_idle (m : message) (envs : list env) (w : world) :
  (forall d, Json.loads (data m) = Ok d ->
             Json.getitem d "command" <> Ok (Json.Str "start")) ->
  run (NodeCode.handle_message int_of_str pool_ m []) envs w = (([], Ok tt), w, envs).
Proof.
  intros Hm. destruct (dispatch_idle m envs w Hm) as (r & Hr & Hcase).
  unfold NodeCode.handle_message, try_finally, try_except.
  rewrite !run_tbind, Hr. cbn [fst snd].
  destruct Hcase as [->|[x ->]]; reflexivity.
Qed.

End NodeStop.

(** X16: in a node ([main()] of explorer.py, the main block of
    extractor.py), whenever the handling of a message returns, the list
    [active_processes] is empty, whatever it held before, whatever the
    message was and whatever failed on the way; so the list is empty at
    the head of every pass of the node's loop. *)
Theorem active_processes_empty_after_message
    (int_of_str : string -> lib Z) (pool_ : Handshake.pool) :
  (forall (m : Node.message) (s s' : list Node.handle) (envs rest : list NodeRun.env)
          (w w' : NodeRun.world),
      NodeRun.run (NodeCode.handle_message int_of_str pool_ m s) envs w
      = ((s', Ok tt), w', rest) ->
      s' = []) /\
  (forall (n : nat) (s' : list Node.handle) (envs rest : list NodeRun.env)
          (w w' : NodeRun.world),
      NodeRun.run (NodeCode.main int_of_str pool_ n) envs w = ((s', Ok tt), w', rest) ->
      s' = []).
Proof.
  split.
  - intros m s s' envs rest w w' H.
    pose proof (handle_message_empties int_of_str pool_ m s envs w) as He.
    now rewrite H in He.
  - intros n s' envs rest w w' H. unfold NodeCode.main in H.
    rewrite run_bind_node in H. cbn [Node.call NodeRun.run] in H.
    destruct (NodeRun.exec (Node.subscribe "scraper_control") _ w) as [[[]|e] w1];
      cbn [NodeRun.run] in H; [|discriminate].
    pose proof (passes_empties int_of_str pool_ n (tl envs) w1) as He.
    now rewrite H in He.
Qed.

(** X17: a node whose list is empty does nothing for a message that does
    not carry the start command: for the stop command, an unknown command,
    a payload without [command] or text that is not JSON, no command is
    issued; in particular no process is terminated. *)
Theorem node_ignores_all_but_start
    (int_of_str : string -> lib Z) (pool_ : Handshake.pool)
    (m : Node.message) (envs : list NodeRun.env) (w : NodeRun.world) :
  (forall d, Json.loads (Node.data m) = Ok d ->
             Json.getitem d "command" <> Ok (Json.Str "start")) ->
  NodeRun.run (NodeCode.handle_message int_of_str pool_ m []) envs w
  = (([], Ok tt), w, envs).
Proof. apply handle_message_idle. Qed.

Section NodeStart.
Import Handshake Node NodeCode NodeRun.

Variable int_of_str : string -> lib Z.
Variable pool_ : pool.

Lemma node_world_eta (w : world) : {| net := net w; os := os w |} = w.
Proof. now destruct w. Qed.

Lemma first_length (k : nat) : forall envs : list env, length (first k envs) = k.
Proof. induction k as [|k IH]; intros envs; [reflexivity|]. simpl. now rewrite IH. Qed.

(** The loop that starts the workers. *)
Lemma spawn_run (k : nat) :
  forall (a : nat) (s : list handle) (envs : list env) (w : world),
    fair envs ->
    run (for_each (seq a k) (fun _ => p <- call (start pool_) ;; append p)%node s) envs w =
    ((s ++ List.map pid (first k envs), Ok tt),
     {| net := net w;
        os := List.rev (List.map (fun ev => started (pid ev) pool_) (first k envs)) ++ os w |},
     drop k envs).
Proof.
  induction k as [|k IH]; intros a s envs w Hf.
  - cbn. now rewrite app_nil_r, node_world_eta.
  - cbn [seq for_each]. rewrite run_bind_node, run_bind_node. cbn [call run exec].
    unfold os_call. rewrite (proj2 (fair_hd envs Hf)). cbn [run append].
    rewrite IH by now apply fair_tl.
    cbn [net os first List.map List.rev]. rewrite <- !app_assoc. cbn [app].
    rewrite drop_tl. reflexivity.
Qed.

(** The loop that waits for the workers: the ones found alive are
    joined, in order. *)
Lemma join_run (ps : list handle) :
  forall (s : list handle) (envs : list env) (w : world),
    fair envs ->
    run (for_each ps (fun p =>
           alive <- call (is_alive p) ;;
           if alive : bool then call (join p None) else ret tt)%node s) envs w
    = ((s, Ok tt),
       {| net := net w;
          os := List.rev (List.map (fun p => joined p None) (found_alive ps envs)) ++ os w |},
       past_loop ps envs).
Proof.
  induction ps as [|p ps IH]; intros s envs w Hf.
  - cbn. now rewrite node_world_eta.
  - cbn [for_each found_alive past_loop]. rewrite run_bind_node, run_bind_node.
    cbn [call run exec].
    unfold os_call at 1. rewrite (proj2 (fair_hd envs Hf)). cbn [app run].
    rewrite node_world_eta.
    destruct (alive (hd smooth envs)).
    + cbn [call run exec]. unfold os_call.
      rewrite (proj2 (fair_hd _ (fair_tl _ Hf))). cbn [run].
      rewrite IH by apply (fair_tl _ (fair_tl _ Hf)).
      cbn [net os List.map List.rev]. now rewrite <- app_assoc.
    + cbn [ret run]. now rewrite IH by apply (fair_tl _ Hf).
Qed.

(** The branch for the start command, from an empty list. *)
Lemma on_start_run (envs : list env) (w : world) (n : Z) :
  fair envs ->
  NodeCode.int_or_4 int_of_str (Redis.get (Proc.db (net w)) (NodeCode.workers_key pool_))
  = Ok n ->
  let spawned := first (Z.to_nat n) (tl envs) in
  let ack := ack_payload
               {| from := pool_; num_workers := n;
                  timestamp := Proc.clock (outside (hd smooth (drop (S (Z.to_nat n)) envs))) |} in
  let waiting := drop (Z.to_nat n + 3) envs in
  run (NodeCode.on_start int_of_str pool_ []) envs w
  = (([], Ok tt),
     {| net := {| Proc.db := Redis.lpush (ack_queue pool_) ack (Proc.db (net w));
                  Proc.trace := Proc.pushed (ack_queue pool_) ack :: Proc.trace (net w) |};
        os := List.rev (List.map (fun p => joined p None)
                          (found_alive (List.map pid spawned) waiting))
              ++ List.rev (List.map (fun ev => started (pid ev) pool_) spawned)
              ++ os w |},
     past_loop (List.map pid spawned) waiting).
Proof.
  intros Hf Hn spawned ack waiting. unfold NodeCode.on_start.
  rewrite run_bind_node. cbn [call run exec].
  rewrite exec_get_up by apply (fair_hd envs Hf). cbn [run].
  rewrite node_world_eta.
  rewrite run_bind_node. cbn [lift run]. rewrite Hn.
  rewrite run_bind_node, spawn_run by now apply fair_tl.
  rewrite run_bind_node. cbn [call run exec Proc.exec Proc.serve Proc.local net os].
  rewrite run_bind_node. cbn [call run exec net os].
  erewrite (exec_up (Proc.lpush _ _));
    [|apply (fair_hd _ (fair_tl _ (fair_drop _ _ (fair_tl _ Hf))))|reflexivity].
  cbn [run Proc.db Proc.trace app].
  rewrite run_bind_node. unfold NodeCode.join_all. rewrite run_bind_node.
  cbn [active_processes run].
  rewrite join_run by apply fair_tl, fair_tl, fair_drop, fair_tl, Hf.
  cbn [clear run net os app].
  subst ack spawned waiting. rewrite !drop_tl.
  replace (Z.to_nat n + 3)%nat with (S (S (S (Z.to_nat n)))) by lia.
  rewrite <- !drop_S_tl. reflexivity.
Qed.

(** *** The world in the middle of a run *)

Lemma cost_tbind_le {A B} (t : tree A) (f : A -> tree B) :
  forall (envs : list env) (w : world), (cost t envs w <= cost (tbind t f) envs w)%nat.
Proof.
  induction t as [a|X c k IH]; intros envs w; simpl; [lia|].
  destruct (exec c (hd smooth envs) w) as [r w']. specialize (IH r (tl envs) w'). lia.
Qed.

Lemma cost_tbind {A B} (t : tree A) (f : A -> tree B) :
  forall (envs : list env) (w : world),
    cost (tbind t f) envs w
    = (cost t envs w
       + cost (f (fst (fst (run t envs w)))) (snd (run t envs w)) (snd (fst (run t envs w))))%nat.
Proof.
  induction t as [a|X c k IH]; intros envs w; simpl; [reflexivity|].
  destruct (exec c (hd smooth envs) w) as [r w']. now rewrite IH.
Qed.

(** As long as the first part of the code is not over, what follows it
    does not matter. *)
Lemma world_after_tbind_le {A B} (t : tree A) (f : A -> tree B) :
  forall (k : nat) (envs : list env) (w : world),
    (k <= cost t envs w)%nat ->
    world_after k (tbind t f) envs w = world_after k t envs w.
Proof.
  induction t as [a|X c cont IH]; intros k envs w Hk; simpl in Hk.
  - assert (k = O) as -> by lia. reflexivity.
  - destruct k as [|k]; [reflexivity|]. simpl.
    destruct (exec c (hd smooth envs) w) as [r w']. apply IH. lia.
Qed.

Lemma world_after_tbind {A B} (t : tree A) (f : A -> tree B) (j : nat) :
  forall (envs : list env) (w : world),
    world_after (cost t envs w + j) (tbind t f) envs w
    = world_after j (f (fst (fst (run t envs w)))) (snd (run t envs w))
        (snd (fst (run t envs w))).
Proof.
  induction t as [a|X c cont IH]; intros envs w; [reflexivity|].
  cbn [tbind cost run].
  destruct (exec c (hd smooth envs) w) as [r w'] eqn:E.
  cbn [Nat.add world_after]. rewrite E. apply IH.
Qed.

Lemma spawn_cost (k : nat) :
  forall (a : nat) (s : list handle) (envs : list env) (w : world),
    fair envs ->
    cost (for_each (seq a k) (fun _ => p <- call (start pool_) ;; append p)%node s) envs w = k.
Proof.
  induction k as [|k IH]; intros a s envs w Hf; [reflexivity|].
  cbn [seq for_each]. unfold Node.bind at 1. rewrite cost_tbind, run_bind_node.
  cbn [Node.bind call tbind cost run exec append].
  unfold os_call. rewrite (proj2 (fair_hd envs Hf)). cbn [fst snd cost].
  rewrite IH by now apply fair_tl. reflexivity.
Qed.

(** The world when the acknowledgment has just been pushed: the workers
    are started and none has been joined. *)
Lemma on_start_midway (envs : list env) (w : world) (n : Z) :
  fair envs ->
  NodeCode.int_or_4 int_of_str (Redis.get (Proc.db (net w)) (NodeCode.workers_key pool_))
  = Ok n ->
  let spawned := first (Z.to_nat n) (tl envs) in
  let ack := ack_payload
               {| from := pool_; num_workers := n;
                  timestamp := Proc.clock (outside (hd smooth (drop (S (Z.to_nat n)) envs))) |} in
  (Z.to_nat n + 3 <= cost (NodeCode.on_start int_of_str pool_ []) envs w)%nat /\
  world_after (Z.to_nat n + 3) (NodeCode.on_start int_of_str pool_ []) envs w
  = {| net := {| Proc.db := Redis.lpush (ack_queue pool_) ack (Proc.db (net w));
                 Proc.trace := Proc.pushed (ack_queue pool_) ack :: Proc.trace (net w) |};
       os := List.rev (List.map (fun ev => started (pid ev) pool_) spawned) ++ os w |}.
Proof.
  intros Hf Hn spawned ack.
  replace (Z.to_nat n + 3)%nat with (S (Z.to_nat n + 2)) by lia.
  unfold NodeCode.on_start.
  cbn [Node.bind call tbind cost world_after exec fst snd].
  rewrite exec_get_up by apply (fair_hd envs Hf).
  cbn [Node.bind lift tbind fst snd]. rewrite node_world_eta, Hn.
  split.
  - apply le_n_S. unfold Node.bind at 1.
    rewrite cost_tbind, spawn_cost by now apply fair_tl.
    rewrite spawn_run by now apply fair_tl.
    cbn [fst snd Node.bind call tbind cost exec Proc.exec Proc.serve Proc.local net os].
    rewrite (proj1 (fair_hd _ (fair_tl _ (fair_drop _ _ (fair_tl _ Hf))))).
    lia.
  - unfold Node.bind at 1.
    rewrite <- (spawn_cost (Z.to_nat n) 0%nat [] (tl envs) w) at 1 by now apply fair_tl.
    rewrite world_after_tbind, spawn_run by now apply fair_tl.
    cbn [fst snd Node.bind call tbind world_after exec Proc.exec Proc.serve Proc.local
         net os].
    rewrite (proj1 (fair_hd _ (fair_tl _ (fair_drop _ _ (fair_tl _ Hf))))).
    cbn [Proc.db Proc.trace net os app].
    subst ack spawned. rewrite drop_tl. reflexivity.
Qed.

End NodeStart.

(** X18: a node that receives the start command, with the broker
    answering and no failure of a process call.  It reads the number of
    workers ([4] when the key is missing or empty) and starts that many
    worker processes; it then pushes one acknowledgment carrying that
    number onto its list, and at that point, [n + 3] commands into the
    handling, no worker has been joined; it then asks each worker in turn
    whether it is alive and waits without time limit for exactly those
    that are, and ends with an empty list and without terminating any
    process. *)
Theorem start_command_spawns_then_acknowledges
    (int_of_str : string -> lib Z) (pool_ : Handshake.pool)
    (m : Node.message) (envs : list NodeRun.env) (w : NodeRun.world) (n : Z) :
  NodeRun.fair envs ->
  (exists d, Json.loads (Node.data m) = Ok d /\
             Json.getitem d "command" = Ok (Json.Str "start")) ->
  NodeCode.int_or_4 int_of_str
    (Redis.get (Proc.db (NodeRun.net w)) (NodeCode.workers_key pool_)) = Ok n ->
  let spawned := NodeRun.first (Z.to_nat n) (tl envs) in
  let starts := List.rev (List.map (fun ev => NodeRun.started (NodeRun.pid ev) pool_)
                                    spawned) in
  let ack :=
    Handshake.ack_payload
      {| Handshake.from := pool_; Handshake.num_workers := n;
         Handshake.timestamp :=
           Proc.clock (NodeRun.outside (hd NodeRun.smooth (drop (S (Z.to_nat n)) envs))) |} in
  let acked :=
    {| Proc.db := Redis.lpush (Handshake.ack_queue pool_) ack (Proc.db (NodeRun.net w));
       Proc.trace := Proc.pushed (Handshake.ack_queue pool_) ack
                     :: Proc.trace (NodeRun.net w) |} in
  let waiting := drop (Z.to_nat n + 3) envs in
  let awaited := NodeRun.found_alive (List.map NodeRun.pid spawned) waiting in
  length spawned = Z.to_nat n /\
  Redis.llist (Proc.db acked) (Handshake.ack_queue pool_)
  = ack :: Redis.llist (Proc.db (NodeRun.net w)) (Handshake.ack_queue pool_) /\
  NodeRun.world_after (Z.to_nat n + 3) (NodeCode.handle_message int_of_str pool_ m []) envs w
  = {| NodeRun.net := acked; NodeRun.os := starts ++ NodeRun.os w |} /\
  NodeRun.run (NodeCode.handle_message int_of_str pool_ m []) envs w
  = (([], Ok tt),
     {| NodeRun.net := acked;
        NodeRun.os := List.rev (List.map (fun p => NodeRun.joined p None) awaited)
                      ++ starts ++ NodeRun.os w |},
     NodeRun.past_loop (List.map NodeRun.pid spawned) waiting).
Proof.
  intros Hf (d & Hl & Hg) Hn spawned starts ack acked waiting awaited.
  assert (NodeCode.dispatch int_of_str pool_ m [] = NodeCode.on_start int_of_str pool_ [])
    as Hd.
  { unfold NodeCode.dispatch. cbn [Node.bind Node.lift Node.tbind fst snd].
    rewrite Hl. cbn [Node.tbind fst snd]. rewrite Hg. reflexivity. }
  destruct (on_start_midway int_of_str pool_ envs w n Hf Hn) as (Hcost & Hmid).
  split; [apply first_length|]. split.
  { subst acked. cbn [Proc.db]. rewrite llist_lpush. now rewrite decide_True. }
  split.
  - unfold NodeCode.handle_message, Node.try_finally, Node.try_except. rewrite Hd.
    rewrite !world_after_tbind_le; [exact Hmid|exact Hcost|].
    etransitivity; [exact Hcost|apply cost_tbind_le].
  - unfold NodeCode.handle_message, Node.try_finally, Node.try_except.
    rewrite !run_tbind, Hd, (on_start_run int_of_str pool_ envs w n Hf Hn).
    cbn [fst snd]. reflexivity.
Qed.

(** X16 on a node that receives the start command in its first pass and
    whose two workers end by themselves. *)
Lemma active_processes_empty_after_message_witness :
  fst (fst (fst (NodeRun.run (NodeCode.main NodeSample.int_of_str Handshake.explorers 1)
                   [NodeRun.smooth; NodeSample.delivering NodeSample.start_message;
                    NodeRun.smooth; NodeSample.spawning 11%nat; NodeSample.spawning 12%nat]
                   NodeSample.ready)))
  = [].
Proof.
  apply (proj2 (active_processes_empty_after_message NodeSample.int_of_str
                  Handshake.explorers)
           1%nat _
           [NodeRun.smooth; NodeSample.delivering NodeSample.start_message;
            NodeRun.smooth; NodeSample.spawning 11%nat; NodeSample.spawning 12%nat]
           (snd (NodeRun.run (NodeCode.main NodeSample.int_of_str Handshake.explorers 1)
                   [NodeRun.smooth; NodeSample.delivering NodeSample.start_message;
                    NodeRun.smooth; NodeSample.spawning 11%nat; NodeSample.spawning 12%nat]
                   NodeSample.ready))
           NodeSample.ready
           (snd (fst (NodeRun.run
                        (NodeCode.main NodeSample.int_of_str Handshake.explorers 1)
                        [NodeRun.smooth; NodeSample.delivering NodeSample.start_message;
                         NodeRun.smooth; NodeSample.spawning 11%nat; NodeSample.spawning 12%nat]
                        NodeSample.ready)))).
  vm_compute. reflexivity.
Defined.

(** X17 on the stop command. *)
Lemma node_ignores_all_but_start_witness :
  NodeRun.run (NodeCode.handle_message NodeSample.int_of_str Handshake.explorers
                 NodeSample.stop_message [])
    [NodeSample.spawning 11%nat] NodeSample.ready
  = (([], Ok tt), NodeSample.ready, [NodeSample.spawning 11%nat]).
Proof.
  apply (node_ignores_all_but_start NodeSample.int_of_str Handshake.explorers
           NodeSample.stop_message [NodeSample.spawning 11%nat] NodeSample.ready).
  intros d [= <-]. discriminate.
Defined.

(** X18 on a keyspace whose reset asked for two explorers: worker 11 is
    still alive when the node comes to it and is joined, worker 12 has
    ended; when the acknowledgment is pushed, five commands into the
    handling, both are started and none is joined. *)
Lemma start_command_spawns_then_acknowledges_witness :
  let envs := [NodeRun.smooth; NodeSample.spawning 11%nat; NodeSample.spawning 12%nat;
               NodeRun.smooth; NodeRun.smooth;
               NodeSample.spawning 0%nat; NodeRun.smooth; NodeRun.smooth] in
  let code := NodeCode.handle_message NodeSample.int_of_str Handshake.explorers
                NodeSample.start_message [] in
  (exists w',
      NodeRun.run code envs NodeSample.ready = (([], Ok tt), w', []) /\
      NodeRun.os w'
      = [NodeRun.joined 11%nat None;
         NodeRun.started 12%nat Handshake.explorers;
         NodeRun.started 11%nat Handshake.explorers]) /\
  NodeRun.os (NodeRun.world_after 5 code envs NodeSample.ready)
  = [NodeRun.started 12%nat Handshake.explorers;
     NodeRun.started 11%nat Handshake.explorers] /\
  length (Redis.llist (Proc.db (NodeRun.net (NodeRun.world_after 5 code envs
                                               NodeSample.ready)))
            "explorer_ack") = 1%nat.
Proof.
  intros envs code.
  assert (NodeRun.fair envs) as Hf by (repeat constructor).
  assert (exists d, Json.loads (Node.data NodeSample.start_message) = Ok d /\
                    Json.getitem d "command" = Ok (Json.Str "start")) as Hd
    by (eexists; split; reflexivity).
  pose proof (start_command_spawns_then_acknowledges NodeSample.int_of_str
                Handshake.explorers NodeSample.start_message envs NodeSample.ready 2
                Hf Hd eq_refl) as H.
  cbv zeta in H. destruct H as (_ & _ & Hmid & Hrun).
  change (Z.to_nat 2 + 3)%nat with 5%nat in Hmid.
  split; [|split].
  - eexists. split; [exact Hrun|]. reflexivity.
  - unfold code. rewrite Hmid. reflexivity.
  - unfold code. rewrite Hmid. reflexivity.
Defined.

(** ** From the frontier to the results stream *)

Section Flow.

(** A pipeline without XADD leaves the streams alone. *)
Lemma xrange_execute_from (pipe : list Redis.pipe_cmd) (ok : bool) (b : Redis.broker) :
  Forall (fun c => match c with Redis.p_xadd _ _ => False | _ => True end) pipe ->
  Redis.streams (snd (Redis.execute_from pipe ok b)) = Redis.streams b.
Proof.
  revert ok b. induction pipe as [|c pipe IH]; intros ok b H; [reflexivity|].
  inversion H as [|? ? Hc Hrest]; subst.
  simpl Redis.execute_from.
  assert (Redis.streams (snd (Redis.apply_pipe_cmd c b)) = Redis.streams b) as Hs.
  { destruct c as [k x|k|k f]; simpl; try reflexivity; [|contradiction].
    pose proof (incr_frame k b) as (_ & _ & Hi).
    destruct (Redis.incr k b) as [[z|e] b']; exact Hi. }
  destruct (Redis.apply_pipe_cmd c b) as [ok1 b1]. cbn [snd] in Hs.
  rewrite IH by assumption. exact Hs.
Qed.

Lemma explorer_pipe_no_xadd (b : Redis.broker) (url html : Json.value)
    (links : list string) :
  Forall (fun c => match c with Redis.p_xadd _ _ => False | _ => True end)
    (Spec.explorer_pipe b url html links).
Proof.
  unfold Spec.explorer_pipe. apply Forall_app. split.
  - apply Forall_forall. intros c Hc. apply list_elem_of_In, in_map_iff in Hc as (l & <- & _).
    exact I.
  - repeat constructor.
Qed.

(** What was pushed for the extractor decodes to what was put in. *)
Lemma exploit_item_fields (url html : Json.value) :
  Spec.exploit_fields (Explorer.exploit_item url html) = Ok (url, html).
Proof. reflexivity. Qed.

End Flow.

(** X19: a pass of the extractor on an exploit item that has both fields
    and an encodable url: the item leaves the queue, exactly one record
    [url, title, timestamp, worker_id] is appended to the results stream,
    its title being what [extract_title] returns on the html field, and
    [urls_extracted] goes up by one; nothing else is written. *)
Theorem extractor_records_one_result_per_item
    (html_parser : string -> lib Bs4.soup)
    (container_markup : Json.value -> lib Bs4.soup)
    (worker_id : Z) (envs : list Proc.env) (w : Proc.world)
    (q : list Json.text) (x : Json.text) (url html : Json.value) (u : string) :
  Redis.llist (Proc.db w) "exploit_queue" = q ++ [x] ->
  Spec.exploit_fields x = Ok (url, html) ->
  Redis.encode url = Ok u ->
  Redis.is_counter (Proc.db w) "urls_extracted" ->
  Proc.connected envs ->
  exists title flow w',
    Extractor.extract_title html_parser container_markup html = Ok title /\
    Proc.run (Extractor.iteration html_parser container_markup worker_id) envs w
    = (Ok flow, w', tl (tl (tl (tl envs)))) /\
    Redis.llist (Proc.db w') "exploit_queue" = q /\
    Redis.xrange (Proc.db w') "results_stream"
    = Redis.xrange (Proc.db w) "results_stream"
      ++ [[("url", u); ("title", title);
           ("timestamp", pretty (Proc.clock (hd Proc.calm (tl envs))));
           ("worker_id", pretty worker_id)]] /\
    Redis.counter (Proc.db w') "urls_extracted"
    = Redis.counter (Proc.db w) "urls_extracted" + 1 /\
    Redis.llist (Proc.db w') "explored_queue" = Redis.llist (Proc.db w) "explored_queue" /\
    Redis.sets (Proc.db w') = Redis.sets (Proc.db w) /\
    Proc.trace w' = Proc.trace w.
Proof.
  intros Hq Hf He Hcnt Hc.
  destruct (extract_title_total html_parser container_markup html) as [title Ht].
  pose proof (extractor_iteration_item html_parser container_markup worker_id envs w
                q x url html u title Hq Hf He Ht Hcnt Hc) as Hrun.
  cbv zeta in Hrun.
  exists title. eexists _, _. split; [exact Ht|]. split; [exact Hrun|].
  cbn [Proc.db Proc.trace]. repeat split.
  - change (Redis.llist (Redis.set ?k ?v ?b) "exploit_queue")
      with (Redis.llist b "exploit_queue").
    change (Redis.llist (Redis.xadd ?k ?f ?b) "exploit_queue")
      with (Redis.llist b "exploit_queue").
    rewrite llist_set_list. now rewrite decide_True.
  - unfold Redis.xrange at 1. cbn. rewrite lookup_insert_eq. reflexivity.
  - rewrite counter_set, decide_True by reflexivity. reflexivity.
  - change (Redis.llist (Redis.set ?k ?v ?b) "explored_queue")
      with (Redis.llist b "explored_queue").
    change (Redis.llist (Redis.xadd ?k ?f ?b) "explored_queue")
      with (Redis.llist b "explored_queue").
    rewrite llist_set_list. now rewrite decide_False.
Qed.

(** The theorem on the item of a fetched home page. *)
Lemma extractor_records_one_result_per_item_witness :
  exists flow w',
    Proc.run (Extractor.iteration Sample.html_parser Sample.container_markup 7) []
      (Sample.world_with "exploit_queue"
         [Explorer.exploit_item (Json.Str "https://example.test/")
            (Json.Str Sample.home_html)])
    = (Ok flow, w', []) /\
    Redis.xrange (Proc.db w') "results_stream"
    = [[("url", "https://example.test/"); ("title", "Home"); ("timestamp", "0");
        ("worker_id", "7")]].
Proof.
  destruct (extractor_records_one_result_per_item Sample.html_parser
              Sample.container_markup 7 []
              (Sample.world_with "exploit_queue"
                 [Explorer.exploit_item (Json.Str "https://example.test/")
                    (Json.Str Sample.home_html)])
              [] (Explorer.exploit_item (Json.Str "https://example.test/")
                    (Json.Str Sample.home_html))
              (Json.Str "https://example.test/") (Json.Str Sample.home_html)
              "https://example.test/")
    as (title & flow & w' & Ht & Hrun & _ & Hx & _); try reflexivity.
  - constructor.
  - exists flow, w'. split; [exact Hrun|]. rewrite Hx.
    vm_compute in Ht. injection Ht as <-. reflexivity.
Defined.

(** X20: the two workers composed.  An explorer pass on a new URL whose
    fetch succeeds, followed by an extractor pass, with the exploit queue
    empty at the start: the item the explorer pushed is the one the
    extractor pops, it decodes to the same url and page text, and the
    record appended to the results stream carries that url and the title
    [extract_title] finds in that text. *)
Theorem page_flows_from_explorer_to_results
    (urlparse : string -> lib Urllib.ParseResult)
    (urljoin : string -> string -> lib string)
    (html_parser : string -> lib Bs4.soup)
    (container_markup : Json.value -> lib Bs4.soup)
    (worker_id : Z) (envs envs' : list Proc.env) (w : Proc.world)
    (q : list Json.text) (x : Json.text) (item : Json.value) (s : string)
    (html : Json.value) (links : list string) :
  Redis.llist (Proc.db w) "explored_queue" = q ++ [x] ->
  Json.loads x = Ok item -> Json.getitem item "url" = Ok (Json.Str s) ->
  s ∉ Redis.smembers (Proc.db w) "visited_urls" ->
  Redis.is_counter (Proc.db w) "urls_found" ->
  Redis.is_counter (Proc.db w) "urls_extracted" ->
  Redis.llist (Proc.db w) "exploit_queue" = [] ->
  Proc.connected envs -> Proc.connected envs' ->
  Spec.attempt urlparse urljoin html_parser (Json.Str s)
    (Proc.http (hd Proc.calm (tl (tl envs)))) = Ok (html, links) ->
  exists flow1 w1 rest1 flow2 w2 rest2 title,
    Proc.run (Explorer.iteration urlparse urljoin html_parser container_markup) envs w
    = (Ok flow1, w1, rest1) /\
    Proc.run (Extractor.iteration html_parser container_markup worker_id) envs' w1
    = (Ok flow2, w2, rest2) /\
    Extractor.extract_title html_parser container_markup html = Ok title /\
    Redis.xrange (Proc.db w2) "results_stream"
    = Redis.xrange (Proc.db w) "results_stream"
      ++ [[("url", s); ("title", title);
           ("timestamp", pretty (Proc.clock (hd Proc.calm (tl envs'))));
           ("worker_id", pretty worker_id)]] /\
    Redis.llist (Proc.db w2) "exploit_queue" = [] /\
    Redis.counter (Proc.db w2) "urls_found" = Redis.counter (Proc.db w) "urls_found" + 1 /\
    Redis.counter (Proc.db w2) "urls_extracted"
    = Redis.counter (Proc.db w) "urls_extracted" + 1.
Proof.
  intros Hq Hl Hg Hnew Hcf Hcx Hempty Hc Hc' Ha.
  destruct (explorer_iteration_new urlparse urljoin html_parser container_markup
              envs w q x item (Json.Str s) s Hq Hl Hg eq_refl Hnew Hcf Hc)
    as (rest1 & Hrun1).
  cbv zeta in Hrun1. unfold Spec.page in Hrun1. rewrite Ha in Hrun1. cbn [fst snd] in Hrun1.
  set (b0 := Redis.set_list "explored_queue" q (Proc.db w)) in *.
  set (b1 := snd (Redis.sadd "visited_urls" s b0)) in *.
  set (pipe := Spec.explorer_pipe b1 (Json.Str s) html links) in *.
  set (b3 := snd (Redis.execute pipe b1)) in *.
  destruct (sadd_frame "visited_urls" s b0) as (Hs1 & Hl1 & Hx1). fold b1 in Hs1, Hl1, Hx1.
  assert (Redis.llist b3 "exploit_queue" = [] ++ [Explorer.exploit_item (Json.Str s) html])
    as Hq3.
  { subst b3. rewrite execute_snd, llist_execute_from. subst pipe.
    rewrite explorer_pipe_exploit. rewrite (llist_lists b0 b1 _ Hl1). subst b0.
    rewrite llist_set_list, decide_False by discriminate. now rewrite Hempty. }
  assert (Redis.is_counter b1 "urls_extracted" /\ Redis.is_counter b1 "urls_found")
    as [Hcx1 Hcf1].
  { split; apply (counter_strings b0 b1 _ Hs1); assumption. }
  assert (Redis.is_counter b3 "urls_extracted"
          /\ Redis.counter b3 "urls_extracted" = Redis.counter (Proc.db w) "urls_extracted")
    as [Hcx3 Hvx3].
  { subst b3. rewrite execute_snd.
    destruct (counter_execute_from pipe true b1 "urls_extracted" Hcx1) as (H1 & H2).
    split; [exact H1|]. rewrite H2. subst pipe. rewrite explorer_pipe_incrs.
    cbn. rewrite (proj1 (counter_strings b0 b1 "urls_extracted" Hs1)).
    change (Redis.counter b0 "urls_extracted") with (Redis.counter (Proc.db w) "urls_extracted").
    lia. }
  assert (Redis.counter b3 "urls_found" = Redis.counter (Proc.db w) "urls_found" + 1)
    as Hvf3.
  { subst b3. rewrite execute_snd.
    destruct (counter_execute_from pipe true b1 "urls_found" Hcf1) as (_ & H2).
    rewrite H2. subst pipe. rewrite explorer_pipe_incrs. cbn.
    rewrite (proj1 (counter_strings b0 b1 "urls_found" Hs1)). reflexivity. }
  assert (Redis.xrange b3 "results_stream" = Redis.xrange (Proc.db w) "results_stream")
    as Hx3.
  { subst b3. unfold Redis.xrange. rewrite execute_snd.
    rewrite xrange_execute_from by apply explorer_pipe_no_xadd. now rewrite Hx1. }
  destruct (extract_title_total html_parser container_markup html) as [title Ht].
  match type of Hrun1 with
  | _ = (_, ?w1, _) =>
      pose proof (extractor_iteration_item html_parser container_markup worker_id envs'
                    w1 [] _ (Json.Str s) html s title
                    Hq3 (exploit_item_fields _ _) eq_refl Ht Hcx3 Hc') as Hrun2
  end.
  cbv zeta in Hrun2. cbn [Proc.db Proc.trace] in Hrun2.
  eexists _, _, rest1, _, _, _, title.
  split; [exact Hrun1|]. split; [exact Hrun2|]. split; [exact Ht|].
  cbn [Proc.db]. repeat split.
  - unfold Redis.xrange at 1. cbn [Redis.streams Redis.set Redis.xadd].
    rewrite lookup_insert_eq. cbn [default].
    change (Redis.xrange (Redis.set_list "exploit_queue" [] b3) "results_stream")
      with (Redis.xrange b3 "results_stream").
    rewrite Hx3. reflexivity.
  - change (Redis.llist (Redis.set ?k ?v ?b) "exploit_queue")
      with (Redis.llist b "exploit_queue").
    change (Redis.llist (Redis.xadd ?k ?f ?b) "exploit_queue")
      with (Redis.llist b "exploit_queue").
    rewrite llist_set_list. now rewrite decide_True.
  - rewrite counter_set, decide_False by discriminate.
    change (Redis.counter (Redis.xadd ?k ?f ?b) "urls_found")
      with (Redis.counter b "urls_found").
    change (Redis.counter (Redis.set_list ?k ?l ?b) "urls_found")
      with (Redis.counter b "urls_found").
    exact Hvf3.
  - rewrite counter_set, decide_True by reflexivity.
    change (Redis.counter (Redis.set_list ?k ?l ?b) "urls_extracted")
      with (Redis.counter b "urls_extracted").
    now rewrite Hvx3.
Qed.

(** The theorem on the root URL after a reset, the request answered with
    the home page. *)
Lemma page_flows_from_explorer_to_results_witness :
  exists w1 w2 flow1 flow2 rest1 rest2,
    Proc.run (Explorer.iteration Urllib.urlparse Sample.urljoin Sample.html_parser
                Sample.container_markup)
      [Proc.calm; Proc.calm; Sample.served Sample.home_response]
      {| Proc.db := Redis.lpush "explored_queue"
                      (Control.initial_item "https://example.test/") Sample.reset;
         Proc.trace := [] |}
    = (Ok flow1, w1, rest1) /\
    Proc.run (Extractor.iteration Sample.html_parser Sample.container_markup 7) [] w1
    = (Ok flow2, w2, rest2) /\
    Redis.xrange (Proc.db w2) "results_stream"
    = [[("url", "https://example.test/"); ("title", "Home"); ("timestamp", "0");
        ("worker_id", "7")]].
Proof.
  destruct (page_flows_from_explorer_to_results Urllib.urlparse Sample.urljoin
              Sample.html_parser Sample.container_markup 7
              [Proc.calm; Proc.calm; Sample.served Sample.home_response] []
              {| Proc.db := Redis.lpush "explored_queue"
                              (Control.initial_item "https://example.test/") Sample.reset;
                 Proc.trace := [] |}
              [] (Control.initial_item "https://example.test/")
              (Json.Obj [("url", Json.Str "https://example.test/"); ("html", Json.Null)])
              "https://example.test/" (Json.Str Sample.home_html)
              ["https://example.test/a"])
    as (flow1 & w1 & rest1 & flow2 & w2 & rest2 & title & H1 & H2 & Ht & Hx & _);
    try reflexivity.
  - by_decide.
  - repeat constructor.
  - constructor.
  - exists w1, w2, flow1, flow2, rest1, rest2. split; [exact H1|]. split; [exact H2|].
    rewrite Hx. vm_compute in Ht. injection Ht as <-. reflexivity.
Defined.

(** ** The front-end threads *)

Section WebLemmas.
Import Web Front.

Lemma bind_ok {A B} (m : M A) (f : A -> M B) (envs rest : list env) (st st' : app) (a : A) :
  m envs st = (Ok a, st', rest) -> bind m f envs st = f a rest st'.
Proof. intros H. unfold bind. now rewrite H. Qed.

Lemma bind_raise {A B} (m : M A) (f : A -> M B) (envs rest : list env) (st st' : app)
    (e : exn) :
  m envs st = (Raise e, st', rest) -> bind m f envs st = (Raise e, st', rest).
Proof. intros H. unfold bind. now rewrite H. Qed.

Lemma try_bind_ok {A B} (m : M A) (f : A -> M B) (cl : list (exn_class * (exn -> M B)))
    (envs rest : list env) (st st' : app) (a : A) :
  m envs st = (Ok a, st', rest) ->
  try_except (bind m f) cl envs st = try_except (f a) cl rest st'.
Proof. intros H. unfold try_except, bind. now rewrite H. Qed.

(** A call on the broker raises only exceptions. *)
Lemma redis_raises {X} (c : Proc.cmd X) (envs rest : list env) (st st' : app) (e : exn) :
  redis c envs st = (Raise e, st', rest) -> exists x, e = Exc x.
Proof.
  unfold redis.
  destruct (Proc.exec c (outside (hd quiet envs)) (site (meddle (hd quiet envs) st)))
    as [[x|e0] w'] eqn:E; intros [= <- <- <-].
  eapply exec_raises; eassumption.
Qed.

(** A served call. *)
Lemma redis_up {X} (c : Proc.cmd X) (envs : list env) (st : app) (x : X)
    (b' : Redis.broker) (evs : list Proc.event) :
  Proc.redis (outside (hd quiet envs)) = Proc.Up ->
  Proc.serve c (Proc.db (site (meddle (hd quiet envs) st))) = Some (Ok x, b', evs) ->
  redis c envs st =
  (Ok x,
   {| scraper_running := scraper_running (meddle (hd quiet envs) st);
      site := {| Proc.db := b';
                 Proc.trace := evs ++ Proc.trace (site (meddle (hd quiet envs) st)) |};
      emitted := emitted (meddle (hd quiet envs) st) |},
   tl envs).
Proof.
  intros Hup Hs. unfold redis.
  now rewrite (exec_up c _ _ (Ok x) b' evs Hup Hs).
Qed.

Lemma redis_down {X} (c : Proc.cmd X) (envs : list env) (st : app) :
  Proc.redis (outside (hd quiet envs)) = Proc.Down ->
  Proc.serve c (Proc.db (site (meddle (hd quiet envs) st))) <> None ->
  redis c envs st = (Raise ConnectionError, meddle (hd quiet envs) st, tl envs).
Proof.
  intros Hd Hs. unfold redis. rewrite exec_down by assumption.
  now destruct (meddle (hd quiet envs) st).
Qed.

End WebLemmas.

(** X21: [stop_scraper] of app.py never raises.  With the broker
    answering and the emit going through it sets [stop_signal] to ['1'],
    clears [scraper_running], publishes one stop command, emits
    [scraper_stopped] and answers success.  When the broker cannot be
    reached at the first call it answers with the error and status 500
    and nothing is changed: the flag is not raised, [scraper_running]
    keeps its value and nothing is published. *)
Theorem stop_scraper_outcomes
    (str_of_exn : exn -> string) (envs : list Web.env) (st : Web.app) :
  (exists response st' rest,
      AppThreads.stop_scraper str_of_exn envs st = (Ok response, st', rest)) /\
  (Proc.redis (Web.outside (hd Web.quiet envs)) = Proc.Up ->
   Proc.redis (Web.outside (hd Web.quiet (tl envs))) = Proc.Up ->
   Web.meddling (hd Web.quiet (tl envs)) = None ->
   Web.meddling (hd Web.quiet (tl (tl envs))) = None ->
   Web.emit_fault (hd Web.quiet (tl (tl envs))) = None ->
   exists st',
     AppThreads.stop_scraper str_of_exn envs st
     = (Ok (Json.Obj [("success", Json.Bool true);
                      ("message", Json.Str "Stop signal sent")], 200),
        st', tl (tl (tl envs))) /\
     Web.scraper_running st' = false /\
     Redis.get (Proc.db (Web.site st')) "stop_signal" = Some "1" /\
     Redis.published (Proc.db (Web.site st'))
     = ("scraper_control", Control.stop_command)
       :: Redis.published (Proc.db (Web.site st)) /\
     Web.emitted st'
     = ("scraper_stopped", Json.Obj [("message", Json.Str "Stop signal sent")])
       :: Web.emitted st) /\
  (Proc.redis (Web.outside (hd Web.quiet envs)) = Proc.Down ->
   AppThreads.stop_scraper str_of_exn envs st
   = (Ok (Json.Obj [("error", Json.Str (str_of_exn ConnectionError))], 500),
      Web.meddle (hd Web.quiet envs) st, tl envs)).
Proof.
  split; [|split].
  - unfold AppThreads.stop_scraper, Web.try_except.
    unfold Web.bind at 1.
    destruct (Web.redis (Proc.set "stop_signal" (Redis.SStr "1")) envs st)
      as [[[[]|e] st1] rest1] eqn:E1.
    + unfold Web.bind at 1. cbn [Web.set_running].
      unfold Web.bind at 1.
      destruct (Web.redis (Proc.publish "scraper_control" Control.stop_command) rest1 _)
        as [[[[]|e] st2] rest2] eqn:E2.
      * unfold Web.bind at 1. unfold Web.emit.
        destruct (Web.emit_fault (hd Web.quiet rest2)) as [x|]; cbn;
          eexists _, _, _; reflexivity.
      * destruct (redis_raises _ _ _ _ _ _ E2) as [x ->]. cbn.
        eexists _, _, _; reflexivity.
    + destruct (redis_raises _ _ _ _ _ _ E1) as [x ->]. cbn.
      eexists _, _, _; reflexivity.
  - intros Hup0 Hup1 Hm1 Hm2 Hf2.
    unfold AppThreads.stop_scraper.
    erewrite try_bind_ok; [|apply redis_up; [exact Hup0|reflexivity]].
    erewrite try_bind_ok; [|reflexivity].
    erewrite try_bind_ok; [|apply redis_up; [exact Hup1|reflexivity]].
    unfold Web.try_except, Web.bind, Web.emit, Web.meddle. cbn [Web.emitted Web.site
      Web.scraper_running]. rewrite Hm1, Hm2, Hf2. cbn.
    eexists. split; [reflexivity|]. cbn.
    split; [reflexivity|].
    split; [|split; destruct (Web.meddling (hd Web.quiet envs)); reflexivity].
    unfold Redis.get. cbn. now rewrite lookup_insert_eq.
  - intros Hdown. unfold AppThreads.stop_scraper, Web.try_except.
    erewrite bind_raise; [|apply redis_down; [exact Hdown|discriminate]].
    reflexivity.
Qed.

(** The theorem while a job runs, and with the broker out of reach. *)
Lemma stop_scraper_outcomes_witness :
  (exists st',
      AppThreads.stop_scraper (fun _ => "unreachable") [] WebSample.started
      = (Ok (Json.Obj [("success", Json.Bool true);
                       ("message", Json.Str "Stop signal sent")], 200), st', []) /\
      Web.scraper_running st' = false /\
      Redis.get (Proc.db (Web.site st')) "stop_signal" = Some "1") /\
  AppThreads.stop_scraper (fun _ => "unreachable") [WebSample.offline] WebSample.started
  = (Ok (Json.Obj [("error", Json.Str "unreachable")], 500), WebSample.started, []).
Proof.
  split.
  - destruct (proj1 (proj2 (stop_scraper_outcomes (fun _ => "unreachable") []
                              WebSample.started)))
      as (st' & Hrun & Hflag & Hget & _); try reflexivity.
    exists st'. auto.
  - apply (proj2 (proj2 (stop_scraper_outcomes (fun _ => "unreachable")
                           [WebSample.offline] WebSample.started))).
    reflexivity.
Defined.

Section Monitor.
Import Web Front.

Variable float_of_str : string -> lib Z.
Variable int_of_str : string -> lib Z.

Lemma steady_hd (envs : list env) :
  steady envs ->
  Proc.redis (outside (hd quiet envs)) = Proc.Up /\ meddling (hd quiet envs) = None.
Proof. intros H. destruct envs; [split; reflexivity|]. now inversion H. Qed.

Lemma steady_tl (envs : list env) : steady envs -> steady (tl envs).
Proof. intros H. destruct envs; [assumption|]. now inversion H. Qed.

Lemma meddle_steady (envs : list env) (st : app) :
  steady envs -> meddle (hd quiet envs) st = st.
Proof. intros H. unfold meddle. now rewrite (proj2 (steady_hd envs H)). Qed.

Lemma app_eta (st : app) :
  {| scraper_running := scraper_running st;
     site := {| Proc.db := Proc.db (site st); Proc.trace := Proc.trace (site st) |};
     emitted := emitted st |} = st.
Proof. destruct st as [f [b t] e]. reflexivity. Qed.

(** A command that changes nothing, in a steady run. *)
Lemma redis_time (envs : list env) (st : app) :
  steady envs -> redis Proc.time envs st = (Ok (clock_at 0 envs), st, tl envs).
Proof.
  intros H. unfold redis. rewrite (meddle_steady envs st H).
  cbn [Proc.exec Proc.serve Proc.local List.app]. now rewrite app_eta.
Qed.

Lemma redis_sleep (envs : list env) (st : app) (seconds : Z) :
  steady envs -> redis (Proc.sleep seconds) envs st = (Ok tt, st, tl envs).
Proof.
  intros H. unfold redis. rewrite (meddle_steady envs st H).
  cbn [Proc.exec Proc.serve Proc.local List.app]. now rewrite app_eta.
Qed.

Lemma redis_get (key : string) (envs : list env) (st : app) :
  steady envs ->
  redis (Proc.get key) envs st = (Ok (Redis.get (Proc.db (site st)) key), st, tl envs).
Proof.
  intros H. unfold redis. rewrite (meddle_steady envs st H).
  rewrite exec_get_up by apply (steady_hd envs H). now destruct st.
Qed.

Lemma redis_set (key : string) (v : Redis.sval) (envs : list env) (st : app) :
  steady envs ->
  redis (Proc.set key v) envs st =
  (Ok tt,
   {| scraper_running := scraper_running st;
      site := {| Proc.db := Redis.set key v (Proc.db (site st));
                 Proc.trace := Proc.trace (site st) |};
      emitted := emitted st |},
   tl envs).
Proof.
  intros H. rewrite (redis_up (Proc.set key v) envs st tt
                       (Redis.set key v (Proc.db (site (meddle (hd quiet envs) st)))) []).
  - now rewrite (meddle_steady envs st H).
  - apply (steady_hd envs H).
  - reflexivity.
Qed.

Lemma clock_at_tl (i : nat) (envs : list env) :
  clock_at i (tl envs) = clock_at (S i) envs.
Proof. unfold clock_at. now rewrite drop_tl. Qed.

(** The loop of the monitor: nothing but clock readings and sleeps until
    the first poll at which the time is up. *)
Lemma monitor_loop_deadline (finish : M unit) (start_time duration : Z) (k : nat) :
  forall (polls : nat) (envs : list env) (st : app),
    (k < polls)%nat ->
    scraper_running st = true ->
    steady envs ->
    (forall i, (i < k)%nat -> clock_at (2 * i) envs - start_time < duration) ->
    duration <= clock_at (2 * k) envs - start_time ->
    monitor_loop finish start_time duration polls envs st
    = (finish ;;; ret Stopped)%web (drop (2 * k + 2) envs) (stopped st).
Proof.
  induction k as [|k IH]; intros polls envs st Hk Hrun Hs Hbefore Hnow;
    (destruct polls as [|polls]; [lia|]); cbn [monitor_loop].
  - unfold bind at 1. cbn [running]. rewrite Hrun. cbn [negb].
    erewrite bind_ok; [|now apply redis_time].
    change (2 * 0)%nat with O in Hnow.
    destruct (Z.leb_spec (Z.max 0 (duration - (clock_at 0 envs - start_time))) 0) as [_|H];
      [|lia].
    erewrite bind_ok; [|now apply redis_set, steady_tl].
    erewrite bind_ok; [|reflexivity].
    cbn [Nat.mul Nat.add]. rewrite !drop_S_tl, drop_0. unfold stopped. rewrite Hrun.
    reflexivity.
  - unfold bind at 1. cbn [running]. rewrite Hrun. cbn [negb].
    erewrite bind_ok; [|now apply redis_time].
    pose proof (Hbefore O ltac:(lia)) as H0. change (2 * 0)%nat with O in H0.
    destruct (Z.leb_spec (Z.max 0 (duration - (clock_at 0 envs - start_time))) 0) as [H|_];
      [lia|].
    erewrite bind_ok; [|now apply redis_sleep, steady_tl].
    rewrite (IH polls (tl (tl envs)) st); try assumption.
    + replace (2 * S k + 2)%nat with (S (S (2 * k + 2))) by lia.
      now rewrite <- !drop_tl.
    + lia.
    + now apply steady_tl, steady_tl.
    + intros i Hi. rewrite !clock_at_tl.
      replace (S (S (2 * i))) with (2 * S i)%nat by lia. apply Hbefore. lia.
    + rewrite !clock_at_tl. replace (S (S (2 * k))) with (2 * S k)%nat by lia. exact Hnow.
Qed.

(** Reading the start time and the duration a reset and a seed left. *)
Lemma monitor_deadline (default : option Z) (finish : M unit) (k polls : nat)
    (envs : list env) (st : app) (ts td : string) (start_time duration : Z) :
  steady envs ->
  scraper_running st = true ->
  Redis.get (Proc.db (site st)) "start_time" = Some ts -> ts <> EmptyString ->
  float_of_str ts = Returns start_time ->
  Redis.get (Proc.db (site st)) "duration" = Some td -> td <> EmptyString ->
  int_of_str td = Returns duration ->
  (k < polls)%nat ->
  (forall i, (i < k)%nat -> clock_at (2 + 2 * i) envs - start_time < duration) ->
  duration <= clock_at (2 + 2 * k) envs - start_time ->
  monitor float_of_str int_of_str default finish polls envs st
  = try_except (finish ;;; ret Stopped)%web
      [(Exception_, fun _ => set_running false ;;; ret Stopped)%web]
      (drop (2 * k + 4) envs) (stopped st).
Proof.
  intros Hs Hrun Hts Hne1 Hf Htd Hne2 Hi Hk Hbefore Hnow.
  unfold monitor, read_start_time, read_duration.
  apply truthy_spec in Hne1. apply truthy_spec in Hne2.
  unfold try_except.
  erewrite bind_ok.
  2:{ erewrite bind_ok; [|now apply redis_get]. rewrite Hts. unfold present.
      rewrite Hne1, Hf. reflexivity. }
  erewrite bind_ok.
  2:{ erewrite bind_ok; [|now apply redis_get, steady_tl]. rewrite Htd.
      unfold present. rewrite Hne2, Hi.
      instantiate (1 := tl (tl envs)). instantiate (1 := st). instantiate (1 := duration).
      destruct default; reflexivity. }
  rewrite (monitor_loop_deadline finish start_time duration k polls (tl (tl envs)) st);
    try assumption.
  - replace (2 * k + 4)%nat with (S (S (2 * k + 2))) by lia.
    now rewrite <- !drop_tl.
  - now apply steady_tl, steady_tl.
  - intros i Hlt. rewrite !clock_at_tl. apply Hbefore. exact Hlt.
  - rewrite !clock_at_tl. exact Hnow.
Qed.

End Monitor.

(** X22: the monitor thread of both front ends, with the broker
    answering, the start time and the duration in the keyspace and no
    other thread touching [scraper_running]: it polls the clock once a
    second and writes nothing as long as the time read minus the start
    time is below the duration; at the first poll where it is not, it
    sets [stop_signal] to ['1'], clears [scraper_running] and goes on to
    collect the results (and, in app.py, to emit them), any exception of
    which is absorbed by its handler. *)
Theorem monitor_raises_stop_at_deadline
    (float_of_str int_of_str : string -> lib Z) (collect_results : Web.M Json.value)
    (k polls : nat) (envs : list Web.env) (st : Web.app)
    (ts td : string) (start_time duration : Z) :
  Web.steady envs ->
  Web.scraper_running st = true ->
  Redis.get (Proc.db (Web.site st)) "start_time" = Some ts -> ts <> EmptyString ->
  float_of_str ts = Returns start_time ->
  Redis.get (Proc.db (Web.site st)) "duration" = Some td -> td <> EmptyString ->
  int_of_str td = Returns duration ->
  (k < polls)%nat ->
  (forall i, (i < k)%nat -> Web.clock_at (2 + 2 * i) envs - start_time < duration) ->
  duration <= Web.clock_at (2 + 2 * k) envs - start_time ->
  ScraperThreads.monitor_scraper float_of_str int_of_str collect_results polls envs st
  = Web.try_except
      ((collect_results ;;; Web.ret tt) ;;; Web.ret Front.Stopped)%web
      [(Exception_, fun _ => Web.set_running false ;;; Web.ret Front.Stopped)%web]
      (drop (2 * k + 4) envs) (Front.stopped st) /\
  AppThreads.monitor_scraper float_of_str int_of_str collect_results polls envs st
  = Web.try_except
      ((results_data <- collect_results ;; Web.emit "scraper_completed" results_data) ;;;
       Web.ret Front.Stopped)%web
      [(Exception_, fun _ => Web.set_running false ;;; Web.ret Front.Stopped)%web]
      (drop (2 * k + 4) envs) (Front.stopped st).
Proof.
  intros Hs Hrun Hts Hne1 Hf Htd Hne2 Hi Hk Hbefore Hnow.
  split.
  - unfold ScraperThreads.monitor_scraper.
    now apply (monitor_deadline float_of_str int_of_str None _ k polls envs st ts td
                 start_time duration).
  - unfold AppThreads.monitor_scraper.
    now apply (monitor_deadline float_of_str int_of_str (Some 60) _ k polls envs st ts td
                 start_time duration).
Qed.

(** The theorem on a job of one minute started at time 100: the clock
    shows 130 at the first poll and 161 at the second. *)
Lemma monitor_raises_stop_at_deadline_witness :
  exists st',
    ScraperThreads.monitor_scraper NodeSample.int_of_str NodeSample.int_of_str
      WebSample.collect_results 5
      [WebSample.at_time 100; WebSample.at_time 100; WebSample.at_time 130;
       WebSample.at_time 131; WebSample.at_time 161; WebSample.at_time 161;
       WebSample.at_time 162]
      WebSample.started
    = (Ok Front.Stopped, st', []) /\
    Web.scraper_running st' = false /\
    Redis.get (Proc.db (Web.site st')) "stop_signal" = Some "1".
Proof.
  destruct (monitor_raises_stop_at_deadline NodeSample.int_of_str NodeSample.int_of_str
              WebSample.collect_results 1 5
              [WebSample.at_time 100; WebSample.at_time 100; WebSample.at_time 130;
               WebSample.at_time 131; WebSample.at_time 161; WebSample.at_time 161;
               WebSample.at_time 162]
              WebSample.started "100" "60" 100 60) as [Hcli _];
    try reflexivity; try discriminate; try lia.
  - repeat constructor.
  - intros i Hi. replace i with O by lia. reflexivity.
  - rewrite Hcli. eexists. split; [reflexivity|]. split; reflexivity.
Defined.

(** ** No more exploit items than visited URLs *)

Section OwedExec.
Import Proc Worker System Owed.

Lemma covered_weaken (w : world) (owed owed' : nat) :
  (owed' <= owed)%nat -> covered w owed -> covered w owed'.
Proof. unfold covered. lia. Qed.

(** Events that are neither pushes onto the exploit queue nor additions. *)
Lemma covered_quiet (w : world) (b' : Redis.broker) (evs : list event) (owed : nat) :
  enqueued "exploit_queue" evs = O ->
  covered w owed -> covered {| db := b'; trace := evs ++ trace w |} owed.
Proof.
  unfold covered. cbn [trace]. intros He H.
  rewrite enqueued_app, additions_app, length_app, He. lia.
Qed.

Lemma covered_same (w : world) (owed : nat) :
  covered w owed -> covered {| db := db w; trace := trace w |} owed.
Proof. intros H. exact H. Qed.

Lemma additions_added (key member : string) (t : list event) :
  additions "visited_urls" (added key member :: t) =
  if String.eqb key "visited_urls" then member :: additions "visited_urls" t
  else additions "visited_urls" t.
Proof. unfold additions. simpl. now destruct (String.eqb key "visited_urls"). Qed.

Lemma enqueued_added (key' key member : string) (t : list event) :
  enqueued key' (added key member :: t) = enqueued key' t.
Proof. reflexivity. Qed.

(** A command that is allowed keeps the items pushed and owed covered. *)
Lemma exec_covered {X} (c : cmd X) (ev : env) (w w' : world) (r : result X)
    (owed rest : nat) :
  allowed owed c -> exec c ev w = (r, w') ->
  covered w (owed + rest) -> covered w' (after owed c r + rest).
Proof.
  intros Hal Hex Hc. unfold exec in Hex.
  destruct c; cbn [serve local] in Hex; cbn [after];
    try (destruct (redis ev); injection Hex as <- <-;
         unfold covered in *; cbn [trace app] in *; exact Hc).
  - (* lpush *)
    cbn [allowed] in Hal.
    assert (enqueued "exploit_queue" [pushed key payload] = O) as Hq.
    { unfold enqueued. cbn [List.filter].
      destruct (String.eqb_spec key "exploit_queue"); [contradiction|reflexivity]. }
    destruct (redis ev); injection Hex as <- <-;
      try assumption;
      now apply (covered_quiet w _ [pushed key payload]).
  - (* brpop *)
    destruct (Redis.brpop key (db w)) as [res b'].
    destruct (redis ev); injection Hex as <- <-;
      unfold covered in *; cbn [trace app] in *; exact Hc.
  - (* sadd *)
    pose proof (sadd_result key member (db w)) as Hres.
    destruct (Redis.sadd key member (db w)) as [n b'] eqn:Es. cbn [fst snd] in Hres.
    destruct Hres as [(-> & _ & _)|(-> & _)]; cbn [Z.eqb negb andb Pos.eqb] in *.
    + destruct (redis ev); injection Hex as <- <-;
        unfold covered in *; cbn [trace app] in *; exact Hc.
    + destruct (redis ev); injection Hex as <- <-;
        unfold covered in *; cbn [trace app] in *;
        rewrite ?additions_added, ?enqueued_added;
        destruct (String.eqb key "visited_urls"); cbn [length];
        change (negb (1 =? 0)) with true; cbn [andb]; lia.
  - (* execute *)
    cbn [allowed] in Hal.
    destruct (Redis.execute pipe (db w)) as [res b'].
    destruct (redis ev); injection Hex as <- <-;
      unfold covered in *; cbn [trace] in *;
      rewrite ?enqueued_app, ?additions_app, ?length_app, ?enqueued_pushes, ?additions_pushes;
      cbn [app length]; lia.
Qed.

End OwedExec.

(** ** The workers settle what they owe *)

Section OwedSafety.
Import Proc Worker Owed.

Lemma owed_bind_any {A B} (owed : nat) (p : prog A) (f : A -> prog B) :
  safe owed p -> (forall owed' a, safe owed' (f a)) -> safe owed (bind p f).
Proof.
  intros Hp Hf. induction Hp as [g a|g e|g X c k Hal Hk IH]; simpl.
  - apply Hf.
  - constructor.
  - constructor; [assumption|]. intros r. apply IH.
Qed.

Lemma owed_try_any {A} (owed : nat) (p : prog A) (cl : list (exn_class * (exn -> prog A))) :
  safe owed p -> (forall owed' e, safe owed' (handle cl e)) -> safe owed (try_except p cl).
Proof.
  intros Hp Hh. induction Hp as [g a|g e|g X c k Hal Hk IH]; simpl.
  - constructor.
  - apply Hh.
  - constructor; [assumption|]. intros r. apply IH.
Qed.

Lemma owed_lift_bind {A B} (owed : nat) (r : result A) (f : A -> prog B) :
  (forall a, r = Ok a -> safe owed (f a)) -> safe owed (bind (lift r) f).
Proof. intros H. destruct r as [a|e]; simpl; [now apply H|constructor]. Qed.

Lemma owed_call_bind {X B} (owed : nat) (c : cmd X) (f : X -> prog B) :
  allowed owed c -> (forall x, safe (after owed c (Ok x)) (f x)) ->
  safe owed (bind (call c) f).
Proof.
  intros Hal Hf. unfold call. simpl. constructor; [assumption|].
  intros [x|e]; simpl; [apply Hf|constructor].
Qed.

(** A program that only reads changes nothing to what is owed. *)
Lemma owed_bind_reads {A B} (owed : nat) (p : prog A) (f : A -> prog B) :
  reads_only p -> (forall a, safe owed (f a)) -> safe owed (bind p f).
Proof.
  intros Hp Hf. induction Hp as [a|e|X c k Hc Hk IH]; simpl.
  - apply Hf.
  - constructor.
  - destruct c; try contradiction; (constructor; [exact I|]); intros r; apply IH.
Qed.

Lemma reads_bind {A B} (p : prog A) (f : A -> prog B) :
  reads_only p -> (forall a, reads_only (f a)) -> reads_only (bind p f).
Proof.
  intros Hp Hf. induction Hp as [a|e|X c k Hc Hk IH]; simpl.
  - apply Hf.
  - constructor.
  - constructor; [assumption|]. intros r. apply IH.
Qed.

Lemma reads_try {A} (p : prog A) (cl : list (exn_class * (exn -> prog A))) :
  reads_only p -> (forall e, reads_only (handle cl e)) -> reads_only (try_except p cl).
Proof.
  intros Hp Hh. induction Hp as [a|e|X c k Hc Hk IH]; simpl.
  - constructor.
  - apply Hh.
  - constructor; [assumption|]. intros r. apply IH.
Qed.

Lemma reads_lift {A} (r : result A) : reads_only (lift r).
Proof. destruct r; constructor. Qed.

Variable urlparse : string -> lib Urllib.ParseResult.
Variable urljoin : string -> string -> lib string.
Variable html_parser : string -> lib Bs4.soup.
Variable container_markup : Json.value -> lib Bs4.soup.

Lemma explore_url_reads (url : Json.value) :
  reads_only (Explorer.explore_url urlparse urljoin html_parser container_markup url).
Proof.
  unfold Explorer.explore_url. apply reads_try.
  - unfold Explorer.fetch_and_parse. apply reads_bind.
    + destruct url; try constructor.
      * exact I.
      * intros r. apply reads_lift.
    + intros response. apply reads_bind; [apply reads_lift|]. intros _.
      apply reads_bind; [apply reads_lift|]. intros soup.
      apply reads_bind; [apply reads_lift|]. intros links. constructor.
  - intros e. cbn [handle].
    destruct (isinstance e requests_RequestException); [constructor|].
    destruct (isinstance e Exception_); constructor.
Qed.

Lemma owed_queue_links {B} (owed : nat) (links : list string) :
  forall (pipe : list Redis.pipe_cmd) (f : list Redis.pipe_cmd -> prog B),
    (forall pipe', Discipline.frontier_only pipe' -> safe owed (f pipe')) ->
    Discipline.frontier_only pipe ->
    safe owed (bind (Explorer.queue_links links pipe) f).
Proof.
  induction links as [|link rest IH]; intros pipe f Hf Hp.
  - simpl. now apply Hf.
  - rewrite queue_links_cons. simpl. constructor; [exact I|].
    intros [seen|e]; simpl; [|constructor].
    destruct seen.
    + apply IH; assumption.
    + apply IH; [assumption|]. now apply frontier_only_snoc.
Qed.

Lemma explorer_iteration_owed :
  safe 0 (Explorer.iteration urlparse urljoin html_parser container_markup).
Proof.
  unfold Explorer.iteration. apply owed_call_bind; [exact I|].
  intros [[queue_name item_json]|]; [|constructor].
  apply owed_lift_bind. intros item _.
  apply owed_lift_bind. intros url _.
  apply owed_lift_bind. intros member He.
  apply owed_call_bind; [exact I|]. intros n.
  destruct (n =? 0) eqn:Hn; [constructor|].
  cbn [after]. rewrite Hn. simpl.
  apply owed_bind_reads; [apply explore_url_reads|].
  intros [html new_links].
  apply owed_queue_links; [|apply frontier_only_nil].
  intros pipe (Hp & Hi).
  apply owed_call_bind.
  - cbn [allowed]. rewrite pushed_to_app, Hp. simpl. lia.
  - intros ?. apply owed_call_bind; [exact I|]. intros stop.
    destruct (bool_decide _); constructor.
Qed.

Lemma explorer_owed :
  code_safe (Explorer.explorer_worker urlparse urljoin html_parser container_markup).
Proof.
  split; [|apply explorer_iteration_owed].
  simpl. unfold Explorer.startup. apply owed_call_bind; [exact I|]. intros root_url.
  apply owed_try_any.
  - apply owed_call_bind; [exact I|]. intros ?. constructor.
  - intros g' e. cbn [handle]. destruct (isinstance e redis_ConnectionError); constructor.
Qed.

Lemma extractor_iteration_owed (worker_id : Z) :
  safe 0 (Extractor.iteration html_parser container_markup worker_id).
Proof.
  unfold Extractor.iteration. apply owed_bind_any.
  - apply owed_try_any.
    + unfold Extractor.pop_and_extract. apply owed_call_bind; [exact I|].
      intros [[queue_name item_json]|]; [|constructor].
      apply owed_lift_bind. intros item _.
      apply owed_lift_bind. intros url _.
      apply owed_lift_bind. intros html _.
      apply owed_lift_bind. intros title _.
      apply owed_call_bind; [exact I|]. intros now.
      apply owed_lift_bind. intros fields _.
      apply owed_call_bind.
      * cbn [allowed]. simpl. lia.
      * intros ?. constructor.
    + intros g' e. cbn [handle].
      destruct (isinstance e redis_ConnectionError).
      { apply owed_call_bind; [exact I|]. intros ?. constructor. }
      destruct (isinstance e json_JSONDecodeError); [constructor|].
      destruct (isinstance e Exception_); constructor.
  - intros g' [| |]; [constructor|constructor|].
    apply owed_call_bind; [exact I|]. intros stop.
    destruct (bool_decide _); constructor.
Qed.

Lemma extractor_owed (worker_id : Z) :
  code_safe (Extractor.extractor_worker html_parser container_markup worker_id).
Proof.
  split; [|apply extractor_iteration_owed].
  simpl. unfold Extractor.startup. apply owed_try_any.
  - apply owed_call_bind; [exact I|]. intros ?. constructor.
  - intros g' e. cbn [handle]. destruct (isinstance e redis_ConnectionError); constructor.
Qed.

End OwedSafety.
(** ** The debts of a running job *)

Section OwedSystem.
Import Proc Worker System Owed.

Lemma owed_safe_inv {A} (owed : nat) (p : prog A) :
  safe owed p ->
  match p with
  | Do c k => allowed owed c /\ forall r, safe (after owed c r) (k r)
  | _ => True
  end.
Proof. intros H. destruct H; auto. Qed.

Lemma sum_list_at (debts : list nat) (i : nat) (owed : nat) :
  debts !! i = Some owed ->
  exists rest, forall owed', sum_list (<[i := owed']> debts) = (owed' + rest)%nat.
Proof.
  intros Hi. exists (sum_list (take i debts) + sum_list (drop (S i) debts))%nat.
  intros owed'. rewrite insert_take_drop by (eapply lookup_lt_Some; eassumption).
  rewrite sum_list_with_app. simpl. unfold id. lia.
Qed.

Local Abbreviation ok := (fun (owed : nat) (cp : code * proc) =>
                            code_safe (fst cp) /\ proc_safe owed (snd cp)).

(** A step that runs no command: what the worker owed is written off. *)
Lemma owed_settle (s : state) (debts : list nat) (i : nat) (c : code) (p' : proc) :
  Forall2 ok debts (procs s) -> covered (world_ s) (sum_list debts) ->
  code_safe c -> proc_safe 0 p' ->
  invariant {| world_ := world_ s; procs := <[i := (c, p')]> (procs s) |}.
Proof.
  intros Hall HP Hc Hp. exists (<[i := O]> debts). split.
  - apply Forall2_insert; [assumption|]. split; assumption.
  - cbn [world_]. destruct (debts !! i) as [owed|] eqn:Hi.
    + destruct (sum_list_at debts i owed Hi) as (rest & Hrest).
      rewrite Hrest. apply (covered_weaken (world_ s) (sum_list debts)); [|assumption].
      rewrite <- (list_insert_id debts i owed Hi), Hrest. lia.
    + rewrite list_insert_ge; [assumption|]. now apply lookup_ge_None.
Qed.

Lemma owed_command (s : state) (debts : list nat) (i : nat) (c : code) (owed : nat)
    {X A} (cm : cmd X) (k : result X -> prog A) (ev : env) (r : result X) (w' : world)
    (p' : proc) :
  Forall2 ok debts (procs s) -> covered (world_ s) (sum_list debts) ->
  debts !! i = Some owed -> code_safe c ->
  safe owed (Do cm k) -> exec cm ev (world_ s) = (r, w') ->
  (safe (after owed cm r) (k r) -> proc_safe (after owed cm r) p') ->
  invariant {| world_ := w'; procs := <[i := (c, p')]> (procs s) |}.
Proof.
  intros Hall HP Hi Hc Hsafe Hex Hp'.
  apply owed_safe_inv in Hsafe as (Hal & Hk).
  exists (<[i := after owed cm r]> debts). split.
  - apply Forall2_insert; [assumption|]. split; [assumption|]. apply Hp', Hk.
  - cbn [world_]. destruct (sum_list_at debts i owed Hi) as (rest & Hrest).
    rewrite Hrest. apply (exec_covered cm ev (world_ s) w' r owed rest Hal Hex).
    rewrite <- (Hrest owed), (list_insert_id debts i owed Hi). assumption.
Qed.

Lemma owed_step (s : state) (i : nat) (ev : env) :
  invariant s -> invariant (act (proc_step i ev) s).
Proof.
  intros (debts & Hall & HP). unfold act.
  destruct (procs s !! i) as [[c p]|] eqn:Hi; [|exists debts; auto].
  destruct (Forall2_lookup_r _ _ _ _ _ Hall Hi) as (owed & Hg & Hcode & Hsafe).
  cbn [fst snd] in Hcode, Hsafe. unfold proc_safe in Hsafe. unfold step.
  destruct (at_ p) as [sp| |bp| |e] eqn:Hat.
  - destruct sp as [b|e|X cm k].
    + destruct b; apply (owed_settle s debts); auto; exact I.
    + apply (owed_settle s debts); auto; exact I.
    + destruct (exec cm ev (world_ s)) as [r w'] eqn:Hex.
      apply (owed_command s debts i c owed cm k ev r w'); auto.
  - destruct (should_stop p).
    + apply (owed_settle s debts); auto; exact I.
    + apply (owed_settle s debts); auto. exact (proj2 Hcode).
  - destruct bp as [f|e|X cm k].
    + destruct f; apply (owed_settle s debts); auto; exact I.
    + apply (owed_settle s debts); auto; exact I.
    + destruct (exec cm ev (world_ s)) as [r w'] eqn:Hex.
      apply (owed_command s debts i c owed cm k ev r w'); auto.
  - apply (owed_settle s debts); auto. unfold proc_safe. now rewrite Hat.
  - apply (owed_settle s debts); auto. unfold proc_safe. now rewrite Hat.
Qed.

Lemma owed_act (a : action) (s : state) : invariant s -> invariant (act a s).
Proof.
  destruct a as [i ev|i|o].
  - apply owed_step.
  - intros (debts & Hall & HP). unfold act.
    destruct (procs s !! i) as [[c p]|] eqn:Hi; [|exists debts; auto].
    destruct (Forall2_lookup_r _ _ _ _ _ Hall Hi) as (owed & Hg & Hcode & Hsafe).
    exists debts. split; [|assumption].
    rewrite <- (list_insert_id debts i owed Hg).
    apply Forall2_insert; [assumption|]. split; assumption.
  - intros (debts & Hall & HP). exists debts. split; [assumption|]. cbn [act world_].
    destruct (orchestrate_effect o (world_ s)) as (b' & evs & -> & Hq & _ & _ & _ & _ & He).
    unfold covered in *. cbn [trace]. rewrite He.
    etransitivity; [exact HP|]. unfold additions. rewrite omap_app, length_app. lia.
Qed.

Lemma owed_kept (acts : list action) (s : state) :
  invariant s -> invariant (exec_all acts s).
Proof.
  revert s. induction acts as [|a acts IH]; intros s H; [assumption|].
  simpl. apply IH. now apply owed_act.
Qed.

Variable urlparse : string -> lib Urllib.ParseResult.
Variable urljoin : string -> string -> lib string.
Variable html_parser : string -> lib Bs4.soup.
Variable container_markup : Json.value -> lib Bs4.soup.

Lemma job_owed (b : Redis.broker) (explorers : nat) (extractor_ids : list Z)
    (acts : list action) :
  invariant (exec_all acts
               (job urlparse urljoin html_parser container_markup
                    b explorers extractor_ids)).
Proof.
  apply owed_kept. unfold job, init.
  set (codes := repeat _ explorers ++ _).
  assert (Forall code_safe codes) as Hc.
  { apply Forall_app. split.
    - apply Forall_forall. intros c Hc.
      apply list_elem_of_In, repeat_spec in Hc. subst c. apply explorer_owed.
    - apply Forall_forall. intros c Hc.
      apply list_elem_of_In, in_map_iff in Hc as (wid & <- & _). apply extractor_owed. }
  exists (List.map (fun _ => O) codes). split.
  - cbn [procs]. clear -Hc.
    induction Hc as [|c codes Hc _ IH]; simpl; constructor; [|exact IH].
    split; [exact Hc|]. exact (proj1 Hc).
  - unfold covered. cbn [world_ trace]. simpl.
    clear. induction codes as [|c codes IH]; simpl; [lia|exact IH].
Qed.

End OwedSystem.
(** X23: in every state a job started on a reset keyspace can reach,
    with any number of explorer and extractor processes interleaved in
    any order and any answers from the broker and the network,
    [urls_found] is at most the number of members of [visited_urls]. *)
Theorem found_at_most_visited
    (urlparse : string -> lib Urllib.ParseResult)
    (urljoin : string -> string -> lib string)
    (html_parser : string -> lib Bs4.soup)
    (container_markup : Json.value -> lib Bs4.soup)
    (b : Redis.broker) (explorers : nat) (extractor_ids : list Z)
    (acts : list System.action) :
  Discipline.fresh b ->
  let w := System.world_
             (System.exec_all acts
                (System.job urlparse urljoin html_parser container_markup
                   b explorers extractor_ids)) in
  Redis.counter (Proc.db w) "urls_found"
  <= Z.of_nat (size (Redis.smembers (Proc.db w) "visited_urls")).
Proof.
  intros Hfresh w.
  destruct (job_counting urlparse urljoin html_parser container_markup b explorers
              extractor_ids acts Hfresh) as (gs & _ & _ & _ & Hfound & _).
  destruct (job_dedup urlparse urljoin html_parser container_markup b explorers
              extractor_ids acts) as (ls & _ & _ & _ & Hnd & Hin & _).
  destruct (job_owed urlparse urljoin html_parser container_markup b explorers
              extractor_ids acts) as (debts & _ & Hcov).
  fold w in Hfound, Hnd, Hin, Hcov. unfold Owed.covered in Hcov.
  rewrite Hfound.
  assert (length (System.additions "visited_urls" (Proc.trace w))
          <= size (Redis.smembers (Proc.db w) "visited_urls"))%nat as Hsize.
  { rewrite <- (size_list_to_set (C := gset string)) by exact Hnd.
    apply subseteq_size. intros u Hu. apply elem_of_list_to_set in Hu. now apply Hin. }
  lia.
Qed.

(** X23 on a race of two explorers and one extractor after a reset. *)
Lemma found_at_most_visited_witness :
  let w := System.world_
             (System.exec_all Sample.race
                (System.job Urllib.urlparse Sample.urljoin Sample.html_parser
                   Sample.container_markup Sample.reset 2 [7])) in
  Redis.counter (Proc.db w) "urls_found"
  <= Z.of_nat (size (Redis.smembers (Proc.db w) "visited_urls")).
Proof.
  apply (found_at_most_visited Urllib.urlparse Sample.urljoin Sample.html_parser
           Sample.container_markup Sample.reset 2 [7] Sample.race).
  repeat split.
Defined.
